(* ===== verification/_CoqProject ===== *)
-Q . S2P
Prelude.v
GoStd.v
GoJson.v
Sha256.v
Secret.v
AesGcm.v
Calendar.v
Payment.v
Fees.v
State.v
Geth.v
Policy.v
Calldata.v
Signer.v
PolicySigner.v
WalletProof.v
Challenge.v
Verification.v
Schema.v
Work.v
Hoare.v
Store.v
StoreWork.v
StoreRecovery.v
Prog.v
Rpc.v
RpcProps.v
Service.v
Recovery.v
StoreInv.v
StorePaid.v
StoreNonce.v
StoreEvolve.v
StoreRows.v
StoreIntent.v
System.v
SystemLogic.v
SystemCalls.v
SystemSafe.v
SystemRecovery.v
StoreDemo.v
SystemDemo.v
Finality.v
SystemProps.v
VerifyService.v
StoreProps.v
StoreFindings.v
GoNet.v
GoUrl.v
GoDuration.v
Config.v
MerchantSchema.v
Merchant.v
MerchantAdmin.v
EmailDelivery.v
Smtp.v
FairUse.v
MerchantRetention.v
MerchantSystem.v
MerchantLogic.v
MerchantWf.v
MerchantAccounts.v
MerchantStanding.v
MerchantSessions.v
MerchantCredentials.v
MerchantMail.v
MerchantDemo.v
MerchantProps.v
GoJsonText.v
StrictJson.v
ClientAddress.v
RateLimit.v
Metrics.v
Status.v
Migrate.v
HttpMux.v
HttpApi.v
Startup.v
StartupProps.v
HttpProps.v
