(* ===== verification/Prelude.v ===== *)
(** * ETH402 facilitator: a verification development

    The program (under [src/]) is an x402 payment facilitator for USDC on
    Ethereum mainnet.  A payer signs an EIP-3009 authorization; a merchant
    posts it to [/verify] and [/settle]; the facilitator checks it, submits
    [transferWithAuthorization] from its own signer account and reports the
    outcome.  PostgreSQL holds all state; several processes and workers share
    it.

    ** Parts, and where they are modelled

    Foundations.
    - Prelude.v: error values, the result type, generic lemmas, tactics and
      the hint databases.
    - GoStd.v, GoJson.v, GoNet.v, GoUrl.v, GoDuration.v, Calendar.v: the parts of
      the Go standard library the program calls (strings, strconv, math/big,
      encoding/hex and json, net/netip, net/url, time).
    - Sha256.v, Secret.v, AesGcm.v: crypto/sha256, hmac and AES-GCM, executable,
      with [internal/secret] and [internal/auth].

    Payments and signing.
    - Payment.v: [internal/x402]; Fees.v, State.v, Calldata.v: [internal/settlement]
      fees.go, state.go, calldata.go; Policy.v: [internal/policy].
    - Geth.v: go-ethereum as a class of operations with laws.
    - Signer.v: [internal/signer], the three backends; PolicySigner.v:
      [cmd/policysigner], the boundary that holds the key.
    - WalletProof.v, Challenge.v: [internal/walletproof].
    - Verification.v, VerifyService.v: [internal/verification], the parser shared by
      verify and settle, and the Verify handler.
    - Rpc.v, RpcProps.v: [internal/ethereum], reads by agreement of providers.

    The settlement store and service.
    - Schema.v, Work.v: the settlement tables of [migrations/] with their checks,
      unique indexes and foreign keys; a transaction is a function
      [DB A := db -> res (A * db)] that commits or changes nothing.
    - Store.v, StoreWork.v, StoreRecovery.v: every method of [internal/store] that
      writes those tables, on every branch.
    - Prog.v: programs of the service as trees of calls to the store, the
      signer, the chain and the clock; Service.v, Recovery.v: [internal/settlement]
      service.go, settle.go, wait.go, worker.go and recovery.go in that form.
    - System.v: any number of such programs interleaved on one database; a
      step is one call, any call may fail, and a program may stop at any point.

    Merchant accounts.
    - MerchantSchema.v: their tables; Merchant.v, MerchantAdmin.v, EmailDelivery.v:
      [internal/merchant]; MerchantRetention.v, FairUse.v: the deletions of
      retention and the fair-use counters; Smtp.v: [internal/email/smtp.go],
      a session as the sequence of its steps.
    - MerchantSystem.v: these transactions interleaved.  MerchantProps.v also
      interleaves them with the settlement store.

    The process.
    - Config.v: [internal/config], every variable, default and check; Startup.v:
      [cmd/eth402/main.go], from the environment to the running workers.

    The edge of the process.
    - GoJsonText.v: the lexer, the token decoder and the grammar of encoding/json.
    - StrictJson.v, ClientAddress.v, RateLimit.v: [internal/httpapi/server.go], strict
      decoding of request bodies, the address a request is attributed to and the
      rate limiter.
    - Metrics.v, Status.v: [internal/metrics] and [internal/stats], with what the balance
      and retention workers report; Migrate.v: [internal/migrate] and [cmd/migrate].
    - HttpMux.v, HttpApi.v: the multiplexer of [net/http] and every route, middleware and
      handler of [internal/httpapi], as trees of the calls a request makes to the
      services, with the answers open.

    ** What the theorems show

    - SystemProps.v, over every run of the concurrent system: distinct payments
      never share a nonce and one payment never uses two; everything broadcast
      is a recorded USDC transfer within the configured gas and fee bounds.  Hoare.v, StoreInv.v,
      StorePaid.v, StoreNonce.v, StoreEvolve.v, StoreRows.v, StoreIntent.v, SystemLogic.v,
      SystemCalls.v, SystemSafe.v and SystemRecovery.v carry the invariants.
    - Finality.v: a settle request answers success, and a payment becomes
      confirmed, only on evidence of the configured depth from every provider.
    - StoreProps.v, over every sequence of store operations: the audit trail is a
      path of the state machine, nonces are owned, quotas hold over every
      window, leases exclude.
    - StoreFindings.v: calls the program makes that the schema refuses.
    - MerchantProps.v: recipients were proved by signatures, suspension and
      elevation are enforced, proofs and links work once, issued keys work.
      MerchantLogic.v, MerchantWf.v, MerchantAccounts.v, MerchantStanding.v,
      MerchantSessions.v, MerchantCredentials.v and MerchantMail.v carry the
      invariants.
    - StartupProps.v: the loaded configuration bounds what the system can spend on
      gas, and production is guarded.
    - HttpProps.v: every call of a served request is warranted by its credential,
      origin and method, and its response discloses only what those calls returned.
    - StrictJson.v: strict bodies are exactly the JSON values without duplicate
      keys; ClientAddress.v, RateLimit.v: clients cannot forge the address they are
      limited under, and the limiter is fair and bounded; Status.v: the public
      status is honest; Metrics.v: what the request labels mean; Migrate.v:
      interrupted migrations converge.
    - StoreDemo.v, SystemDemo.v and MerchantDemo.v hold concrete histories, on which the witnesses evaluate the definitions.

    ** Conventions, bounds and fuel

    Go errors are lists of the sentinels [errors.Is] finds.  Machine integers
    are [Z] with the wrap-around written where it can occur; money is unbounded
    as in math/big.  Times and durations of services and tables are
    microseconds, as PostgreSQL stores them; durations of the configuration
    are nanoseconds.  Clock readings, random bytes, locked rows and the answers
    of the network are arguments, so theorems hold for all of them.  Polling loops
    take the list of their readings: they run as long as there are
    readings, and theorems quantify over the list.  Parsers recurse on their
    input; [duration_terms] takes fuel, the length of its input, which
    [duration_terms_fuel] proves enough, and so does the JSON grammar, for which
    [parse_value_fuel] does.  Bumping fees needs no
    fuel: [bump_chain_bounded] bounds the chain.

    ** Not modelled

    go-ethereum, the x402 SDK, siwe-go, pgx, Cloud KMS and the mail and MIME
    packages are parameters: classes whose laws are documented behaviour,
    each with a concrete instance for the witnesses.  Row locks of PostgreSQL
    appear as the atomicity of transactions and the set of locked rows; weaker
    isolation is not modelled.  The encoding of
    HTTP responses and the answer to a recovered panic are not modelled, nor is a
    commit of [RecordVerification] whose acknowledgement was lost.  HTML pages, CSS and log output have no state the
    other parts read. *)

From stdpp Require Import base gmap strings list fin_maps.
From Stdlib Require Import ZArith Lia.

(** ** Error values

    A Go [error] is modelled by the list of sentinel values that
    [errors.Is] finds in its chain: wrapping with [%w] keeps the list,
    [errors.Join] appends two lists, and an error built from text only has
    the single anonymous entry [EOpaque]. *)
Inductive sentinel :=
  | EOpaque
  | EUnavailable
  | ECanceled
  | ENoRows
  | ECheckViolation
  | EUniqueViolation
  | ESettlementRace
  | ELeaseLost
  | ELeaseUnavailable
  | EBroadcastPending
  | EPaymentNotFound
  | EPaymentNotVerified
  | ERecipientNotMerchant
  | EAuthorizationExpiring
  | EMerchantQuotaExceeded
  | EGlobalQuotaExceeded
  | EPaymentUnsettleable
  | ESignerAccountUnknown
  | ESimulationReverted
  | EProviderDisagreement
  | EInvalidRequest
  | EOverLimit
  | ESignerDisabled
  | EAuthorizationConflict
  | ETransient
  | EInvalid
  | EUnauthorized
  | EForbidden
  | ENotFound
  | EConflict
  | EThrottled.

#[export] Instance sentinel_eq_dec : EqDecision sentinel.
Proof. solve_decision. Defined.

Definition error := list sentinel.

(** [errors.Is]. *)
Definition errors_Is (e : error) (s : sentinel) : bool :=
  existsb (fun x => bool_decide (x = s)) e.

(** [errors.Join] of two non-nil errors. *)
Definition errors_Join (e1 e2 : error) : error := e1 ++ e2.

(** The result of a fallible Go function. *)
Inductive res (A : Type) :=
  | Ok (a : A)
  | Err (e : error).
Arguments Ok {A} a.
Arguments Err {A} e.

Declare Scope res_scope.
Delimit Scope res_scope with res.

Definition res_bind {A B} (r : res A) (f : A -> res B) : res B :=
  match r with
  | Ok a => f a
  | Err e => Err e
  end.

Notation "'let?' x ':=' r 'in' k" :=
  (res_bind r (fun x => k))
  (at level 10, x pattern, r at level 100, k at level 200) : res_scope.

Open Scope res_scope.

Definition is_ok {A} (r : res A) : bool :=
  match r with Ok _ => true | Err _ => false end.

Lemma res_bind_Ok {A B} (r : res A) (f : A -> res B) b :
  res_bind r f = Ok b -> exists a, r = Ok a /\ f a = Ok b.
Proof. destruct r; simpl; intros; [eauto | discriminate]. Qed.

(** The join of an accumulated error list is nil exactly when the list is. *)
Definition errors_collect (checks : list (bool * sentinel)) : error :=
  map snd (List.filter (fun c => fst c) checks).

Lemma errors_collect_nil checks :
  errors_collect checks = [] <-> Forall (fun c => fst c = false) checks.
Proof.
  unfold errors_collect. induction checks as [|[b s] l IH]; simpl.
  - split; [constructor | done].
  - destruct b; simpl; split; intros H; try discriminate.
    + inversion H; subst; simpl in *; discriminate.
    + constructor; [done | by apply IH].
    + inversion H; subst. by apply IH.
Qed.

(** ** Time and machine integers

    Clock readings are integers counting microseconds, the resolution of the
    database; a [time.Duration] is a number of microseconds. *)
Abbreviation time := Z (only parsing).
Abbreviation duration := Z (only parsing).

Definition second : duration := 1000000%Z.
Definition minute : duration := (60 * second)%Z.

(** The zero [time.Time], January 1 of year 1 UTC. *)
Definition zeroTime : time := (-62135596800 * second)%Z.
Definition IsZero (t : time) : bool := (t =? zeroTime)%Z.

(** [t.Unix()]: whole seconds since the epoch. *)
Definition Unix (t : time) : Z := (t / second)%Z.

Definition two64 : Z := (2 ^ 64)%Z.
Definition is_u64 (z : Z) : bool := ((0 <=? z) && (z <? two64))%Z.
Definition wrap64 (z : Z) : Z := (z mod two64)%Z.

(** ** Automation *)

Create HintDb fac.

(** Break every boolean conjunction, disjunction and comparison in the
    hypotheses into propositions. *)
Ltac bool_hyps :=
  repeat match goal with
  | H : (_ && _) = true |- _ => apply andb_true_iff in H; destruct H
  | H : (_ || _) = false |- _ => apply orb_false_iff in H; destruct H
  | H : negb _ = true |- _ => apply negb_true_iff in H
  | H : negb _ = false |- _ => apply negb_false_iff in H
  | H : (_ <? _)%Z = true |- _ => apply Z.ltb_lt in H
  | H : (_ <? _)%Z = false |- _ => apply Z.ltb_ge in H
  | H : (_ <=? _)%Z = true |- _ => apply Z.leb_le in H
  | H : (_ <=? _)%Z = false |- _ => apply Z.leb_gt in H
  | H : (_ =? _)%Z = true |- _ => apply Z.eqb_eq in H
  | H : (_ =? _)%Z = false |- _ => apply Z.eqb_neq in H
  | H : (_ <? _)%nat = true |- _ => apply Nat.ltb_lt in H
  | H : (_ <? _)%nat = false |- _ => apply Nat.ltb_ge in H
  | H : (_ <=? _)%nat = true |- _ => apply Nat.leb_le in H
  | H : (_ <=? _)%nat = false |- _ => apply Nat.leb_gt in H
  | H : (_ =? _)%nat = true |- _ => apply Nat.eqb_eq in H
  | H : (_ =? _)%nat = false |- _ => apply Nat.eqb_neq in H
  | H : bool_decide _ = true |- _ => apply bool_decide_eq_true in H
  | H : bool_decide _ = false |- _ => apply bool_decide_eq_false in H
  end.

(** Case analysis on the scrutinee of a [match] or [if] in a hypothesis. *)
Ltac split_hyp H :=
  match type of H with
  | context [match ?x with _ => _ end] =>
      lazymatch x with
      | context [match _ with _ => _ end] => fail
      | _ => destruct x eqn:?
      end
  end.

Ltac split_hyps H := repeat (split_hyp H; try discriminate H); simplify_eq/=.

(** ** Shared lemmas *)

Lemma errors_Is_In e s : errors_Is e s = true <-> s ∈ e.
Proof.
  unfold errors_Is. rewrite existsb_exists. split.
  - intros (x & Hx & Hd). bool_hyps. subst. by apply list_elem_of_In.
  - intros H. exists s. split; [by apply list_elem_of_In | by apply bool_decide_eq_true].
Qed.

Lemma errors_Is_Join e1 e2 s :
  errors_Is (errors_Join e1 e2) s = errors_Is e1 s || errors_Is e2 s.
Proof. unfold errors_Is, errors_Join. by rewrite existsb_app. Qed.

Lemma elem_of_list2 {A} (x a b : A) : x ∈ [a; b] <-> x = a \/ x = b.
Proof. rewrite !elem_of_cons, elem_of_nil. tauto. Qed.

Lemma elem_of_list3 {A} (x a b c : A) : x ∈ [a; b; c] <-> x = a \/ x = b \/ x = c.
Proof. rewrite !elem_of_cons, elem_of_nil. tauto. Qed.

Lemma is_Some_insert {A} (m : gmap N A) i a j : is_Some (m !! j) -> is_Some (<[i := a]> m !! j).
Proof.
  intros H. destruct (decide (i = j)) as [->|]; [rewrite lookup_insert_eq; eauto|].
  by rewrite lookup_insert_ne.
Qed.

(** *** Counting by distinct images *)

Lemma distinct_images {A B C} (R : A -> B -> Prop) (f : A -> C) (l : list A) :
  NoDup (map f l) -> (forall a a' b, R a b -> R a' b -> f a = f a') -> Forall (fun a => exists b, R a b) l ->
  exists bs, length bs = length l /\ NoDup bs /\ Forall (fun b => exists a, R a b) bs.
Proof.
  intros Hnd Hf Hl.
  assert (exists bs, length bs = length l /\ NoDup bs /\ Forall (fun b => exists a, a ∈ l /\ R a b) bs) as (bs & ? & ? & Hbs).
  { induction l as [|a l IH]; [by exists []; repeat constructor|].
    apply NoDup_cons in Hnd as [Ha Hnd]. apply Forall_cons in Hl as [[b Hb] Hl].
    destruct (IH Hnd Hl) as (bs & Hlen & Hbs & Hall). rewrite Forall_forall in Hall. exists (b :: bs).
    split; [simpl; lia|]. split.
    - constructor; [|done]. intros (a' & Ha' & Hb')%Hall. apply Ha. rewrite (Hf a a' b Hb Hb').
      by apply list_elem_of_fmap_2.
    - constructor; [exists a; split; [left|done]|]. apply Forall_forall. intros b' (a' & Ha' & Hb')%Hall.
      exists a'. split; [by right|done]. }
  exists bs. split; [done|]. split; [done|]. eapply Forall_impl; [exact Hbs|]. intros b (a & _ & Hab). by exists a.
Qed.

Lemma length_le_size {A} (m : gmap N A) (l : list N) :
  NoDup l -> Forall (fun i => exists a, m !! i = Some a) l -> (length l <= size m)%nat.
Proof.
  intros Hnd Hl. rewrite <- (size_dom (D := gset N)), <- (size_list_to_set (C := gset N) l Hnd).
  apply subseteq_size. intros i Hi%elem_of_list_to_set. rewrite Forall_forall in Hl. apply elem_of_dom. by apply Hl.
Qed.
