(* ===== verification/GoStd.v ===== *)
(** The parts of the Go standard library the facilitator relies on:
    [strings] (case folding, prefixes), [encoding/hex], decimal parsing and
    printing ([math/big] [SetString]/[String], [strconv]) and
    [encoding/binary] big-endian writing.

    A Go [string] is a byte sequence, modelled by [string]; a [[]byte] is a
    [list byte].  Case mapping is modelled on the ASCII range: every string
    the facilitator folds is compared with, or has been validated as, ASCII
    hexadecimal. *)

From Stdlib Require Import ZArith Lia Ascii.
From Stdlib Require Import Strings.Byte Decimal DecimalString DecimalZ DecimalPos DecimalFacts.
From stdpp Require Import base strings list.
From S2P Require Import Prelude.

Local Open Scope string_scope.

#[global] Arguments String.append !_ _ / : simpl nomatch.

#[export] Instance byte_EqDecision : EqDecision byte := Byte.byte_eq_dec.

(** ** strings *)

Definition lower_ascii (c : ascii) : ascii :=
  let n := N_of_ascii c in
  if ((65 <=? n) && (n <=? 90))%N then ascii_of_N (n + 32) else c.

(** [strings.ToLower]. *)
Fixpoint ToLower (s : string) : string :=
  match s with
  | EmptyString => EmptyString
  | String c s => String (lower_ascii c) (ToLower s)
  end.

(** [strings.EqualFold]. *)
Definition EqualFold (a b : string) : bool := String.eqb (ToLower a) (ToLower b).

(** [strings.HasPrefix]. *)
Fixpoint HasPrefix (s p : string) {struct p} : bool :=
  match p, s with
  | EmptyString, _ => true
  | String a p, String b s => Ascii.eqb a b && HasPrefix s p
  | String _ _, EmptyString => false
  end.

Fixpoint drop_str (n : nat) (s : string) : string :=
  match n, s with
  | O, _ => s
  | S n, String _ s => drop_str n s
  | S _, EmptyString => EmptyString
  end.

Fixpoint take_str (n : nat) (s : string) : string :=
  match n, s with
  | O, _ => EmptyString
  | S n, String c s => String c (take_str n s)
  | S _, EmptyString => EmptyString
  end.

(** [strings.TrimPrefix]. *)
Definition TrimPrefix (s p : string) : string :=
  if HasPrefix s p then drop_str (String.length p) s else s.

(** [strings.Repeat]. *)
Fixpoint Repeat (s : string) (n : nat) : string :=
  match n with
  | O => EmptyString
  | S n => s ++ Repeat s n
  end.

(** ** encoding/hex *)

Definition hex_digit (n : N) : ascii :=
  if (n <? 10)%N then ascii_of_N (48 + n) else ascii_of_N (87 + n).

Definition hex_value (c : ascii) : option N :=
  let n := N_of_ascii c in
  if ((48 <=? n) && (n <=? 57))%N then Some (n - 48)%N
  else if ((97 <=? n) && (n <=? 102))%N then Some (n - 87)%N
  else if ((65 <=? n) && (n <=? 70))%N then Some (n - 55)%N
  else None.

(** [hex.EncodeToString]. *)
Fixpoint hex_EncodeToString (b : list byte) : string :=
  match b with
  | [] => EmptyString
  | x :: b =>
      let n := Byte.to_N x in
      String (hex_digit (n / 16)) (String (hex_digit (n mod 16)) (hex_EncodeToString b))
  end.

(** [hex.DecodeString]. *)
Fixpoint hex_DecodeString (s : string) : option (list byte) :=
  match s with
  | EmptyString => Some []
  | String c1 (String c2 s) =>
      match hex_value c1, hex_value c2, hex_DecodeString s with
      | Some h, Some l, Some r =>
          match Byte.of_N (16 * h + l) with
          | Some x => Some (x :: r)
          | None => None
          end
      | _, _, _ => None
      end
  | String _ EmptyString => None
  end.

(** Lower-case hexadecimal digits only. *)
Fixpoint lower_hex (s : string) : bool :=
  match s with
  | EmptyString => true
  | String c s =>
      match hex_value c with
      | Some _ => Ascii.eqb (lower_ascii c) c && lower_hex s
      | None => false
      end
  end.

(** ** Decimal numbers *)

(** An unsigned run of decimal digits, as every parser below accepts it. *)
Definition digits_value (s : string) : option Z :=
  match NilZero.uint_of_string s with
  | Some d => Some (Z.of_uint d)
  | None => None
  end.

(** One decimal digit, and the value of a run of digits read left to right
    after the digits counted by [acc]. *)
Definition digit_of (c : ascii) : option Z :=
  let n := N_of_ascii c in
  if ((48 <=? n) && (n <=? 57))%N then Some (Z.of_N (n - 48)) else None.

Fixpoint dval (acc : Z) (s : string) : option Z :=
  match s with
  | EmptyString => Some acc
  | String c s =>
      match digit_of c with
      | Some d => dval (10 * acc + d)%Z s
      | None => None
      end
  end.

(** [new(big.Int).SetString(s, 10)]: an optional sign, then digits. *)
Definition SetString10 (s : string) : option Z :=
  match s with
  | String "-" r => option_map Z.opp (digits_value r)
  | String "+" r => digits_value r
  | _ => digits_value s
  end.

(** [big.Int.String], [strconv.FormatInt], [strconv.FormatUint]. *)
Definition FormatInt (z : Z) : string := NilZero.string_of_int (Z.to_int z).

(** [strconv.ParseUint(s, 10, 64)]: digits only, in range. *)
Definition ParseUint64 (s : string) : option Z :=
  match digits_value s with
  | Some z => if (z <? two64)%Z then Some z else None
  | None => None
  end.

(** [strconv.ParseInt(s, 10, 64)]. *)
Definition ParseInt64 (s : string) : option Z :=
  match SetString10 s with
  | Some z => if ((- 2 ^ 63 <=? z) && (z <? 2 ^ 63))%Z then Some z else None
  | None => None
  end.

(** ** encoding/binary *)

Definition byte_of_Z (z : Z) : byte :=
  match Byte.of_N (Z.to_N (z mod 256)) with Some b => b | None => x00 end.

Definition Z_of_byte (b : byte) : Z := Z.of_N (Byte.to_N b).

(** [binary.BigEndian.PutUint32]. *)
Definition PutUint32 (z : Z) : list byte :=
  [byte_of_Z (z / 2 ^ 24); byte_of_Z (z / 2 ^ 16); byte_of_Z (z / 2 ^ 8); byte_of_Z z].

(** [[]byte(s)]. *)
Definition bytes_of_string (s : string) : list byte := String.list_byte_of_string s.

(** ** Lemmas on strings *)

Lemma str_eqb_eq a b : String.eqb a b = true <-> a = b.
Proof. apply String.eqb_eq. Qed.

Lemma lower_ascii_idem c : lower_ascii (lower_ascii c) = lower_ascii c.
Proof. destruct c as [[] [] [] [] [] [] [] []]; reflexivity. Qed.

Lemma ToLower_idem s : ToLower (ToLower s) = ToLower s.
Proof. induction s; simpl; [done | by rewrite lower_ascii_idem, IHs]. Qed.

Lemma ToLower_length s : String.length (ToLower s) = String.length s.
Proof. induction s; simpl; congruence. Qed.

Lemma ToLower_empty s : ToLower s = EmptyString <-> s = EmptyString.
Proof. destruct s; simpl; split; congruence. Qed.

Lemma ToLower_app a b : ToLower (a ++ b) = ToLower a ++ ToLower b.
Proof. induction a; simpl; congruence. Qed.

Lemma EqualFold_spec a b : EqualFold a b = true <-> ToLower a = ToLower b.
Proof. apply String.eqb_eq. Qed.

Lemma HasPrefix_app p s : HasPrefix (p ++ s) p = true.
Proof. induction p; simpl; [done | by rewrite Ascii.eqb_refl, IHp]. Qed.

Lemma HasPrefix_inv s p : HasPrefix s p = true -> exists r, s = p ++ r.
Proof.
  revert s. induction p as [|a p IH]; intros [|b s] H; simpl in *; try discriminate; eauto.
  apply andb_true_iff in H as [Ha%Ascii.eqb_eq Hp]. subst.
  destruct (IH _ Hp) as [r ->]. eauto.
Qed.

Lemma drop_str_app p s : drop_str (String.length p) (p ++ s) = s.
Proof. induction p; simpl; done. Qed.

Lemma TrimPrefix_app p s : TrimPrefix (p ++ s) p = s.
Proof. unfold TrimPrefix. by rewrite HasPrefix_app, drop_str_app. Qed.

(** ** Hexadecimal round trips *)

Lemma hex_byte_roundtrip b :
  hex_value (hex_digit (Byte.to_N b / 16)) = Some (Byte.to_N b / 16)%N /\
  hex_value (hex_digit (Byte.to_N b mod 16)) = Some (Byte.to_N b mod 16)%N /\
  Byte.of_N (16 * (Byte.to_N b / 16) + Byte.to_N b mod 16) = Some b.
Proof. destruct b; vm_compute; auto. Qed.

Lemma hex_roundtrip bs : hex_DecodeString (hex_EncodeToString bs) = Some bs.
Proof.
  induction bs as [|b bs IH]; [done|].
  destruct (hex_byte_roundtrip b) as (H1 & H2 & H3).
  simpl. by rewrite H1, H2, IH, H3.
Qed.

Lemma hex_EncodeToString_inj a b : hex_EncodeToString a = hex_EncodeToString b -> a = b.
Proof. intros H. apply (f_equal hex_DecodeString) in H. rewrite !hex_roundtrip in H. congruence. Qed.

Lemma hex_EncodeToString_length bs : String.length (hex_EncodeToString bs) = 2 * length bs.
Proof. induction bs; simpl; [done | lia]. Qed.

Lemma hex_EncodeToString_lower bs : ToLower (hex_EncodeToString bs) = hex_EncodeToString bs.
Proof.
  induction bs as [|b bs IH]; [done|]. simpl. rewrite IH. f_equal; [|f_equal]; by destruct b.
Qed.

Lemma hex_DecodeString_length s bs :
  hex_DecodeString s = Some bs -> String.length s = 2 * length bs.
Proof.
  revert bs. remember (String.length s) as n eqn:Hn. revert s Hn.
  induction n as [n IH] using lt_wf_ind. intros [|c1 [|c2 s]] Hn bs H; simpl in *.
  - simplify_eq. done.
  - done.
  - destruct (hex_value c1), (hex_value c2); try done.
    destruct (hex_DecodeString s) as [r|] eqn:Hs; [|done].
    destruct (Byte.of_N _); [|done]. simplify_eq/=.
    pose proof (IH (String.length s) ltac:(lia) s eq_refl _ Hs). lia.
Qed.

(** ** Decimal round trips *)

Lemma digits_value_print n : (0 <= n)%Z -> digits_value (FormatInt n) = Some n.
Proof.
  intros Hn. unfold digits_value, FormatInt, NilZero.string_of_int.
  destruct n as [|p|p]; [done| |lia]. simpl.
  pose proof (DecimalPos.Unsigned.to_uint_nonnil p) as Hnn.
  rewrite NilZero.usu by done. f_equal. exact (DecimalZ.of_to (Zpos p)).
Qed.

Lemma string_of_uint_sign d (s : string) :
  NilZero.string_of_uint d = s ->
  (forall r, s <> String "-" r) /\ (forall r, s <> String "+" r).
Proof. intros <-. destruct d; simpl; split; intros r; discriminate. Qed.

(** [SetString] reads back what [String] printed. *)
Lemma SetString10_print z : SetString10 (FormatInt z) = Some z.
Proof.
  destruct (decide (0 <= z)%Z) as [Hz|Hz].
  - pose proof (digits_value_print z Hz) as H.
    assert (exists d, FormatInt z = NilZero.string_of_uint d) as [d Hd].
    { unfold FormatInt, NilZero.string_of_int. destruct z; [by exists (D0 Nil) | eauto | lia]. }
    destruct (string_of_uint_sign d _ (eq_sym Hd)) as [H1 H2].
    unfold SetString10. destruct (FormatInt z) as [|c r] eqn:E; [done|].
    destruct c as [[] [] [] [] [] [] [] []]; try exact H;
      exfalso; first [by eapply H1 | by eapply H2].
  - destruct z as [|p|p]; try lia. unfold FormatInt. simpl.
    pose proof (digits_value_print (Zpos p) ltac:(lia)) as H.
    unfold FormatInt in H. simpl in H. by rewrite H.
Qed.

Lemma FormatInt_inj a b : FormatInt a = FormatInt b -> a = b.
Proof. intros H. apply (f_equal SetString10) in H. rewrite !SetString10_print in H. congruence. Qed.

Lemma FormatInt_nonempty z : FormatInt z <> EmptyString.
Proof. intros H. pose proof (SetString10_print z) as Hp. rewrite H in Hp. done. Qed.

Lemma ParseUint64_print z : is_u64 z = true -> ParseUint64 (FormatInt z) = Some z.
Proof.
  unfold is_u64, ParseUint64. intros H. bool_hyps.
  rewrite digits_value_print by done. by rewrite (proj2 (Z.ltb_lt _ _)).
Qed.

Lemma ParseUint64_range s z : ParseUint64 s = Some z -> is_u64 z = true.
Proof.
  unfold ParseUint64, is_u64. destruct (digits_value s) as [v|] eqn:E; [|done].
  destruct (v <? two64)%Z eqn:Hlt; [|done]. intros [= <-]. rewrite Hlt, andb_true_r.
  apply Z.leb_le. unfold digits_value in E. destruct (NilZero.uint_of_string s); [|done].
  simplify_eq. unfold Z.of_uint. lia.
Qed.

Lemma ParseInt64_print z : (- 2 ^ 63 <= z < 2 ^ 63)%Z -> ParseInt64 (FormatInt z) = Some z.
Proof.
  intros H. unfold ParseInt64. rewrite SetString10_print.
  rewrite (proj2 (Z.leb_le _ _)) by lia. by rewrite (proj2 (Z.ltb_lt _ _)) by lia.
Qed.

Lemma digits_value_nonneg s z : digits_value s = Some z -> (0 <= z)%Z.
Proof.
  unfold digits_value. destruct (NilZero.uint_of_string s); [|done].
  intros [= <-]. unfold Z.of_uint. lia.
Qed.

(** ** Bytes *)

Lemma Z_of_byte_of_Z z : Z_of_byte (byte_of_Z z) = (z mod 256)%Z.
Proof.
  unfold Z_of_byte, byte_of_Z. pose proof (Z.mod_pos_bound z 256 ltac:(lia)).
  destruct (Byte.of_N (Z.to_N (z mod 256))) as [b|] eqn:E.
  - apply Byte.to_of_N in E. rewrite E. lia.
  - apply Byte.of_N_None_iff in E. lia.
Qed.

Lemma byte_of_Z_inj a b : byte_of_Z a = byte_of_Z b -> (a mod 256 = b mod 256)%Z.
Proof. intros H. by rewrite <- !Z_of_byte_of_Z, H. Qed.

Lemma PutUint32_inj a b :
  (0 <= a < 2 ^ 32)%Z -> (0 <= b < 2 ^ 32)%Z -> PutUint32 a = PutUint32 b -> a = b.
Proof.
  unfold PutUint32. intros Ha Hb H. injection H as H1 H2 H3 H4.
  apply byte_of_Z_inj in H1, H2, H3, H4.
  change (2 ^ 24)%Z with 16777216%Z in *. change (2 ^ 16)%Z with 65536%Z in *.
  change (2 ^ 8)%Z with 256%Z in *. change (2 ^ 32)%Z with 4294967296%Z in *.
  Z.to_euclidean_division_equations. lia.
Qed.

Lemma bytes_of_string_inj a b : bytes_of_string a = bytes_of_string b -> a = b.
Proof.
  intros H. rewrite <- (String.string_of_list_byte_of_string a), <- (String.string_of_list_byte_of_string b).
  unfold bytes_of_string in H. by rewrite H.
Qed.

Lemma bytes_of_string_length s : length (bytes_of_string s) = String.length s.
Proof.
  unfold bytes_of_string, String.list_byte_of_string. rewrite List.length_map.
  induction s as [|c s IH]; [done|]. simpl. by rewrite IH.
Qed.

(** ** Digit strings by value

    [dval] reads a run of digits left to right; [digits_value] is [dval] on
    non-empty strings, which gives it the usual concatenation law. *)

Ltac eval_digit :=
  match goal with
  | |- context [digit_of ?c] =>
      let v := eval vm_compute in (digit_of c) in change (digit_of c) with v; cbv beta iota
  end.

Lemma Pos_of_uint_acc_dval s d p :
  NilEmpty.uint_of_string s = Some d ->
  dval (Zpos p) s = Some (Zpos (Pos.of_uint_acc d p)).
Proof.
  revert d p. induction s as [|c s IH]; intros d p H; simpl in H; [by simplify_eq|].
  destruct (NilEmpty.uint_of_string s) as [d'|] eqn:E; [|by destruct c].
  destruct c as [[] [] [] [] [] [] [] []]; simpl in H; simplify_eq;
    cbn -[Z.mul Z.add Pos.mul Pos.add]; rewrite <- (IH _ _ eq_refl); eval_digit; f_equal; lia.
Qed.

Lemma of_uint_dval s d :
  NilEmpty.uint_of_string s = Some d -> dval 0 s = Some (Z.of_uint d).
Proof.
  revert d. induction s as [|c s IH]; intros d H; simpl in H; [by simplify_eq|].
  destruct (NilEmpty.uint_of_string s) as [d'|] eqn:E; [|by destruct c].
  destruct c as [[] [] [] [] [] [] [] []]; simpl in H; simplify_eq;
    cbn -[Z.mul Z.add]; eval_digit;
    rewrite Z.mul_0_r, Z.add_0_l;
    first [exact (IH _ eq_refl) | exact (Pos_of_uint_acc_dval _ _ _ E)].
Qed.

Lemma dval_digits acc s z :
  dval acc s = Some z -> is_Some (NilEmpty.uint_of_string s).
Proof.
  revert acc. induction s as [|c s IH]; intros acc H; simpl in *; [eauto|].
  destruct (digit_of c) as [d|] eqn:Ed; [|done]. destruct (IH _ H) as [u Hu]. rewrite Hu.
  destruct c as [[] [] [] [] [] [] [] []]; cbv in Ed; try discriminate; simpl; eauto.
Qed.

Lemma digits_value_dval s :
  digits_value s = match s with EmptyString => None | _ => dval 0 s end.
Proof.
  unfold digits_value, NilZero.uint_of_string. destruct s as [|c s]; [done|].
  destruct (NilEmpty.uint_of_string (String c s)) as [d|] eqn:E.
  - by rewrite (of_uint_dval _ _ E).
  - destruct (dval 0 (String c s)) eqn:Ed; [|done].
    destruct (dval_digits _ _ _ Ed). congruence.
Qed.

Lemma dval_app acc a b :
  dval acc (a ++ b) = match dval acc a with Some v => dval v b | None => None end.
Proof.
  revert acc. induction a as [|c a IH]; intros acc; simpl; [done|].
  destruct (digit_of c); [apply IH | done].
Qed.

Lemma dval_shift acc s v :
  dval 0 s = Some v -> dval acc s = Some (acc * 10 ^ Z.of_nat (String.length s) + v)%Z.
Proof.
  revert acc v. assert (forall s k acc v, dval k s = Some v ->
    dval (acc + k) s = Some (acc * 10 ^ Z.of_nat (String.length s) + v)%Z) as H.
  { clear s. induction s as [|c s IH]; intros k acc v Hv; cbn -[Z.mul Z.add Z.of_nat Z.pow] in *.
    - simplify_eq. f_equal. lia.
    - destruct (digit_of c) as [d|]; [|done].
      replace (10 * (acc + k) + d)%Z with (10 * acc + (10 * k + d))%Z by lia.
      rewrite (IH _ (10 * acc)%Z _ Hv). f_equal.
      rewrite Nat2Z.inj_succ, Z.pow_succ_r by lia. lia. }
  intros acc v Hv. rewrite <- (H _ _ acc _ Hv). f_equal. lia.
Qed.

Lemma dval_zeros acc n : dval acc (Repeat "0" n) = Some (acc * 10 ^ Z.of_nat n)%Z.
Proof.
  revert acc. induction n as [|n IH]; intros acc; [simpl; f_equal; lia|].
  cbn -[Z.mul Z.add Z.of_nat Z.pow]. eval_digit. rewrite IH. f_equal.
  rewrite Nat2Z.inj_succ, Z.pow_succ_r by lia. lia.
Qed.

Lemma str_app_length (a b : string) :
  String.length (a ++ b) = (String.length a + String.length b)%nat.
Proof. induction a; simpl; congruence. Qed.

Lemma take_drop_str n s : take_str n s ++ drop_str n s = s.
Proof. revert s. induction n; intros [|c s]; simpl; [done..|by rewrite IHn]. Qed.

Lemma take_str_length n s : String.length (take_str n s) = Nat.min n (String.length s).
Proof. revert s. induction n; intros [|c s]; simpl; [done..|by rewrite IHn]. Qed.

Lemma drop_str_length n s : String.length (drop_str n s) = (String.length s - n)%nat.
Proof. revert s. induction n; intros [|c s]; simpl; [done..|by rewrite IHn]. Qed.

Lemma Repeat_length c n : String.length (Repeat (String c EmptyString) n) = n.
Proof. induction n; simpl; congruence. Qed.

Lemma ParseUint64_FormatInt z v : ParseUint64 (FormatInt z) = Some v -> v = z /\ is_u64 z = true.
Proof.
  intros H. pose proof (ParseUint64_range _ _ H) as Hr. assert (v = z) as ->; [|done].
  unfold ParseUint64 in H. destruct (Z.leb_spec 0 z).
  - rewrite digits_value_print in H by lia. by destruct (z <? two64)%Z; simplify_eq.
  - destruct z as [|p|p]; try lia.
    rewrite digits_value_dval in H. unfold FormatInt in H. simpl in H. done.
Qed.

(** ** More of package strings *)

(** White space in the ASCII range. *)
Definition is_space (c : ascii) : bool :=
  let n := N_of_ascii c in ((9 <=? n) && (n <=? 13) || (n =? 32))%N.

Fixpoint trim_left (s : string) : string :=
  match s with
  | String c r => if is_space c then trim_left r else s
  | EmptyString => EmptyString
  end.

Fixpoint trim_right (s : string) : string :=
  match s with
  | String c r =>
      match trim_right r with
      | EmptyString => if is_space c then EmptyString else String c EmptyString
      | r => String c r
      end
  | EmptyString => EmptyString
  end.

(** [strings.TrimSpace]. *)
Definition TrimSpace (s : string) : string := trim_right (trim_left s).

(** [strings.Count] of one character. *)
Fixpoint count_char (c : ascii) (s : string) : nat :=
  match s with
  | String a r => (if Ascii.eqb a c then 1 else 0) + count_char c r
  | EmptyString => 0
  end.

(** [strings.SplitN(s, c, 2)[1]], where [c] occurs. *)
Fixpoint after_char (c : ascii) (s : string) : string :=
  match s with
  | String a r => if Ascii.eqb a c then r else after_char c r
  | EmptyString => EmptyString
  end.
