(* ===== verification/GoJson.v ===== *)
(** More of the Go standard library: decoded JSON values and
    [encoding/json] decoding into structs, hexadecimal numbers ([strconv] and
    [math/big] in base 16), and substring search.

    A JSON text is known by the value it denotes.  Object members keep their
    order and duplicates, since a later member overwrites an earlier one; a
    struct field takes every member whose name equals its own up to case.  A
    member of the wrong type makes the whole decoding fail, and [null] leaves
    a field as it is. *)

From Stdlib Require Import ZArith Lia Ascii.
From stdpp Require Import base list strings.
From S2P Require Import Prelude GoStd.

Local Open Scope string_scope.
Local Open Scope Z_scope.

(** ** JSON values *)

(** A decoded [interface{}]. *)
#[warnings="-register-all"] Inductive any :=
  | AnyNil
  | AnyBool (b : bool)
  | AnyNumber (text : string)
  | AnyString (s : string)
  | AnyList (l : list any)
  | AnyMap (m : list (string * any)).

(** [map[string]interface{}] by its entries, one per key; a missing key reads
    as nil. *)
Definition object : Type := list (string * any).

Fixpoint object_get (m : object) (key : string) : option any :=
  match m with
  | [] => None
  | (k, v) :: m => if String.eqb k key then Some v else object_get m key
  end.

(** Comparison of an interface value with a string. *)
Definition any_is (v : option any) (s : string) : bool :=
  match v with Some (AnyString t) => String.eqb t s | _ => false end.

(** ** Decoding into Go values

    [None] is a decoding error; [old] is what the target held before. *)

Definition into_string (old : string) (v : any) : option string :=
  match v with
  | AnyString s => Some s
  | AnyNil => Some old
  | _ => None
  end.

Definition into_string_ptr (v : any) : option (option string) :=
  match v with
  | AnyString s => Some (Some s)
  | AnyNil => Some None
  | _ => None
  end.

Definition into_int (old : Z) (v : any) : option Z :=
  match v with
  | AnyNumber t => ParseInt64 t
  | AnyNil => Some old
  | _ => None
  end.

Definition into_uint64 (old : Z) (v : any) : option Z :=
  match v with
  | AnyNumber t => ParseUint64 t
  | AnyNil => Some old
  | _ => None
  end.

(** The members of one field, in order, each decoded over the previous. *)
Fixpoint field {A} (name : string) (into : A -> any -> option A) (old : A) (m : object) : option A :=
  match m with
  | [] => Some old
  | (k, v) :: m =>
      if EqualFold k name then
        match into old v with
        | Some new => field name into new m
        | None => None
        end
      else field name into old m
  end.

Definition string_field (name : string) (m : object) : option string :=
  field name into_string EmptyString m.

Definition string_ptr_field (name : string) (m : object) : option (option string) :=
  field name (fun _ => into_string_ptr) None m.

(** A [json.RawMessage] field. *)
Definition raw_field (name : string) (m : object) : option any :=
  match field name (fun _ v => Some (Some v)) None m with Some v => v | None => None end.

(** [json.Unmarshal] of a value into a struct: [null] leaves it zero. *)
Definition into_struct (v : any) : option object :=
  match v with
  | AnyMap m => Some m
  | AnyNil => Some []
  | _ => None
  end.

(** ** Hexadecimal numbers *)

Fixpoint hval (acc : Z) (s : string) : option Z :=
  match s with
  | EmptyString => Some acc
  | String c s =>
      match hex_value c with
      | Some d => hval (16 * acc + Z.of_N d) s
      | None => None
      end
  end.

(** [strconv.ParseUint(s, 16, 64)]. *)
Definition ParseUint16 (s : string) : option Z :=
  match s with
  | EmptyString => None
  | _ => match hval 0 s with
         | Some v => if is_u64 v then Some v else None
         | None => None
         end
  end.

(** [new(big.Int).SetString(s, 16)]: an optional sign, then digits. *)
Definition SetString16 (s : string) : option Z :=
  match s with
  | EmptyString => None
  | String c r =>
      if Ascii.eqb c "-" then
        match r with EmptyString => None | _ => option_map Z.opp (hval 0 r) end
      else if Ascii.eqb c "+" then
        match r with EmptyString => None | _ => hval 0 r end
      else hval 0 s
  end.

Fixpoint hex_print (digits : nat) (n : Z) (acc : string) : string :=
  match digits with
  | O => acc
  | S digits =>
      let acc := String (hex_digit (Z.to_N (n mod 16))) acc in
      if n / 16 =? 0 then acc else hex_print digits (n / 16) acc
  end.

(** [strconv.FormatUint(n, 16)]; 64 bits are sixteen digits. *)
Definition FormatUint16 (n : Z) : string := hex_print 16 n EmptyString.

(** ** strings.Contains *)

Fixpoint Contains (s sub : string) : bool :=
  HasPrefix s sub || match s with EmptyString => false | String _ s => Contains s sub end.

(** ** Lemmas *)

Lemma hex_digit_value n : (n < 16)%N -> hex_value (hex_digit n) = Some n.
Proof.
  intros Hn. destruct n as [|p]; [done|].
  do 4 (destruct p as [p|p|]; try done; try lia).
Qed.

Lemma hval_print digits n acc :
  (0 < digits)%nat -> 0 <= n < 16 ^ Z.of_nat digits -> hval 0 (hex_print digits n acc) = hval n acc.
Proof.
  revert n acc. induction digits as [|k IH]; intros n acc Hd Hn; [lia|]. cbn [hex_print].
  assert (hval (n / 16) (String (hex_digit (Z.to_N (n mod 16))) acc) = hval n acc) as Hstep.
  { pose proof (Z.mod_pos_bound n 16). pose proof (Z.div_mod n 16).
    cbn [hval]. rewrite hex_digit_value, Z2N.id by lia. f_equal. lia. }
  destruct (Z.eqb_spec (n / 16) 0) as [E|E]; [by rewrite <- Hstep, E|].
  rewrite Nat2Z.inj_succ, Z.pow_succ_r in Hn by lia. destruct k as [|k];
    [rewrite Z.pow_0_r in Hn; by rewrite Z.div_small in E by lia|].
  rewrite IH; [done | lia |].
  split; [apply Z.div_pos; lia | apply Z.div_lt_upper_bound; lia].
Qed.

Lemma hex_print_nonempty digits n acc : (0 < digits)%nat -> hex_print digits n acc <> EmptyString.
Proof.
  revert n acc. induction digits as [|[|k] IH]; intros n acc Hd; cbn [hex_print]; [lia | |].
  - by destruct (_ =? 0).
  - destruct (_ =? 0); [done|]. apply IH. lia.
Qed.

(** Printing and parsing an unsigned 64-bit number. *)
Lemma ParseUint16_print n : is_u64 n = true -> ParseUint16 (FormatUint16 n) = Some n.
Proof.
  intros Hn. pose proof Hn as Hr. unfold is_u64, two64 in Hr. bool_hyps. unfold ParseUint16.
  assert (hval 0 (FormatUint16 n) = Some n) as E by (apply (hval_print 16); lia).
  assert (FormatUint16 n <> EmptyString) as Hne by (apply hex_print_nonempty; lia).
  rewrite E, Hn. by destruct (FormatUint16 n).
Qed.

Lemma hval_nonneg acc s v : 0 <= acc -> hval acc s = Some v -> 0 <= v.
Proof.
  revert acc. induction s as [|c s IH]; simpl; intros acc Ha; [by intros [= <-]|].
  destruct (hex_value c); [|done]. apply IH. lia.
Qed.

Lemma ParseUint16_range s v : ParseUint16 s = Some v -> is_u64 v = true.
Proof.
  unfold ParseUint16. destruct s; [done|]. destruct (hval 0 _); [|done].
  destruct (is_u64 z) eqn:E; [|done]. by intros [= <-].
Qed.

Lemma hex_value_not_sign c d : hex_value c = Some d -> Ascii.eqb c "-" = false /\ Ascii.eqb c "+" = false.
Proof. intros Hd. split; apply Ascii.eqb_neq; intros ->; discriminate Hd. Qed.

Lemma SetString16_digits s v : s <> EmptyString -> hval 0 s = Some v -> SetString16 s = Some v.
Proof.
  intros Hs Hv. destruct s as [|c s]; [done|]. unfold SetString16.
  pose proof Hv as Hc. cbn [hval] in Hc. destruct (hex_value c) eqn:E; [|done].
  destruct (hex_value_not_sign _ _ E) as [-> ->]. done.
Qed.

(** A field read from an object that has it once. *)
Lemma field_once {A} name (into : A -> any -> option A) old v new m :
  into old v = Some new -> Forall (fun kv => EqualFold kv.1 name = false) m ->
  field name into old ((name, v) :: m) = Some new.
Proof.
  intros Hv Hm. cbn [field]. rewrite (proj2 (EqualFold_spec name name) eq_refl), Hv.
  induction Hm as [|[k w] m Hk Hm IH]; [done|]. cbn [field]. simpl in Hk. by rewrite Hk.
Qed.
