(* ===== verification/Sha256.v ===== *)
(** SHA-256 (FIPS 180-4), as [crypto/sha256] computes it: payment identifiers
    and API-key records are digests of exact byte strings, so the hash is
    executed by the model instead of being left abstract. *)

From Stdlib Require Import ZArith Lia Strings.Byte.
From stdpp Require Import base list strings.
From S2P Require Import Prelude GoStd.

Local Open Scope Z_scope.

(** ** Word operations *)

Definition w32 (z : Z) : Z := Z.land z 0xffffffff.
Definition add32 (a b : Z) : Z := w32 (a + b).
Definition rotr (n x : Z) : Z := Z.lor (Z.shiftr x n) (w32 (Z.shiftl x (32 - n))).
Definition not32 (x : Z) : Z := Z.lxor x 0xffffffff.

Definition Ch (x y z : Z) : Z := Z.lxor (Z.land x y) (Z.land (not32 x) z).
Definition Maj (x y z : Z) : Z := Z.lxor (Z.land x y) (Z.lxor (Z.land x z) (Z.land y z)).
Definition Sigma0 (x : Z) : Z := Z.lxor (rotr 2 x) (Z.lxor (rotr 13 x) (rotr 22 x)).
Definition Sigma1 (x : Z) : Z := Z.lxor (rotr 6 x) (Z.lxor (rotr 11 x) (rotr 25 x)).
Definition sigma0 (x : Z) : Z := Z.lxor (rotr 7 x) (Z.lxor (rotr 18 x) (Z.shiftr x 3)).
Definition sigma1 (x : Z) : Z := Z.lxor (rotr 17 x) (Z.lxor (rotr 19 x) (Z.shiftr x 10)).

(** ** Constants

    The standard defines them as the first 32 bits of the fractional parts of
    the cube roots (round constants) and square roots (initial state) of the
    first primes. *)

Definition is_prime (n : nat) : bool :=
  forallb (fun d => negb (n mod d =? 0)%nat) (seq 2 (n - 2)).

Definition primes : list Z :=
  Eval vm_compute in map Z.of_nat (List.filter is_prime (seq 2 310)).

(** The integer [k]-th root of [n], found bit by bit. *)
Fixpoint root (k : Z) (bits : nat) (n acc : Z) : Z :=
  match bits with
  | O => acc
  | S bits =>
      let next := acc + 2 ^ Z.of_nat bits in
      root k bits n (if next ^ k <=? n then next else acc)
  end.

Definition root_fraction (k p : Z) : Z := w32 (root k 40 (p * 2 ^ (32 * k)) 0).

Definition K256 : list Z := Eval vm_compute in map (root_fraction 3) primes.

Definition H256 : list Z := Eval vm_compute in map (root_fraction 2) (take 8 primes).

(** ** Padding and parsing *)

Definition PutUint64 (z : Z) : list byte := PutUint32 (z / 2 ^ 32) ++ PutUint32 z.

(** The zero bytes between the 0x80 marker and the 64-bit length. *)
Definition pad_zeros (len : nat) : nat :=
  Z.to_nat ((55 - Z.of_nat len) mod 64).

Definition pad (msg : list byte) : list byte :=
  msg ++ x80 :: replicate (pad_zeros (length msg)) x00
      ++ PutUint64 (8 * Z.of_nat (length msg)).

Definition word_of (a b c d : byte) : Z :=
  Z_of_byte a * 2 ^ 24 + Z_of_byte b * 2 ^ 16 + Z_of_byte c * 2 ^ 8 + Z_of_byte d.

Fixpoint words (bs : list byte) : list Z :=
  match bs with
  | a :: b :: c :: d :: r => word_of a b c d :: words r
  | _ => []
  end.

(** ** Compression *)

(** The message schedule, most recent word first. *)
Fixpoint schedule (n : nat) (rev_w : list Z) : list Z :=
  match n with
  | O => rev_w
  | S n =>
      let w :=
        add32 (add32 (sigma1 (nth 1 rev_w 0)) (nth 6 rev_w 0))
              (add32 (sigma0 (nth 14 rev_w 0)) (nth 15 rev_w 0)) in
      schedule n (w :: rev_w)
  end.

Definition round (st : list Z) (kw : Z * Z) : list Z :=
  match st with
  | [a; b; c; d; e; f; g; h] =>
      let t1 := add32 (add32 h (Sigma1 e)) (add32 (Ch e f g) (add32 (fst kw) (snd kw))) in
      let t2 := add32 (Sigma0 a) (Maj a b c) in
      [add32 t1 t2; a; b; c; add32 d t1; e; f; g]
  | _ => st
  end.

Definition compress (st block : list Z) : list Z :=
  zip_with add32 st
    (fold_left round (zip K256 (rev (schedule 48 (rev block)))) st).

(** The 16-word blocks, one unit of fuel per block. *)
Fixpoint blocks (fuel : nat) (st ws : list Z) : list Z :=
  match fuel, ws with
  | O, _ | _, [] => st
  | S fuel, _ => blocks fuel (compress st (take 16 ws)) (drop 16 ws)
  end.

(** [sha256.Sum256]. *)
Definition sha256 (msg : list byte) : list byte :=
  let ws := words (pad msg) in
  flat_map PutUint32 (blocks (length ws) H256 ws).

(** ** Facts *)

(** The padded message is a whole number of 512-bit blocks. *)
Lemma pad_blocks msg : (Z.of_nat (length (pad msg)) mod 64 = 0)%Z.
Proof.
  unfold pad, pad_zeros. rewrite length_app, length_cons, length_app, length_replicate.
  change (length (PutUint64 _)) with 8%nat. set (n := Z.of_nat (length msg)).
  replace (Z.of_nat _) with (n + ((55 - n) mod 64) + 9)
    by (pose proof (Z.mod_pos_bound (55 - n) 64); lia).
  Z.to_euclidean_division_equations. lia.
Qed.

Lemma round_length st kw : length (round st kw) = length st.
Proof. do 9 (destruct st as [|? st]; try done). Qed.

Lemma rounds_length kws st : length (fold_left round kws st) = length st.
Proof. revert st. induction kws as [|k kws IH]; intros st; simpl; [done | by rewrite IH, round_length]. Qed.

Lemma blocks_length fuel st ws : length (blocks fuel st ws) = length st.
Proof.
  revert st ws. induction fuel as [|fuel IH]; intros st [|w ws]; simpl; try done.
  rewrite IH. unfold compress. rewrite length_zip_with, rounds_length. lia.
Qed.

(** A digest is 32 bytes. *)
Lemma sha256_length msg : length (sha256 msg) = 32%nat.
Proof.
  unfold sha256. assert (forall l, length (flat_map PutUint32 l) = (4 * length l)%nat) as H.
  { intros l. induction l as [|x l IH]; [done|]. simpl. rewrite IH. lia. }
  by rewrite H, blocks_length.
Qed.

(** The FIPS 180-4 test vectors: the empty message, one block, two blocks. *)
Example sha256_empty :
  hex_EncodeToString (sha256 []) =
  "e3b0c44298fc1c149afbf4c8996fb92427ae41e4649b934ca495991b7852b855"%string.
Proof. vm_compute. reflexivity. Qed.

Example sha256_abc :
  hex_EncodeToString (sha256 (bytes_of_string "abc")) =
  "ba7816bf8f01cfea414140de5dae2223b00361a396177a9cb410ff61f20015ad"%string.
Proof. vm_compute. reflexivity. Qed.

Example sha256_two_blocks :
  hex_EncodeToString (sha256 (bytes_of_string
    "abcdbcdecdefdefgefghfghighijhijkijkljklmklmnlmnomnopnopq")) =
  "248d6a61d20638b8e5c026930c3e6039a33ce45964ff2167f6ecedd419db06c1"%string.
Proof. vm_compute. reflexivity. Qed.
