(* ===== verification/Secret.v ===== *)
(** [internal/secret/secret.go], [internal/auth/apikey.go] and the token maker
    of [internal/email/email.go], on top of [crypto/hmac] and
    [encoding/base64].  Random bytes are an argument. *)

From Stdlib Require Import ZArith Lia Ascii Strings.Byte.
From stdpp Require Import base list strings.
From S2P Require Import Prelude GoStd Sha256.

Local Open Scope string_scope.
Local Open Scope Z_scope.

(** ** crypto/hmac with sha256.New *)

Definition byte_xor (a b : byte) : byte := byte_of_Z (Z.lxor (Z_of_byte a) (Z_of_byte b)).

(** The key, hashed when it is longer than a block, padded to a block. *)
Definition hmac_key (key : list byte) : list byte :=
  let k := if (64 <? length key)%nat then sha256 key else key in
  (k ++ replicate (64 - length k) x00)%list.

Definition hmac_sha256 (key msg : list byte) : list byte :=
  let k := hmac_key key in
  sha256 (map (byte_xor x5c) k ++ sha256 (map (byte_xor x36) k ++ msg))%list.

(** ** base64.RawURLEncoding *)

Definition base64url (n : Z) : ascii :=
  ascii_of_N (Z.to_N
    (if n <? 26 then 65 + n
     else if n <? 52 then 71 + n
     else if n <? 62 then n - 4
     else if n <? 63 then 45 else 95)).

Definition sextet (n shift : Z) : ascii := base64url (Z.land (Z.shiftr n shift) 63).

Fixpoint RawURLEncoding (bs : list byte) : string :=
  match bs with
  | a :: b :: c :: rest =>
      let n := 65536 * Z_of_byte a + 256 * Z_of_byte b + Z_of_byte c in
      String (sextet n 18) (String (sextet n 12) (String (sextet n 6) (String (sextet n 0)
        (RawURLEncoding rest))))
  | [a; b] =>
      let n := 65536 * Z_of_byte a + 256 * Z_of_byte b in
      String (sextet n 18) (String (sextet n 12) (String (sextet n 6) EmptyString))
  | [a] =>
      let n := 65536 * Z_of_byte a in
      String (sextet n 18) (String (sextet n 12) EmptyString)
  | [] => EmptyString
  end.

(** ** secret.go *)

(** [random] is what [rand.Read] filled the buffer with. *)
Definition Token (bytes : Z) (random : list byte) : res string :=
  if bytes <? 16 then Err [EOpaque] else Ok (RawURLEncoding random).

Definition Hash (value : string) : string := hex_EncodeToString (sha256 (bytes_of_string value)).

Definition KeyedHash (key : list byte) (value : string) : string :=
  hex_EncodeToString (hmac_sha256 key (bytes_of_string value)).

(** [hmac.Equal]. *)
Definition hmac_Equal (a b : list byte) : bool := bool_decide (a = b).

Definition EqualHash (wantHex value : string) : bool :=
  match hex_DecodeString wantHex with
  | None => false
  | Some want => hmac_Equal want (sha256 (bytes_of_string value))
  end.

Definition Redact (value : string) : string :=
  if (String.length value <? 9)%nat then "[REDACTED]"
  else take_str 5 value +:+ "…" +:+ drop_str (String.length value - 3) value.

(** ** apikey.go *)

Definition keyPrefix : string := "eth402_live_".
Definition lookupCharacters : nat := 12.

Record GeneratedKey := {
  FullValue : string;
  gk_Prefix : string;
  gk_Hash : string;
}.

Definition LookupPrefix (value : string) : string :=
  if negb (HasPrefix value keyPrefix) ||
     (String.length value <? String.length keyPrefix + lookupCharacters)%nat
  then EmptyString
  else take_str (String.length keyPrefix + lookupCharacters) value.

Definition GenerateAPIKey (pepper random : list byte) : res GeneratedKey :=
  if (length pepper <? 32)%nat then Err [EOpaque]
  else
    let? token := Token 32 random in
    let full := keyPrefix +:+ token in
    Ok {| FullValue := full; gk_Prefix := LookupPrefix full; gk_Hash := KeyedHash pepper full |}.

(** ** email.go *)

Definition NewVerificationToken (random : list byte) : res (string * string) :=
  let? raw := Token 32 random in Ok (raw, Hash raw).

(** ** Lemmas *)

Lemma Hash_length v : String.length (Hash v) = 64%nat.
Proof. unfold Hash. by rewrite hex_EncodeToString_length, sha256_length. Qed.

Lemma KeyedHash_length k v : String.length (KeyedHash k v) = 64%nat.
Proof. unfold KeyedHash, hmac_sha256. by rewrite hex_EncodeToString_length, sha256_length. Qed.

Lemma KeyedHash_lower k v : ToLower (KeyedHash k v) = KeyedHash k v.
Proof. apply hex_EncodeToString_lower. Qed.

Lemma KeyedHash_decode k v : hex_DecodeString (KeyedHash k v) = Some (hmac_sha256 k (bytes_of_string v)).
Proof. apply hex_roundtrip. Qed.

Lemma hmac_Equal_eq a b : hmac_Equal a b = true <-> a = b.
Proof. apply bool_decide_eq_true. Qed.

(** Four characters for every three bytes, none for padding. *)
Lemma RawURLEncoding_length bs :
  Z.of_nat (String.length (RawURLEncoding bs)) = (4 * Z.of_nat (length bs) + 2) / 3.
Proof.
  remember (length bs) as n eqn:Hn. revert bs Hn. induction n as [n IH] using lt_wf_ind.
  intros [|a [|b [|c bs]]] Hn; cbn in Hn; subst n; [reflexivity..|].
  cbn [RawURLEncoding String.length]. rewrite !Nat2Z.inj_succ, (IH (length bs)) by lia.
  replace (4 * Z.succ _ + 2) with (4 * Z.of_nat (length bs) + 2 + 4 * 3) by lia.
  rewrite Z.div_add by lia. lia.
Qed.

Lemma generated_key pepper random g :
  GenerateAPIKey pepper random = Ok g -> length random = 32%nat ->
  HasPrefix (FullValue g) keyPrefix = true /\ String.length (FullValue g) = 55%nat /\
  gk_Prefix g = take_str 24 (FullValue g) /\ gk_Prefix g = LookupPrefix (FullValue g) /\
  gk_Hash g = KeyedHash pepper (FullValue g).
Proof.
  intros HG Hr.
  assert (HasPrefix (keyPrefix +:+ RawURLEncoding random) keyPrefix = true) as Hp by apply HasPrefix_app.
  assert (String.length (keyPrefix +:+ RawURLEncoding random) = 55%nat) as Hl.
  { rewrite str_app_length. pose proof (RawURLEncoding_length random) as H. rewrite Hr in H.
    change ((4 * Z.of_nat 32 + 2) / 3) with 43 in H. change (String.length keyPrefix) with 12%nat. lia. }
  revert HG. unfold GenerateAPIKey, Token. destruct (length pepper <? 32)%nat; [done|].
  change (32 <? 16) with false. cbn [res_bind].
  generalize dependent (keyPrefix +:+ RawURLEncoding random). intros full Hp Hl [= <-].
  cbn [FullValue gk_Prefix gk_Hash]. split; [done|]. split; [done|]. split; [|done].
  unfold LookupPrefix. rewrite Hp, Hl. reflexivity.
Qed.
