(* ===== verification/AesGcm.v ===== *)
(** [crypto/aes] with a 256-bit key and [crypto/cipher]'s GCM with its
    standard nonce and tag sizes, which seal the email tokens at rest.

    Bytes of the cipher's state are integers; the substitution box is computed
    from the field inverse and the affine map that define it. *)

From Stdlib Require Import ZArith Lia Strings.Byte.
From stdpp Require Import base list strings.
From S2P Require Import Prelude GoStd Secret.

Local Open Scope Z_scope.

(** ** AES-256 *)

(** Multiplication by x modulo the field polynomial. *)
Definition xtime (a : Z) : Z :=
  let b := Z.shiftl a 1 in if 256 <=? b then Z.lxor b 283 else b.

Fixpoint gf_mul (bits : nat) (a b : Z) : Z :=
  match bits with
  | O => 0
  | S n => Z.lxor (if Z.odd b then a else 0) (gf_mul n (xtime a) (Z.shiftr b 1))
  end.

(** [a^254], the inverse of [a] and 0 for 0. *)
Definition gf_inv (a : Z) : Z :=
  let sq x := gf_mul 8 x x in
  let a2 := sq a in let a4 := sq a2 in let a8 := sq a4 in let a16 := sq a8 in
  let a32 := sq a16 in let a64 := sq a32 in let a128 := sq a64 in
  fold_left (gf_mul 8) [a4; a8; a16; a32; a64; a128] a2.

Definition rotl8 (x n : Z) : Z := Z.land (Z.lor (Z.shiftl x n) (Z.shiftr x (8 - n))) 255.

Definition sub_byte (a : Z) : Z :=
  let i := gf_inv a in
  fold_left Z.lxor [rotl8 i 1; rotl8 i 2; rotl8 i 3; rotl8 i 4; 99] i.

Definition sbox_table : list Z := Eval vm_compute in map (fun n => sub_byte (Z.of_nat n)) (seq 0 256).

Definition sbox (a : Z) : Z := nth (Z.to_nat a) sbox_table 0.

Definition xor_list (a b : list Z) : list Z := zip_with Z.lxor a b.

(** The transformation of the previous word of the key schedule. *)
Definition schedule_core (i : nat) (rcon : Z) (temp : list Z) : list Z :=
  if (i mod 8 =? 0)%nat then
    match temp with
    | [a; b; c; d] => [Z.lxor (sbox b) rcon; sbox c; sbox d; sbox a]
    | _ => temp
    end
  else if (i mod 8 =? 4)%nat then map sbox temp else temp.

(** The key schedule: words of four bytes, the latest eight kept in order. *)
Fixpoint expand (n : nat) (i : nat) (rcon : Z) (last8 : list (list Z)) : list (list Z) :=
  match n with
  | O => []
  | S n =>
      let w := xor_list (nth 0 last8 []) (schedule_core i rcon (nth 7 last8 [])) in
      w :: expand n (S i) (if (i mod 8 =? 0)%nat then xtime rcon else rcon) (drop 1 last8 ++ [w])
  end.

Fixpoint chunks (n k : nat) (l : list Z) : list (list Z) :=
  match n with
  | O => []
  | S n => take k l :: chunks n k (drop k l)
  end.

(** The fifteen round keys. *)
Definition round_keys (key : list Z) : list (list Z) :=
  let w := chunks 8 4 key in
  chunks 15 16 (concat (w ++ expand 52 8 1 w)).

Definition at_ (st : list Z) (i : nat) : Z := nth i st 0.

(** Column-major state: row [r] of column [c] is at [4*c+r]. *)
Definition shift_rows (st : list Z) : list Z :=
  map (fun i => at_ st ((i + 4 * (i mod 4)) mod 16)%nat) (seq 0 16).

Definition mix_columns (st : list Z) : list Z :=
  map (fun i =>
    let c := (i / 4)%nat in
    let s k := at_ st (4 * c + (i + k) mod 4)%nat in
    Z.lxor (Z.lxor (xtime (s 0%nat)) (Z.lxor (xtime (s 1%nat)) (s 1%nat))) (Z.lxor (s 2%nat) (s 3%nat)))
    (seq 0 16).

Fixpoint rounds (ks : list (list Z)) (st : list Z) : list Z :=
  match ks with
  | [] => st
  | [k] => xor_list (shift_rows (map sbox st)) k
  | k :: ks => rounds ks (xor_list (mix_columns (shift_rows (map sbox st))) k)
  end.

(** One block under the key. *)
Definition encrypt_block (key block : list byte) : list byte :=
  match round_keys (map Z_of_byte key) with
  | k :: ks => map byte_of_Z (rounds ks (xor_list (map Z_of_byte block) k))
  | [] => block
  end.

(** ** GCM *)

Definition block_value (b : list byte) : Z := fold_left (fun acc x => 256 * acc + Z_of_byte x) b 0.

Fixpoint put_bytes (n : nat) (z : Z) : list byte :=
  match n with
  | O => []
  | S n => put_bytes n (z / 256) ++ [byte_of_Z z]
  end.

(** Multiplication in the field of GHASH: the most significant bit is the
    lowest coefficient. *)
Fixpoint ghash_mul (bits : nat) (x v z : Z) : Z :=
  match bits with
  | O => z
  | S n =>
      let z := if Z.testbit x (Z.of_nat n) then Z.lxor z v else z in
      let v := if Z.odd v then Z.lxor (Z.shiftr v 1) (Z.shiftl 225 120) else Z.shiftr v 1 in
      ghash_mul n x v z
  end.

(** Absorb a sequence of blocks, the last one padded with zeros. *)
Fixpoint ghash (fuel : nat) (h acc : Z) (data : list byte) : Z :=
  match fuel, data with
  | S fuel, _ :: _ =>
      let block := take 16 data in
      let block := block ++ replicate (16 - length block) x00 in
      ghash fuel h (ghash_mul 128 (Z.lxor acc (block_value block)) h 0) (drop 16 data)
  | _, _ => acc
  end.

Definition counter (nonce : list byte) (i : Z) : list byte := nonce ++ put_bytes 4 i.

(** Exclusive or with the key stream, from counter block [i] on. *)
Fixpoint ctr (fuel : nat) (key nonce : list byte) (i : Z) (data : list byte) : list byte :=
  match fuel, data with
  | S fuel, _ :: _ =>
      zip_with byte_xor (take 16 data) (encrypt_block key (counter nonce i)) ++
      ctr fuel key nonce (i + 1) (drop 16 data)
  | _, _ => []
  end.

Definition gcm_tag (key nonce ciphertext aad : list byte) : list byte :=
  let h := block_value (encrypt_block key (replicate 16 x00)) in
  let s := ghash (length aad) h 0 aad in
  let s := ghash (length ciphertext) h s ciphertext in
  let lengths := put_bytes 8 (8 * Z.of_nat (length aad)) ++ put_bytes 8 (8 * Z.of_nat (length ciphertext)) in
  let s := ghash_mul 128 (Z.lxor s (block_value lengths)) h 0 in
  zip_with byte_xor (put_bytes 16 s) (encrypt_block key (counter nonce 1)).

(** [aead.Seal(dst, nonce, plaintext, aad)] without [dst]. *)
Definition gcm_Seal (key nonce plaintext aad : list byte) : list byte :=
  let ciphertext := ctr (length plaintext) key nonce 2 plaintext in
  ciphertext ++ gcm_tag key nonce ciphertext aad.

Definition gcm_Open (key nonce sealed aad : list byte) : option (list byte) :=
  if (length sealed <? 16)%nat then None
  else
    let ciphertext := take (length sealed - 16) sealed in
    if bool_decide (drop (length sealed - 16) sealed = gcm_tag key nonce ciphertext aad)
    then Some (ctr (length ciphertext) key nonce 2 ciphertext)
    else None.

Definition gcm_NonceSize : nat := 12.

(** ** Sizes *)

Lemma schedule_core_length i rcon w : length w = 4%nat -> length (schedule_core i rcon w) = 4%nat.
Proof.
  intros Hw. unfold schedule_core. case_match; [|case_match; [by rewrite length_map | done]].
  do 4 (destruct w as [|? w]; [done|]). by destruct w.
Qed.

Lemma expand_words n i rcon last8 :
  length last8 = 8%nat -> Forall (fun w => length w = 4%nat) last8 ->
  length (expand n i rcon last8) = n /\ Forall (fun w => length w = 4%nat) (expand n i rcon last8).
Proof.
  revert i rcon last8. induction n as [|n IH]; intros i rcon last8 Hl HF; [by split|]. cbn [expand].
  assert (forall k, (k < 8)%nat -> length (nth k last8 []) = 4%nat) as Hn.
  { intros k Hk. rewrite Forall_forall in HF. apply HF, list_elem_of_In, nth_In. lia. }
  assert (length (xor_list (nth 0 last8 []) (schedule_core i rcon (nth 7 last8 []))) = 4%nat) as Hw.
  { unfold xor_list. rewrite length_zip_with, schedule_core_length; rewrite ?Hn by lia; lia. }
  generalize dependent (xor_list (nth 0 last8 []) (schedule_core i rcon (nth 7 last8 []))). intros w Hw.
  destruct (IH (S i) (if (i mod 8 =? 0)%nat then xtime rcon else rcon) (drop 1 last8 ++ [w])) as [R1 R2].
  - rewrite length_app, length_drop, Hl. reflexivity.
  - apply Forall_app. split; [by apply Forall_drop | by repeat constructor].
  - split; [cbn [length]; by rewrite R1 | by constructor].
Qed.

Lemma concat_length (k : nat) (l : list (list Z)) :
  Forall (fun w => length w = k) l -> length (concat l) = (k * length l)%nat.
Proof. induction 1 as [|w l Hw _ IH]; cbn [concat length]; [lia|]. rewrite length_app. lia. Qed.

Lemma chunks_length n k l :
  length l = (n * k)%nat -> length (chunks n k l) = n /\ Forall (fun w => length w = k) (chunks n k l).
Proof.
  revert l. induction n as [|n IH]; intros l Hl; [by split|]. cbn [chunks].
  destruct (IH (drop k l)) as [H1 H2]; [rewrite length_drop; lia|].
  split; [cbn [length]; lia|]. constructor; [rewrite length_take; lia | done].
Qed.

Lemma round_keys_shape key :
  length key = 32%nat -> length (round_keys key) = 15%nat /\ Forall (fun k => length k = 16%nat) (round_keys key).
Proof.
  intros Hk. destruct (chunks_length 8 4 key Hk) as [H1 H2].
  destruct (expand_words 52 8 1 (chunks 8 4 key) H1 H2) as [H3 H4].
  unfold round_keys. cbv zeta. revert H3 H4. generalize (expand 52 8 1 (chunks 8 4 key)). intros e H3 H4.
  revert H1 H2. generalize (chunks 8 4 key). intros w H1 H2. apply chunks_length. rewrite (concat_length 4).
  - rewrite length_app, H1, H3. reflexivity.
  - by apply Forall_app.
Qed.

Lemma rounds_shape ks st :
  Forall (fun k => length k = 16%nat) ks -> length st = 16%nat -> length (rounds ks st) = 16%nat.
Proof.
  intros Hk. revert st. induction Hk as [|k ks Hk Hks IH]; intros st Hs; [done|]. cbn [rounds].
  destruct ks as [|k' ks].
  - unfold xor_list. rewrite length_zip_with. unfold shift_rows. rewrite length_map, length_seq. lia.
  - apply IH. unfold xor_list. rewrite length_zip_with. unfold mix_columns. rewrite length_map, length_seq. lia.
Qed.

Lemma encrypt_block_length key block :
  length key = 32%nat -> length block = 16%nat -> length (encrypt_block key block) = 16%nat.
Proof.
  intros Hk Hb. unfold encrypt_block.
  destruct (round_keys_shape (map Z_of_byte key)) as [H1 H2]; [by rewrite length_map|].
  destruct (round_keys _) as [|k ks]; [done|]. apply Forall_cons in H2 as [Hk0 H2].
  rewrite length_map. apply rounds_shape; [done|]. unfold xor_list. rewrite length_zip_with, length_map. lia.
Qed.

Lemma put_bytes_length n z : length (put_bytes n z) = n.
Proof. revert z. induction n; intros z; cbn [put_bytes]; [done|]. rewrite length_app, IHn. cbn. lia. Qed.

(** ** Opening what was sealed *)

Lemma Z_of_byte_range b : 0 <= Z_of_byte b < 256.
Proof. unfold Z_of_byte. pose proof (Byte.to_N_bounded b). lia. Qed.

Lemma byte_of_Z_of_byte b : byte_of_Z (Z_of_byte b) = b.
Proof.
  unfold byte_of_Z. rewrite Z.mod_small by apply Z_of_byte_range. unfold Z_of_byte.
  by rewrite N2Z.id, Byte.of_to_N.
Qed.

Lemma Z_of_byte_xor a b : Z_of_byte (byte_xor a b) = Z.lxor (Z_of_byte a) (Z_of_byte b).
Proof.
  unfold byte_xor. rewrite Z_of_byte_of_Z. apply Z.bits_inj'. intros n Hn.
  rewrite <- (Z.mod_small (Z_of_byte a) 256), <- (Z.mod_small (Z_of_byte b) 256) by apply Z_of_byte_range.
  change 256 with (2 ^ 8). rewrite (Z.lxor_spec (_ mod _) (_ mod _)).
  destruct (Z_lt_le_dec n 8).
  - rewrite !Z.mod_pow2_bits_low by lia. rewrite Z.lxor_spec, !Z.mod_pow2_bits_low by lia. done.
  - by rewrite !Z.mod_pow2_bits_high by lia.
Qed.

Lemma byte_xor_involutive a b : byte_xor (byte_xor a b) b = a.
Proof.
  unfold byte_xor at 1. rewrite Z_of_byte_xor, Z.lxor_assoc, Z.lxor_nilpotent, Z.lxor_0_r.
  apply byte_of_Z_of_byte.
Qed.

Lemma zip_xor_involutive (l k : list byte) :
  (length l <= length k)%nat -> zip_with byte_xor (zip_with byte_xor l k) k = l.
Proof.
  revert k. induction l as [|a l IH]; intros [|b k] Hl; cbn in *; [done | done | lia|].
  rewrite byte_xor_involutive. f_equal. apply IH. lia.
Qed.

#[local] Opaque encrypt_block.

Section Ctr.
  Context (key nonce : list byte) (Hkey : length key = 32%nat) (Hnonce : length nonce = gcm_NonceSize).

Lemma stream_length i : length (encrypt_block key (counter nonce i)) = 16%nat.
Proof. apply encrypt_block_length; [done|]. unfold counter. by rewrite length_app, put_bytes_length, Hnonce. Qed.

Lemma ctr_length fuel i data : (length data <= fuel)%nat -> length (ctr fuel key nonce i data) = length data.
Proof.
  revert i data. induction fuel as [|fuel IH]; intros i [|b data] Hf; cbn [ctr]; try done; [cbn in Hf; lia|].
  rewrite length_app, length_zip_with, stream_length, IH, length_take, length_drop; [cbn [length]; lia|].
  rewrite length_drop. cbn [length] in *. lia.
Qed.

Lemma ctr_involutive fuel i data :
  (length data <= fuel)%nat -> ctr fuel key nonce i (ctr fuel key nonce i data) = data.
Proof.
  revert i data. induction fuel as [|fuel IH]; intros i data Hf; [destruct data; [done | cbn in Hf; lia]|].
  destruct data as [|b data]; [done|].
  assert (length (zip_with byte_xor (take 16 (b :: data)) (encrypt_block key (counter nonce i))) =
    Nat.min 16 (length (b :: data))) as Hl by (rewrite length_zip_with, stream_length, length_take; lia).
  cbn [ctr]. set (c := zip_with _ _ _) in *. set (rest := ctr fuel key nonce (i + 1) _) in *.
  destruct (c ++ rest) as [|c0 cs] eqn:E; [apply app_eq_nil in E as [E _]; rewrite E in Hl; done|].
  rewrite <- E. clear c0 cs E. assert (length rest = length (drop 16 (b :: data))) as Hr
    by (apply ctr_length; rewrite length_drop; cbn [length] in *; lia).
  destruct (decide (length (b :: data) <= 16)%nat) as [Hs|Hs].
  - assert (rest = []) as -> by (apply nil_length_inv; rewrite Hr, length_drop; lia).
    rewrite app_nil_r, take_ge, drop_ge by lia. subst c.
    rewrite (take_ge (b :: data)), zip_xor_involutive; [|cbn [length] in *; rewrite stream_length; lia | lia].
    destruct fuel; cbn [ctr]; apply app_nil_r.
  - rewrite take_app_length', drop_app_length' by lia. subst c rest.
    rewrite zip_xor_involutive by (rewrite length_take, stream_length; lia).
    rewrite IH by (rewrite length_drop; cbn [length] in *; lia). apply take_drop.
Qed.

Lemma gcm_tag_length ciphertext aad : length (gcm_tag key nonce ciphertext aad) = 16%nat.
Proof. unfold gcm_tag. rewrite length_zip_with, put_bytes_length, stream_length. reflexivity. Qed.

Lemma gcm_roundtrip plaintext aad :
  gcm_Open key nonce (gcm_Seal key nonce plaintext aad) aad = Some plaintext.
Proof.
  unfold gcm_Open, gcm_Seal. set (c := ctr _ _ _ _ plaintext).
  assert (length c = length plaintext) as Hc by by apply ctr_length.
  rewrite length_app, gcm_tag_length. replace (length c + 16 - 16)%nat with (length c) by lia.
  rewrite take_app_length, drop_app_length, bool_decide_eq_true_2 by done.
  destruct (Nat.ltb_spec (length c + 16) 16); [lia|]. f_equal. rewrite Hc. by apply ctr_involutive.
Qed.

End Ctr.
