(* ===== verification/Calendar.v ===== *)
(** The parts of the Go [time] package that wallet challenges rely on: dates
    of the proleptic Gregorian calendar in UTC, printing with the RFC 3339
    layout, and [time.Parse] of that layout.

    A time is a number of microseconds since the epoch; a parsed time may carry
    a finer fraction, so parsing yields nanoseconds. *)

From Stdlib Require Import ZArith Lia Ascii.
From stdpp Require Import base list strings.
From S2P Require Import Prelude GoStd.

Local Open Scope string_scope.
Local Open Scope Z_scope.

#[local] Ltac Zify.zify_post_hook ::= Z.to_euclidean_division_equations.

(** ** Dates *)

Definition leap (y : Z) : bool := (y mod 4 =? 0) && (negb (y mod 100 =? 0) || (y mod 400 =? 0)).

Definition daysIn (m y : Z) : Z :=
  if m =? 2 then (if leap y then 29 else 28)
  else if (m =? 4) || (m =? 6) || (m =? 9) || (m =? 11) then 30 else 31.

(** Days since the epoch.  Years are counted from March, in eras of 400. *)
Definition days_from_civil (y m d : Z) : Z :=
  let y := if m <=? 2 then y - 1 else y in
  let mp := if m <=? 2 then m + 9 else m - 3 in
  let yoe := y mod 400 in
  (y / 400) * 146097 + (yoe * 365 + yoe / 4 - yoe / 100) + ((153 * mp + 2) / 5 + d - 1) - 719468.

(** The year of an era and the day of that year. *)
Definition year_of_era (doe : Z) : Z := (doe - doe / 1460 + doe / 36524 - doe / 146096) / 365.

Definition civil_from_days (n : Z) : Z * Z * Z :=
  let z := n + 719468 in
  let doe := z mod 146097 in
  let yoe := year_of_era doe in
  let doy := doe - (365 * yoe + yoe / 4 - yoe / 100) in
  let mp := (5 * doy + 2) / 153 in
  let m := if mp <? 10 then mp + 3 else mp - 9 in
  let y := z / 146097 * 400 + yoe in
  (if m <=? 2 then y + 1 else y, m, doy - (153 * mp + 2) / 5 + 1).

(** ** Format(time.RFC3339) of a UTC time *)

Definition digit (n : Z) : ascii := ascii_of_N (Z.to_N (48 + n)).

Fixpoint digits (w : nat) (z : Z) (acc : string) : string :=
  match w with
  | O => acc
  | S w => digits w (z / 10) (String (digit (z mod 10)) acc)
  end.

(** Zero-padded to [w] digits; longer or negative numbers are printed whole. *)
Definition appendInt (z : Z) (w : nat) : string :=
  if (0 <=? z) && (z <? 10 ^ Z.of_nat w) then digits w z EmptyString
  else
    let s := FormatInt (Z.abs z) in
    (if z <? 0 then "-" else EmptyString) +:+ Repeat "0" (w - String.length s) +:+ s.

Definition FormatRFC3339 (t : time) : string :=
  let s := t / second in
  let '(y, m, d) := civil_from_days (s / 86400) in
  let sod := s mod 86400 in
  appendInt y 4 +:+ "-" +:+ appendInt m 2 +:+ "-" +:+ appendInt d 2 +:+ "T" +:+
  appendInt (sod / 3600) 2 +:+ ":" +:+ appendInt (sod mod 3600 / 60) 2 +:+ ":" +:+
  appendInt (sod mod 60) 2 +:+ "Z".

(** [t.Truncate(d)]: down to a multiple of [d] since the zero time. *)
Definition Truncate (t : time) (d : duration) : time :=
  if d <=? 0 then t else t - (t - zeroTime) mod d.

(** ** time.Parse(time.RFC3339, ...) *)

(** Two digits, or one where the layout does not fix the width. *)
Definition getnum (fixed : bool) (s : string) : option (Z * string) :=
  match s with
  | String a s1 =>
      match digit_of a with
      | None => None
      | Some x =>
          match s1 with
          | String b s2 =>
              match digit_of b with
              | Some y => Some (10 * x + y, s2)
              | None => if fixed then None else Some (x, s1)
              end
          | EmptyString => if fixed then None else Some (x, s1)
          end
      end
  | EmptyString => None
  end.

Definition in_range (lo hi : Z) (r : option (Z * string)) : option (Z * string) :=
  match r with
  | Some (v, rest) => if (lo <=? v) && (v <=? hi) then Some (v, rest) else None
  | None => None
  end.

Definition expect (c : ascii) (s : string) : option string :=
  match s with
  | String a s => if Ascii.eqb a c then Some s else None
  | EmptyString => None
  end.

Definition parse_year (s : string) : option (Z * string) :=
  match getnum true s with
  | Some (hi, s) => match getnum true s with Some (lo, s) => Some (100 * hi + lo, s) | None => None end
  | None => None
  end.

(** Leading decimal digits; at most [n] of them count, as units of [10^-n]. *)
Fixpoint fraction (n : nat) (acc : Z) (s : string) : Z * string :=
  match s with
  | String a s1 =>
      match digit_of a with
      | Some x => match n with S n => fraction n (10 * acc + x) s1 | O => fraction O acc s1 end
      | None => (acc * 10 ^ Z.of_nat n, s)
      end
  | EmptyString => (acc * 10 ^ Z.of_nat n, s)
  end.

(** A fractional second is accepted although the layout has none. *)
Definition parse_fraction (s : string) : Z * string :=
  match s with
  | String c (String a _ as s1) =>
      if (Ascii.eqb c "." || Ascii.eqb c ",") && bool_decide (is_Some (digit_of a))
      then fraction 9 0 s1 else (0, s)
  | _ => (0, s)
  end.

(** [Z], or a signed offset in seconds. *)
Definition parse_zone (s : string) : option (Z * string) :=
  match s with
  | String c s1 =>
      if Ascii.eqb c "Z" then Some (0, s1)
      else
        match in_range 0 24 (getnum true s1) with
        | None => None
        | Some (h, s) =>
            match expect ":" s with
            | None => None
            | Some s =>
                match in_range 0 60 (getnum true s) with
                | None => None
                | Some (m, s) =>
                    let offset := (h * 60 + m) * 60 in
                    if Ascii.eqb c "+" then Some (offset, s)
                    else if Ascii.eqb c "-" then Some (- offset, s) else None
                end
            end
        end
  | EmptyString => None
  end.

(** Sequencing over the unread rest. *)
Definition after {A B} (r : option (A * string)) (k : A -> string -> option B) : option B :=
  match r with Some (v, rest) => k v rest | None => None end.

Definition then_expect (c : ascii) (r : option (Z * string)) : option (Z * string) :=
  after r (fun v rest => option_map (fun rest => (v, rest)) (expect c rest)).

(** Nanoseconds since the epoch. *)
Definition ParseRFC3339 (s : string) : option Z :=
  after (then_expect "-" (parse_year s)) (fun y s =>
  after (then_expect "-" (in_range 1 12 (getnum true s))) (fun m s =>
  after (then_expect "T" (getnum true s)) (fun d s =>
  after (then_expect ":" (in_range 0 23 (getnum false s))) (fun hh s =>
  after (then_expect ":" (in_range 0 59 (getnum true s))) (fun mm s =>
  after (in_range 0 59 (getnum true s)) (fun ss s =>
  let (ns, s) := parse_fraction s in
  after (parse_zone s) (fun zone s =>
  if negb (String.eqb s EmptyString) then None
  else if (d <? 1) || (daysIn m y <? d) then None
  else Some ((days_from_civil y m d * 86400 + hh * 3600 + mm * 60 + ss - zone) * 1000000000 + ns)))))))).

(** ** Lemmas *)

(** Inside an era the division finds the year; the last day of a long year is
    in one that ends before a leap February. *)
Lemma year_of_era_bounds doe :
  0 <= doe < 146097 ->
  let yoe := year_of_era doe in
  let doy := doe - (365 * yoe + yoe / 4 - yoe / 100) in
  0 <= yoe <= 399 /\ 0 <= doy <= 365 /\
  (doy = 365 -> (yoe + 1) mod 4 = 0 /\ ((yoe + 1) mod 100 <> 0 \/ yoe = 399)).
Proof. unfold year_of_era. intros H. cbn zeta. lia. Qed.

Lemma month_of_year doy :
  0 <= doy <= 365 ->
  let mp := (5 * doy + 2) / 153 in
  let d := doy - (153 * mp + 2) / 5 + 1 in
  0 <= mp <= 11 /\ 1 <= d <= 31 /\
  (mp = 1 \/ mp = 3 \/ mp = 6 \/ mp = 8 -> d <= 30) /\ (mp = 11 -> d <= 29 /\ (d = 29 -> doy = 365)).
Proof. intros H. cbn zeta. lia. Qed.

Lemma civil_roundtrip n y m d :
  civil_from_days n = (y, m, d) ->
  days_from_civil y m d = n /\ 1 <= m <= 12 /\ 1 <= d <= daysIn m y.
Proof.
  unfold civil_from_days. remember (n + 719468) as z eqn:Hz.
  pose proof (year_of_era_bounds (z mod 146097) ltac:(lia)) as HY. cbn zeta in HY.
  remember (year_of_era (z mod 146097)) as yoe eqn:Ey. clear Ey.
  remember (z mod 146097 - (365 * yoe + yoe / 4 - yoe / 100)) as doy eqn:Hdoy.
  destruct HY as (HY1 & HY2 & HY3). pose proof (month_of_year doy HY2) as HM. cbn zeta in HM.
  remember ((5 * doy + 2) / 153) as mp eqn:Emp. clear Emp.
  intros [= <- <- <-]. destruct HM as (M1 & M2 & M3 & M4).
  unfold days_from_civil, daysIn, leap. destruct (Z.ltb_spec mp 10).
  - destruct (Z.leb_spec (mp + 3) 2); [lia|]. split; [lia|]. split; [lia|]. split; [lia|].
    destruct (Z.eqb_spec (mp + 3) 2); [lia|]. destruct (_ || _) eqn:E; lia.
  - destruct (Z.leb_spec (mp - 9) 2); [|lia]. split; [lia|]. split; [lia|]. split; [lia|].
    destruct (Z.eqb_spec (mp - 9) 2); [|destruct (_ || _) eqn:E; lia].
    destruct (_ && _) eqn:E; lia.
Qed.

Lemma digit_of_digit n : 0 <= n <= 9 -> digit_of (digit n) = Some n.
Proof.
  intros H. rewrite <- (Z2Nat.id n) by lia.
  assert (Z.to_nat n < 10)%nat as Hk by lia. revert Hk. generalize (Z.to_nat n). intros k Hk.
  do 10 (destruct k as [|k]; [reflexivity|]). lia.
Qed.

Lemma getnum_digits fixed a b rest :
  0 <= a <= 9 -> 0 <= b <= 9 ->
  getnum fixed (String (digit a) (String (digit b) rest)) = Some (10 * a + b, rest).
Proof. intros Ha Hb. unfold getnum. by rewrite !digit_of_digit. Qed.

Lemma getnum_appendInt fixed z rest :
  0 <= z < 100 -> getnum fixed (appendInt z 2 +:+ rest) = Some (z, rest).
Proof.
  intros H. unfold appendInt. change (10 ^ Z.of_nat 2) with 100.
  rewrite (proj2 (Z.leb_le 0 z)), (proj2 (Z.ltb_lt z 100)) by lia. cbn [andb digits String.append].
  rewrite getnum_digits by lia. do 2 f_equal. lia.
Qed.

Lemma parse_year_appendInt z rest :
  0 <= z < 10000 -> parse_year (appendInt z 4 +:+ rest) = Some (z, rest).
Proof.
  intros H. unfold appendInt. change (10 ^ Z.of_nat 4) with 10000.
  rewrite (proj2 (Z.leb_le 0 z)), (proj2 (Z.ltb_lt z 10000)) by lia. cbn [andb digits String.append].
  unfold parse_year. rewrite !getnum_digits by lia. do 2 f_equal. lia.
Qed.

Lemma in_range_Some lo hi v rest :
  lo <= v <= hi -> in_range lo hi (Some (v, rest)) = Some (v, rest).
Proof.
  intros H. unfold in_range. by rewrite (proj2 (Z.leb_le lo v)), (proj2 (Z.leb_le v hi)) by lia.
Qed.

(** The year of a time, in UTC. *)
Definition Year (t : time) : Z := (civil_from_days (t / second / 86400)).1.1.

(** Printing a whole second of a four-digit year and parsing it back. *)
Lemma ParseRFC3339_Format t :
  t mod second = 0 -> 0 <= Year t <= 9999 -> ParseRFC3339 (FormatRFC3339 t) = Some (t * 1000).
Proof.
  unfold Year, FormatRFC3339. intros Hs. destruct (civil_from_days _) as [[y m] d] eqn:E.
  apply civil_roundtrip in E as (E & Hm & Hd). cbn [fst]. intros Hy.
  assert (daysIn m y <= 31) as Hdi by (unfold daysIn; repeat case_match; lia).
  set (sod := (t / second) mod 86400). assert (0 <= sod < 86400) as Hsod by (subst sod; lia).
  unfold ParseRFC3339, then_expect.
  rewrite parse_year_appendInt by lia. cbn [after String.append expect]. rewrite Ascii.eqb_refl.
  cbn [option_map after]. rewrite getnum_appendInt, in_range_Some by lia.
  cbn [after String.append expect]. rewrite Ascii.eqb_refl. cbn [option_map after].
  rewrite getnum_appendInt by lia. cbn [after String.append expect]. rewrite Ascii.eqb_refl.
  cbn [option_map after]. rewrite getnum_appendInt, in_range_Some by lia.
  cbn [after String.append expect]. rewrite Ascii.eqb_refl. cbn [option_map after].
  rewrite getnum_appendInt, in_range_Some by lia. cbn [after String.append expect]. rewrite Ascii.eqb_refl.
  cbn [option_map after]. rewrite getnum_appendInt, in_range_Some by lia. cbn [after String.append].
  cbn [parse_fraction parse_zone after]. rewrite Ascii.eqb_refl. cbn [after].
  rewrite (proj2 (Z.ltb_ge d 1)), (proj2 (Z.ltb_ge (daysIn m y) d)) by lia. cbn [negb String.eqb orb].
  f_equal. rewrite E. subst sod. unfold second in *. lia.
Qed.
