(* ===== verification/Payment.v ===== *)
(** [internal/x402/payment.go]: the payment identifier, a digest of the
    normalised authorization fields, and the display form of a USDC amount. *)

From Stdlib Require Import ZArith Lia Ascii Strings.Byte.
From stdpp Require Import base list strings.
From S2P Require Import Prelude GoStd Sha256.

Local Open Scope string_scope.

(** ** PaymentID *)

Record IdentityFields := {
  Version : Z;
  Scheme : string;
  Network : string;
  Asset : string;
  From : string;
  To : string;
  Value : string;
  ValidAfter : string;
  ValidBefore : string;
  Nonce : string;
  Signature : string;
}.

Definition MaxUint32 : Z := (2 ^ 32 - 1)%Z.

(** The [values] slice: the fields in hashing order, the hexadecimal ones
    folded to lower case. *)
Definition identity_values (f : IdentityFields) : list string :=
  [FormatInt (Version f); Scheme f; Network f;
   ToLower (Asset f); ToLower (From f); ToLower (To f);
   Value f; ValidAfter f; ValidBefore f; ToLower (Nonce f); ToLower (Signature f)].

(** What one iteration of the hashing loop writes: length, then bytes. *)
Definition encode_field (v : string) : list byte :=
  (PutUint32 (Z.of_nat (String.length v)) ++ bytes_of_string v)%list.

Definition identity_preimage (f : IdentityFields) : list byte :=
  flat_map encode_field (identity_values f).

Definition PaymentID (f : IdentityFields) : res string :=
  let values := identity_values f in
  if existsb (fun v => String.eqb v EmptyString) values then Err [EOpaque]
  else if existsb (fun v => (MaxUint32 <? Z.of_nat (String.length v))%Z) values then Err [EOpaque]
  else Ok ("pay_" ++ hex_EncodeToString (sha256 (identity_preimage f))).

(** ** FormatUSDC *)

Fixpoint all_digits (s : string) : bool :=
  match s with
  | EmptyString => true
  | String c s => match digit_of c with Some _ => all_digits s | None => false end
  end.

(** [strings.TrimLeft(s, "0")]. *)
Fixpoint TrimLeft0 (s : string) : string :=
  match s with
  | String c r => if Ascii.eqb c "0" then TrimLeft0 r else s
  | EmptyString => EmptyString
  end.

Definition FormatUSDC (atomic : string) : res string :=
  if String.eqb atomic EmptyString then Err [EOpaque]
  else if negb (all_digits atomic) then Err [EOpaque]
  else
    let atomic := TrimLeft0 atomic in
    let atomic := if String.eqb atomic EmptyString then "0" else atomic in
    let len := String.length atomic in
    if (len <=? 6)%nat then Ok ("0." ++ Repeat "0" (6 - len) ++ atomic)
    else Ok (take_str (len - 6) atomic ++ "." ++ drop_str (len - 6) atomic).

(** ** The identifier encoding is injective *)

Definition short (v : string) : Prop := (Z.of_nat (String.length v) <= MaxUint32)%Z.

Lemma encode_field_app_inj a b x y :
  short a -> short b -> (encode_field a ++ x = encode_field b ++ y)%list -> a = b /\ x = y.
Proof.
  unfold short, MaxUint32, encode_field. intros Ha Hb H.
  rewrite <- !app_assoc in H.
  apply app_inj_1 in H as [Hl H]; [|done].
  apply PutUint32_inj in Hl; [|lia|lia].
  apply app_inj_1 in H as [He Hx]; [|rewrite !bytes_of_string_length; lia].
  split; [by apply bytes_of_string_inj | done].
Qed.

Lemma encode_fields_inj vs ws :
  Forall short vs -> Forall short ws -> length vs = length ws ->
  flat_map encode_field vs = flat_map encode_field ws -> vs = ws.
Proof.
  revert ws. induction vs as [|v vs IH]; intros [|w ws] Hv Hw Hl H; try done.
  inversion Hv; inversion Hw; subst. cbn [flat_map] in H.
  apply encode_field_app_inj in H as [-> H]; [|done..].
  f_equal. apply IH; auto.
Qed.

Lemma PaymentID_inv f id :
  PaymentID f = Ok id ->
  Forall (fun v => v <> EmptyString /\ short v) (identity_values f) /\
  id = "pay_" ++ hex_EncodeToString (sha256 (identity_preimage f)).
Proof.
  unfold PaymentID. destruct (existsb _ _) eqn:E1; [done|].
  destruct (existsb (fun v => (MaxUint32 <? _)%Z) _) eqn:E2; [done|]. intros [= <-].
  split; [|done]. apply Forall_forall. intros v Hv%list_elem_of_In. split.
  - intros ->. apply not_true_iff_false in E1. apply E1, existsb_exists. by eexists.
  - unfold short. destruct (Z.leb_spec (Z.of_nat (String.length v)) MaxUint32); [done|].
    apply not_true_iff_false in E2. exfalso. apply E2, existsb_exists.
    exists v. split; [done|]. by apply Z.ltb_lt.
Qed.

Lemma Forall_short f :
  Forall (fun v => v <> EmptyString /\ short v) (identity_values f) ->
  Forall short (identity_values f).
Proof. intros H. eapply Forall_impl; [exact H|]. by intros ? []. Qed.

(** ** FormatUSDC prints the amount exactly *)

Lemma all_digits_dval acc s : all_digits s = true <-> is_Some (dval acc s).
Proof.
  revert acc. induction s as [|c s IH]; intros acc; simpl; [split; eauto|].
  destruct (digit_of c); [apply IH|]. split; [done|]. by intros [].
Qed.

Lemma TrimLeft0_dval s : dval 0 (TrimLeft0 s) = dval 0 s.
Proof.
  induction s as [|c s IH]; simpl; [done|].
  destruct (Ascii.eqb_spec c "0"); [by subst | done].
Qed.

Lemma TrimLeft0_head c s r : TrimLeft0 s = String c r -> c <> "0"%char.
Proof.
  induction s as [|a s IH]; simpl; [done|].
  destruct (Ascii.eqb_spec a "0"); [done | by intros [= -> ->]].
Qed.

Lemma dval_split n s v :
  dval 0 s = Some v ->
  exists a b, dval 0 (take_str n s) = Some a /\ dval 0 (drop_str n s) = Some b /\
    v = (a * 10 ^ Z.of_nat (String.length (drop_str n s)) + b)%Z.
Proof.
  intros H. rewrite <- (take_drop_str n s), dval_app in H.
  destruct (dval 0 (take_str n s)) as [a|] eqn:Ea; [|done].
  destruct (dval 0 (drop_str n s)) as [b|] eqn:Eb.
  - exists a, b. rewrite (dval_shift a _ _ Eb) in H. by simplify_eq.
  - exfalso. assert (all_digits (drop_str n s) = true) as Hd by (apply (all_digits_dval a); eauto).
    apply (all_digits_dval 0) in Hd as [? ?]. congruence.
Qed.

(** The canonical whole part: [0], or digits without a leading zero. *)
Definition canonical_whole (w : string) : Prop :=
  w = "0" \/ exists c r, w = String c r /\ c <> "0"%char.

Lemma FormatUSDC_short t v :
  dval 0 t = Some v -> (1 <= String.length t <= 6)%nat ->
  exists fp, Repeat "0" (6 - String.length t) ++ t = fp /\ String.length fp = 6%nat /\
    digits_value fp = Some v.
Proof.
  intros Hv Hl. eexists. split; [done|].
  rewrite str_app_length, Repeat_length. split; [lia|].
  rewrite digits_value_dval.
  assert (dval 0 (Repeat "0" (6 - String.length t) ++ t) = Some v) as Hd
    by (rewrite dval_app, dval_zeros; exact Hv).
  destruct (_ ++ t) as [|c r] eqn:E; [|exact Hd].
  apply (f_equal String.length) in E. rewrite str_app_length in E. simpl in E. lia.
Qed.

Lemma FormatUSDC_long t v :
  dval 0 t = Some v -> (6 < String.length t)%nat ->
  let n := (String.length t - 6)%nat in
  exists w x, digits_value (take_str n t) = Some w /\ digits_value (drop_str n t) = Some x /\
    String.length (drop_str n t) = 6%nat /\ v = (w * 10 ^ 6 + x)%Z.
Proof.
  intros Hv Hl n. destruct (dval_split n t v Hv) as (a & b & Ha & Hb & ->).
  assert (String.length (drop_str n t) = 6%nat) as Hd by (rewrite drop_str_length; lia).
  assert (String.length (take_str n t) = n) as Ht by (rewrite take_str_length; lia).
  exists a, b. rewrite !digits_value_dval, Hd.
  destruct (take_str n t); [simpl in Ht; lia|]. destruct (drop_str n t); [done|]. done.
Qed.

Lemma take_str_head n c r : (0 < n)%nat -> exists r', take_str n (String c r) = String c r'.
Proof. destruct n; [lia|]. simpl. eauto. Qed.

(** ** Properties *)

Lemma PaymentID_same f g id :
  PaymentID f = Ok id -> PaymentID g = Ok id ->
  identity_values f = identity_values g \/
  (identity_preimage f <> identity_preimage g /\
   sha256 (identity_preimage f) = sha256 (identity_preimage g)).
Proof.
  intros [Hf ->]%PaymentID_inv [Hg H]%PaymentID_inv.
  injection H as H%hex_EncodeToString_inj.
  destruct (decide (identity_preimage f = identity_preimage g)) as [Heq|Hne]; [left | by right].
  apply encode_fields_inj; [by apply Forall_short.. | done | done].
Qed.

(** A payment identifier binds every authorization field: two field
    records with the same identifier agree on every field after the case
    folding the identifier applies to addresses, nonce and signature, unless
    the two byte strings hashed are a SHA-256 collision. *)
Theorem PaymentID_binds f g id :
  PaymentID f = Ok id -> PaymentID g = Ok id ->
  identity_values f = identity_values g \/
  (identity_preimage f <> identity_preimage g /\
   sha256 (identity_preimage f) = sha256 (identity_preimage g)).
Proof. apply PaymentID_same. Qed.

Definition sample_identity (from : string) : IdentityFields :=
  {| Version := 2; Scheme := "exact"; Network := "eip155:1";
     Asset := "0xA0b86991c6218b36c1d19D4a2e9Eb0cE3606eB48"; From := from;
     To := "0x2222222222222222222222222222222222222222"; Value := "1000000";
     ValidAfter := "0"; ValidBefore := "1900000000"; Nonce := "0xAB"; Signature := "0xCD" |}.

Lemma PaymentID_binds_witness :
  exists id, PaymentID (sample_identity "0xAbC") = Ok id /\
    PaymentID (sample_identity "0xabc") = Ok id /\
    (identity_values (sample_identity "0xAbC") = identity_values (sample_identity "0xabc") \/
     (identity_preimage (sample_identity "0xAbC") <> identity_preimage (sample_identity "0xabc") /\
      sha256 (identity_preimage (sample_identity "0xAbC")) =
      sha256 (identity_preimage (sample_identity "0xabc")))).
Proof.
  eexists. split; [vm_compute; reflexivity|]. split; [vm_compute; reflexivity|].
  eapply PaymentID_binds; vm_compute; reflexivity.
Defined.

(** [FormatUSDC] prints exactly the amount it is given: on a string of
    decimal digits with value [v] it returns a canonical whole part [w]
    (no superfluous leading zero), a dot and six decimals [x], with
    [v = w * 10^6 + x]; every other input is rejected. *)
Theorem FormatUSDC_exact atomic :
  match digits_value atomic with
  | None => FormatUSDC atomic = Err [EOpaque]
  | Some v =>
      exists ws xs w x, FormatUSDC atomic = Ok (ws ++ "." ++ xs) /\
        canonical_whole ws /\ String.length xs = 6%nat /\
        digits_value ws = Some w /\ digits_value xs = Some x /\ v = (w * 10 ^ 6 + x)%Z
  end.
Proof.
  rewrite digits_value_dval. unfold FormatUSDC.
  destruct (String.eqb_spec atomic EmptyString) as [->|Hne]; [done|].
  destruct (dval 0 atomic) as [v|] eqn:Hv.
  2:{ destruct atomic; [done|]. destruct (all_digits _) eqn:Ha; [|done].
      apply (all_digits_dval 0) in Ha as [? ?]. congruence. }
  destruct atomic as [|a0 s0] eqn:Ea; [done|]. rewrite <- Ea in *. clear a0 s0 Ea.
  rewrite (proj2 (all_digits_dval 0 atomic)) by eauto. cbn [negb].
  pose proof (TrimLeft0_dval atomic) as Ht. rewrite Hv in Ht.
  destruct (String.eqb_spec (TrimLeft0 atomic) EmptyString) as [He|Hn].
  - rewrite He in Ht. injection Ht as <-.
    exists "0", "000000", 0%Z, 0%Z. repeat split; try done. by left.
  - destruct (TrimLeft0 atomic) as [|c r] eqn:E; [done|]. set (t := String c r) in *.
    destruct (Nat.leb_spec (String.length t) 6) as [Hl|Hl].
    + destruct (FormatUSDC_short t v Ht) as (fp & -> & Hlen & Hd); [simpl in *; lia|].
      exists "0", fp, 0%Z, v. repeat split; try done; by left.
    + destruct (FormatUSDC_long t v Ht Hl) as (w & x & Hw & Hx & Hlen & Hval).
      exists (take_str (String.length t - 6) t), (drop_str (String.length t - 6) t), w, x.
      repeat split; try done. right.
      destruct (take_str_head (String.length t - 6) c r) as [r' Hr]; [lia|].
      exists c, r'. split; [done | by eapply TrimLeft0_head].
Qed.
