(* ===== verification/Fees.v ===== *)
(** [internal/settlement/fees.go]: the EIP-1559 fee pair of a first broadcast
    and of a replacement, both under the operator's ceiling. *)

From Stdlib Require Import ZArith Lia.
From stdpp Require Import base list.
From S2P Require Import Prelude.

Local Open Scope Z_scope.

(** A nil pointer to a big integer is [None]. *)
Abbreviation big := (option Z) (only parsing).

(** ** Operations *)

Definition EstimateFees (baseFee tipCap ceiling : big) : res (Z * Z) :=
  match ceiling with
  | None => Err [EOpaque]
  | Some c =>
      if c <=? 0 then Err [EOpaque]
      else
        match baseFee, tipCap with
        | Some b, Some t =>
            if (b <? 0) || (t <? 0) then Err [EOpaque]
            else
              let maxFee := b * 2 + t in
              let maxFee := if c <? maxFee then c else maxFee in
              if maxFee =? 0 then Err [EOpaque]
              else
                let priority := if maxFee <? t then maxFee else t in
                Ok (maxFee, priority)
        | _, _ => Err [EOpaque]
        end
  end.

(** The smallest integer at least 110% of [n]. *)
Definition minBump (n : Z) : Z := (n * 11 + 9) / 10.

Definition BumpFees (oldMaxFee oldTip baseFee ceiling : big) : option (Z * Z) :=
  match oldMaxFee, oldTip with
  | Some om, Some ot =>
      if (om <=? 0) || (ot <? 0) then None
      else
        let minTip := minBump ot in
        let bumpedTip := ot * 9 / 8 in
        let bumpedTip :=
          fold_left (fun bt floor => if bt <? floor then floor else bt) [minTip; ot + 1] bumpedTip in
        match EstimateFees baseFee (Some bumpedTip) ceiling with
        | Err _ => None
        | Ok (maxFee, priority) =>
            let minFee := minBump om in
            let c := default 0 ceiling in
            if (maxFee <? minFee) && (c <? minFee) then None
            else
              let maxFee := if maxFee <? minFee then minFee else maxFee in
              let priority := if maxFee <? priority then maxFee else priority in
              if (priority <? minTip) || (maxFee <? minBump om) then None
              else Some (maxFee, priority)
        end
  | _, _ => None
  end.

(** Successive replacements of one transaction: each is computed from the fee
    pair of the one before and the base fee of its moment. *)
Fixpoint bump_chain (baseFees : list Z) (fees : Z * Z) (ceiling : Z) : option (Z * Z) :=
  match baseFees with
  | [] => Some fees
  | b :: bs =>
      match BumpFees (Some (fst fees)) (Some (snd fees)) (Some b) (Some ceiling) with
      | Some fees' => bump_chain bs fees' ceiling
      | None => None
      end
  end.

(** ** Lemmas *)

Lemma minBump_spec n m : minBump n <= m <-> 11 * n <= 10 * m.
Proof. unfold minBump. Z.to_euclidean_division_equations. lia. Qed.

Lemma minBump_le n : 0 <= n -> n <= minBump n.
Proof. unfold minBump. Z.to_euclidean_division_equations. lia. Qed.

Lemma minBump_lt n : 0 < n -> n < minBump n.
Proof. unfold minBump. Z.to_euclidean_division_equations. lia. Qed.

Lemma EstimateFees_Ok b t c m p :
  EstimateFees b t c = Ok (m, p) <->
  exists b' t' c', b = Some b' /\ t = Some t' /\ c = Some c' /\
    0 <= b' /\ 0 <= t' /\ 0 < c' /\ m = Z.min (2 * b' + t') c' /\ p = Z.min t' m /\ 0 < m.
Proof.
  unfold EstimateFees. split.
  - intros H. split_hyps H; bool_hyps;
      (do 3 eexists; do 3 (split; [done|]); lia).
  - intros (b' & t' & c' & -> & -> & -> & Hb & Ht & Hc & Hm & Hp & H0).
    rewrite (proj2 (Z.leb_gt _ _)) by lia.
    rewrite (proj2 (Z.ltb_ge b' _)), (proj2 (Z.ltb_ge t' _)) by lia. simpl.
    assert ((if c' <? b' * 2 + t' then c' else b' * 2 + t') = m) as ->
      by (destruct (Z.ltb_spec c' (b' * 2 + t')); lia).
    rewrite (proj2 (Z.eqb_neq m 0)) by lia.
    destruct (Z.ltb_spec m t'); do 2 f_equal; lia.
Qed.

Lemma bumpedTip_spec ot :
  0 <= ot ->
  let bt := fold_left (fun bt floor => if bt <? floor then floor else bt)
              [minBump ot; ot + 1] (ot * 9 / 8) in
  minBump ot <= bt /\ ot < bt.
Proof.
  intros H. simpl. destruct (Z.ltb_spec (ot * 9 / 8) (minBump ot));
    repeat match goal with |- context [if ?a <? ?b then _ else _] => destruct (Z.ltb_spec a b) end; lia.
Qed.

Lemma BumpFees_Some om ot b c m p :
  BumpFees om ot b c = Some (m, p) ->
  exists om' ot' b' c', om = Some om' /\ ot = Some ot' /\ b = Some b' /\ c = Some c' /\
    0 < om' /\ 0 <= ot' /\ 0 <= b' /\
    m <= c' /\ p <= m /\ minBump om' <= m /\ minBump ot' <= p /\ ot' < p.
Proof.
  unfold BumpFees. destruct om as [om|], ot as [ot|]; try done.
  destruct ((om <=? 0) || (ot <? 0)) eqn:E0; [done|]. bool_hyps.
  pose proof (bumpedTip_spec ot ltac:(lia)) as Hbt.
  set (bt := fold_left _ _ _) in *. clearbody bt. simpl in Hbt.
  destruct (EstimateFees _ _ _) as [[mf pf]|] eqn:EF; [|done].
  apply EstimateFees_Ok in EF as (b' & t' & c' & -> & Ht & -> & Hb & Ht' & Hc & Hm & Hp & Hpos).
  injection Ht as <-. simpl default. intros HH.
  exists om, ot, b', c'. do 4 (split; [done|]).
  pose proof (minBump_le om ltac:(lia)). pose proof (minBump_lt ot).
  split_hyps HH; bool_hyps; try lia.
  all: repeat match goal with H : (_ && _) = false |- _ => apply andb_false_iff in H as [H|H] end;
    bool_hyps; lia.
Qed.

Lemma BumpFees_feasible om ot b c :
  0 < om -> 0 <= ot -> 0 <= b -> minBump om <= c -> minBump ot <= c ->
  is_Some (BumpFees (Some om) (Some ot) (Some b) (Some c)).
Proof.
  intros Hom Hot Hb Hm Ht. unfold BumpFees.
  rewrite (proj2 (Z.leb_gt om 0)), (proj2 (Z.ltb_ge ot 0)) by lia. cbn [orb].
  pose proof (bumpedTip_spec ot Hot) as Hbt. set (bt := fold_left _ _ _) in *. simpl in Hbt.
  pose proof (minBump_le om ltac:(lia)).
  assert (EstimateFees (Some b) (Some bt) (Some c) =
    Ok (Z.min (2 * b + bt) c, Z.min bt (Z.min (2 * b + bt) c))) as ->.
  { apply EstimateFees_Ok. exists b, bt, c. repeat split; lia. }
  simpl default. set (mf := Z.min (2 * b + bt) c).
  assert ((mf <? minBump om) && (c <? minBump om) = false) as ->.
  { apply andb_false_iff. right. by apply Z.ltb_ge. }
  repeat match goal with
  | |- context [if ?a <? ?b then _ else _] => destruct (Z.ltb_spec a b)
  end; try lia; rewrite ?orb_false_r, ?orb_true_r.
  all: repeat match goal with
  | |- context [?a <? ?b] => destruct (Z.ltb_spec a b)
  end; try lia; simpl; eauto.
Qed.

(** ** Properties *)

(** [EstimateFees] is total on its domain and never leaves the ceiling:
    it succeeds exactly when the ceiling is positive and base fee and tip are
    present, unsigned and not both zero; the fee pair is then
    [min (2 * base + tip) ceiling] with the tip capped by it. *)
Theorem EstimateFees_spec b t c :
  match EstimateFees (Some b) (Some t) (Some c) with
  | Ok (m, p) =>
      m = Z.min (2 * b + t) c /\ p = Z.min t m /\ 0 < m <= c /\ 0 <= p <= m
  | Err _ => c <= 0 \/ b < 0 \/ t < 0 \/ (b = 0 /\ t = 0)
  end.
Proof.
  destruct (EstimateFees _ _ _) as [[m p]|e] eqn:E.
  - apply EstimateFees_Ok in E as (? & ? & ? & ? & ? & ? & ?). simplify_eq. lia.
  - unfold EstimateFees in E. split_hyps E; bool_hyps; lia.
Qed.

(** A replacement the mempool's price-bump rule accepts is found whenever
    one exists: for a well-formed predecessor, [BumpFees] returns a pair that
    reaches 110% of both old fees, keeps the tip within the fee cap, raises
    both fees and respects the ceiling; and it returns nothing only when no
    pair under the ceiling reaches 110% of both. *)
Theorem BumpFees_complete om ot b c :
  0 < om -> 0 <= ot -> 0 <= b ->
  match BumpFees (Some om) (Some ot) (Some b) (Some c) with
  | Some (m, p) =>
      11 * om <= 10 * m /\ 11 * ot <= 10 * p /\ om < m /\ ot < p /\ p <= m /\ m <= c
  | None => forall m p, p <= m -> m <= c -> 11 * om <= 10 * m -> 11 * ot <= 10 * p -> False
  end.
Proof.
  intros Hom Hot Hb. destruct (BumpFees _ _ _ _) as [[m p]|] eqn:E.
  - apply BumpFees_Some in E as (? & ? & ? & ? & ? & ? & ? & ? & H).
    simplify_eq. rewrite !minBump_spec in H. lia.
  - intros m p Hpm Hmc Hm Hp. rewrite <- minBump_spec in Hm, Hp.
    destruct (BumpFees_feasible om ot b c) as [x Hx]; [lia..|]. congruence.
Qed.

Lemma BumpFees_complete_witness :
  match BumpFees (Some 100) (Some 0) (Some 20) (Some 120) with
  | Some (m, p) =>
      11 * 100 <= 10 * m /\ 11 * 0 <= 10 * p /\ 100 < m /\ 0 < p /\ p <= m /\ m <= 120
  | None => forall m p, p <= m -> m <= 120 -> 11 * 100 <= 10 * m -> 11 * 0 <= 10 * p -> False
  end.
Proof. apply (BumpFees_complete 100 0 20 120); lia. Defined.

(** C29. Replacement terminates: a chain of [n] successive bumps that all
    succeed, from a first fee cap [m0] under the ceiling, satisfies
    [11^n * m0 <= 10^n * ceiling]; a stuck transaction is therefore replaced
    at most logarithmically often before the ceiling stops it. *)
Theorem bump_chain_bounded bs m0 p0 c :
  m0 <= c -> is_Some (bump_chain bs (m0, p0) c) ->
  11 ^ Z.of_nat (length bs) * m0 <= 10 ^ Z.of_nat (length bs) * c.
Proof.
  revert m0 p0. induction bs as [|b bs IH]; intros m0 p0 Hc H; [simpl; lia|].
  cbn [bump_chain fst snd] in H. destruct (BumpFees _ _ _ _) as [[m p]|] eqn:E; [|by destruct H].
  apply BumpFees_Some in E as (? & ? & ? & ? & ? & ? & ? & ? & HH). simplify_eq.
  destruct HH as (_ & _ & _ & Hmc & _ & Hm & _). apply minBump_spec in Hm.
  specialize (IH _ _ Hmc H). rewrite length_cons, Nat2Z.inj_succ, !Z.pow_succ_r by lia.
  pose proof (Z.pow_pos_nonneg 11 (Z.of_nat (length bs)) ltac:(lia) ltac:(lia)). nia.
Qed.

Lemma bump_chain_bounded_witness :
  11 ^ Z.of_nat (length [7; 8; 9]) * 100 <= 10 ^ Z.of_nat (length [7; 8; 9]) * 150.
Proof.
  apply (bump_chain_bounded [7; 8; 9] 100 1 150); [lia|].
  vm_compute. eauto.
Defined.
