(* ===== verification/State.v ===== *)
(** [internal/settlement/state.go]: the payment state machine. *)

From Stdlib Require Import ZArith Lia.
From stdpp Require Import base list strings.
From S2P Require Import Prelude.

Inductive State :=
  | StateReceived
  | StateVerificationFailed
  | StateVerified
  | StateBroadcasting
  | StateBroadcast
  | StateConfirming
  | StateConfirmed
  | StateFailed
  | StateReverted
  | StateReplaced
  | StateExpired
  | StateManualReview.

#[export] Instance State_eq_dec : EqDecision State.
Proof. solve_decision. Defined.

(** The constants' string values, which the database stores. *)
Definition State_string (s : State) : string :=
  match s with
  | StateReceived => "received"
  | StateVerificationFailed => "verification_failed"
  | StateVerified => "verified"
  | StateBroadcasting => "broadcasting"
  | StateBroadcast => "broadcast"
  | StateConfirming => "confirming"
  | StateConfirmed => "confirmed"
  | StateFailed => "failed"
  | StateReverted => "reverted"
  | StateReplaced => "replaced"
  | StateExpired => "expired"
  | StateManualReview => "manual_review"
  end.

(** The [transitions] table: the successors of a state, none when the state
    has no entry. *)
Definition transitions (s : State) : list State :=
  match s with
  | StateReceived => [StateVerificationFailed; StateVerified; StateExpired; StateManualReview]
  | StateVerified => [StateBroadcasting; StateExpired; StateManualReview]
  | StateBroadcasting => [StateBroadcast; StateFailed; StateExpired; StateManualReview]
  | StateBroadcast =>
      [StateConfirming; StateConfirmed; StateReverted; StateReplaced; StateManualReview]
  | StateConfirming =>
      [StateBroadcast; StateConfirmed; StateReverted; StateReplaced; StateManualReview]
  | StateReplaced => [StateConfirming; StateConfirmed; StateReverted; StateManualReview]
  | StateExpired => [StateManualReview]
  | StateManualReview =>
      [StateVerified; StateBroadcast; StateConfirming; StateReplaced; StateFailed; StateExpired]
  | _ => []
  end.

Definition CanTransition (from to : State) : bool := bool_decide (to ∈ transitions from).

Definition ValidateTransition (from to : State) : res unit :=
  if CanTransition from to then Ok tt else Err [EOpaque].

(** A record of successive transitions that starts in [from], follows the
    table and ends in [to]. *)
Fixpoint valid_path (from : State) (steps : list (State * State)) (to : State) : bool :=
  match steps with
  | [] => bool_decide (from = to)
  | (a, b) :: steps => bool_decide (a = from) && CanTransition a b && valid_path b steps to
  end.

(** ** Lemmas *)

Lemma State_string_inj a b : State_string a = State_string b -> a = b.
Proof. destruct a, b; simpl; congruence. Qed.

Lemma valid_path_app from l1 l2 mid to :
  valid_path from l1 mid = true -> valid_path mid l2 to = true ->
  valid_path from (l1 ++ l2) to = true.
Proof.
  revert from. induction l1 as [|[a b] l1 IH]; intros from H1 H2; simpl in *.
  - bool_hyps. by subst.
  - bool_hyps. subst. rewrite bool_decide_true by done. simpl.
    apply andb_true_intro. split; [done | by apply IH].
Qed.

Lemma valid_path_snoc from l mid to :
  valid_path from l mid = true -> CanTransition mid to = true ->
  valid_path from (l ++ [(mid, to)]) to = true.
Proof.
  intros H1 H2. eapply valid_path_app; [done|]. simpl.
  by rewrite !bool_decide_true, H2.
Qed.

(** Settlement starts from verified only. *)
Lemma CanTransition_broadcasting s : CanTransition s StateBroadcasting = true -> s = StateVerified.
Proof. by destruct s. Qed.

(** The outcomes of a payment that is over. *)
Definition terminal (s : State) : bool :=
  match s with
  | StateConfirmed | StateReverted | StateFailed | StateVerificationFailed => true
  | _ => false
  end.

Lemma terminal_no_exit s to : terminal s = true -> CanTransition s to = false.
Proof. by destruct s, to. Qed.
