(* ===== verification/Geth.v ===== *)
(** The go-ethereum functions the facilitator calls, as an interface.

    go-ethereum is a dependency, not part of the repository: its address
    parsing, ABI packing, transaction encoding, hashing and sender recovery
    are operations of the class [Geth].  Nothing is assumed of them here;
    a theorem that relies on documented behaviour names it as a hypothesis. *)

From Stdlib Require Import ZArith Lia Strings.Byte.
From stdpp Require Import base list strings.
From S2P Require Import Prelude GoStd.

(** [types.DynamicFeeTxType]. *)
Definition DynamicFeeTxType : Z := 2.

(** [types.Transaction] through its accessors.  [tx_sig] stands for the
    signature values; an unsigned transaction has none. *)
Record gethTx (A : Type) := {
  tx_Type : Z;
  tx_ChainId : Z;
  tx_Nonce : Z;
  tx_To : option A;
  tx_Value : Z;
  tx_Gas : Z;
  tx_GasFeeCap : Z;
  tx_GasTipCap : Z;
  tx_Data : list byte;
  tx_sig : option (list byte);
}.
Arguments tx_Type {A}.
Arguments tx_ChainId {A}.
Arguments tx_Nonce {A}.
Arguments tx_To {A}.
Arguments tx_Value {A}.
Arguments tx_Gas {A}.
Arguments tx_GasFeeCap {A}.
Arguments tx_GasTipCap {A}.
Arguments tx_Data {A}.
Arguments tx_sig {A}.

Class Geth := {
  (** [common.Address] *)
  address : Type;
  address_eq_dec :: EqDecision address;
  IsHexAddress : string -> bool;
  HexToAddress : string -> address;
  address_Hex : address -> string;
  (** [sha3.NewLegacyKeccak256] *)
  keccak256 : list byte -> list byte;
  (** [abi.JSON] of the official v/r/s ABI followed by [Pack] of
      [transferWithAuthorization]: from, to, value, validAfter, validBefore,
      nonce, v, r, s. *)
  Pack : address -> address -> Z -> Z -> Z -> list byte -> Z -> list byte -> list byte ->
         res (list byte);
  UnmarshalBinary : list byte -> option (gethTx address);
  MarshalBinary : gethTx address -> option (list byte);
  (** [types.LatestSignerForChainID(chain).Hash(tx)] *)
  SigHashOf : Z -> gethTx address -> list byte;
  (** [types.Sender(types.LatestSignerForChainID(chain), tx)] *)
  Sender : Z -> gethTx address -> option address;
  (** [crypto.SigToPub] then [crypto.PubkeyToAddress] *)
  RecoverAddress : list byte -> list byte -> option address;
  (** [crypto.S256().Params().N] *)
  S256_N : Z;
}.

Section NewTx.
  Context `{Geth}.

(** [types.NewTx(&types.DynamicFeeTx{...})]. *)
Definition NewDynamicFeeTx (chain nonce : Z) (to : address) (value gas feeCap tipCap : Z)
    (data : list byte) : gethTx address :=
  {| tx_Type := DynamicFeeTxType; tx_ChainId := chain; tx_Nonce := nonce; tx_To := Some to;
     tx_Value := value; tx_Gas := gas; tx_GasFeeCap := feeCap; tx_GasTipCap := tipCap;
     tx_Data := data; tx_sig := None |}.

(** [tx.WithSignature]: every field but the signature is kept. *)
Definition WithSignature (t : gethTx address) (sig : list byte) : gethTx address :=
  {| tx_Type := tx_Type t; tx_ChainId := tx_ChainId t; tx_Nonce := tx_Nonce t; tx_To := tx_To t;
     tx_Value := tx_Value t; tx_Gas := tx_Gas t; tx_GasFeeCap := tx_GasFeeCap t;
     tx_GasTipCap := tx_GasTipCap t; tx_Data := tx_Data t; tx_sig := Some sig |}.

End NewTx.

(** ** A concrete instance

    A small executable stand-in, used to show that the hypotheses theorems
    place on [Geth] can hold together: addresses are their lower-case text, a
    signature is the signer's address, and a transaction is encoded as its
    index in a table. *)

(** The documented behaviour of [common.IsHexAddress]: 40 hexadecimal digits,
    with or without a 0x prefix. *)
Definition strip_0x (s : string) : string :=
  if HasPrefix s "0x" || HasPrefix s "0X" then drop_str 2 s else s.

Definition hex_address (s : string) : bool :=
  match hex_DecodeString (strip_0x s) with
  | Some b => (length b =? 20)%nat
  | None => false
  end.

Fixpoint index_of (t : gethTx string) (txs : list (gethTx string)) (n : N)
    (eqb : gethTx string -> gethTx string -> bool) : option N :=
  match txs with
  | [] => None
  | x :: r => if eqb x t then Some n else index_of t r (n + 1) eqb
  end.

#[export] Instance gethTx_eq_dec {A} `{EqDecision A} : EqDecision (gethTx A).
Proof. solve_decision. Defined.

Definition demo_selector_text : string :=
  "transferWithAuthorization(address,address,uint256,uint256,uint256,bytes32,uint8,bytes32,bytes32)".

Definition demo_keccak (b : list byte) : list byte := take 32 (b ++ replicate 32 x00).

Definition DemoGeth (txs : list (gethTx string)) : Geth := {|
  address := string;
  address_eq_dec := _;
  IsHexAddress := hex_address;
  HexToAddress s := ToLower s;
  address_Hex a := a;
  keccak256 := demo_keccak;
  Pack from to value after before nonce v r s :=
    Ok (take 4 (demo_keccak (bytes_of_string demo_selector_text)) ++
        bytes_of_string from ++ bytes_of_string to ++
        bytes_of_string (FormatInt value) ++ bytes_of_string (FormatInt after) ++
        bytes_of_string (FormatInt before) ++ nonce ++ [byte_of_Z v] ++ r ++ s)%list;
  UnmarshalBinary raw :=
    match raw with
    | [b] => txs !! N.to_nat (Byte.to_N b)
    | _ => None
    end;
  MarshalBinary t :=
    match index_of t txs 0 (fun a b => bool_decide (a = b)) with
    | Some n => match Byte.of_N n with Some b => Some [b] | None => None end
    | None => None
    end;
  SigHashOf chain t := demo_keccak (tx_Data t);
  Sender chain t :=
    if (tx_ChainId t =? chain)%Z then option_map String.string_of_list_byte (tx_sig t) else None;
  RecoverAddress digest sig := Some (String.string_of_list_byte sig);
  S256_N := 0xfffffffffffffffffffffffffffffffebaaedce6af48a03bbfd25e8cd0364141%Z;
|}.

Lemma index_of_lookup t txs n m :
  index_of t txs n (fun a b => bool_decide (a = b)) = Some m ->
  (n <= m)%N /\ txs !! N.to_nat (m - n) = Some t.
Proof.
  revert n. induction txs as [|x txs IH]; intros n Hm; simpl in Hm; [done|].
  destruct (bool_decide_reflect (x = t)) as [->|Hne].
  - injection Hm as <-. by rewrite N.sub_diag.
  - destruct (IH _ Hm) as [Hle Hl]. split; [lia|].
    replace (N.to_nat (m - n)) with (S (N.to_nat (m - (n + 1)))) by lia. done.
Qed.

(** The instance decodes what it encodes. *)
Lemma demo_codec txs (t : gethTx string) raw :
  @MarshalBinary (DemoGeth txs) t = Some raw -> @UnmarshalBinary (DemoGeth txs) raw = Some t.
Proof.
  simpl. destruct (index_of _ _ _ _) as [n|] eqn:E; [|done].
  destruct (Byte.of_N n) as [b|] eqn:Eb; [|done]. intros [= <-].
  apply index_of_lookup in E as [_ Hl]. apply Byte.to_of_N in Eb. subst n.
  by rewrite N.sub_0_r in Hl.
Qed.
