(* ===== verification/Policy.v ===== *)
(** [internal/policy/policy.go]: the signing boundary's allowlist.  The
    boundary is handed authorization fields and builds the transaction it
    signs, so what it can sign is a structural property of [Unsigned]. *)

From Stdlib Require Import ZArith Lia Strings.Byte.
From stdpp Require Import base list strings.
From S2P Require Import Prelude GoStd Geth.

Local Open Scope Z_scope.

(** [config.MainnetChainID], [config.MainnetUSDC]. *)
Definition MainnetChainID : Z := 1.
Definition MainnetUSDC : string := "0xA0b86991c6218b36c1d19D4a2e9Eb0cE3606eB48".

(** ** Wire data *)

Record Authorization := {
  From : string;
  To : string;
  Value : string;
  ValidAfter : string;
  ValidBefore : string;
  Nonce : string;
  Signature : string;
}.

Record Request := {
  req_Nonce : Z;
  req_GasLimit : Z;
  req_MaxFeePerGas : string;
  req_MaxPriorityFeePerGas : string;
  req_Authorization : Authorization;
}.

Record Response := {
  RawTransaction : string;
  SignerAddress : string;
}.

Record Limits := {
  MaxFeePerGasWei : option Z;
  MaxPriorityFeePerGasWei : option Z;
  MaxGasLimit : Z;
}.

(** ** Calldata construction *)

Definition decodeFixed32 (value : string) : res (list byte) :=
  match hex_DecodeString (TrimPrefix value "0x") with
  | Some raw => if (length raw =? 32)%nat then Ok raw else Err [EOpaque]
  | None => Err [EOpaque]
  end.

(** The 65-byte signature as [v], [r], [s], the recovery id raised to 27/28. *)
Definition splitSignature (signature : string) : res (Z * list byte * list byte) :=
  match hex_DecodeString (TrimPrefix signature "0x") with
  | Some raw =>
      if negb (length raw =? 65)%nat then Err [EOpaque]
      else
        let r := take 32 raw in
        let s := take 32 (drop 32 raw) in
        let v := Z_of_byte (nth 64 raw x00) in
        if (v =? 0) || (v =? 1) then Ok (v + 27, r, s)
        else if (v =? 27) || (v =? 28) then Ok (v, r, s)
        else Err [EOpaque]
  | None => Err [EOpaque]
  end.

Section Policy.
  Context `{Geth}.

Definition TransferWithAuthorizationData (auth : Authorization) : res (list byte) :=
  if negb (IsHexAddress (From auth)) || negb (IsHexAddress (To auth)) then Err [EOpaque]
  else
    match SetString10 (Value auth) with
    | None => Err [EOpaque]
    | Some value =>
        if value <=? 0 then Err [EOpaque]
        else
          match ParseInt64 (ValidAfter auth) with
          | None => Err [EOpaque]
          | Some validAfter =>
              if validAfter <? 0 then Err [EOpaque]
              else
                match ParseInt64 (ValidBefore auth) with
                | None => Err [EOpaque]
                | Some validBefore =>
                    if validBefore <=? validAfter then Err [EOpaque]
                    else
                      let? nonce := decodeFixed32 (Nonce auth) in
                      let? (v, r, s) := splitSignature (Signature auth) in
                      Pack (HexToAddress (From auth)) (HexToAddress (To auth))
                        value validAfter validBefore nonce v r s
                end
          end
    end.

(** The transaction the boundary is willing to sign for a request. *)
Definition Unsigned (request : Request) (limits : Limits) : res (gethTx address) :=
  if req_GasLimit request =? 0 then Err [EInvalidRequest]
  else
    match SetString10 (req_MaxFeePerGas request) with
    | None => Err [EInvalidRequest]
    | Some maxFee =>
        if maxFee <=? 0 then Err [EInvalidRequest]
        else
          match SetString10 (req_MaxPriorityFeePerGas request) with
          | None => Err [EInvalidRequest]
          | Some priorityFee =>
              if priorityFee <? 0 then Err [EInvalidRequest]
              else if maxFee <? priorityFee then Err [EInvalidRequest]
              else
                match MaxFeePerGasWei limits, MaxPriorityFeePerGasWei limits with
                | Some feeCeiling, Some tipCeiling =>
                    if MaxGasLimit limits =? 0 then Err [EOverLimit]
                    else if MaxGasLimit limits <? req_GasLimit request then Err [EOverLimit]
                    else if feeCeiling <? maxFee then Err [EOverLimit]
                    else if tipCeiling <? priorityFee then Err [EOverLimit]
                    else
                      match TransferWithAuthorizationData (req_Authorization request) with
                      | Err e => Err (EInvalidRequest :: e)
                      | Ok calldata =>
                          Ok (NewDynamicFeeTx MainnetChainID (req_Nonce request)
                                (HexToAddress MainnetUSDC) 0 (req_GasLimit request)
                                maxFee priorityFee calldata)
                      end
                | _, _ => Err [EOverLimit]
                end
          end
    end.

End Policy.

(** ** Lemmas *)

Lemma decodeFixed32_length value raw : decodeFixed32 value = Ok raw -> length raw = 32%nat.
Proof.
  unfold decodeFixed32. intros H. split_hyps H. by apply Nat.eqb_eq.
Qed.

Lemma splitSignature_inv signature v r s :
  splitSignature signature = Ok (v, r, s) ->
  (v = 27 \/ v = 28) /\ length r = 32%nat /\ length s = 32%nat.
Proof.
  unfold splitSignature. destruct (hex_DecodeString _) as [raw|]; [|done].
  destruct (Nat.eqb_spec (length raw) 65) as [Hl|]; [|done]. simpl negb. cbv iota.
  assert (length (take 32 raw) = 32%nat /\ length (take 32 (drop 32 raw)) = 32%nat) as [? ?]
    by (rewrite !length_take, length_drop; lia).
  intros H'. split_hyps H'; repeat split; try done; lia.
Qed.

(** A signature and its other recovery-id encoding split alike. *)
Lemma splitSignature_normalizes (body : list byte) (v : Z) :
  length body = 64%nat -> 0 <= v <= 1 ->
  splitSignature ("0x" +:+ hex_EncodeToString (body ++ [byte_of_Z v])) =
  splitSignature ("0x" +:+ hex_EncodeToString (body ++ [byte_of_Z (v + 27)])).
Proof.
  intros Hl Hv. unfold splitSignature. rewrite !TrimPrefix_app, !hex_roundtrip.
  rewrite !length_app, Hl. simpl negb. cbv iota zeta.
  assert (nth 64 (body ++ [byte_of_Z v]) x00 = byte_of_Z v) as ->
    by (rewrite app_nth2 by lia; by rewrite Hl).
  assert (nth 64 (body ++ [byte_of_Z (v + 27)]) x00 = byte_of_Z (v + 27)) as ->
    by (rewrite app_nth2 by lia; by rewrite Hl).
  rewrite !take_app_le by lia. rewrite !drop_app_le by lia.
  rewrite !take_app_le by (rewrite length_drop; lia).
  assert (v = 0 \/ v = 1) as [-> | ->] by lia; reflexivity.
Qed.

Section PolicyLemmas.
  Context `{Geth}.

Lemma TransferWithAuthorizationData_inv auth data :
  TransferWithAuthorizationData auth = Ok data ->
  exists value validAfter validBefore nonce v r s,
    IsHexAddress (From auth) = true /\ IsHexAddress (To auth) = true /\
    SetString10 (Value auth) = Some value /\ 0 < value /\
    ParseInt64 (ValidAfter auth) = Some validAfter /\
    ParseInt64 (ValidBefore auth) = Some validBefore /\ 0 <= validAfter < validBefore /\
    decodeFixed32 (Nonce auth) = Ok nonce /\ splitSignature (Signature auth) = Ok (v, r, s) /\
    Pack (HexToAddress (From auth)) (HexToAddress (To auth)) value validAfter validBefore
      nonce v r s = Ok data.
Proof.
  unfold TransferWithAuthorizationData. intros HH.
  destruct (_ || _) eqn:Ea; [done|]. bool_hyps.
  destruct (SetString10 _) as [value|]; [|done].
  destruct (Z.leb_spec value 0); [done|].
  destruct (ParseInt64 (ValidAfter auth)) as [va|]; [|done].
  destruct (Z.ltb_spec va 0); [done|].
  destruct (ParseInt64 (ValidBefore auth)) as [vb|]; [|done].
  destruct (Z.leb_spec vb va); [done|].
  apply res_bind_Ok in HH as (nonce & Hn & HH).
  apply res_bind_Ok in HH as ([[v r] s] & Hs & HH).
  exists value, va, vb, nonce, v, r, s. repeat split; done || lia.
Qed.

(** The authorization fields the boundary accepts, and the calldata for them. *)
Definition authorized_calldata (auth : Authorization) (data : list byte) : Prop :=
  exists value validAfter validBefore nonce v r s,
    IsHexAddress (From auth) = true /\ IsHexAddress (To auth) = true /\
    SetString10 (Value auth) = Some value /\ 0 < value /\
    ParseInt64 (ValidAfter auth) = Some validAfter /\
    ParseInt64 (ValidBefore auth) = Some validBefore /\ 0 <= validAfter < validBefore /\
    length nonce = 32%nat /\ (v = 27 \/ v = 28) /\ length r = 32%nat /\ length s = 32%nat /\
    Pack (HexToAddress (From auth)) (HexToAddress (To auth)) value validAfter validBefore
      nonce v r s = Ok data.

Lemma TransferWithAuthorizationData_authorized auth data :
  TransferWithAuthorizationData auth = Ok data -> authorized_calldata auth data.
Proof.
  intros (value & va & vb & nonce & v & r & s & Hf & Ht & Hv & Hv0 & Hva & Hvb & Hw & Hn & Hs & Hpk)%TransferWithAuthorizationData_inv.
  apply decodeFixed32_length in Hn. apply splitSignature_inv in Hs as (? & ? & ?).
  exists value, va, vb, nonce, v, r, s. repeat split; done || lia.
Qed.

Lemma Unsigned_inv request limits tx :
  Unsigned request limits = Ok tx ->
  exists maxFee priorityFee feeCeiling tipCeiling calldata,
    SetString10 (req_MaxFeePerGas request) = Some maxFee /\
    SetString10 (req_MaxPriorityFeePerGas request) = Some priorityFee /\
    MaxFeePerGasWei limits = Some feeCeiling /\ MaxPriorityFeePerGasWei limits = Some tipCeiling /\
    req_GasLimit request <> 0 /\ req_GasLimit request <= MaxGasLimit limits /\
    0 < maxFee <= feeCeiling /\ 0 <= priorityFee <= tipCeiling /\ priorityFee <= maxFee /\
    TransferWithAuthorizationData (req_Authorization request) = Ok calldata /\
    tx = NewDynamicFeeTx MainnetChainID (req_Nonce request) (HexToAddress MainnetUSDC) 0
           (req_GasLimit request) maxFee priorityFee calldata.
Proof.
  unfold Unsigned. intros HH. split_hyps HH. bool_hyps.
  do 5 eexists. repeat split; done || lia.
Qed.

(** Every well-formed request under the ceilings is built. *)
Lemma Unsigned_Ok request limits maxFee priorityFee feeCeiling tipCeiling calldata :
  SetString10 (req_MaxFeePerGas request) = Some maxFee ->
  SetString10 (req_MaxPriorityFeePerGas request) = Some priorityFee ->
  MaxFeePerGasWei limits = Some feeCeiling -> MaxPriorityFeePerGasWei limits = Some tipCeiling ->
  0 < req_GasLimit request <= MaxGasLimit limits ->
  0 < maxFee <= feeCeiling -> 0 <= priorityFee <= tipCeiling -> priorityFee <= maxFee ->
  TransferWithAuthorizationData (req_Authorization request) = Ok calldata ->
  Unsigned request limits =
    Ok (NewDynamicFeeTx MainnetChainID (req_Nonce request) (HexToAddress MainnetUSDC) 0
          (req_GasLimit request) maxFee priorityFee calldata).
Proof.
  intros Hm Hp Hfc Htc Hg Hmf Hpf Hpm Hcd. unfold Unsigned. rewrite Hm, Hp, Hfc, Htc, Hcd.
  repeat match goal with
  | |- context [?a =? ?b] => rewrite (proj2 (Z.eqb_neq a b)) by lia
  | |- context [?a <=? ?b] => rewrite (proj2 (Z.leb_gt a b)) by lia
  | |- context [?a <? ?b] => rewrite (proj2 (Z.ltb_ge a b)) by lia
  end. done.
Qed.

(** ** Properties *)

(** What the signing boundary signs is fixed by its construction: a
    transaction [Unsigned] returns is an EIP-1559 transaction on chain 1 to
    the canonical USDC contract with zero ether value, the caller's nonce and
    gas limit under the boundary's own ceilings, and calldata packed from a
    well-formed authorization (hex addresses, a positive value, a non-empty
    validity window, a 32-byte nonce and a normalised signature). *)
Theorem Unsigned_allowlist request limits tx :
  Unsigned request limits = Ok tx ->
  tx_Type tx = DynamicFeeTxType /\ tx_ChainId tx = MainnetChainID /\
  tx_To tx = Some (HexToAddress MainnetUSDC) /\ tx_Value tx = 0 /\
  tx_Nonce tx = req_Nonce request /\ tx_Gas tx = req_GasLimit request /\
  tx_Gas tx <> 0 /\ tx_Gas tx <= MaxGasLimit limits /\
  0 < tx_GasFeeCap tx <= default 0 (MaxFeePerGasWei limits) /\
  0 <= tx_GasTipCap tx <= default 0 (MaxPriorityFeePerGasWei limits) /\
  tx_GasTipCap tx <= tx_GasFeeCap tx /\
  authorized_calldata (req_Authorization request) (tx_Data tx).
Proof.
  intros (mf & pf & fc & tc & cd & Hm & Hp & Hfc & Htc & Hg & Hgl & Hmf & Hpf & Hpm & Hcd & ->)%Unsigned_inv.
  simpl. rewrite Hfc, Htc. repeat split; try (done || (simpl; lia)).
  by apply TransferWithAuthorizationData_authorized.
Qed.

End PolicyLemmas.

Definition demo_address (c : string) : string := "0x" +:+ Repeat c 40.

Definition demo_authorization : Authorization :=
  {| From := demo_address "1"; To := demo_address "2"; Value := "1000000";
     ValidAfter := "0"; ValidBefore := "1900000000";
     Nonce := "0x" +:+ Repeat "ab" 32;
     Signature := "0x" +:+ Repeat "cd" 64 +:+ "00" |}.

Definition demo_request : Request :=
  {| req_Nonce := 7; req_GasLimit := 90000; req_MaxFeePerGas := "30000000000";
     req_MaxPriorityFeePerGas := "1000000000"; req_Authorization := demo_authorization |}.

Definition demo_limits : Limits :=
  {| MaxFeePerGasWei := Some 100000000000; MaxPriorityFeePerGasWei := Some 5000000000;
     MaxGasLimit := 120000 |}.

Lemma Unsigned_allowlist_witness :
  exists tx, @Unsigned (DemoGeth []) demo_request demo_limits = Ok tx /\ tx_Gas tx <= 120000.
Proof.
  eexists. split; [vm_compute; reflexivity|].
  eapply (@Unsigned_allowlist (DemoGeth []) demo_request demo_limits). vm_compute. reflexivity.
Defined.
