(* ===== verification/Calldata.v ===== *)
(** [internal/settlement/calldata.go]: the facilitator's own construction of
    the [transferWithAuthorization] calldata, independent of the signing
    boundary's in [Policy], and the theorem that the two agree. *)

From Stdlib Require Import ZArith Lia Strings.Byte.
From stdpp Require Import base list strings.
From S2P Require Import Prelude GoStd Geth Policy.

Local Open Scope Z_scope.

(** The durable authorization: times are timestamps of the payment record. *)
Record Authorization := {
  au_From : string;
  au_To : string;
  au_Value : string;
  au_ValidAfter : time;
  au_ValidBefore : time;
  au_Nonce : string;
  au_Signature : string;
}.

Definition Wire (a : Authorization) : Policy.Authorization :=
  {| From := au_From a; To := au_To a; Value := au_Value a;
     ValidAfter := FormatInt (Unix (au_ValidAfter a));
     ValidBefore := FormatInt (Unix (au_ValidBefore a));
     Nonce := au_Nonce a; Signature := au_Signature a |}.

Definition decodeFixed32 (value : string) : res (list byte) :=
  match hex_DecodeString (TrimPrefix value "0x") with
  | Some raw => if (length raw =? 32)%nat then Ok raw else Err [EOpaque]
  | None => Err [EOpaque]
  end.

Definition splitSignature (signature : string) : res (Z * list byte * list byte) :=
  match hex_DecodeString (TrimPrefix signature "0x") with
  | Some raw =>
      if negb (length raw =? 65)%nat then Err [EOpaque]
      else
        let r := take 32 raw in
        let s := take 32 (drop 32 raw) in
        let v := Z_of_byte (nth 64 raw x00) in
        if (v =? 0) || (v =? 1) then Ok (v + 27, r, s)
        else if (v =? 27) || (v =? 28) then Ok (v, r, s)
        else Err [EOpaque]
  | None => Err [EOpaque]
  end.

Definition TransferWithAuthorizationData `{Geth} (auth : Authorization) : res (list byte) :=
  if negb (IsHexAddress (au_From auth)) || negb (IsHexAddress (au_To auth)) then Err [EOpaque]
  else
    match SetString10 (au_Value auth) with
    | None => Err [EOpaque]
    | Some value =>
        if value <=? 0 then Err [EOpaque]
        else
          let? nonce := decodeFixed32 (au_Nonce auth) in
          let? (v, r, s) := splitSignature (au_Signature auth) in
          Pack (HexToAddress (au_From auth)) (HexToAddress (au_To auth))
            value (Unix (au_ValidAfter auth)) (Unix (au_ValidBefore auth)) nonce v r s
    end.

(** ** The two constructions agree *)

Lemma decodeFixed32_agree value : decodeFixed32 value = Policy.decodeFixed32 value.
Proof. reflexivity. Qed.

Lemma splitSignature_agree signature : splitSignature signature = Policy.splitSignature signature.
Proof. reflexivity. Qed.

Definition is_int64 (z : Z) : Prop := - 2 ^ 63 <= z < 2 ^ 63.

(** C28. The facilitator and the signing boundary build the same calldata: for
    an authorization whose times fit Go's 64-bit Unix seconds, the boundary's
    construction from the wire form returns exactly what the facilitator
    packed, and refuses in addition only windows that start before the epoch
    or are empty. *)
Theorem calldata_constructions_agree `{Geth} auth :
  is_int64 (Unix (au_ValidAfter auth)) -> is_int64 (Unix (au_ValidBefore auth)) ->
  Policy.TransferWithAuthorizationData (Wire auth) =
  if (0 <=? Unix (au_ValidAfter auth)) && (Unix (au_ValidAfter auth) <? Unix (au_ValidBefore auth))
  then TransferWithAuthorizationData auth
  else Err [EOpaque].
Proof.
  intros Ha Hb. unfold Policy.TransferWithAuthorizationData, TransferWithAuthorizationData. simpl.
  rewrite !ParseInt64_print by done. unfold decodeFixed32, splitSignature.
  fold (Policy.decodeFixed32 (au_Nonce auth)) (Policy.splitSignature (au_Signature auth)).
  destruct (negb _ || negb _); [by destruct (_ && _)|].
  destruct (SetString10 _) as [value|]; [|by destruct (_ && _)].
  destruct (value <=? 0); [by destruct (_ && _)|].
  destruct (Z.ltb_spec (Unix (au_ValidAfter auth)) 0), (Z.leb_spec 0 (Unix (au_ValidAfter auth)));
    try lia; [done|].
  destruct (Z.leb_spec (Unix (au_ValidBefore auth)) (Unix (au_ValidAfter auth))),
    (Z.ltb_spec (Unix (au_ValidAfter auth)) (Unix (au_ValidBefore auth))); try lia; done.
Qed.

Definition demo_durable : Authorization :=
  {| au_From := demo_address "1"; au_To := demo_address "2"; au_Value := "1000000";
     au_ValidAfter := 0; au_ValidBefore := 1900000000 * second;
     au_Nonce := "0x" +:+ Repeat "ab" 32;
     au_Signature := "0x" +:+ Repeat "cd" 64 +:+ "00" |}.

Lemma calldata_constructions_agree_witness :
  @Policy.TransferWithAuthorizationData (DemoGeth []) (Wire demo_durable) =
  @TransferWithAuthorizationData (DemoGeth []) demo_durable.
Proof.
  apply (@calldata_constructions_agree (DemoGeth []) demo_durable);
    unfold is_int64; vm_compute; split; congruence.
Defined.
