(* ===== verification/Signer.v ===== *)
(** [internal/signer]: the transaction a signer is handed and its validation,
    the Development and Cloud KMS backends, and the client of the signing
    boundary, which checks the boundary's answer instead of trusting it. *)

From Stdlib Require Import ZArith Lia Strings.Byte.
From stdpp Require Import base list strings.
From S2P Require Import Prelude GoStd Geth Policy.

Local Open Scope Z_scope.

(** ** signer.go *)

Record Transaction := {
  ChainID : Z;
  t_Nonce : Z;
  t_To : string;
  t_Data : list byte;
  t_Value : string;
  t_GasLimit : Z;
  t_MaxFeePerGas : string;
  t_MaxPriorityFeePerGas : string;
  t_Authorization : option Policy.Authorization;
}.

Record SignedTransaction := {
  Raw : list byte;
  SigHash : list byte;
}.

Definition transferWithAuthorizationSignature : string :=
  "transferWithAuthorization(address,address,uint256,uint256,uint256,bytes32,uint8,bytes32,bytes32)".

(** ** DER signatures ([encoding/asn1] on a struct of two big integers) *)

(** The long form of a length: [n] bytes, without leading zeros, below 2^31
    in the way the parser bounds it. *)
Fixpoint der_long_length (n : nat) (acc : Z) (bs : list byte) : option (Z * list byte) :=
  match n with
  | O => Some (acc, bs)
  | S n =>
      match bs with
      | [] => None
      | b :: bs =>
          if 2 ^ 23 <=? acc then None
          else
            let acc := acc * 256 + Z_of_byte b in
            if acc =? 0 then None else der_long_length n acc bs
      end
  end.

(** Tag byte and length; the remaining bytes start with the contents. *)
Definition parseTagAndLength (tag : byte) (bs : list byte) : option (Z * list byte) :=
  match bs with
  | t :: l :: r =>
      if negb (bool_decide (t = tag)) then None
      else
        let l := Z_of_byte l in
        if l <? 128 then Some (l, r)
        else
          let n := Z.to_nat (l - 128) in
          if (n =? 0)%nat then None
          else
            match der_long_length n 0 r with
            | Some (len, r) => if len <? 128 then None else Some (len, r)
            | None => None
            end
  | _ => None
  end.

(** An element: its contents and what follows. *)
Definition der_element (tag : byte) (bs : list byte) : option (list byte * list byte) :=
  match parseTagAndLength tag bs with
  | Some (len, r) =>
      if Z.of_nat (length r) <? len then None
      else Some (take (Z.to_nat len) r, drop (Z.to_nat len) r)
  | None => None
  end.

(** [SetBytes]: big-endian unsigned. *)
Definition SetBytes (bs : list byte) : Z := fold_left (fun acc b => acc * 256 + Z_of_byte b) bs 0.

(** A minimally encoded two's-complement integer. *)
Definition parseBigInt (bs : list byte) : option Z :=
  match bs with
  | [] => None
  | b0 :: r =>
      let minimal :=
        match r with
        | [] => true
        | b1 :: _ =>
            negb ((Z_of_byte b0 =? 0) && (Z_of_byte b1 <? 128)) &&
            negb ((Z_of_byte b0 =? 255) && (128 <=? Z_of_byte b1))
        end in
      if negb minimal then None
      else if 128 <=? Z_of_byte b0
      then Some (SetBytes bs - 2 ^ (8 * Z.of_nat (length bs)))
      else Some (SetBytes bs)
  end.

(** [asn1.Unmarshal(der, &struct{R, S})]: the integers and the trailing
    bytes.  Bytes after the second integer inside the sequence are ignored,
    as the library does. *)
Definition asn1_Unmarshal_RS (der : list byte) : option (Z * Z * list byte) :=
  match der_element x30 der with
  | Some (inner, trailing) =>
      match der_element x02 inner with
      | Some (rb, inner) =>
          match parseBigInt rb, der_element x02 inner with
          | Some r, Some (sb, _) =>
              match parseBigInt sb with
              | Some s => Some (r, s, trailing)
              | None => None
              end
          | _, _ => None
          end
      | None => None
      end
  | None => None
  end.

(** [x.FillBytes(buf)] into [n] bytes. *)
Fixpoint FillBytes (n : nat) (z : Z) : list byte :=
  match n with
  | O => []
  | S n => FillBytes n (z / 256) ++ [byte_of_Z z]
  end.

Section Signer.
  Context `{Geth}.

Definition functionSelector (signature : string) : list byte :=
  take 4 (keccak256 (bytes_of_string signature)).

Definition transferWithAuthorizationSelector : list byte :=
  functionSelector transferWithAuthorizationSignature.

Definition Validate (t : Transaction) : error :=
  let value := SetString10 (t_Value t) in
  let maxFee := SetString10 (t_MaxFeePerGas t) in
  let priorityFee := SetString10 (t_MaxPriorityFeePerGas t) in
  errors_collect
    [(negb (ChainID t =? 1), EOpaque);
     (negb (EqualFold (t_To t) MainnetUSDC), EOpaque);
     ((length (t_Data t) <? 4)%nat
        || negb (bool_decide (take 4 (t_Data t) = transferWithAuthorizationSelector)), EOpaque);
     (t_GasLimit t =? 0, EOpaque);
     (match value with Some v => negb (v =? 0) | None => true end, EOpaque);
     (match maxFee with Some m => m <=? 0 | None => true end, EOpaque);
     (match priorityFee with Some p => p <? 0 | None => true end, EOpaque);
     (match maxFee, priorityFee with
      | Some m, Some p => (0 <? m) && (m <? p)
      | _, _ => false
      end, EOpaque)].

(** The EIP-1559 transaction the in-process backends build. *)
Definition unsignedTx (t : Transaction) : gethTx address :=
  NewDynamicFeeTx (ChainID t) (t_Nonce t) (HexToAddress (t_To t)) 0 (t_GasLimit t)
    (default 0 (SetString10 (t_MaxFeePerGas t)))
    (default 0 (SetString10 (t_MaxPriorityFeePerGas t))) (t_Data t).

(** ** development.go: [types.SignTx] hashes, signs with the in-memory key
    and attaches the signature; [crypto_Sign] is that key. *)
Definition Development_SignTransaction (crypto_Sign : list byte -> option (list byte))
    (t : Transaction) : res SignedTransaction :=
  match Validate t with
  | [] =>
      let unsigned := unsignedTx t in
      let sighash := SigHashOf (ChainID t) unsigned in
      match crypto_Sign sighash with
      | None => Err [EOpaque]
      | Some sig =>
          match MarshalBinary (WithSignature unsigned sig) with
          | None => Err [EOpaque]
          | Some raw => Ok {| Raw := raw; SigHash := sighash |}
          end
      end
  | e => Err e
  end.

(** ** kms.go *)

(** DER to the 65-byte Ethereum form: low [s], recovery id by trial. *)
Definition ethereumSignature (sighash der : list byte) (expected : address) : res (list byte) :=
  match asn1_Unmarshal_RS der with
  | None => Err [EOpaque]
  | Some (r, s, trailing) =>
      if negb (length trailing =? 0)%nat then Err [EOpaque]
      else if (r <=? 0) || (s <=? 0) || (S256_N <=? r) || (S256_N <=? s) then Err [EOpaque]
      else
        let halfOrder := Z.shiftr S256_N 1 in
        let s := if halfOrder <? s then S256_N - s else s in
        let try v :=
          let signature := FillBytes 32 r ++ FillBytes 32 s ++ [v] in
          if bool_decide (RecoverAddress sighash signature = Some expected)
          then Some signature else None in
        match try x00, try x01 with
        | Some signature, _ => Ok signature
        | None, Some signature => Ok signature
        | None, None => Err [EOpaque]
        end
  end.

Record CloudKMS := {
  kms_AsymmetricSign : list byte -> option (list byte);
  kms_address : address;
}.

Definition CloudKMS_SignTransaction (k : CloudKMS) (t : Transaction) : res SignedTransaction :=
  match Validate t with
  | [] =>
      let unsigned := unsignedTx t in
      let sighash := SigHashOf (ChainID t) unsigned in
      match kms_AsymmetricSign k sighash with
      | None => Err [EOpaque]
      | Some der =>
          let? signature := ethereumSignature sighash der (kms_address k) in
          match MarshalBinary (WithSignature unsigned signature) with
          | None => Err [EOpaque]
          | Some raw => Ok {| Raw := raw; SigHash := sighash |}
          end
      end
  | e => Err e
  end.

(** ** policy.go *)

Record PolicyClient := { pc_address : string }.

(** What the HTTP round trip to the boundary yields: no reply, or a status
    and the decoded body ([None] when it cannot be read or decoded). *)
Inductive httpReply :=
  | NoReply
  | Reply (status : Z) (body : option Policy.Response).

Definition equalWei (got : Z) (want : string) : bool :=
  match SetString10 want with
  | Some expected => got =? expected
  | None => false
  end.

(** The decoded transaction must be the one asked for, signed by the
    boundary's address; the sighash is derived here. *)
Definition verify (c : PolicyClient) (raw : list byte) (want : Transaction) : res SignedTransaction :=
  match UnmarshalBinary raw with
  | None => Err [EOpaque]
  | Some signed =>
      let errs := errors_collect
        [(negb (tx_Type signed =? DynamicFeeTxType), EOpaque);
         (negb (wrap64 (tx_ChainId signed) =? ChainID want), EOpaque);
         (negb (tx_Nonce signed =? t_Nonce want), EOpaque);
         (match tx_To signed with
          | Some to => negb (EqualFold (address_Hex to) (t_To want))
          | None => true
          end, EOpaque);
         (negb (tx_Value signed =? 0), EOpaque);
         (negb (bool_decide (tx_Data signed = t_Data want)), EOpaque);
         (negb (tx_Gas signed =? t_GasLimit want), EOpaque);
         (negb (equalWei (tx_GasFeeCap signed) (t_MaxFeePerGas want)), EOpaque);
         (negb (equalWei (tx_GasTipCap signed) (t_MaxPriorityFeePerGas want)), EOpaque)] in
      match errs with
      | [] =>
          match Sender (ChainID want) signed with
          | None => Err [EOpaque]
          | Some sender =>
              if negb (EqualFold (address_Hex sender) (pc_address c)) then Err [EOpaque]
              else Ok {| Raw := raw; SigHash := SigHashOf (ChainID want) signed |}
          end
      | e => Err e
      end
  end.

Definition PolicyClient_SignTransaction (c : PolicyClient) (http_Do : Policy.Request -> httpReply)
    (t : Transaction) : res SignedTransaction :=
  match Validate t with
  | [] =>
      match t_Authorization t with
      | None => Err [EOpaque]
      | Some auth =>
          match http_Do {| req_Nonce := t_Nonce t; req_GasLimit := t_GasLimit t;
                           req_MaxFeePerGas := t_MaxFeePerGas t;
                           req_MaxPriorityFeePerGas := t_MaxPriorityFeePerGas t;
                           req_Authorization := auth |} with
          | NoReply => Err [EOpaque]
          | Reply status body =>
              if negb (status =? 200) then Err [EOpaque]
              else
                match body with
                | None => Err [EOpaque]
                | Some decoded =>
                    match hex_DecodeString (TrimPrefix (RawTransaction decoded) "0x") with
                    | None | Some [] => Err [EOpaque]
                    | Some raw => verify c raw t
                    end
                end
          end
      end
  | e => Err e
  end.

End Signer.

(** ** What a signer promises

    [matches s t]: the decoded transaction [s] is the one [t] describes. *)
Section Contract.
  Context `{Geth}.

Definition matches (s : gethTx address) (t : Transaction) : Prop :=
  tx_Type s = DynamicFeeTxType /\ tx_ChainId s = ChainID t /\ tx_Nonce s = t_Nonce t /\
  (exists to, tx_To s = Some to /\ EqualFold (address_Hex to) (t_To t) = true) /\
  tx_Value s = 0 /\ tx_Data s = t_Data t /\ tx_Gas s = t_GasLimit t /\
  SetString10 (t_MaxFeePerGas t) = Some (tx_GasFeeCap s) /\
  SetString10 (t_MaxPriorityFeePerGas t) = Some (tx_GasTipCap s).

(** The interface settlement relies on: a backend that returns bytes has
    signed exactly the transaction it was handed, and reports its digest. *)
Class Signer (sign : Transaction -> res SignedTransaction) : Prop := {
  sign_exact t st :
    sign t = Ok st ->
    Validate t = [] /\
    exists s, UnmarshalBinary (Raw st) = Some s /\ matches s t /\
      SigHash st = SigHashOf (ChainID t) s;
}.

(** ** Lemmas *)

Lemma Validate_nil t :
  Validate t = [] <->
  ChainID t = 1 /\ EqualFold (t_To t) MainnetUSDC = true /\
  (4 <= length (t_Data t))%nat /\ take 4 (t_Data t) = transferWithAuthorizationSelector /\
  t_GasLimit t <> 0 /\ SetString10 (t_Value t) = Some 0 /\
  exists maxFee priorityFee,
    SetString10 (t_MaxFeePerGas t) = Some maxFee /\
    SetString10 (t_MaxPriorityFeePerGas t) = Some priorityFee /\
    0 < maxFee /\ 0 <= priorityFee <= maxFee.
Proof.
  unfold Validate. rewrite errors_collect_nil. rewrite !Forall_cons, Forall_nil. simpl. split.
  - intros (H1 & H2 & [H3 H3']%orb_false_iff & H4 & H5 & H6 & H7 & H8 & _).
    destruct (SetString10 (t_Value t)) as [v|]; [|done].
    destruct (SetString10 (t_MaxFeePerGas t)) as [m|]; [|done].
    destruct (SetString10 (t_MaxPriorityFeePerGas t)) as [p|]; [|done].
    rewrite (proj2 (Z.ltb_lt 0 m)) in H8 by (bool_hyps; lia). simpl in H8.
    bool_hyps. subst. repeat split; try done.
    exists m, p. repeat split; done || lia.
  - intros (-> & -> & Hl & -> & Hg & -> & m & p & -> & -> & Hm & Hp).
    rewrite bool_decide_true by done. rewrite (proj2 (Nat.ltb_ge _ _)) by lia.
    rewrite (proj2 (Z.eqb_neq (t_GasLimit t) 0)) by lia. rewrite (proj2 (Z.leb_gt m 0)) by lia.
    rewrite (proj2 (Z.ltb_ge p 0)) by lia. rewrite (proj2 (Z.ltb_ge m p)) by lia.
    rewrite andb_false_r. repeat split; done.
Qed.

Lemma FillBytes_length n z : length (FillBytes n z) = n.
Proof. revert z. induction n; intros z; simpl; [done|]. rewrite length_app, IHn. simpl. lia. Qed.

Lemma SetBytes_app a b :
  SetBytes (a ++ b) = SetBytes a * 256 ^ Z.of_nat (length b) + SetBytes b.
Proof.
  unfold SetBytes. rewrite fold_left_app. generalize (fold_left (fun acc b => acc * 256 + Z_of_byte b) a 0).
  assert (forall b x y, fold_left (fun acc b => acc * 256 + Z_of_byte b) b (x + y) =
    x * 256 ^ Z.of_nat (length b) + fold_left (fun acc b => acc * 256 + Z_of_byte b) b y) as HH.
  { clear. induction b as [|c b IH]; intros x y; [simpl; lia|].
    rewrite length_cons, Nat2Z.inj_succ, Z.pow_succ_r by lia. cbn [fold_left].
    replace ((x + y) * 256 + Z_of_byte c) with (x * 256 + (y * 256 + Z_of_byte c)) by lia.
    rewrite IH. lia. }
  intros z. rewrite <- (HH b z 0). f_equal. lia.
Qed.

(** [FillBytes] and [SetBytes] are inverse in range. *)
Lemma SetBytes_FillBytes n z : 0 <= z < 256 ^ Z.of_nat n -> SetBytes (FillBytes n z) = z.
Proof.
  revert z. induction n as [|n IH]; intros z Hz.
  - simpl in *. unfold SetBytes. simpl. lia.
  - rewrite Nat2Z.inj_succ, Z.pow_succ_r in Hz by lia. cbn [FillBytes].
    rewrite SetBytes_app, IH by (Z.to_euclidean_division_equations; nia).
    unfold SetBytes at 1. simpl. rewrite Z_of_byte_of_Z. Z.to_euclidean_division_equations. lia.
Qed.

Lemma equalWei_spec got want : equalWei got want = true <-> SetString10 want = Some got.
Proof.
  unfold equalWei. destruct (SetString10 want) as [z|]; [|done].
  rewrite Z.eqb_eq. split; congruence.
Qed.

(** The checks of [verify], decided. *)
Lemma verify_Ok c raw t st :
  verify c raw t = Ok st <->
  exists s sender, UnmarshalBinary raw = Some s /\
    tx_Type s = DynamicFeeTxType /\ wrap64 (tx_ChainId s) = ChainID t /\
    tx_Nonce s = t_Nonce t /\
    (exists to, tx_To s = Some to /\ EqualFold (address_Hex to) (t_To t) = true) /\
    tx_Value s = 0 /\ tx_Data s = t_Data t /\ tx_Gas s = t_GasLimit t /\
    SetString10 (t_MaxFeePerGas t) = Some (tx_GasFeeCap s) /\
    SetString10 (t_MaxPriorityFeePerGas t) = Some (tx_GasTipCap s) /\
    Sender (ChainID t) s = Some sender /\ EqualFold (address_Hex sender) (pc_address c) = true /\
    st = {| Raw := raw; SigHash := SigHashOf (ChainID t) s |}.
Proof.
  unfold verify. destruct (UnmarshalBinary raw) as [s|]; [|by split; [|intros (? & ? & ? & _)]].
  match goal with |- context [errors_collect ?l] => set (checks := l) end.
  destruct (errors_collect checks) as [|e es] eqn:E; split.
  - apply errors_collect_nil in E. subst checks. rewrite !Forall_cons in E. simpl in E.
    destruct E as (H1 & H2 & H3 & H4 & H5 & H6 & H7 & H8 & H9 & _). bool_hyps.
    intros HH. split_hyps HH. split_hyps H4. bool_hyps.
    rewrite equalWei_spec in H8, H9. do 2 eexists. repeat split; eauto.
  - intros (s' & sender & [= <-] & HH). destruct_and! HH.
    match goal with H : Sender _ _ = _ |- _ => rewrite H end.
    match goal with H : EqualFold (address_Hex sender) _ = _ |- _ => rewrite H end.
    by subst st.
  - done.
  - intros (s' & sender & [= <-] & H1 & H2 & H3 & (to & H4 & H4') & H5 & H6 & H7 & H8 & H9 & _).
    assert (errors_collect checks = []) as Hc; [|congruence].
    apply errors_collect_nil. subst checks. apply equalWei_spec in H8, H9.
    rewrite H4. repeat constructor; simpl; apply negb_false_iff;
      rewrite ?Z.eqb_eq, ?bool_decide_eq_true; done.
Qed.

Lemma verify_matches c raw t st :
  (forall chain s a, tx_Type s = DynamicFeeTxType -> Sender chain s = Some a -> tx_ChainId s = chain) ->
  verify c raw t = Ok st ->
  exists s sender, UnmarshalBinary raw = Some s /\ matches s t /\
    Sender (ChainID t) s = Some sender /\ EqualFold (address_Hex sender) (pc_address c) = true /\
    st = {| Raw := raw; SigHash := SigHashOf (ChainID t) s |}.
Proof.
  intros Hchain (s & sender & H1 & H2 & H3 & H4 & H5 & H6 & H7 & H8 & H9 & H10 & H11 & H12 & ->)%verify_Ok.
  exists s, sender. repeat split; try done. by eapply Hchain.
Qed.

Lemma PolicyClient_SignTransaction_inv c http_Do t st :
  PolicyClient_SignTransaction c http_Do t = Ok st ->
  Validate t = [] /\ exists raw, verify c raw t = Ok st.
Proof.
  unfold PolicyClient_SignTransaction. intros HH. split_hyps HH. eauto.
Qed.

Lemma ethereumSignature_inv sighash der expected sig :
  ethereumSignature sighash der expected = Ok sig ->
  exists r s v, 0 < r < S256_N /\ 0 < s <= S256_N / 2 /\ (v = x00 \/ v = x01) /\
    sig = FillBytes 32 r ++ FillBytes 32 s ++ [v] /\ RecoverAddress sighash sig = Some expected.
Proof.
  unfold ethereumSignature. destruct (asn1_Unmarshal_RS der) as [[[r s] trailing]|]; [|done].
  destruct (negb _); [done|]. destruct (_ || _) eqn:E; [done|]. bool_hyps.
  assert (Z.shiftr S256_N 1 = S256_N / 2) as -> by (by rewrite Z.shiftr_div_pow2 by lia).
  set (s' := if S256_N / 2 <? s then S256_N - s else s).
  assert (0 < s' <= S256_N / 2) as Hs'.
  { subst s'. destruct (Z.ltb_spec (S256_N / 2) s); Z.to_euclidean_division_equations; lia. }
  clearbody s'. intros HH. exists r, s'.
  destruct (bool_decide_reflect (RecoverAddress sighash (FillBytes 32 r ++ FillBytes 32 s' ++ [x00]) = Some expected));
  destruct (bool_decide_reflect (RecoverAddress sighash (FillBytes 32 r ++ FillBytes 32 s' ++ [x01]) = Some expected));
    simplify_eq; [exists x00 | exists x00 | exists x01]; repeat split; auto; lia.
Qed.

(** ** Instances *)

Section Backends.

(** Documented behaviour of go-ethereum for dynamic-fee transactions: decoding
    inverts the encoding of a signed one, the signing hash covers everything
    but the signature, and sender recovery checks the chain id, which
    transactions of that type always carry.  An address prints as the text it
    was parsed from. *)
  Hypothesis codec : forall t sig raw, tx_Type t = DynamicFeeTxType ->
    MarshalBinary (WithSignature t sig) = Some raw -> UnmarshalBinary raw = Some (WithSignature t sig).
  Hypothesis hash_unsigned : forall chain t sig, tx_Type t = DynamicFeeTxType ->
    SigHashOf chain (WithSignature t sig) = SigHashOf chain t.
  Hypothesis sender_chain : forall chain s a, tx_Type s = DynamicFeeTxType ->
    Sender chain s = Some a -> tx_ChainId s = chain.
  Hypothesis hex_usdc :
    forall s, EqualFold s MainnetUSDC = true -> EqualFold (address_Hex (HexToAddress s)) s = true.

Lemma unsignedTx_matches t sig :
  Validate t = [] -> matches (WithSignature (unsignedTx t) sig) t.
Proof.
  intros (Hc & Hto & _ & _ & _ & _ & m & p & Hm & Hp & _)%Validate_nil.
  unfold matches, unsignedTx. simpl. rewrite Hm, Hp. repeat split; try done.
  eexists. split; [done | by apply hex_usdc].
Qed.

#[local] Instance Development_Signer key : Signer (Development_SignTransaction key).
Proof.
  constructor. unfold Development_SignTransaction. intros t st HH. split_hyps HH.
  split; [done|]. eexists. split; [by eapply codec; [|eassumption]|]. split; [by apply unsignedTx_matches|].
  simpl. by rewrite (hash_unsigned _ (unsignedTx t)).
Qed.

#[local] Instance CloudKMS_Signer k : Signer (CloudKMS_SignTransaction k).
Proof.
  constructor. unfold CloudKMS_SignTransaction. intros t st HH. split_hyp HH; [|done].
  split_hyp HH; [|done]. apply res_bind_Ok in HH as (sig & _ & HH). split_hyps HH.
  split; [done|]. eexists. split; [by eapply codec; [|eassumption]|]. split; [by apply unsignedTx_matches|].
  simpl. by rewrite (hash_unsigned _ (unsignedTx t)).
Qed.

#[local] Instance PolicyClient_Signer c http_Do : Signer (PolicyClient_SignTransaction c http_Do).
Proof.
  constructor. intros t st [Hv [raw Hr]]%PolicyClient_SignTransaction_inv. split; [done|].
  apply verify_matches in Hr as (s & sender & H1 & H2 & _ & _ & ->); [|done].
  by exists s.
Qed.

(** ** Properties *)

(** C25. Every signing backend signs exactly the transaction it is handed: if
    the development key, Cloud KMS or the signing boundary returns bytes, the
    transaction passed the allowlist, the bytes decode to an EIP-1559
    transaction with the requested chain, nonce, recipient, zero value,
    calldata, gas limit and fees, and the reported digest is its signing
    hash.  For the boundary this holds whatever it replies. *)
Theorem backends_sign_exactly key kms client http_Do t st :
  Development_SignTransaction key t = Ok st \/ CloudKMS_SignTransaction kms t = Ok st \/
  PolicyClient_SignTransaction client http_Do t = Ok st ->
  Validate t = [] /\
  exists s, UnmarshalBinary (Raw st) = Some s /\ matches s t /\
    SigHash st = SigHashOf (ChainID t) s.
Proof. intros [HH|[HH|HH]]; exact (sign_exact _ _ HH). Qed.

(** A substituted transaction is never accepted from the boundary: the
    client returns bytes only if their sender is the boundary's own address. *)
Theorem PolicyClient_sender client http_Do t st :
  PolicyClient_SignTransaction client http_Do t = Ok st ->
  exists s sender, UnmarshalBinary (Raw st) = Some s /\ matches s t /\
    Sender (ChainID t) s = Some sender /\
    EqualFold (address_Hex sender) (pc_address client) = true.
Proof.
  intros [_ [raw Hr]]%PolicyClient_SignTransaction_inv.
  apply verify_matches in Hr as (s & sender & H1 & H2 & H3 & H4 & ->); [|done]. eauto 10.
Qed.

End Backends.

(** A KMS signature is only used in canonical form: the 65 bytes
    [ethereumSignature] returns hold an [r] in the scalar range, an [s] in
    the lower half of it, a recovery id of 0 or 1, and recover to the signer's
    own address. *)
Theorem ethereumSignature_canonical sighash der expected sig :
  ethereumSignature sighash der expected = Ok sig -> S256_N <= 2 ^ 256 ->
  length sig = 65%nat /\ RecoverAddress sighash sig = Some expected /\
  0 < SetBytes (take 32 sig) < S256_N /\
  0 < SetBytes (take 32 (drop 32 sig)) <= S256_N / 2 /\
  (nth 64 sig x02 = x00 \/ nth 64 sig x02 = x01).
Proof.
  intros (r & s & v & Hr & Hs & Hv & -> & Hrec)%ethereumSignature_inv HN.
  assert (S256_N / 2 < S256_N) by (Z.to_euclidean_division_equations; lia).
  rewrite !length_app, !FillBytes_length. split; [done|]. split; [done|].
  rewrite take_app_length' by (by rewrite FillBytes_length).
  rewrite drop_app_length' by (by rewrite FillBytes_length).
  rewrite take_app_length' by (by rewrite FillBytes_length).
  rewrite !SetBytes_FillBytes by (change (256 ^ Z.of_nat 32) with (2 ^ 256); lia).
  split; [lia|]. split; [lia|].
  rewrite !app_nth2; rewrite ?FillBytes_length; [|lia..]. destruct Hv as [-> | ->]; auto.
Qed.

End Contract.

(** ** Witnesses *)

Definition demo_tx_of (calldata : list byte) : Transaction :=
  {| ChainID := 1; t_Nonce := 7; t_To := MainnetUSDC; t_Data := calldata; t_Value := "0";
     t_GasLimit := 90000; t_MaxFeePerGas := "30000000000";
     t_MaxPriorityFeePerGas := "1000000000"; t_Authorization := Some demo_authorization |}.

Definition demo_tx : Transaction :=
  demo_tx_of (match @Policy.TransferWithAuthorizationData (DemoGeth []) demo_authorization with
              | Ok d => d | Err _ => [] end).

Definition demo_signer_address : string := demo_address "9".

Definition demo_signed : gethTx string :=
  @WithSignature (DemoGeth []) (@unsignedTx (DemoGeth []) demo_tx)
    (bytes_of_string demo_signer_address).

Lemma demo_signed_codec txs (t : gethTx string) sig raw : tx_Type t = DynamicFeeTxType ->
  @MarshalBinary (DemoGeth txs) (@WithSignature (DemoGeth txs) t sig) = Some raw ->
  @UnmarshalBinary (DemoGeth txs) raw = Some (@WithSignature (DemoGeth txs) t sig).
Proof. intros _. apply demo_codec. Qed.

Lemma demo_hash_unsigned txs chain (t : gethTx string) sig : tx_Type t = DynamicFeeTxType ->
  @SigHashOf (DemoGeth txs) chain (@WithSignature (DemoGeth txs) t sig) =
  @SigHashOf (DemoGeth txs) chain t.
Proof. reflexivity. Qed.

Lemma demo_sender_chain txs chain (s : gethTx string) a : tx_Type s = DynamicFeeTxType ->
  @Sender (DemoGeth txs) chain s = Some a -> tx_ChainId s = chain.
Proof. intros _. simpl. destruct (Z.eqb_spec (tx_ChainId s) chain); [done|discriminate]. Qed.

Lemma demo_hex_usdc txs s :
  EqualFold s MainnetUSDC = true ->
  EqualFold (@address_Hex (DemoGeth txs) (@HexToAddress (DemoGeth txs) s)) s = true.
Proof. intros _. apply EqualFold_spec. simpl. apply ToLower_idem. Qed.

Lemma backends_sign_exactly_witness :
  exists st, @Development_SignTransaction (DemoGeth [demo_signed])
      (fun _ => Some (bytes_of_string demo_signer_address)) demo_tx = Ok st /\
    @Validate (DemoGeth [demo_signed]) demo_tx = [].
Proof.
  eexists. split; [vm_compute; reflexivity|].
  refine (proj1 (@backends_sign_exactly (DemoGeth [demo_signed])
    (demo_signed_codec _) (demo_hash_unsigned _) (demo_sender_chain _) (demo_hex_usdc _)
    (fun _ => Some (bytes_of_string demo_signer_address))
    (@Build_CloudKMS (DemoGeth [demo_signed]) (fun _ => None) demo_signer_address)
    {| pc_address := demo_signer_address |} (fun _ => NoReply) demo_tx _ _)).
  left. vm_compute. reflexivity.
Defined.

Lemma PolicyClient_sender_witness :
  exists st, @PolicyClient_SignTransaction (DemoGeth [demo_signed])
      {| pc_address := demo_signer_address |}
      (fun _ => Reply 200 (Some {| RawTransaction := "0x00"; SignerAddress := EmptyString |}))
      demo_tx = Ok st /\
    exists s, @UnmarshalBinary (DemoGeth [demo_signed]) (Raw st) = Some s.
Proof.
  eexists. split; [vm_compute; reflexivity|].
  edestruct (@PolicyClient_sender (DemoGeth [demo_signed]) (demo_sender_chain _)
    {| pc_address := demo_signer_address |}
    (fun _ => Reply 200 (Some {| RawTransaction := "0x00"; SignerAddress := EmptyString |}))
    demo_tx) as (s & sender & Hs & _); [vm_compute; reflexivity|].
  exists s. exact Hs.
Defined.

Definition demo_der : list byte := [x30; x06; x02; x01; x05; x02; x01; x07].

Lemma ethereumSignature_canonical_witness :
  exists sig, @ethereumSignature (DemoGeth []) [] demo_der
      (String.string_of_list_byte (FillBytes 32 5 ++ FillBytes 32 7 ++ [x01])) = Ok sig /\
    length sig = 65%nat.
Proof.
  eexists. split; [vm_compute; reflexivity|].
  eapply (@ethereumSignature_canonical (DemoGeth []) [] demo_der
    (String.string_of_list_byte (FillBytes 32 5 ++ FillBytes 32 7 ++ [x01])));
    [vm_compute; reflexivity | vm_compute; discriminate].
Defined.
