(* ===== verification/PolicySigner.v ===== *)
(** [cmd/policysigner/main.go]: the signing boundary's HTTP service, its
    ceilings and its check on the backend's output, and the composition of
    client, boundary and Cloud KMS. *)

From Stdlib Require Import ZArith Lia Strings.Byte.
From stdpp Require Import base list strings.
From S2P Require Import Prelude GoStd Sha256 Geth Policy Signer.

Local Open Scope Z_scope.

Record boundary := {
  b_signer : Transaction -> res SignedTransaction;
  b_address : string;
  b_limits : Limits;
  b_token : string;
}.

(** The constant-time comparison of token digests. *)
Definition authorized (b : boundary) (header : string) : bool :=
  let presented := TrimPrefix header "Bearer " in
  bool_decide (sha256 (bytes_of_string presented) = sha256 (bytes_of_string (b_token b))).

(** A handler answers with a status and, on success, a response body. *)
Definition identity (b : boundary) (header : string) : Z * option Response :=
  if negb (authorized b header) then (401, None)
  else (200, Some {| RawTransaction := EmptyString; SignerAddress := b_address b |}).

Section PolicySigner.
  Context `{Geth}.

(** The signed bytes must decode to the transaction that was built. *)
Definition confirmSigned (raw : list byte) (want : gethTx address) : bool :=
  match UnmarshalBinary raw with
  | None => false
  | Some got =>
      negb (negb (tx_ChainId got =? tx_ChainId want) || negb (tx_Nonce got =? tx_Nonce want)
        || match tx_To got, tx_To want with
           | Some a, Some b => negb (bool_decide (a = b))
           | _, _ => true
           end
        || negb (tx_Value got =? 0) || negb (tx_Gas got =? tx_Gas want)
        || negb (tx_GasFeeCap got =? tx_GasFeeCap want)
        || negb (tx_GasTipCap got =? tx_GasTipCap want)
        || negb (bool_decide (tx_Data got = tx_Data want)))
  end.

(** The description of the built transaction handed to the backend. *)
Definition backend_transaction (unsigned : gethTx address) : Transaction :=
  {| ChainID := wrap64 (tx_ChainId unsigned); t_Nonce := tx_Nonce unsigned;
     t_To := match tx_To unsigned with Some a => address_Hex a | None => EmptyString end;
     t_Data := tx_Data unsigned; t_Value := "0"; t_GasLimit := tx_Gas unsigned;
     t_MaxFeePerGas := FormatInt (tx_GasFeeCap unsigned);
     t_MaxPriorityFeePerGas := FormatInt (tx_GasTipCap unsigned);
     t_Authorization := None |}.

(** [sign]: [decoded] is the request body, [None] when it is not exactly one
    well-formed JSON request without unknown fields. *)
Definition sign (b : boundary) (header : string) (decoded : option Request) : Z * option Response :=
  if negb (authorized b header) then (401, None)
  else
    match decoded with
    | None => (400, None)
    | Some request =>
        match Unsigned request (b_limits b) with
        | Err e => (if errors_Is e EOverLimit then 422 else 400, None)
        | Ok unsigned =>
            match b_signer b (backend_transaction unsigned) with
            | Err _ => (502, None)
            | Ok signed =>
                if negb (confirmSigned (Raw signed) unsigned) then (502, None)
                else (200, Some {| RawTransaction := "0x" +:+ hex_EncodeToString (Raw signed);
                                   SignerAddress := b_address b |})
            end
        end
    end.

End PolicySigner.

(** [env] with an empty fallback is the variable itself. *)
Definition limitsFromEnv (getenv : string -> string) : res Limits :=
  match SetString10 (getenv "POLICYSIGNER_MAX_FEE_PER_GAS_WEI"%string) with
  | None => Err [EOpaque]
  | Some maxFee =>
      if maxFee <=? 0 then Err [EOpaque]
      else
        match SetString10 (getenv "POLICYSIGNER_MAX_PRIORITY_FEE_PER_GAS_WEI"%string) with
        | None => Err [EOpaque]
        | Some priorityFee =>
            if priorityFee <? 0 then Err [EOpaque]
            else
              match ParseUint64 (getenv "POLICYSIGNER_MAX_GAS_LIMIT"%string) with
              | None => Err [EOpaque]
              | Some gasLimit =>
                  if gasLimit =? 0 then Err [EOpaque]
                  else Ok {| MaxFeePerGasWei := Some maxFee;
                             MaxPriorityFeePerGasWei := Some priorityFee;
                             MaxGasLimit := gasLimit |}
              end
        end
  end.

(** ** Lemmas *)

Section Lemmas.
  Context `{Geth}.

Definition same_effect (got want : gethTx address) : Prop :=
  tx_ChainId got = tx_ChainId want /\ tx_Nonce got = tx_Nonce want /\ tx_To got = tx_To want /\
  tx_Value got = 0 /\ tx_Gas got = tx_Gas want /\ tx_GasFeeCap got = tx_GasFeeCap want /\
  tx_GasTipCap got = tx_GasTipCap want /\ tx_Data got = tx_Data want.

Lemma confirmSigned_spec raw want :
  is_Some (tx_To want) ->
  confirmSigned raw want = true <->
  exists got, UnmarshalBinary raw = Some got /\ same_effect got want.
Proof.
  intros [to Hto]. unfold confirmSigned, same_effect.
  destruct (UnmarshalBinary raw) as [got|]; [|by split; [|intros (? & ? & _)]].
  rewrite Hto. split.
  - intros HH. exists got. split; [done|]. apply negb_true_iff in HH.
    destruct (tx_To got); bool_hyps; [|done]. subst. repeat split; done.
  - intros (? & [= <-] & -> & -> & -> & -> & -> & -> & -> & ->).
    rewrite !bool_decide_true by done. by rewrite !Z.eqb_refl.
Qed.

Lemma Unsigned_To request limits tx :
  Unsigned request limits = Ok tx -> is_Some (tx_To tx).
Proof.
  intros (? & ? & ? & ? & ? & HH)%Unsigned_inv. destruct_and! HH. subst. simpl. eauto.
Qed.

(** ** Properties *)

(** C26. The signing boundary releases no signature outside its allowlist,
    whatever its backend returns: a successful reply means the caller's
    bearer token had the configured token's digest, the request was one
    [Unsigned] builds a transaction from, and the released bytes decode to a
    transaction with that transaction's chain, nonce, recipient, zero value,
    gas limit, fees and calldata. *)
Theorem boundary_releases_only_allowed b header decoded resp :
  sign b header decoded = (200, Some resp) ->
  authorized b header = true /\
  exists request unsigned raw got,
    decoded = Some request /\ Unsigned request (b_limits b) = Ok unsigned /\
    RawTransaction resp = "0x" +:+ hex_EncodeToString raw /\
    UnmarshalBinary raw = Some got /\ same_effect got unsigned /\
    tx_To got = Some (HexToAddress MainnetUSDC) /\ tx_ChainId got = 1 /\
    authorized_calldata (req_Authorization request) (tx_Data got).
Proof.
  unfold sign. destruct (authorized b header) eqn:Ha; [|done]. simpl negb. cbv iota.
  destruct decoded as [request|]; [|done].
  destruct (Unsigned request (b_limits b)) as [unsigned|e] eqn:HU; [|by destruct (errors_Is e EOverLimit)].
  destruct (b_signer b _) as [signed|]; [|done].
  destruct (confirmSigned (Raw signed) unsigned) eqn:Hc; [|done]. intros [= <-].
  split; [done|]. pose proof (Unsigned_To _ _ _ HU) as Hto.
  apply confirmSigned_spec in Hc as (got & Hg & He); [|done].
  exists request, unsigned, (Raw signed), got. do 5 (split; [done|]).
  destruct He as (-> & _ & -> & _ & _ & _ & _ & ->).
  apply Unsigned_inv in HU as (mf & pf & fc & tc & cd & _ & _ & _ & _ & _ & _ & _ & _ & _ & Hcd & ->).
  do 2 (split; [done|]). by apply TransferWithAuthorizationData_authorized.
Qed.

(** ** Client, boundary and KMS together *)

Section EndToEnd.

(** Documented behaviour of go-ethereum, as in [Signer]; in addition an
    address survives printing and parsing, and a signature in the lower half
    of the scalar range that recovers to an address makes it the sender of a
    dynamic-fee transaction. *)
  Hypothesis codec : forall t sig raw, tx_Type t = DynamicFeeTxType ->
    MarshalBinary (WithSignature t sig) = Some raw -> UnmarshalBinary raw = Some (WithSignature t sig).
  Hypothesis hex_usdc :
    forall s, EqualFold s MainnetUSDC = true -> EqualFold (address_Hex (HexToAddress s)) s = true.
  Hypothesis hex_again : forall s, HexToAddress (address_Hex (HexToAddress s)) = HexToAddress s.
  Hypothesis recovered_sender :
    forall t r s v a, tx_Type t = DynamicFeeTxType -> 0 < r < S256_N -> 0 < s <= S256_N / 2 -> v = x00 \/ v = x01 ->
    RecoverAddress (SigHashOf (tx_ChainId t) t) (FillBytes 32 r ++ FillBytes 32 s ++ [v]) = Some a ->
    Sender (tx_ChainId t) (WithSignature t (FillBytes 32 r ++ FillBytes 32 s ++ [v])) = Some a.

(** The boundary in front of a Cloud KMS key, reached over HTTP with its token. *)
Definition kms_boundary (k : CloudKMS) (limits : Limits) (token : string) : boundary :=
  {| b_signer := CloudKMS_SignTransaction k; b_address := ToLower (address_Hex (kms_address k));
     b_limits := limits; b_token := token |}.

Definition http_to (b : boundary) (header : string) (request : Request) : httpReply :=
  let '(status, body) := sign b header (Some request) in Reply status body.

(** The transaction client and boundary independently arrive at. *)
Definition agreed_tx (t : Transaction) (maxFee priorityFee : Z) : gethTx address :=
  NewDynamicFeeTx MainnetChainID (t_Nonce t) (HexToAddress MainnetUSDC) 0 (t_GasLimit t)
    maxFee priorityFee (t_Data t).

Lemma backend_validates t maxFee priorityFee :
  Validate t = [] ->
  SetString10 (t_MaxFeePerGas t) = Some maxFee ->
  SetString10 (t_MaxPriorityFeePerGas t) = Some priorityFee ->
  let bt := backend_transaction (agreed_tx t maxFee priorityFee) in
  Validate bt = [] /\ unsignedTx bt = agreed_tx t maxFee priorityFee.
Proof.
  intros (_ & _ & Hl & Hsel & Hg & _ & m & p & Hm & Hp & Hm0 & Hp0)%Validate_nil Hm' Hp'.
  assert (m = maxFee) as -> by congruence. assert (p = priorityFee) as -> by congruence. split.
  - apply Validate_nil. simpl. repeat split; try done.
    + by apply EqualFold_spec, EqualFold_spec, hex_usdc, EqualFold_spec.
    + exists maxFee, priorityFee. rewrite !SetString10_print. repeat split; done || lia.
  - unfold unsignedTx, backend_transaction, agreed_tx. simpl.
    by rewrite !SetString10_print, hex_again.
Qed.

Lemma confirmSigned_agreed t maxFee priorityFee sig raw :
  MarshalBinary (WithSignature (agreed_tx t maxFee priorityFee) sig) = Some raw ->
  confirmSigned raw (agreed_tx t maxFee priorityFee) = true.
Proof.
  intros Hraw%codec; [|done]. apply confirmSigned_spec; [by eexists|].
  eexists. split; [exact Hraw|]. repeat split.
Qed.

(** C27. Signing through the boundary succeeds end to end: a transaction that
    passes the facilitator's own validation, whose authorization packs to its
    calldata and whose gas and fees are within the boundary's ceilings, is
    built by the boundary, signed by a KMS key that answers with a usable
    signature, and accepted by the client with its own digest. *)
Theorem policy_signing_completes k limits token t auth maxFee priorityFee feeCeiling tipCeiling
    der sig raw :
  Validate t = [] -> t_Authorization t = Some auth ->
  TransferWithAuthorizationData auth = Ok (t_Data t) ->
  SetString10 (t_MaxFeePerGas t) = Some maxFee ->
  SetString10 (t_MaxPriorityFeePerGas t) = Some priorityFee ->
  MaxFeePerGasWei limits = Some feeCeiling -> MaxPriorityFeePerGasWei limits = Some tipCeiling ->
  maxFee <= feeCeiling -> priorityFee <= tipCeiling -> 0 < t_GasLimit t <= MaxGasLimit limits ->
  kms_AsymmetricSign k (SigHashOf 1 (agreed_tx t maxFee priorityFee)) = Some der ->
  ethereumSignature (SigHashOf 1 (agreed_tx t maxFee priorityFee)) der (kms_address k) = Ok sig ->
  MarshalBinary (WithSignature (agreed_tx t maxFee priorityFee) sig) = Some raw -> raw <> [] ->
  PolicyClient_SignTransaction {| pc_address := ToLower (address_Hex (kms_address k)) |}
    (http_to (kms_boundary k limits token) ("Bearer " +:+ token)) t =
  Ok {| Raw := raw;
        SigHash := SigHashOf 1 (WithSignature (agreed_tx t maxFee priorityFee) sig) |}.
Proof.
  intros HV Hauth Hcd Hmf Hpf Hfc Htc Hle1 Hle2 Hg Hder Hsig Hraw Hne.
  pose proof HV as (Hc1 & Hto & _ & _ & _ & _ & m & p & Hm & Hp & Hm0 & Hp0)%Validate_nil.
  assert (m = maxFee) as -> by congruence. assert (p = priorityFee) as -> by congruence.
  unfold PolicyClient_SignTransaction. rewrite HV, Hauth.
  destruct (backend_validates t maxFee priorityFee HV Hmf Hpf) as [HVb Hub].
  unfold http_to, sign, authorized. rewrite TrimPrefix_app. cbn [b_token kms_boundary].
  rewrite bool_decide_true by done. cbn [negb b_limits].
  rewrite (Unsigned_Ok _ _ maxFee priorityFee feeCeiling tipCeiling (t_Data t)); try done; try lia.
  cbn [req_Nonce req_GasLimit b_signer kms_boundary]. fold (agreed_tx t maxFee priorityFee).
  unfold CloudKMS_SignTransaction. rewrite HVb, Hub. change (ChainID (backend_transaction _)) with 1.
  rewrite Hder, Hsig. cbn [res_bind]. rewrite Hraw. cbn [Raw].
  rewrite (confirmSigned_agreed _ _ _ _ _ Hraw). cbn [negb Z.eqb Pos.eqb RawTransaction].
  rewrite TrimPrefix_app, hex_roundtrip. destruct raw as [|b0 raw]; [done|].
  apply verify_Ok. exists (WithSignature (agreed_tx t maxFee priorityFee) sig), (kms_address k).
  rewrite Hc1. repeat split; try done; simpl.
  - by apply codec.
  - eexists. split; [done|]. apply EqualFold_spec.
    rewrite (proj1 (EqualFold_spec _ _) (hex_usdc MainnetUSDC ltac:(by apply EqualFold_spec))).
    by rewrite (proj1 (EqualFold_spec _ _) Hto).
  - apply ethereumSignature_inv in Hsig as (r & s & v & Hr & Hs & Hv & -> & Hrec).
    by apply (recovered_sender (agreed_tx t maxFee priorityFee)).
  - apply EqualFold_spec. by rewrite ToLower_idem.
Qed.

End EndToEnd.

End Lemmas.

(** ** Witnesses *)

Definition demo_sig : list byte := FillBytes 32 5 ++ FillBytes 32 7 ++ [x00].

Definition demo_agreed : gethTx string :=
  @WithSignature (DemoGeth []) (@agreed_tx (DemoGeth []) demo_tx 30000000000 1000000000) demo_sig.

#[local] Instance DemoG : Geth := DemoGeth [demo_agreed].

Definition demo_kms : @CloudKMS DemoG :=
  @Build_CloudKMS DemoG (fun _ => Some demo_der) (String.string_of_list_byte demo_sig).

Definition demo_token : string := Repeat "t" 32.

Lemma boundary_releases_only_allowed_witness :
  exists resp, @sign DemoG (@kms_boundary DemoG demo_kms demo_limits demo_token)
      ("Bearer " +:+ demo_token) (Some demo_request) = (200, Some resp) /\
    authorized (@kms_boundary DemoG demo_kms demo_limits demo_token) ("Bearer " +:+ demo_token) = true.
Proof.
  eexists. split; [vm_compute; reflexivity|].
  eapply (@boundary_releases_only_allowed DemoG _ _ (Some demo_request)).
  vm_compute. reflexivity.
Defined.

Lemma policy_signing_completes_witness :
  exists st, @PolicyClient_SignTransaction DemoG
    {| pc_address := ToLower (String.string_of_list_byte demo_sig) |}
    (@http_to DemoG (@kms_boundary DemoG demo_kms demo_limits demo_token)
      ("Bearer " +:+ demo_token)) demo_tx = Ok st.
Proof.
  eexists. eapply (@policy_signing_completes DemoG (demo_signed_codec _) (demo_hex_usdc _)
    (fun s => ToLower_idem s)
    (fun t r s v a _ _ _ _ (H : Some _ = Some a) => ltac:(simpl; rewrite Z.eqb_refl; exact H))
    demo_kms demo_limits demo_token demo_tx demo_authorization 30000000000 1000000000
    100000000000 5000000000 demo_der demo_sig [x00]);
    try (vm_compute; reflexivity); try (vm_compute; split; congruence); vm_compute; congruence.
Defined.
