(* ===== verification/WalletProof.v ===== *)
(** [internal/walletproof/challenge.go]: address normalisation, which every
    address column relies on. *)

From Stdlib Require Import ZArith Lia.
From stdpp Require Import base list strings.
From S2P Require Import Prelude GoStd.

Local Open Scope Z_scope.

Definition zero_address : string := "0x0000000000000000000000000000000000000000".

Definition NormalizeAddress (address : string) : res string :=
  if negb (String.length address =? 42)%nat || negb (HasPrefix address "0x") then Err [EOpaque]
  else
    match hex_DecodeString (drop_str 2 address) with
    | None => Err [EOpaque]
    | Some _ =>
        if EqualFold address zero_address then Err [EOpaque]
        else Ok (ToLower address)
    end.

(** ** Lemmas *)

Lemma NormalizeAddress_inv a n :
  NormalizeAddress a = Ok n ->
  n = ToLower a /\ String.length a = 42%nat /\ HasPrefix a "0x" = true /\
  is_Some (hex_DecodeString (drop_str 2 a)) /\ ToLower a <> zero_address.
Proof.
  unfold NormalizeAddress. intros H. destruct (_ || _) eqn:E; [done|]. bool_hyps.
  destruct (hex_DecodeString _) eqn:Eh; [|done]. destruct (EqualFold a zero_address) eqn:Ez; [done|].
  injection H as <-. repeat split; eauto. intros Hz.
  rewrite <- not_true_iff_false, EqualFold_spec in Ez. by apply Ez.
Qed.

Lemma hex_value_lower c : hex_value (lower_ascii c) = hex_value c.
Proof. destruct c as [[] [] [] [] [] [] [] []]; reflexivity. Qed.

Lemma hex_DecodeString_lower s : hex_DecodeString (ToLower s) = hex_DecodeString s.
Proof.
  remember (String.length s) as n eqn:Hn. revert s Hn.
  induction n as [n IH] using lt_wf_ind. intros [|c1 [|c2 s]] Hn; simpl in *; [done..|].
  rewrite !hex_value_lower. by rewrite (IH (String.length s)) by lia.
Qed.

Lemma drop_str_lower n s : drop_str n (ToLower s) = ToLower (drop_str n s).
Proof. revert s. induction n; intros [|c s]; simpl; auto. Qed.

(** Normalising twice changes nothing. *)
Lemma NormalizeAddress_idem a n : NormalizeAddress a = Ok n -> NormalizeAddress n = Ok n.
Proof.
  intros (-> & Hl & Hp & [h Hh] & Hz)%NormalizeAddress_inv.
  unfold NormalizeAddress. rewrite ToLower_length, Hl. change (42 =? 42)%nat with true. cbn [negb orb].
  assert (HasPrefix (ToLower a) "0x" = true) as ->.
  { apply HasPrefix_inv in Hp as [r ->]. rewrite ToLower_app. apply (HasPrefix_app "0x"). }
  cbn [negb]. rewrite drop_str_lower, hex_DecodeString_lower, Hh.
  destruct (EqualFold (ToLower a) zero_address) eqn:E.
  - apply EqualFold_spec in E. rewrite ToLower_idem in E. done.
  - by rewrite ToLower_idem.
Qed.
