(* ===== verification/Challenge.v ===== *)
(** [internal/walletproof/challenge.go]: the sign-in messages by which a
    merchant proves control of a recipient wallet.

    The EIP-4361 parser and the signature check are siwe-go's, a parameter. *)

From Stdlib Require Import ZArith Lia Ascii Strings.Byte.
From stdpp Require Import base list strings.
From S2P Require Import Prelude GoStd Geth WalletProof Calendar.

Local Open Scope string_scope.
Local Open Scope Z_scope.

(** The fields of [siwe.Message] the facilitator reads; the address as its
    [Hex()]. *)
Record siwe_message := {
  sm_Domain : string;
  sm_Address : string;
  sm_URI : string;
  sm_ChainID : Z;
  sm_IssuedAt : string;
  sm_ExpirationTime : option string;
  sm_RequestID : option string;
  sm_Resources : list string;
}.

Class Siwe := {
  ParseMessage : string -> option siwe_message;
  (** Whether [VerifyEIP191] recovers the message's address. *)
  VerifyEIP191 : siwe_message -> string -> bool;
}.

Definition Domain : string := "eth402.org".

Record Challenge := {
  c_MerchantID : string;
  c_Address : string;
  c_Nonce : string;
  c_IssuedAt : time;
  c_ExpiresAt : time;
  c_Action : string;
  c_ChainID : Z;
}.

Section Challenge.
  Context `{Geth} `{Siwe}.

(** The [i]-th character, upper case where the digest's nibble is 8 or more. *)
Definition checksum_char (digest : list byte) (i : nat) (c : ascii) : ascii :=
  let n := N_of_ascii c in
  if ((97 <=? n) && (n <=? 102))%N then
    let b := Z_of_byte (nth (i / 2) digest x00) in
    let nibble := if Nat.even i then Z.shiftr b 4 else Z.land b 15 in
    if 8 <=? nibble then ascii_of_N (n - 32) else c
  else c.

Fixpoint checksum (digest : list byte) (i : nat) (s : string) : string :=
  match s with
  | EmptyString => EmptyString
  | String c s => String (checksum_char digest i c) (checksum digest (S i) s)
  end.

Definition ChecksumAddress (address : string) : res string :=
  let? normalized := NormalizeAddress address in
  let lower := drop_str 2 normalized in
  Ok ("0x" +:+ checksum (keccak256 (bytes_of_string lower)) 0 lower).

Definition valid_action (action : string) : bool :=
  String.eqb action "verify-recipient" || String.eqb action "change-recipient" ||
  String.eqb action "authenticate-admin".

Definition NewChallenge (merchantID address action : string) (now : time) (ttl : duration)
    (random : list byte) : res Challenge :=
  let? checksummed := ChecksumAddress address in
  if String.eqb merchantID EmptyString || negb (valid_action action) || (ttl <=? 0) then Err [EOpaque]
  else
    let now := Truncate now second in
    Ok {| c_MerchantID := merchantID; c_Address := checksummed; c_Nonce := hex_EncodeToString random;
          c_IssuedAt := now; c_ExpiresAt := now + ttl; c_Action := action; c_ChainID := 1 |}.

Definition newline : string := String (ascii_of_N 10) EmptyString.

Definition Message (c : Challenge) : string :=
  Domain +:+ " wants you to sign in with your Ethereum account:" +:+ newline +:+
  c_Address c +:+ newline +:+ newline +:+
  "Authorize ETH402 recipient control" +:+ newline +:+ newline +:+
  "URI: https://" +:+ Domain +:+ newline +:+
  "Version: 1" +:+ newline +:+
  "Chain ID: " +:+ FormatInt (c_ChainID c) +:+ newline +:+
  "Nonce: " +:+ c_Nonce c +:+ newline +:+
  "Issued At: " +:+ FormatRFC3339 (c_IssuedAt c) +:+ newline +:+
  "Expiration Time: " +:+ FormatRFC3339 (c_ExpiresAt c) +:+ newline +:+
  "Request ID: " +:+ c_MerchantID c +:+ newline +:+
  "Resources:" +:+ newline +:+
  "- urn:eth402:action:" +:+ c_Action c.

(** The checks on the parsed message, in the order of the code. *)
Definition bound_to (parsed : siwe_message) (merchantID normalized action : string) : bool :=
  String.eqb (sm_Domain parsed) Domain && String.eqb (sm_URI parsed) ("https://" +:+ Domain) &&
  (sm_ChainID parsed =? 1) && bool_decide (sm_RequestID parsed = Some merchantID) &&
  String.eqb (ToLower (sm_Address parsed)) normalized &&
  bool_decide (sm_Resources parsed = ["urn:eth402:action:" +:+ action]).

Definition VerifyMessage (message signature merchantID expectedAddress action : string) (now : time) :
    res unit :=
  match ParseMessage message with
  | None => Err [EOpaque]
  | Some parsed =>
      let? normalized := NormalizeAddress expectedAddress in
      if negb (bound_to parsed merchantID normalized action) then Err [EOpaque]
      else
        match ParseRFC3339 (sm_IssuedAt parsed) with
        | None => Err [EOpaque]
        | Some issued =>
            if (now + minute) * 1000 <? issued then Err [EOpaque]
            else
              match sm_ExpirationTime parsed with
              | None => Err [EOpaque]
              | Some text =>
                  match ParseRFC3339 text with
                  | None => Err [EOpaque]
                  | Some expires =>
                      if negb (now * 1000 <? expires) then Err [EOpaque]
                      else if VerifyEIP191 parsed signature then Ok tt else Err [EOpaque]
                  end
              end
        end
  end.

(** ** The message of a challenge *)

(** What an EIP-4361 parser reads in the message of a challenge. *)
Definition siwe_fields (c : Challenge) : siwe_message :=
  {| sm_Domain := Domain; sm_Address := c_Address c; sm_URI := "https://" +:+ Domain;
     sm_ChainID := c_ChainID c; sm_IssuedAt := FormatRFC3339 (c_IssuedAt c);
     sm_ExpirationTime := Some (FormatRFC3339 (c_ExpiresAt c)); sm_RequestID := Some (c_MerchantID c);
     sm_Resources := ["urn:eth402:action:" +:+ c_Action c] |}.

(** ** Lemmas *)

Lemma checksum_char_lower digest i c : lower_ascii (checksum_char digest i c) = lower_ascii c.
Proof.
  unfold checksum_char. generalize (8 <=? (if Nat.even i then Z.shiftr (Z_of_byte (nth (i / 2) digest x00)) 4
    else Z.land (Z_of_byte (nth (i / 2) digest x00)) 15)) as b. intros b.
  destruct c as [[] [] [] [] [] [] [] []], b; reflexivity.
Qed.

Lemma checksum_lower digest i s : ToLower (checksum digest i s) = ToLower s.
Proof. revert i. induction s as [|c s IH]; intros i; simpl; [done|]. by rewrite checksum_char_lower, IH. Qed.

Lemma ChecksumAddress_inv a r :
  ChecksumAddress a = Ok r -> exists n, NormalizeAddress a = Ok n /\ ToLower r = n.
Proof.
  unfold ChecksumAddress. destruct (NormalizeAddress a) as [n|] eqn:E; [|done]. cbn [res_bind].
  intros Hr. exists n. split; [done|].
  assert (r = "0x" +:+ checksum (keccak256 (bytes_of_string (drop_str 2 n))) 0 (drop_str 2 n)) as -> by congruence.
  pose proof E as (-> & _ & Hp & _)%NormalizeAddress_inv. apply HasPrefix_inv in Hp as [rest ->].
  rewrite ToLower_app, checksum_lower, drop_str_lower, ToLower_idem.
  rewrite (drop_str_app "0x"), (ToLower_app "0x"). reflexivity.
Qed.

Lemma FormatRFC3339_whole t : FormatRFC3339 (t - t mod second) = FormatRFC3339 t.
Proof.
  unfold FormatRFC3339. assert ((t - t mod second) / second = t / second) as ->; [|done].
  unfold second. Z.to_euclidean_division_equations; lia.
Qed.

Lemma ParseRFC3339_Format_any t :
  0 <= Year t <= 9999 -> ParseRFC3339 (FormatRFC3339 t) = Some ((t - t mod second) * 1000).
Proof.
  intros Hy. rewrite <- FormatRFC3339_whole. apply ParseRFC3339_Format.
  - unfold second. Z.to_euclidean_division_equations; lia.
  - unfold Year in *. assert ((t - t mod second) / second = t / second) as ->; [|done].
    unfold second. Z.to_euclidean_division_equations; lia.
Qed.

Lemma NewChallenge_inv merchantID address action now ttl random c :
  NewChallenge merchantID address action now ttl random = Ok c ->
  c_MerchantID c = merchantID /\ c_Action c = action /\ c_ChainID c = 1 /\ valid_action action = true /\
  c_IssuedAt c mod second = 0 /\ c_ExpiresAt c = c_IssuedAt c + ttl /\ 0 < ttl /\
  c_IssuedAt c <= now /\
  NormalizeAddress address = Ok (ToLower (c_Address c)).
Proof.
  unfold NewChallenge. destruct (ChecksumAddress address) as [a|] eqn:E; [|done]. cbn [res_bind].
  apply ChecksumAddress_inv in E as (n & Hn & <-).
  destruct (String.eqb _ _ || negb _ || _) eqn:Eg; [done|]. bool_hyps. intros [= <-]. cbn.
  repeat (split; [done|]). unfold Truncate, zeroTime, second. cbn.
  split; [Z.to_euclidean_division_equations; lia|]. split; [done|]. split; [done|].
  split; [Z.to_euclidean_division_equations; lia|]. done.
Qed.

(** The times of a message hold at [t]: it was issued at most a minute ahead of
    the clock and has not expired. *)
Definition timely (parsed : siwe_message) (t : time) : Prop :=
  exists issued text expires,
    ParseRFC3339 (sm_IssuedAt parsed) = Some issued /\ issued <= (t + minute) * 1000 /\
    sm_ExpirationTime parsed = Some text /\ ParseRFC3339 text = Some expires /\ t * 1000 < expires.

(** A message says what the challenge says, up to its statement, its nonce, its
    times and the case of its address. *)
Definition says (c : Challenge) (parsed : siwe_message) : Prop :=
  sm_Domain parsed = Domain /\ sm_URI parsed = "https://" +:+ Domain /\ sm_ChainID parsed = c_ChainID c /\
  sm_RequestID parsed = Some (c_MerchantID c) /\ ToLower (sm_Address parsed) = ToLower (c_Address c) /\
  sm_Resources parsed = ["urn:eth402:action:" +:+ c_Action c].

Lemma VerifyMessage_exact message signature merchantID a action t :
  VerifyMessage message signature merchantID a action t = Ok tt <->
  exists parsed n, ParseMessage message = Some parsed /\ NormalizeAddress a = Ok n /\
    bound_to parsed merchantID n action = true /\ timely parsed t /\ VerifyEIP191 parsed signature = true.
Proof.
  unfold VerifyMessage, timely. split.
  - destruct (ParseMessage message) as [parsed|]; [|done].
    destruct (NormalizeAddress a) as [n|]; [|done]. cbn [res_bind]. destruct (bound_to _ _ _ _) eqn:Eb; [|done].
    cbn [negb]. destruct (ParseRFC3339 _) as [issued|] eqn:Ei; [|done]. destruct (Z.ltb_spec ((t + minute) * 1000) issued); [done|].
    destruct (sm_ExpirationTime parsed) as [text|] eqn:Et; [|done]. destruct (ParseRFC3339 text) as [expires|] eqn:Ex; [|done].
    destruct (Z.ltb_spec (t * 1000) expires); [|done]. cbn [negb]. destruct (VerifyEIP191 parsed signature) eqn:E; [|done].
    intros _. exists parsed, n. do 3 (split; [done|]). split; [|done]. by exists issued, text, expires.
  - intros (parsed & n & -> & -> & Hb & (issued & text & expires & -> & Hi & -> & -> & He) & ->). cbn [res_bind].
    rewrite Hb, (proj2 (Z.ltb_ge _ _) Hi), (proj2 (Z.ltb_lt _ _) He). reflexivity.
Qed.

Lemma bound_to_says parsed merchantID n action c :
  c_MerchantID c = merchantID -> c_Action c = action -> c_ChainID c = 1 -> ToLower (c_Address c) = n ->
  bound_to parsed merchantID n action = true <-> says c parsed.
Proof.
  intros <- <- Hc <-. unfold bound_to, says. rewrite Hc, !andb_true_iff, !String.eqb_eq, Z.eqb_eq, !bool_decide_eq_true.
  tauto.
Qed.

(** An accepted proof was signed by the wallet it is for, and names the
    merchant. *)
Lemma VerifyMessage_inv message signature merchantID a action now :
  VerifyMessage message signature merchantID a action now = Ok tt ->
  exists parsed, ParseMessage message = Some parsed /\ NormalizeAddress a = Ok (ToLower (sm_Address parsed)) /\
    sm_RequestID parsed = Some merchantID /\ VerifyEIP191 parsed signature = true.
Proof.
  intros (parsed & n & Hp & -> & Hb & _ & Hs)%VerifyMessage_exact. exists parsed. unfold bound_to in Hb.
  rewrite !andb_true_iff, !String.eqb_eq, !bool_decide_eq_true in Hb. destruct Hb as (((((_ & _) & _) & ?) & ->) & _). done.
Qed.

(** The message of a challenge says it, and nothing for another merchant,
    address or action. *)
Lemma bound_to_challenge c m n action :
  c_ChainID c = 1 ->
  bound_to (siwe_fields c) m n action = true <->
  m = c_MerchantID c /\ n = ToLower (c_Address c) /\ action = c_Action c.
Proof.
  intros Hc. unfold bound_to. cbn [siwe_fields sm_Domain sm_URI sm_ChainID sm_RequestID sm_Address sm_Resources].
  rewrite Hc, !andb_true_iff, !String.eqb_eq, Z.eqb_eq, !bool_decide_eq_true. split.
  - intros (((((_ & _) & _) & [= ->]) & ->) & E). split; [done|]. split; [done|]. by injection E.
  - by intros (-> & -> & ->).
Qed.

Lemma timely_challenge c t :
  c_IssuedAt c mod second = 0 -> 0 <= Year (c_IssuedAt c) <= 9999 -> 0 <= Year (c_ExpiresAt c) <= 9999 ->
  timely (siwe_fields c) t <-> c_IssuedAt c <= t + minute /\ t < c_ExpiresAt c - c_ExpiresAt c mod second.
Proof.
  intros Hi Hy1 Hy2. unfold timely. cbn [siwe_fields sm_IssuedAt sm_ExpirationTime].
  rewrite ParseRFC3339_Format_any by done. rewrite Hi, Z.sub_0_r. split.
  - intros (issued & text & expires & [= <-] & ? & [= <-] & E & ?). rewrite ParseRFC3339_Format_any in E by done.
    injection E as <-. lia.
  - intros [? ?]. eexists _, _, _. split; [done|]. split; [lia|]. split; [done|].
    rewrite ParseRFC3339_Format_any by done. split; [done|lia].
Qed.

(** ** The property *)

(** C39. A fresh challenge is decided exactly.  A message, any message, verifies
    for the challenge's merchant, address and action if and only if it parses,
    names the facilitator's domain and URI, the chain, the merchant, the
    address and the action of the challenge, is timely and is signed by its
    address: its nonce and its statement are not compared here.  And provided
    the parser reads the challenge's own message as its fields, that message
    verifies for a merchant, an address and an action if and only if they are
    the challenge's own, the clock is at most a minute behind its issue and
    before the second of its expiry, and the signature is the address's. *)
Theorem challenge_exact merchantID address action now ttl random c :
  NewChallenge merchantID address action now ttl random = Ok c ->
  (forall message signature t,
     VerifyMessage message signature merchantID address action t = Ok tt <->
     exists parsed, ParseMessage message = Some parsed /\ says c parsed /\ timely parsed t /\
       VerifyEIP191 parsed signature = true) /\
  (ParseMessage (Message c) = Some (siwe_fields c) ->
   0 <= Year (c_IssuedAt c) <= 9999 -> 0 <= Year (c_ExpiresAt c) <= 9999 ->
   forall signature m' a' action' t,
     VerifyMessage (Message c) signature m' a' action' t = Ok tt <->
     m' = merchantID /\ NormalizeAddress a' = NormalizeAddress address /\ action' = action /\
     c_IssuedAt c <= t + minute /\ t < c_ExpiresAt c - c_ExpiresAt c mod second /\
     VerifyEIP191 (siwe_fields c) signature = true).
Proof.
  intros (Hm & Hact & Hc & _ & Hi & _ & _ & _ & Ha)%NewChallenge_inv. split.
  - intros message signature t. rewrite VerifyMessage_exact, Ha. split.
    + intros (parsed & n & Hp & [= <-] & Hb & Ht & Hs). exists parsed. rewrite (bound_to_says _ _ _ _ c) in Hb; done.
    + intros (parsed & Hp & Hb & Ht & Hs). exists parsed, (ToLower (c_Address c)). by rewrite bound_to_says.
  - intros HP Hy1 Hy2 signature m' a' action' t. rewrite VerifyMessage_exact, HP, Ha, <- Hm, <- Hact. split.
    + intros (parsed & n & [= <-] & -> & (-> & -> & ->)%bound_to_challenge & [? ?]%timely_challenge & ?); done.
    + intros (-> & -> & -> & ? & ? & ?). exists (siwe_fields c), (ToLower (c_Address c)).
      rewrite bound_to_challenge, timely_challenge by done. tauto.
Qed.

End Challenge.

(** ** A concrete challenge *)

Definition demo_wallet : string := "0x" +:+ Repeat "1" 40.

Definition demo_challenge : Challenge :=
  {| c_MerchantID := "m"; c_Address := demo_wallet; c_Nonce := Repeat "00" 32;
     c_IssuedAt := 1700000000 * second; c_ExpiresAt := 1700000300 * second;
     c_Action := "verify-recipient"; c_ChainID := 1 |}.

(** A parser that knows this message, and a signature everyone accepts. *)
Definition DemoSiwe : Siwe :=
  {| ParseMessage m := if String.eqb m (Message demo_challenge) then Some (siwe_fields demo_challenge) else None;
     VerifyEIP191 _ s := String.eqb s "signed" |}.

Lemma challenge_exact_witness :
  VerifyMessage (H0 := DemoSiwe) (Message demo_challenge) "signed" "m" demo_wallet "verify-recipient"
    (1700000001 * second) = Ok tt.
Proof.
  destruct (challenge_exact (H := DemoGeth []) (H0 := DemoSiwe) "m" demo_wallet "verify-recipient" (1700000000 * second + 5)
    (300 * second) (replicate 32 x00) demo_challenge) as [_ Hown]; [vm_compute; reflexivity|].
  apply Hown.
  - vm_compute. reflexivity.
  - vm_compute. split; discriminate.
  - vm_compute. split; discriminate.
  - split; [reflexivity|]. split; [reflexivity|]. split; [reflexivity|].
    split; [vm_compute; discriminate|]. split; vm_compute; reflexivity.
Defined.
