(* ===== verification/Verification.v ===== *)
(** [internal/verification/service.go]: the strict parser shared by /verify
    and /settle, which turns a request into the payment it describes.

    The x402 SDK is a dependency: its types are known through the fields the
    parser reads, and its functions are operations of the class [X402]. *)

From Stdlib Require Import ZArith Lia Strings.Byte.
From stdpp Require Import base list strings.
From S2P Require Import Prelude GoStd GoJson Sha256 Payment Geth Policy WalletProof.

Local Open Scope string_scope.
Local Open Scope Z_scope.

(** The SDK's reason constants. *)
Inductive scheme_reason :=
  | ErrInvalidVersion
  | ErrInvalidScheme
  | ErrMissingEip712Domain
  | ErrRecipientMismatch
  | ErrInvalidRequiredAmount
  | ErrUnsupportedPayloadType
  | ErrInvalidPayload
  | ErrAuthorizationValueMismatch
  | ErrInvalidSignatureFormat
  | ErrNonceAlreadyUsed.

(** [x402evm.ExactEIP3009Payload]. *)
Record EVMPayload := {
  ep_Signature : string;
  ep_From : string;
  ep_To : string;
  ep_Value : string;
  ep_ValidAfter : string;
  ep_ValidBefore : string;
  ep_Nonce : string;
}.

Class X402 := {
  PaymentRequirements : Type;
  pr_Scheme : PaymentRequirements -> string;
  pr_Network : PaymentRequirements -> string;
  pr_Asset : PaymentRequirements -> string;
  pr_PayTo : PaymentRequirements -> string;
  pr_Amount : PaymentRequirements -> string;
  pr_Extra : PaymentRequirements -> object;
  PaymentPayload : Type;
  pp_X402Version : PaymentPayload -> Z;
  pp_Accepted : PaymentPayload -> PaymentRequirements;
  pp_Payload : PaymentPayload -> object;
  pp_Extensions : PaymentPayload -> object;
  DeepEqual : PaymentRequirements -> PaymentRequirements -> bool;
  IsPermit2Payload : object -> bool;
  IsEIP3009Payload : object -> bool;
  PayloadFromMap : object -> res EVMPayload;
  (** [json.Marshal] of the SDK's payload type *)
  MarshalPayload : PaymentPayload -> res (list byte);
  reason : scheme_reason -> string;
  AssetTransferMethodEIP3009 : string;
}.

(** [config.MainnetNetwork]. *)
Definition MainnetNetwork : string := "eip155:1".

Definition USDCName : string := "USD Coin".
Definition USDCVersion : string := "2".

Definition maxUint256 : Z := 2 ^ 256 - 1.

Record VerifiedPayment := {
  vp_Identity : string;
  vp_Asset : string;
  vp_Payer : string;
  vp_Recipient : string;
  vp_Amount : string;
  vp_Nonce : string;
  vp_ValidAfter : time;
  vp_ValidBefore : time;
  vp_PayloadHash : string;
  vp_Signature : string;
}.

Record Attempt := {
  va_PaymentIdentity : string;
  va_Result : string;
  va_ReasonCode : string;
  va_Payment : option VerifiedPayment;
}.

(** [time.Unix(sec, 0)]. *)
Definition time_Unix (sec : Z) : time := sec * second.

Definition unsignedDecimal (value : string) : option Z :=
  if String.eqb value EmptyString || HasPrefix value "+" || HasPrefix value "-" then None
  else if all_digits value then SetString10 value
  else None.

(** [253402300799] is the last second of the year 9999. *)
Definition validUnix (value : Z) : bool :=
  ((- 2 ^ 63 <=? value) && (value <? 2 ^ 63)) && (0 <=? value) && (value <=? 253402300799).

Section Parse.
  Context `{Geth} `{X402}.

Record Request := {
  rq_X402Version : Z;
  rq_PaymentPayload : PaymentPayload;
  rq_PaymentRequirements : PaymentRequirements;
}.

(** The checks on the lane: version, scheme, network, asset and domain. *)
Definition check_lane (request : Request) : option string :=
  let payload := rq_PaymentPayload request in
  let requirements := rq_PaymentRequirements request in
  if negb (rq_X402Version request =? 2) || negb (pp_X402Version payload =? 2)
  then Some (reason ErrInvalidVersion)
  else if negb (DeepEqual (pp_Accepted payload) requirements)
  then Some "invalid_payment_requirements_mismatch"
  else if negb (String.eqb (pr_Scheme requirements) "exact") ||
          negb (String.eqb (pr_Scheme (pp_Accepted payload)) "exact")
  then Some (reason ErrInvalidScheme)
  else if negb (String.eqb (pr_Network requirements) MainnetNetwork)
  then Some "unsupported_network"
  else if negb (EqualFold (pr_Asset requirements) MainnetUSDC)
  then Some "unsupported_asset"
  else if negb (length (pp_Extensions payload) =? 0)%nat
  then Some "unsupported_extension"
  else if match object_get (pr_Extra requirements) "assetTransferMethod" with
          | Some method => negb (any_is (Some method) AssetTransferMethodEIP3009)
          | None => false
          end
  then Some "unsupported_asset_transfer_method"
  else if negb (any_is (object_get (pr_Extra requirements) "name") USDCName) ||
          negb (any_is (object_get (pr_Extra requirements) "version") USDCVersion)
  then Some (reason ErrMissingEip712Domain)
  else if negb (IsHexAddress (pr_PayTo requirements))
  then Some (reason ErrRecipientMismatch)
  else None.

(** A 0x-prefixed hexadecimal value of [n] bytes. *)
Definition hex_bytes (n : nat) (s : string) : bool :=
  match hex_DecodeString (TrimPrefix s "0x") with
  | Some b => (length b =? n)%nat && HasPrefix s "0x"
  | None => false
  end.

(** The payment an accepted authorization describes. *)
Definition derive (request : Request) (auth : EVMPayload) (value after before : Z) :
    VerifiedPayment + string :=
  let requirements := rq_PaymentRequirements request in
  match PaymentID
    {| Payment.Version := 2; Payment.Scheme := pr_Scheme requirements; Payment.Network := pr_Network requirements;
       Payment.Asset := ToLower (pr_Asset requirements); Payment.From := ToLower (ep_From auth);
       Payment.To := ToLower (ep_To auth); Payment.Value := FormatInt value;
       Payment.ValidAfter := FormatInt after; Payment.ValidBefore := FormatInt before;
       Payment.Nonce := ToLower (ep_Nonce auth); Payment.Signature := ToLower (ep_Signature auth) |} with
  | Err _ => inr (reason ErrInvalidPayload)
  | Ok identity =>
      match MarshalPayload (rq_PaymentPayload request) with
      | Err _ => inr (reason ErrInvalidPayload)
      | Ok encodedPayload =>
          inl {| vp_Identity := identity; vp_Asset := ToLower (pr_Asset requirements);
                 vp_Payer := ToLower (ep_From auth); vp_Recipient := ToLower (ep_To auth);
                 vp_Amount := FormatInt value; vp_Nonce := ToLower (ep_Nonce auth);
                 vp_ValidAfter := time_Unix after; vp_ValidBefore := time_Unix before;
                 vp_PayloadHash := hex_EncodeToString (sha256 encodedPayload);
                 vp_Signature := ToLower (ep_Signature auth) |}
      end
  end.

Definition ParseRequest (request : Request) : VerifiedPayment + string :=
  let payload := rq_PaymentPayload request in
  let requirements := rq_PaymentRequirements request in
  match check_lane request with
  | Some r => inr r
  | None =>
  match unsignedDecimal (pr_Amount requirements) with
  | None => inr (reason ErrInvalidRequiredAmount)
  | Some requiredAmount =>
  if (requiredAmount <=? 0) || (maxUint256 <? requiredAmount)
  then inr (reason ErrInvalidRequiredAmount)
  else if IsPermit2Payload (pp_Payload payload) || negb (IsEIP3009Payload (pp_Payload payload))
  then inr (reason ErrUnsupportedPayloadType)
  else
  match PayloadFromMap (pp_Payload payload) with
  | Err _ => inr (reason ErrInvalidPayload)
  | Ok auth =>
  match object_get (pp_Payload payload) "authorization" with
  | Some (AnyMap authorizationMap) =>
  if negb (length (pp_Payload payload) =? 2)%nat || negb (length authorizationMap =? 6)%nat
  then inr (reason ErrInvalidPayload)
  else if negb (IsHexAddress (ep_From auth)) || negb (IsHexAddress (ep_To auth)) ||
          negb (EqualFold (ep_To auth) (pr_PayTo requirements))
  then inr (reason ErrRecipientMismatch)
  else
  match unsignedDecimal (ep_Value auth), unsignedDecimal (ep_ValidAfter auth),
        unsignedDecimal (ep_ValidBefore auth) with
  | Some value, Some after, Some before =>
  if negb (validUnix after) || negb (validUnix before) || (before <=? after)
  then inr (reason ErrInvalidPayload)
  else if negb (value =? requiredAmount) then inr (reason ErrAuthorizationValueMismatch)
  else if negb (hex_bytes 32 (ep_Nonce auth)) then inr (reason ErrInvalidPayload)
  else if negb (hex_bytes 65 (ep_Signature auth)) then inr (reason ErrInvalidSignatureFormat)
  else derive request auth value after before
  | _, _, _ => inr (reason ErrInvalidPayload)
  end
  | _ => inr (reason ErrInvalidPayload)
  end
  end
  end
  end.

End Parse.

(** ** What an accepted request is *)

Section Accepted.
  Context `{Geth} `{X402}.

(** Every condition the parser checked, with the values it derived. *)
Definition accepted (request : Request) (p : VerifiedPayment) (auth : EVMPayload)
    (value after before : Z) : Prop :=
  check_lane request = None /\
  unsignedDecimal (pr_Amount (rq_PaymentRequirements request)) = Some value /\
  0 < value <= maxUint256 /\
  PayloadFromMap (pp_Payload (rq_PaymentPayload request)) = Ok auth /\
  IsHexAddress (ep_From auth) = true /\ IsHexAddress (ep_To auth) = true /\
  ToLower (ep_To auth) = ToLower (pr_PayTo (rq_PaymentRequirements request)) /\
  unsignedDecimal (ep_Value auth) = Some value /\
  unsignedDecimal (ep_ValidAfter auth) = Some after /\
  unsignedDecimal (ep_ValidBefore auth) = Some before /\
  0 <= after < before /\ before <= 253402300799 /\
  hex_bytes 32 (ep_Nonce auth) = true /\ hex_bytes 65 (ep_Signature auth) = true /\
  derive request auth value after before = inl p.

Lemma ParseRequest_inl request p :
  ParseRequest request = inl p -> exists auth value after before, accepted request p auth value after before.
Proof.
  unfold ParseRequest. intros E. split_hyps E. bool_hyps. unfold validUnix in *. bool_hyps.
  match goal with E : EqualFold _ _ = true |- _ => apply EqualFold_spec in E end.
  subst. eexists _, _, _, _. unfold accepted. split_and!; eassumption.
Qed.

Lemma accepted_derive request p auth value after before :
  accepted request p auth value after before -> derive request auth value after before = inl p.
Proof. by intros (_ & _ & _ & _ & _ & _ & _ & _ & _ & _ & _ & _ & _ & _ & Hd). Qed.

(** ** The form of a payment *)

Lemma hex_DecodeString_lower_hex s b : hex_DecodeString s = Some b -> lower_hex (ToLower s) = true.
Proof.
  remember (String.length s) as n eqn:Hn. revert s b Hn.
  induction n as [n IH] using lt_wf_ind. intros [|c1 [|c2 s]] b Hn; [done | done |].
  simpl. destruct (hex_value c1) eqn:E1; [|done]. destruct (hex_value c2) eqn:E2; [|done].
  destruct (hex_DecodeString s) eqn:E; [|done]. intros _.
  rewrite !hex_value_lower, E1, E2, !lower_ascii_idem, !Ascii.eqb_refl. simpl.
  eapply (IH (String.length s)); [simpl in Hn; lia | done | exact E].
Qed.

(** A lower-case 0x-prefixed value of [n] bytes. *)
Definition canonical_hex (n : nat) (s : string) : bool :=
  HasPrefix s "0x" && (String.length s =? 2 + 2 * n)%nat && lower_hex (TrimPrefix s "0x").

Lemma hex_bytes_canonical n s : hex_bytes n s = true -> canonical_hex n (ToLower s) = true.
Proof.
  unfold hex_bytes, canonical_hex. destruct (hex_DecodeString _) as [b|] eqn:E; [|done].
  intros [Hl Hp]%andb_prop. apply HasPrefix_inv in Hp as [r ->]. rewrite TrimPrefix_app in E.
  rewrite ToLower_app. change (ToLower "0x") with "0x". rewrite HasPrefix_app, TrimPrefix_app.
  rewrite str_app_length, ToLower_length, (hex_DecodeString_length _ _ E).
  rewrite (hex_DecodeString_lower_hex _ _ E). apply Nat.eqb_eq in Hl as ->. simpl.
  by rewrite Nat.eqb_refl.
Qed.

(** What every consumer of a parsed payment may rely on.  An address has forty
    lower-case digits, behind a 0x prefix or, as [common.IsHexAddress] allows,
    without one. *)
Record payment_form (p : VerifiedPayment) (value after before : Z) : Prop := {
  can_identity : exists h, vp_Identity p = "pay_" +:+ hex_EncodeToString h /\ length h = 32%nat;
  can_asset : vp_Asset p = ToLower MainnetUSDC;
  can_payer : hex_address (vp_Payer p) = true /\ ToLower (vp_Payer p) = vp_Payer p;
  can_recipient : hex_address (vp_Recipient p) = true /\ ToLower (vp_Recipient p) = vp_Recipient p;
  can_amount : vp_Amount p = FormatInt value /\ 0 < value <= maxUint256;
  can_nonce : canonical_hex 32 (vp_Nonce p) = true;
  can_validity : vp_ValidAfter p = time_Unix after /\ vp_ValidBefore p = time_Unix before /\
    0 <= after < before /\ before <= 253402300799;
  can_hash : exists h, vp_PayloadHash p = hex_EncodeToString h /\ length h = 32%nat;
  can_signature : canonical_hex 65 (vp_Signature p) = true;
}.

Lemma derive_inl request auth value after before p :
  derive request auth value after before = inl p ->
  exists identity encoded,
    PaymentID
      {| Payment.Version := 2; Payment.Scheme := pr_Scheme (rq_PaymentRequirements request);
         Payment.Network := pr_Network (rq_PaymentRequirements request);
         Payment.Asset := ToLower (pr_Asset (rq_PaymentRequirements request));
         Payment.From := vp_Payer p; Payment.To := vp_Recipient p; Payment.Value := vp_Amount p;
         Payment.ValidAfter := FormatInt after; Payment.ValidBefore := FormatInt before;
         Payment.Nonce := vp_Nonce p; Payment.Signature := vp_Signature p |} = Ok identity /\
    p = {| vp_Identity := identity; vp_Asset := ToLower (pr_Asset (rq_PaymentRequirements request));
           vp_Payer := ToLower (ep_From auth); vp_Recipient := ToLower (ep_To auth);
           vp_Amount := FormatInt value; vp_Nonce := ToLower (ep_Nonce auth);
           vp_ValidAfter := time_Unix after; vp_ValidBefore := time_Unix before;
           vp_PayloadHash := hex_EncodeToString (sha256 encoded);
           vp_Signature := ToLower (ep_Signature auth) |}.
Proof.
  unfold derive. destruct (PaymentID _) as [identity|] eqn:E; [|done].
  destruct (MarshalPayload _) as [encoded|]; [|done]. intros [= <-]. eauto.
Qed.

#[local] Arguments ToLower : simpl never.

(** The one lane the facilitator serves: x402 version 2, the exact scheme,
    native USDC on mainnet with its EIP-712 domain, transferred by EIP-3009
    without extensions, for the requirements the payer accepted. *)
Record on_lane (request : Request) : Prop := {
  lane_version : rq_X402Version request = 2 /\ pp_X402Version (rq_PaymentPayload request) = 2;
  lane_accepted : DeepEqual (pp_Accepted (rq_PaymentPayload request)) (rq_PaymentRequirements request) = true;
  lane_scheme : pr_Scheme (rq_PaymentRequirements request) = "exact" /\
    pr_Scheme (pp_Accepted (rq_PaymentPayload request)) = "exact";
  lane_network : pr_Network (rq_PaymentRequirements request) = MainnetNetwork;
  lane_asset : ToLower (pr_Asset (rq_PaymentRequirements request)) = ToLower MainnetUSDC;
  lane_extensions : pp_Extensions (rq_PaymentPayload request) = [];
  lane_method : forall v, object_get (pr_Extra (rq_PaymentRequirements request)) "assetTransferMethod" = Some v ->
    v = AnyString AssetTransferMethodEIP3009;
  lane_domain : object_get (pr_Extra (rq_PaymentRequirements request)) "name" = Some (AnyString USDCName) /\
    object_get (pr_Extra (rq_PaymentRequirements request)) "version" = Some (AnyString USDCVersion);
}.

Lemma any_is_true v s : any_is v s = true -> v = Some (AnyString s).
Proof. destruct v as [[]|]; try done. cbn. by intros ->%String.eqb_eq. Qed.

Lemma check_lane_None request : check_lane request = None -> on_lane request.
Proof.
  unfold check_lane. intros E. split_hyps E; bool_hyps;
    repeat match goal with
      | E : EqualFold _ _ = true |- _ => apply EqualFold_spec in E
      | E : any_is _ _ = true |- _ => apply any_is_true in E
      | E : String.eqb _ _ = true |- _ => apply String.eqb_eq in E
      | E : Z.eqb _ _ = true |- _ => apply Z.eqb_eq in E
      end; split; auto; try congruence; try by apply nil_length_inv.
  intros v Hv. assert (v = a) as -> by congruence. apply (any_is_true (Some a)) in Heqb5. congruence.
Qed.

(** The payload is an EIP-3009 authorization of exactly the expected entries. *)
Definition authorized_by (request : Request) (auth : EVMPayload) : Prop :=
  let payload := pp_Payload (rq_PaymentPayload request) in
  IsPermit2Payload payload = false /\ IsEIP3009Payload payload = true /\ PayloadFromMap payload = Ok auth /\
  length payload = 2%nat /\
  exists entries, object_get payload "authorization" = Some (AnyMap entries) /\ length entries = 6%nat.

Lemma ParseRequest_authorized request p : ParseRequest request = inl p -> exists auth, authorized_by request auth.
Proof.
  unfold ParseRequest. intros E. split_hyps E. bool_hyps. eexists. unfold authorized_by.
  repeat match goal with E : Nat.eqb _ _ = true |- _ => apply Nat.eqb_eq in E end.
  split_and!; try eassumption. eexists. split; eassumption.
Qed.

(** What the identity of a payment hashes. *)
Definition identity_fields (request : Request) (p : VerifiedPayment) : IdentityFields :=
  {| Payment.Version := 2; Payment.Scheme := pr_Scheme (rq_PaymentRequirements request);
     Payment.Network := pr_Network (rq_PaymentRequirements request); Payment.Asset := vp_Asset p;
     Payment.From := vp_Payer p; Payment.To := vp_Recipient p; Payment.Value := vp_Amount p;
     Payment.ValidAfter := FormatInt (vp_ValidAfter p / second);
     Payment.ValidBefore := FormatInt (vp_ValidBefore p / second);
     Payment.Nonce := vp_Nonce p; Payment.Signature := vp_Signature p |}.

Definition lower_fields (p : VerifiedPayment) : Prop :=
  ToLower (vp_Asset p) = vp_Asset p /\ ToLower (vp_Payer p) = vp_Payer p /\ ToLower (vp_Recipient p) = vp_Recipient p /\
  ToLower (vp_Nonce p) = vp_Nonce p /\ ToLower (vp_Signature p) = vp_Signature p.

Definition full_seconds (t : time) : Prop := t / second * second = t.

Lemma ParseRequest_identity request p : ParseRequest request = inl p ->
  PaymentID (identity_fields request p) = Ok (vp_Identity p) /\ lower_fields p /\
  full_seconds (vp_ValidAfter p) /\ full_seconds (vp_ValidBefore p).
Proof.
  intros (auth & value & after & before & Hd%accepted_derive)%ParseRequest_inl.
  apply derive_inl in Hd as (identity & encoded & Hid & ->). unfold identity_fields, lower_fields, full_seconds. cbn [vp_Asset
    vp_Payer vp_Recipient vp_Amount vp_Nonce vp_ValidAfter vp_ValidBefore vp_Signature vp_Identity] in *.
  unfold time_Unix. rewrite !Z.div_mul by (unfold second; lia). rewrite !ToLower_idem. by split_and!.
Qed.

End Accepted.

#[local] Arguments ToLower : simpl nomatch.

(** ** Addresses under case folding *)

Lemma HasPrefix_lower_0X s : HasPrefix (ToLower s) "0X" = false.
Proof.
  destruct s as [|a [|b s]]; [done | by destruct a as [[] [] [] [] [] [] [] []]|].
  simpl. apply andb_false_intro2. by destruct b as [[] [] [] [] [] [] [] []].
Qed.

Lemma HasPrefix_lower_0x s :
  HasPrefix (ToLower s) "0x" = HasPrefix s "0x" || HasPrefix s "0X".
Proof.
  destruct s as [|a [|b s]]; [done | by destruct a as [[] [] [] [] [] [] [] []]|].
  simpl. destruct a as [[] [] [] [] [] [] [] []]; simpl; try done.
  by destruct b as [[] [] [] [] [] [] [] []].
Qed.

Lemma strip_0x_lower s : strip_0x (ToLower s) = ToLower (strip_0x s).
Proof.
  unfold strip_0x. rewrite HasPrefix_lower_0X, HasPrefix_lower_0x, orb_false_r.
  destruct (_ || _); [apply drop_str_lower | done].
Qed.

Lemma hex_address_lower s : hex_address (ToLower s) = hex_address s.
Proof. unfold hex_address. by rewrite strip_0x_lower, hex_DecodeString_lower. Qed.

(** ** A concrete instance *)

Record demo_requirements := {
  dr_scheme : string;
  dr_asset : string;
  dr_payTo : string;
  dr_amount : string;
  dr_extra : object;
}.

Definition any_text (v : option any) : string :=
  match v with Some (AnyString s) => s | _ => EmptyString end.

(** The payload is read from the entries of its authorization map. *)
Definition demo_PayloadFromMap (m : object) : res EVMPayload :=
  match object_get m "authorization" with
  | Some (AnyMap a) =>
      let get k := any_text (object_get a k) in
      Ok {| ep_Signature := any_text (object_get m "signature"); ep_From := get "from";
            ep_To := get "to"; ep_Value := get "value"; ep_ValidAfter := get "validAfter";
            ep_ValidBefore := get "validBefore"; ep_Nonce := get "nonce" |}
  | _ => Err [EOpaque]
  end.

Definition demo_reason (r : scheme_reason) : string :=
  match r with
  | ErrInvalidVersion => "invalid_x402_version"
  | ErrInvalidScheme => "unsupported_scheme"
  | ErrMissingEip712Domain => "missing_eip712_domain"
  | ErrRecipientMismatch => "recipient_mismatch"
  | ErrInvalidRequiredAmount => "invalid_required_amount"
  | ErrUnsupportedPayloadType => "unsupported_payload_type"
  | ErrInvalidPayload => "invalid_payload"
  | ErrAuthorizationValueMismatch => "authorization_value_mismatch"
  | ErrInvalidSignatureFormat => "invalid_signature_format"
  | ErrNonceAlreadyUsed => "nonce_already_used"
  end.

Definition DemoX402 : X402 := {|
  PaymentRequirements := demo_requirements;
  pr_Scheme := dr_scheme;
  pr_Network _ := MainnetNetwork;
  pr_Asset := dr_asset;
  pr_PayTo := dr_payTo;
  pr_Amount := dr_amount;
  pr_Extra := dr_extra;
  PaymentPayload := demo_requirements * object;
  pp_X402Version _ := 2;
  pp_Accepted := fst;
  pp_Payload := snd;
  pp_Extensions _ := [];
  DeepEqual a b := String.eqb (dr_amount a) (dr_amount b) && String.eqb (dr_payTo a) (dr_payTo b);
  IsPermit2Payload _ := false;
  IsEIP3009Payload _ := true;
  PayloadFromMap := demo_PayloadFromMap;
  MarshalPayload p := Ok (bytes_of_string (any_text (object_get p.2 "signature")));
  reason := demo_reason;
  AssetTransferMethodEIP3009 := "eip3009" |}.

Definition demo_required : demo_requirements :=
  {| dr_scheme := "exact"; dr_asset := MainnetUSDC; dr_payTo := "0x" +:+ Repeat "2" 40;
     dr_amount := "1000000";
     dr_extra := [("name", AnyString "USD Coin"); ("version", AnyString "2")] |}.

Definition demo_signed_by (from : string) : object :=
  [("signature", AnyString ("0x" +:+ Repeat "cD" 64 +:+ "1B"));
   ("authorization", AnyMap
      [("from", AnyString from); ("to", AnyString ("0x" +:+ Repeat "2" 40));
       ("value", AnyString "1000000"); ("validAfter", AnyString "0");
       ("validBefore", AnyString "5000"); ("nonce", AnyString ("0x" +:+ Repeat "Ab" 32))])].

Definition demo_verify (from : string) : @Request DemoX402 :=
  {| rq_X402Version := 2; rq_PaymentPayload := ((demo_required, demo_signed_by from) : @PaymentPayload DemoX402);
     rq_PaymentRequirements := (demo_required : @PaymentRequirements DemoX402) |}.

Section Theorems.
  Context `{Geth} `{X402}.


(** C24. An identity names one payment.  It is the hash of the payment's own
    fields, and requests that parse to payments with the same identity
    describe the same payer, recipient, amount, nonce, validity and signature,
    unless the two texts hashed for them are a SHA-256 collision. *)
Theorem identity_determines_payment r1 r2 p1 p2 :
  ParseRequest r1 = inl p1 -> ParseRequest r2 = inl p2 -> vp_Identity p1 = vp_Identity p2 ->
  let f1 := identity_preimage (identity_fields r1 p1) in
  let f2 := identity_preimage (identity_fields r2 p2) in
  vp_Identity p1 = "pay_" +:+ hex_EncodeToString (sha256 f1) /\
  ((f1 <> f2 /\ sha256 f1 = sha256 f2) \/
   (vp_Asset p1 = vp_Asset p2 /\ vp_Payer p1 = vp_Payer p2 /\ vp_Recipient p1 = vp_Recipient p2 /\
    vp_Amount p1 = vp_Amount p2 /\ vp_Nonce p1 = vp_Nonce p2 /\
    vp_ValidAfter p1 = vp_ValidAfter p2 /\ vp_ValidBefore p1 = vp_ValidBefore p2 /\
    vp_Signature p1 = vp_Signature p2)).
Proof.
  intros H1%ParseRequest_identity H2%ParseRequest_identity Hid f1 f2.
  destruct H1 as (H1 & A1 & B1), H2 as (H2 & A2 & B2). rewrite <- Hid in H2.
  split; [by destruct (PaymentID_inv _ _ H1)|].
  destruct (PaymentID_same _ _ _ H1 H2) as [Hv|Hc]; [right|by left].
  unfold identity_values, identity_fields in Hv. simpl in Hv. injection Hv as _ _ Ha Hf Ht Hval Hs He Hn Hg.
  apply FormatInt_inj in Hs, He. split_and!; try congruence; unfold lower_fields in *; intuition congruence.
Qed.

End Theorems.


Lemma identity_determines_payment_witness :
  exists p q, @ParseRequest (DemoGeth []) DemoX402 (demo_verify ("0x" +:+ Repeat "A" 40)) = inl p /\
    @ParseRequest (DemoGeth []) DemoX402 (demo_verify ("0x" +:+ Repeat "a" 40)) = inl q /\ vp_Payer p = vp_Payer q.
Proof.
  destruct (@ParseRequest (DemoGeth []) DemoX402 (demo_verify ("0x" +:+ Repeat "A" 40))) as [p|r] eqn:E;
    [|vm_compute in E; discriminate].
  destruct (@ParseRequest (DemoGeth []) DemoX402 (demo_verify ("0x" +:+ Repeat "a" 40))) as [q|r] eqn:F;
    [|vm_compute in F; discriminate].
  exists p, q. split; [reflexivity|]. split; [reflexivity|].
  destruct (@identity_determines_payment (DemoGeth []) DemoX402 (demo_verify ("0x" +:+ Repeat "A" 40))
    (demo_verify ("0x" +:+ Repeat "a" 40)) p q E F) as (_ & [[Hc _]|(_ & Hp & _)]).
  - vm_compute in E, F. injection E as <-. injection F as <-. reflexivity.
  - exfalso. apply Hc. vm_compute in E, F. injection E as <-. injection F as <-. reflexivity.
  - exact Hp.
Defined.
