(* ===== verification/Schema.v ===== *)
(** The settlement tables of the PostgreSQL schema ([migrations/*.up.sql]):
    rows, constraints, and the statements the store is written in.

    A store method runs in one database transaction, modelled as a function
    from the database to a result and the new database: an error leaves the
    database as it was, which is what the deferred [Rollback] does.  Statements
    check the constraints of the schema on the rows they write.  Row
    identifiers are drawn from a counter, and [now()] is an argument of each
    method, so nothing is assumed of the database clock. *)

From Stdlib Require Import ZArith Lia Strings.Byte.
From stdpp Require Import base gmap list strings sorting fin_maps.
From S2P Require Import Prelude GoStd State.

Local Open Scope Z_scope.

(** ** Rows *)

Abbreviation rowid := N (only parsing).

Inductive TxStatus :=
  | TxIntent
  | TxBroadcasting
  | TxBroadcast
  | TxConfirming
  | TxConfirmed
  | TxReverted
  | TxReplaced
  | TxDropped
  | TxAmbiguous.

#[export] Instance TxStatus_eq_dec : EqDecision TxStatus.
Proof. solve_decision. Defined.

(** [payment_records]. *)
Record Payment := {
  p_identity : string;
  p_merchant : option rowid;
  p_payer : option string;
  p_recipient : option string;
  p_amount : Z;
  p_auth_nonce : option string;
  p_valid_after : option time;
  p_valid_before : option time;
  p_payload_hash : option string;
  p_signature : option string;
  p_verification : string;
  p_state : State;
  p_requested_at : option time;
  p_confirmed_at : option time;
  p_claimed_by : option string;
  p_claimed_until : option time;
  p_redacted_at : option time;
  p_updated_at : time;
}.

(** [ethereum_transactions]. *)
Record Tx := {
  t_payment : rowid;
  t_hash : option string;
  t_signer : string;
  t_nonce : Z;
  t_raw_hash : option string;
  t_sighash : option string;
  t_raw : option (list byte);
  t_status : TxStatus;
  t_block_number : option Z;
  t_block_hash : option string;
  t_gas_limit : option Z;
  t_gas_used : option Z;
  t_gas_price : option Z;
  t_max_fee : option Z;
  t_priority_fee : option Z;
  t_replaced_by : option rowid;
  t_attempted_at : option time;
  t_first_seen : option time;
  t_confirmed_at : option time;
  t_attempts : Z;
  t_updated_at : time;
}.

Inductive MerchantStatus := MPending | MManualReview | MActive | MSuspended | MRejected.

#[export] Instance MerchantStatus_eq_dec : EqDecision MerchantStatus.
Proof. solve_decision. Defined.

(** The columns of [merchants] settlement reads. *)
Record Merchant := {
  m_recipient : string;
  m_status : MerchantStatus;
  m_created_at : time;
}.

(** [payment_transitions] and the two attempt tables, append-only. *)
Record Transition := {
  tr_payment : rowid;
  tr_from : State;
  tr_to : State;
  tr_actor : string;
}.

Record AttemptRow := {
  at_payment : option rowid;
  at_identity : option string;
  at_result : string;
  at_reason : option string;
}.

Record db := {
  payments : gmap rowid Payment;
  txs : gmap rowid Tx;
  merchants : gmap rowid Merchant;
  signers : gmap string Z;
  transitions_log : list Transition;
  settlement_attempts : list AttemptRow;
  verification_attempts : list AttemptRow;
  next_id : rowid;
}.

(** ** Field updates *)

Definition set_payments (d : db) (m : gmap rowid Payment) : db :=
  {| payments := m; txs := txs d; merchants := merchants d; signers := signers d;
     transitions_log := transitions_log d; settlement_attempts := settlement_attempts d;
     verification_attempts := verification_attempts d; next_id := next_id d |}.

Definition set_txs (d : db) (m : gmap rowid Tx) : db :=
  {| payments := payments d; txs := m; merchants := merchants d; signers := signers d;
     transitions_log := transitions_log d; settlement_attempts := settlement_attempts d;
     verification_attempts := verification_attempts d; next_id := next_id d |}.

Definition set_signers (d : db) (m : gmap string Z) : db :=
  {| payments := payments d; txs := txs d; merchants := merchants d; signers := m;
     transitions_log := transitions_log d; settlement_attempts := settlement_attempts d;
     verification_attempts := verification_attempts d; next_id := next_id d |}.

Definition set_log (d : db) (l : list Transition) : db :=
  {| payments := payments d; txs := txs d; merchants := merchants d; signers := signers d;
     transitions_log := l; settlement_attempts := settlement_attempts d;
     verification_attempts := verification_attempts d; next_id := next_id d |}.

Definition set_settlement_attempts (d : db) (l : list AttemptRow) : db :=
  {| payments := payments d; txs := txs d; merchants := merchants d; signers := signers d;
     transitions_log := transitions_log d; settlement_attempts := l;
     verification_attempts := verification_attempts d; next_id := next_id d |}.

Definition set_verification_attempts (d : db) (l : list AttemptRow) : db :=
  {| payments := payments d; txs := txs d; merchants := merchants d; signers := signers d;
     transitions_log := transitions_log d; settlement_attempts := settlement_attempts d;
     verification_attempts := l; next_id := next_id d |}.

Definition set_next_id (d : db) (n : rowid) : db :=
  {| payments := payments d; txs := txs d; merchants := merchants d; signers := signers d;
     transitions_log := transitions_log d; settlement_attempts := settlement_attempts d;
     verification_attempts := verification_attempts d; next_id := n |}.

(** ** Row updates *)

Definition tx_set_status (s : TxStatus) (now : time) (r : Tx) : Tx :=
  {| t_payment := t_payment r; t_hash := t_hash r; t_signer := t_signer r;
     t_nonce := t_nonce r; t_raw_hash := t_raw_hash r; t_sighash := t_sighash r;
     t_raw := t_raw r; t_status := s; t_block_number := t_block_number r;
     t_block_hash := t_block_hash r; t_gas_limit := t_gas_limit r; t_gas_used := t_gas_used r;
     t_gas_price := t_gas_price r; t_max_fee := t_max_fee r;
     t_priority_fee := t_priority_fee r; t_replaced_by := t_replaced_by r;
     t_attempted_at := t_attempted_at r; t_first_seen := t_first_seen r;
     t_confirmed_at := t_confirmed_at r; t_attempts := t_attempts r; t_updated_at := now |}.

Definition tx_set_hash (h : string) (r : Tx) : Tx :=
  {| t_payment := t_payment r; t_hash := Some h; t_signer := t_signer r; t_nonce := t_nonce r;
     t_raw_hash := t_raw_hash r; t_sighash := t_sighash r; t_raw := t_raw r;
     t_status := t_status r; t_block_number := t_block_number r;
     t_block_hash := t_block_hash r; t_gas_limit := t_gas_limit r; t_gas_used := t_gas_used r;
     t_gas_price := t_gas_price r; t_max_fee := t_max_fee r;
     t_priority_fee := t_priority_fee r; t_replaced_by := t_replaced_by r;
     t_attempted_at := t_attempted_at r; t_first_seen := t_first_seen r;
     t_confirmed_at := t_confirmed_at r; t_attempts := t_attempts r;
     t_updated_at := t_updated_at r |}.

Definition tx_set_attempted (now : time) (r : Tx) : Tx :=
  {| t_payment := t_payment r; t_hash := t_hash r; t_signer := t_signer r;
     t_nonce := t_nonce r; t_raw_hash := t_raw_hash r; t_sighash := t_sighash r;
     t_raw := t_raw r; t_status := t_status r; t_block_number := t_block_number r;
     t_block_hash := t_block_hash r; t_gas_limit := t_gas_limit r; t_gas_used := t_gas_used r;
     t_gas_price := t_gas_price r; t_max_fee := t_max_fee r;
     t_priority_fee := t_priority_fee r; t_replaced_by := t_replaced_by r;
     t_attempted_at := Some now; t_first_seen := t_first_seen r;
     t_confirmed_at := t_confirmed_at r; t_attempts := t_attempts r;
     t_updated_at := t_updated_at r |}.

(** The signed form: hash of the bytes, gas limit and fees. *)
Definition tx_set_signed (rawHash : string) (gas fee tip : Z) (r : Tx) : Tx :=
  {| t_payment := t_payment r; t_hash := t_hash r; t_signer := t_signer r;
     t_nonce := t_nonce r; t_raw_hash := Some rawHash; t_sighash := t_sighash r;
     t_raw := t_raw r; t_status := t_status r; t_block_number := t_block_number r;
     t_block_hash := t_block_hash r; t_gas_limit := Some gas; t_gas_used := t_gas_used r;
     t_gas_price := t_gas_price r; t_max_fee := Some fee; t_priority_fee := Some tip;
     t_replaced_by := t_replaced_by r; t_attempted_at := t_attempted_at r;
     t_first_seen := t_first_seen r; t_confirmed_at := t_confirmed_at r;
     t_attempts := t_attempts r; t_updated_at := t_updated_at r |}.

Definition tx_set_sighash (h : string) (r : Tx) : Tx :=
  {| t_payment := t_payment r; t_hash := t_hash r; t_signer := t_signer r;
     t_nonce := t_nonce r; t_raw_hash := t_raw_hash r; t_sighash := Some h; t_raw := t_raw r;
     t_status := t_status r; t_block_number := t_block_number r;
     t_block_hash := t_block_hash r; t_gas_limit := t_gas_limit r; t_gas_used := t_gas_used r;
     t_gas_price := t_gas_price r; t_max_fee := t_max_fee r;
     t_priority_fee := t_priority_fee r; t_replaced_by := t_replaced_by r;
     t_attempted_at := t_attempted_at r; t_first_seen := t_first_seen r;
     t_confirmed_at := t_confirmed_at r; t_attempts := t_attempts r;
     t_updated_at := t_updated_at r |}.

Definition tx_set_raw (raw : option (list byte)) (now : time) (r : Tx) : Tx :=
  {| t_payment := t_payment r; t_hash := t_hash r; t_signer := t_signer r;
     t_nonce := t_nonce r; t_raw_hash := t_raw_hash r; t_sighash := t_sighash r; t_raw := raw;
     t_status := t_status r; t_block_number := t_block_number r;
     t_block_hash := t_block_hash r; t_gas_limit := t_gas_limit r; t_gas_used := t_gas_used r;
     t_gas_price := t_gas_price r; t_max_fee := t_max_fee r;
     t_priority_fee := t_priority_fee r; t_replaced_by := t_replaced_by r;
     t_attempted_at := t_attempted_at r; t_first_seen := t_first_seen r;
     t_confirmed_at := t_confirmed_at r; t_attempts := t_attempts r; t_updated_at := now |}.

Definition tx_set_block (number : option Z) (hash : option string) (r : Tx) : Tx :=
  {| t_payment := t_payment r; t_hash := t_hash r; t_signer := t_signer r;
     t_nonce := t_nonce r; t_raw_hash := t_raw_hash r; t_sighash := t_sighash r;
     t_raw := t_raw r; t_status := t_status r; t_block_number := number; t_block_hash := hash;
     t_gas_limit := t_gas_limit r; t_gas_used := t_gas_used r; t_gas_price := t_gas_price r;
     t_max_fee := t_max_fee r; t_priority_fee := t_priority_fee r;
     t_replaced_by := t_replaced_by r; t_attempted_at := t_attempted_at r;
     t_first_seen := t_first_seen r; t_confirmed_at := t_confirmed_at r;
     t_attempts := t_attempts r; t_updated_at := t_updated_at r |}.

(** [first_seen_at = coalesce(first_seen_at, now())]. *)
Definition tx_set_seen (now : time) (r : Tx) : Tx :=
  {| t_payment := t_payment r; t_hash := t_hash r; t_signer := t_signer r;
     t_nonce := t_nonce r; t_raw_hash := t_raw_hash r; t_sighash := t_sighash r;
     t_raw := t_raw r; t_status := t_status r; t_block_number := t_block_number r;
     t_block_hash := t_block_hash r; t_gas_limit := t_gas_limit r; t_gas_used := t_gas_used r;
     t_gas_price := t_gas_price r; t_max_fee := t_max_fee r;
     t_priority_fee := t_priority_fee r; t_replaced_by := t_replaced_by r;
     t_attempted_at := t_attempted_at r; t_first_seen := Some (default now (t_first_seen r));
     t_confirmed_at := t_confirmed_at r; t_attempts := t_attempts r;
     t_updated_at := t_updated_at r |}.

Definition tx_set_gas (used price : Z) (r : Tx) : Tx :=
  {| t_payment := t_payment r; t_hash := t_hash r; t_signer := t_signer r;
     t_nonce := t_nonce r; t_raw_hash := t_raw_hash r; t_sighash := t_sighash r;
     t_raw := t_raw r; t_status := t_status r; t_block_number := t_block_number r;
     t_block_hash := t_block_hash r; t_gas_limit := t_gas_limit r; t_gas_used := Some used;
     t_gas_price := Some price; t_max_fee := t_max_fee r; t_priority_fee := t_priority_fee r;
     t_replaced_by := t_replaced_by r; t_attempted_at := t_attempted_at r;
     t_first_seen := t_first_seen r; t_confirmed_at := t_confirmed_at r;
     t_attempts := t_attempts r; t_updated_at := t_updated_at r |}.

Definition tx_set_confirmed_at (now : time) (r : Tx) : Tx :=
  {| t_payment := t_payment r; t_hash := t_hash r; t_signer := t_signer r;
     t_nonce := t_nonce r; t_raw_hash := t_raw_hash r; t_sighash := t_sighash r;
     t_raw := t_raw r; t_status := t_status r; t_block_number := t_block_number r;
     t_block_hash := t_block_hash r; t_gas_limit := t_gas_limit r; t_gas_used := t_gas_used r;
     t_gas_price := t_gas_price r; t_max_fee := t_max_fee r;
     t_priority_fee := t_priority_fee r; t_replaced_by := t_replaced_by r;
     t_attempted_at := t_attempted_at r; t_first_seen := t_first_seen r;
     t_confirmed_at := Some now; t_attempts := t_attempts r; t_updated_at := t_updated_at r |}.

Definition tx_set_replaced_by (i : rowid) (r : Tx) : Tx :=
  {| t_payment := t_payment r; t_hash := t_hash r; t_signer := t_signer r;
     t_nonce := t_nonce r; t_raw_hash := t_raw_hash r; t_sighash := t_sighash r;
     t_raw := t_raw r; t_status := t_status r; t_block_number := t_block_number r;
     t_block_hash := t_block_hash r; t_gas_limit := t_gas_limit r; t_gas_used := t_gas_used r;
     t_gas_price := t_gas_price r; t_max_fee := t_max_fee r;
     t_priority_fee := t_priority_fee r; t_replaced_by := Some i;
     t_attempted_at := t_attempted_at r; t_first_seen := t_first_seen r;
     t_confirmed_at := t_confirmed_at r; t_attempts := t_attempts r;
     t_updated_at := t_updated_at r |}.

Definition tx_bump_attempts (now : time) (r : Tx) : Tx :=
  {| t_payment := t_payment r; t_hash := t_hash r; t_signer := t_signer r;
     t_nonce := t_nonce r; t_raw_hash := t_raw_hash r; t_sighash := t_sighash r;
     t_raw := t_raw r; t_status := t_status r; t_block_number := t_block_number r;
     t_block_hash := t_block_hash r; t_gas_limit := t_gas_limit r; t_gas_used := t_gas_used r;
     t_gas_price := t_gas_price r; t_max_fee := t_max_fee r;
     t_priority_fee := t_priority_fee r; t_replaced_by := t_replaced_by r;
     t_attempted_at := t_attempted_at r; t_first_seen := t_first_seen r;
     t_confirmed_at := t_confirmed_at r; t_attempts := t_attempts r + 1;
     t_updated_at := now |}.

Definition payment_set_state (s : State) (now : time) (p : Payment) : Payment :=
  {| p_identity := p_identity p; p_merchant := p_merchant p; p_payer := p_payer p;
     p_recipient := p_recipient p; p_amount := p_amount p; p_auth_nonce := p_auth_nonce p;
     p_valid_after := p_valid_after p; p_valid_before := p_valid_before p;
     p_payload_hash := p_payload_hash p; p_signature := p_signature p;
     p_verification := p_verification p; p_state := s; p_requested_at := p_requested_at p;
     p_confirmed_at := p_confirmed_at p; p_claimed_by := p_claimed_by p;
     p_claimed_until := p_claimed_until p; p_redacted_at := p_redacted_at p;
     p_updated_at := now |}.

Definition payment_set_verification (v : string) (p : Payment) : Payment :=
  {| p_identity := p_identity p; p_merchant := p_merchant p; p_payer := p_payer p;
     p_recipient := p_recipient p; p_amount := p_amount p; p_auth_nonce := p_auth_nonce p;
     p_valid_after := p_valid_after p; p_valid_before := p_valid_before p;
     p_payload_hash := p_payload_hash p; p_signature := p_signature p; p_verification := v;
     p_state := p_state p; p_requested_at := p_requested_at p;
     p_confirmed_at := p_confirmed_at p; p_claimed_by := p_claimed_by p;
     p_claimed_until := p_claimed_until p; p_redacted_at := p_redacted_at p;
     p_updated_at := p_updated_at p |}.

Definition payment_set_requested (signature : string) (now : time) (p : Payment) : Payment :=
  {| p_identity := p_identity p; p_merchant := p_merchant p; p_payer := p_payer p;
     p_recipient := p_recipient p; p_amount := p_amount p; p_auth_nonce := p_auth_nonce p;
     p_valid_after := p_valid_after p; p_valid_before := p_valid_before p;
     p_payload_hash := p_payload_hash p; p_signature := Some signature;
     p_verification := p_verification p; p_state := p_state p; p_requested_at := Some now;
     p_confirmed_at := p_confirmed_at p; p_claimed_by := p_claimed_by p;
     p_claimed_until := p_claimed_until p; p_redacted_at := p_redacted_at p;
     p_updated_at := p_updated_at p |}.

Definition payment_set_confirmed_at (now : time) (p : Payment) : Payment :=
  {| p_identity := p_identity p; p_merchant := p_merchant p; p_payer := p_payer p;
     p_recipient := p_recipient p; p_amount := p_amount p; p_auth_nonce := p_auth_nonce p;
     p_valid_after := p_valid_after p; p_valid_before := p_valid_before p;
     p_payload_hash := p_payload_hash p; p_signature := p_signature p;
     p_verification := p_verification p; p_state := p_state p;
     p_requested_at := p_requested_at p; p_confirmed_at := Some now;
     p_claimed_by := p_claimed_by p; p_claimed_until := p_claimed_until p;
     p_redacted_at := p_redacted_at p; p_updated_at := p_updated_at p |}.

Definition payment_set_claim (worker : option string) (until : option time) (p : Payment) : Payment :=
  {| p_identity := p_identity p; p_merchant := p_merchant p; p_payer := p_payer p;
     p_recipient := p_recipient p; p_amount := p_amount p; p_auth_nonce := p_auth_nonce p;
     p_valid_after := p_valid_after p; p_valid_before := p_valid_before p;
     p_payload_hash := p_payload_hash p; p_signature := p_signature p;
     p_verification := p_verification p; p_state := p_state p;
     p_requested_at := p_requested_at p; p_confirmed_at := p_confirmed_at p;
     p_claimed_by := worker; p_claimed_until := until; p_redacted_at := p_redacted_at p;
     p_updated_at := p_updated_at p |}.

Definition payment_touch (now : time) (p : Payment) : Payment :=
  {| p_identity := p_identity p; p_merchant := p_merchant p; p_payer := p_payer p;
     p_recipient := p_recipient p; p_amount := p_amount p; p_auth_nonce := p_auth_nonce p;
     p_valid_after := p_valid_after p; p_valid_before := p_valid_before p;
     p_payload_hash := p_payload_hash p; p_signature := p_signature p;
     p_verification := p_verification p; p_state := p_state p;
     p_requested_at := p_requested_at p; p_confirmed_at := p_confirmed_at p;
     p_claimed_by := p_claimed_by p; p_claimed_until := p_claimed_until p;
     p_redacted_at := p_redacted_at p; p_updated_at := now |}.

(** Everything that reproduces or associates the payer authorization. *)
Definition payment_redact (now : time) (p : Payment) : Payment :=
  {| p_identity := p_identity p; p_merchant := None; p_payer := None; p_recipient := None;
     p_amount := p_amount p; p_auth_nonce := None; p_valid_after := None;
     p_valid_before := None; p_payload_hash := None; p_signature := None;
     p_verification := p_verification p; p_state := p_state p;
     p_requested_at := p_requested_at p; p_confirmed_at := p_confirmed_at p;
     p_claimed_by := None; p_claimed_until := None; p_redacted_at := Some now;
     p_updated_at := now |}.

(** ** Constraints *)

(** The predicate of [ethereum_transactions_active_payment_unique]. *)
Definition active (s : TxStatus) : bool :=
  match s with
  | TxIntent | TxBroadcasting | TxBroadcast | TxConfirming | TxAmbiguous => true
  | _ => false
  end.

(** [numeric(78,0)] and [bigint] ranges. *)
Definition numeric78 (z : Z) : bool := (Z.abs z <? 10 ^ 78).
Definition bigint (z : Z) : bool := (- 2 ^ 63 <=? z) && (z <? 2 ^ 63).

Definition opt_check {A} (f : A -> bool) (o : option A) : bool :=
  match o with Some a => f a | None => true end.

(** A decimal parameter bound to a numeric column. *)
Definition numeric_text (s : string) : option Z := SetString10 s.

(** The shape constraint ^0x[0-9a-f]{130}$ on [payer_signature]. *)
Definition signature_shape (s : string) : bool :=
  HasPrefix s "0x" && (String.length s =? 132)%nat && lower_hex (TrimPrefix s "0x").

Definition sighash_shape (s : string) : bool := (String.length s =? 64)%nat && lower_hex s.

(** A char(n) column stores a shorter value padded with blanks and refuses a
    longer one. *)
Definition char_n (n : nat) (s : string) : string := s +:+ Repeat " " (n - String.length s).

Definition char_ok (n : nat) (s : string) : bool := (String.length s =? n)%nat.

(** Identities are written with their 68 characters, so they are compared as
    they are. *)
Definition payment_row_ok (p : Payment) : bool :=
  char_ok 68 (p_identity p) && opt_check (char_ok 42) (p_payer p) &&
  opt_check (char_ok 42) (p_recipient p) && opt_check (char_ok 66) (p_auth_nonce p) &&
  opt_check (char_ok 64) (p_payload_hash p) &&
  (0 <? p_amount p) && numeric78 (p_amount p) &&
  opt_check (fun a => String.eqb a (ToLower a)) (p_payer p) &&
  opt_check (fun a => String.eqb a (ToLower a)) (p_recipient p) &&
  opt_check signature_shape (p_signature p) &&
  match p_valid_after p, p_valid_before p with
  | Some a, Some b => a <? b
  | _, _ => true
  end &&
  match p_confirmed_at p with
  | Some _ => bool_decide (p_state p = StateConfirmed)
  | None => true
  end &&
  bool_decide (is_Some (p_claimed_by p) <-> is_Some (p_claimed_until p)) &&
  match p_redacted_at p with
  | None => true
  | Some _ =>
      bool_decide (p_merchant p = None /\ p_payer p = None /\ p_recipient p = None /\
        p_auth_nonce p = None /\ p_valid_after p = None /\ p_valid_before p = None /\
        p_payload_hash p = None /\ p_signature p = None /\
        p_claimed_by p = None /\ p_claimed_until p = None)
  end.

Definition tx_row_ok (t : Tx) : bool :=
  numeric78 (t_nonce t) && opt_check sighash_shape (t_sighash t) &&
  opt_check (fun b => bigint b && (0 <=? b)) (t_block_number t) &&
  opt_check numeric78 (t_gas_limit t) && opt_check numeric78 (t_gas_used t) &&
  opt_check numeric78 (t_gas_price t) &&
  opt_check (fun f => numeric78 f && (0 <? f)) (t_max_fee t) &&
  opt_check (fun f => numeric78 f && (0 <=? f)) (t_priority_fee t) && (0 <=? t_attempts t).

(** Two rows the unique indexes let coexist. *)
Definition tx_compatible (r s : Tx) : Prop :=
  (t_hash r = None \/ t_hash r <> t_hash s) /\
  (active (t_status r) = false \/ active (t_status s) = false \/ t_payment r <> t_payment s).

Definition payment_compatible (p q : Payment) : Prop :=
  p_identity p <> p_identity q /\
  (p_payer p = None \/ p_auth_nonce p = None \/
   p_payer p <> p_payer q \/ p_auth_nonce p <> p_auth_nonce q).

#[export] Instance tx_compatible_dec r s : Decision (tx_compatible r s).
Proof. unfold tx_compatible. apply _. Defined.

#[export] Instance payment_compatible_dec p q : Decision (payment_compatible p q).
Proof. unfold payment_compatible. apply _. Defined.

Definition tx_fits (d : db) (i : rowid) (r : Tx) : bool :=
  bool_decide (map_Forall (fun j s => j = i \/ tx_compatible r s) (txs d)).

Definition payment_fits (d : db) (i : rowid) (p : Payment) : bool :=
  bool_decide (map_Forall (fun j q => j = i \/ payment_compatible p q) (payments d)).

Definition actor_types : list string := ["http"; "worker"; "operator"; "system"]%string.

(** ** Transactions and statements *)

Definition DB (A : Type) : Type := db -> res (A * db).

Definition ret {A} (a : A) : DB A := fun d => Ok (a, d).
Definition fail {A} (e : error) : DB A := fun _ => Err e.
Definition bind {A B} (m : DB A) (k : A -> DB B) : DB B :=
  fun d => match m d with Ok (a, d') => k a d' | Err e => Err e end.
Definition get : DB db := fun d => Ok (d, d).
Definition put (d : db) : DB unit := fun _ => Ok (tt, d).

Declare Scope db_scope.
Delimit Scope db_scope with db.

Notation "x <-! m ;; k" := (bind m (fun x => k))
  (at level 100, m at next level, right associativity) : db_scope.
Notation "m ;;! k" := (bind m (fun _ => k)) (at level 100, right associativity) : db_scope.

Local Open Scope db_scope.

Definition lift {A} (r : res A) : DB A := fun d => match r with Ok a => Ok (a, d) | Err e => Err e end.

Definition of_option {A} (e : error) (o : option A) : DB A :=
  match o with Some a => ret a | None => fail e end.

(** Write one row of [ethereum_transactions]. *)
Definition put_tx (i : rowid) (r : Tx) : DB unit :=
  fun d =>
    if negb (tx_row_ok r) then Err [ECheckViolation]
    else if negb (tx_fits d i r) then Err [EUniqueViolation]
    else Ok (tt, set_txs d (<[i := r]> (txs d))).

Definition put_payment (i : rowid) (p : Payment) : DB unit :=
  fun d =>
    if negb (payment_row_ok p) then Err [ECheckViolation]
    else if negb (payment_fits d i p) then Err [EUniqueViolation]
    else Ok (tt, set_payments d (<[i := p]> (payments d))).

(** [UPDATE ethereum_transactions SET f WHERE id = i AND cond]: the number of
    rows affected. *)
Definition update_tx (i : rowid) (cond : Tx -> bool) (f : Tx -> Tx) : DB Z :=
  d <-! get ;;
  match txs d !! i with
  | Some r => if cond r then put_tx i (f r) ;;! ret 1 else ret 0
  | None => ret 0
  end.

(** The same on [payment_records], returning the row before the update. *)
Definition update_payment (i : rowid) (cond : Payment -> bool) (f : Payment -> Payment) :
    DB (option Payment) :=
  d <-! get ;;
  match payments d !! i with
  | Some p => if cond p then put_payment i (f p) ;;! ret (Some p) else ret None
  | None => ret None
  end.

(** [UPDATE ethereum_transactions SET status = s, updated_at = now()] on every
    row satisfying [cond], for a status outside the active set. *)
Definition update_txs_status (cond : rowid -> Tx -> bool) (f : Tx -> Tx) : DB Z :=
  d <-! get ;;
  put (set_txs d (map_imap (fun i r => Some (if cond i r then f r else r)) (txs d))) ;;!
  ret (Z.of_nat (size (filter (fun ir => cond ir.1 ir.2 = true) (txs d)))).

Definition fresh_id : DB rowid :=
  d <-! get ;;
  put (set_next_id d (N.succ (next_id d))) ;;! ret (next_id d).

Definition insert_tx (r : Tx) : DB rowid := i <-! fresh_id ;; put_tx i r ;;! ret i.

Definition insert_transition (t : Transition) : DB unit :=
  d <-! get ;;
  if bool_decide (tr_actor t ∈ actor_types)
  then put (set_log d (transitions_log d ++ [t]))
  else fail [ECheckViolation].

Definition insert_settlement_attempt (a : AttemptRow) : DB unit :=
  d <-! get ;; put (set_settlement_attempts d (settlement_attempts d ++ [a])).

Definition insert_verification_attempt (a : AttemptRow) : DB unit :=
  d <-! get ;; put (set_verification_attempts d (verification_attempts d ++ [a])).
