(* ===== verification/Work.v ===== *)
(** [internal/settlement/intent.go], [lease.go] and [work.go]: the values the
    settlement service and the store exchange, and their validation. *)

From Stdlib Require Import ZArith Lia Strings.Byte.
From stdpp Require Import base list strings.
From S2P Require Import Prelude GoStd State Schema Calldata.

Local Open Scope Z_scope.

(** ** Leases *)

Record Lease := {
  l_PaymentID : rowid;
  l_PaymentIdentity : string;
  l_State : State;
  l_Worker : string;
  l_Until : time;
}.

Definition Expired (l : Lease) (now : time) : bool := negb (now <? l_Until l).

Record ClaimRequest := {
  cr_Worker : string;
  cr_States : list State;
  cr_Duration : duration;
  cr_Limit : Z;
  cr_Now : time;
}.

Definition ClaimRequest_Validate (r : ClaimRequest) : error :=
  errors_collect
    [(String.eqb (cr_Worker r) EmptyString, EOpaque);
     (match cr_States r with [] => true | _ => false end, EOpaque);
     (cr_Duration r <=? 0, EOpaque);
     (cr_Limit r <=? 0, EOpaque);
     (IsZero (cr_Now r), EOpaque)].

(** ** Intents *)

Record IntentRequest := {
  ir_PaymentIdentity : string;
  ir_SignerAddress : string;
  ir_PayerSignature : string;
  ir_ExpiryMargin : duration;
  ir_Quota : Z;
  ir_QuotaWindow : duration;
  ir_GlobalQuota : Z;
  ir_Now : time;
}.

Record Intent := {
  in_PaymentID : rowid;
  in_PaymentIdentity : string;
  in_TransactionID : rowid;
  in_SignerAddress : string;
  in_Nonce : Z;
  in_TxHash : string;
  in_Reverted : bool;
  in_Confirmed : bool;
  in_Duplicate : bool;
}.

Definition IntentRequest_Validate (r : IntentRequest) : error :=
  errors_collect
    [(String.eqb (ir_PaymentIdentity r) EmptyString, EOpaque);
     (String.eqb (ir_SignerAddress r) EmptyString, EOpaque);
     (negb (String.length (ir_PayerSignature r) =? 132)%nat
        || negb (HasPrefix (ir_PayerSignature r) "0x"), EOpaque);
     (ir_ExpiryMargin r <=? 0, EOpaque);
     (ir_Quota r <=? 0, EOpaque);
     (ir_QuotaWindow r <=? 0, EOpaque);
     (ir_GlobalQuota r <=? 0, EOpaque);
     ((0 <? ir_GlobalQuota r) && (0 <? ir_Quota r) && (ir_GlobalQuota r <? ir_Quota r), EOpaque);
     (IsZero (ir_Now r), EOpaque)].

(** The durable reason codes. *)
Definition ReasonPaymentNotFound : string := "payment_not_found".
Definition ReasonPaymentNotVerified : string := "payment_not_verified".
Definition ReasonRecipientNotMerchant : string := "recipient_not_registered".
Definition ReasonAuthorizationExpiring : string := "authorization_expiring".
Definition ReasonMerchantQuotaExceeded : string := "merchant_quota_exceeded".
Definition ReasonGlobalQuotaExceeded : string := "facilitator_quota_exceeded".
Definition ReasonSimulationReverted : string := "simulation_reverted".

(** ** Work *)

Record Work := {
  w_PaymentID : rowid;
  w_PaymentIdentity : string;
  w_State : State;
  w_Authorization : Calldata.Authorization;
  w_TransactionID : rowid;
  w_TransactionStatus : TxStatus;
  w_Nonce : Z;
  w_TxHash : string;
  w_RawHash : string;
  w_Sighash : string;
  w_SignerAddress : string;
  w_GasLimit : Z;
  w_MaxFeePerGas : string;
  w_MaxPriorityFeePerGas : string;
  w_BroadcastAttemptedAt : time;
  w_TransactionUpdatedAt : time;
  w_AmbiguousAttempts : Z;
  w_DBNow : time;
}.

Definition BroadcastPending (w : Work) : bool := bool_decide (w_TransactionStatus w = TxIntent).

Definition AmbiguousBroadcast (w : Work) : bool :=
  bool_decide (w_TransactionStatus w = TxBroadcasting) && String.eqb (w_TxHash w) EmptyString.

Record Replacement := {
  rp_Nonce : Z;
  rp_TxHash : string;
  rp_RawHash : string;
  rp_GasLimit : Z;
  rp_MaxFee : string;
  rp_PriorityFee : string;
  rp_SignerAddress : string;
}.

Record TrackedTransaction := {
  tt_PaymentID : rowid;
  tt_TransactionID : rowid;
  tt_TxHash : string;
  tt_Status : option TxStatus;
  tt_RawTransaction : list byte;
}.
