(* ===== verification/Hoare.v ===== *)
(** Reasoning about store methods: triples for the [DB] computations of
    [Schema], the rules of its statements, and the automation that walks a
    method statement by statement. *)

From Stdlib Require Import ZArith Lia Strings.Byte.
From stdpp Require Import base gmap list strings fin_maps.
From S2P Require Import Prelude GoStd State Schema.

Local Open Scope Z_scope.
Local Open Scope db_scope.

(** A transaction that commits from a database satisfying [P] ends with a
    value and a database satisfying [Q]; a rolled-back one changes nothing. *)
Definition triple {A} (P : db -> Prop) (m : DB A) (Q : A -> db -> Prop) : Prop :=
  forall d a d', P d -> m d = Ok (a, d') -> Q a d'.

(** [m] maintains [I] whenever it commits. *)
Definition preserves {A} (I : db -> Prop) (m : DB A) : Prop := triple I m (fun _ => I).

Lemma triple_bind {A B} P (m : DB A) R (k : A -> DB B) Q :
  triple P m R -> (forall a, triple (R a) (k a) Q) -> triple P (bind m k) Q.
Proof.
  intros Hm Hk d b d' HP H. unfold bind in H. destruct (m d) as [[a d1]|] eqn:E; [|done].
  eapply Hk; [|exact H]. by eapply Hm.
Qed.

Lemma triple_ret {A} (P : db -> Prop) (a : A) (Q : A -> db -> Prop) :
  (forall d, P d -> Q a d) -> triple P (ret a) Q.
Proof. intros HQ d b d' HP [= <- <-]. auto. Qed.

Lemma triple_fail {A} P e (Q : A -> db -> Prop) : triple P (fail e) Q.
Proof. intros d a d' _ H. discriminate H. Qed.

Lemma triple_get P (Q : db -> db -> Prop) : (forall d, P d -> Q d d) -> triple P get Q.
Proof. intros HQ d a d' HP [= <- <-]. auto. Qed.

Lemma triple_put (P : db -> Prop) d1 (Q : unit -> db -> Prop) :
  (forall d, P d -> Q tt d1) -> triple P (put d1) Q.
Proof. intros HQ d [] d' HP [= <-]. eauto. Qed.

Lemma triple_lift {A} (P : db -> Prop) (r : res A) (Q : A -> db -> Prop) :
  (forall a d, r = Ok a -> P d -> Q a d) -> triple P (lift r) Q.
Proof. intros HQ d a d' HP H. unfold lift in H. destruct r; simplify_eq. auto. Qed.

Lemma triple_of_option {A} (P : db -> Prop) e (o : option A) (Q : A -> db -> Prop) :
  (forall a d, o = Some a -> P d -> Q a d) -> triple P (of_option e o) Q.
Proof.
  intros HQ. destruct o as [a|]; simpl; [|apply triple_fail].
  apply triple_ret. auto.
Qed.

Lemma triple_conseq {A} (P P' : db -> Prop) (m : DB A) (Q Q' : A -> db -> Prop) :
  (forall d, P d -> P' d) -> (forall a d, Q' a d -> Q a d) -> triple P' m Q' -> triple P m Q.
Proof. intros HP HQ Ht d a d' H Hm. eauto. Qed.

Lemma triple_pre {A} (P P' : db -> Prop) (m : DB A) Q :
  (forall d, P d -> P' d) -> triple P' m Q -> triple P m Q.
Proof. intros HP. by apply triple_conseq. Qed.

(** Facts that do not depend on the database. *)
Lemma triple_pure {A} (X : Prop) (P : db -> Prop) (m : DB A) Q :
  (X -> triple P m Q) -> triple (fun d => X /\ P d) m Q.
Proof. intros H d a d' [HX HP]. by apply H. Qed.

Lemma preserves_bind {A B} I (m : DB A) (k : A -> DB B) :
  preserves I m -> (forall a, preserves I (k a)) -> preserves I (bind m k).
Proof. intros Hm Hk. eapply triple_bind; [exact Hm | intros a; apply Hk]. Qed.

Lemma preserves_ret {A} I (a : A) : preserves I (ret a).
Proof. by apply triple_ret. Qed.

Lemma preserves_fail {A} I e : preserves I (@fail A e).
Proof. apply triple_fail. Qed.

Lemma preserves_get I : preserves I get.
Proof. by apply triple_get. Qed.

Lemma preserves_lift {A} I (r : res A) : preserves I (lift r).
Proof. apply triple_lift. auto. Qed.

Lemma preserves_of_option {A} I e (o : option A) : preserves I (of_option e o).
Proof. apply triple_of_option. auto. Qed.

Lemma preserves_of_option_bind {A B} I e (o : option A) (k : A -> DB B) :
  (forall a, o = Some a -> preserves I (k a)) -> preserves I (bind (of_option e o) k).
Proof. intros Hk d b d'. unfold bind. destruct o; [by apply Hk | done]. Qed.

Create HintDb store.

#[export] Hint Resolve preserves_ret preserves_fail preserves_get preserves_lift
  preserves_of_option : store.

(** Read a triple with equal ends as preservation. *)
Ltac as_preserves :=
  cbv beta;
  match goal with
  | |- triple ?I ?m (fun _ => ?I) => change (preserves I m)
  end.

(** Walk a method: binds, case distinctions, then the hint database. *)
Ltac walk :=
  repeat first
    [ progress intros
    | as_preserves
    | solve [eauto 2 with store]
    | match goal with
      | |- preserves _ (bind _ _) => apply preserves_bind
      | |- preserves _ (match ?x with _ => _ end) => destruct x eqn:?
      end ].

(** ** Statements *)

Lemma put_tx_Ok i r d a d' :
  put_tx i r d = Ok (a, d') ->
  tx_row_ok r = true /\ map_Forall (fun j s => j = i \/ tx_compatible r s) (txs d) /\
  d' = set_txs d (<[i := r]> (txs d)).
Proof.
  unfold put_tx. destruct (tx_row_ok r) eqn:E1; [|done]. destruct (tx_fits d i r) eqn:E2; [|done].
  intros [= _ <-]. apply bool_decide_eq_true in E2. done.
Qed.

Lemma put_payment_Ok i p d a d' :
  put_payment i p d = Ok (a, d') ->
  payment_row_ok p = true /\ map_Forall (fun j q => j = i \/ payment_compatible p q) (payments d) /\
  d' = set_payments d (<[i := p]> (payments d)).
Proof.
  unfold put_payment. destruct (payment_row_ok p) eqn:E1; [|done].
  destruct (payment_fits d i p) eqn:E2; [|done].
  intros [= _ <-]. apply bool_decide_eq_true in E2. done.
Qed.

Lemma update_tx_Ok i cond f d n d' :
  update_tx i cond f d = Ok (n, d') ->
  (n = 0 /\ d' = d /\ forall r, txs d !! i = Some r -> cond r = false) \/
  (n = 1 /\ exists r, txs d !! i = Some r /\ cond r = true /\ tx_row_ok (f r) = true /\
     map_Forall (fun j s => j = i \/ tx_compatible (f r) s) (txs d) /\
     d' = set_txs d (<[i := f r]> (txs d))).
Proof.
  unfold update_tx, bind, get.
  destruct (txs d !! i) as [r|] eqn:E; [|intros [= <- <-]; left; naive_solver].
  destruct (cond r) eqn:Ec; [|intros [= <- <-]; left; naive_solver].
  destruct (put_tx i (f r) d) as [[? ?]|] eqn:Ep; [|done].
  apply put_tx_Ok in Ep as (? & ? & ->). intros [= <- <-]. right. eauto 10.
Qed.

Lemma update_payment_Ok i cond f d o d' :
  update_payment i cond f d = Ok (o, d') ->
  (o = None /\ d' = d /\ forall p, payments d !! i = Some p -> cond p = false) \/
  (exists p, o = Some p /\ payments d !! i = Some p /\ cond p = true /\
     payment_row_ok (f p) = true /\ d' = set_payments d (<[i := f p]> (payments d))).
Proof.
  unfold update_payment, bind, get.
  destruct (payments d !! i) as [p|] eqn:E; [|intros [= <- <-]; left; naive_solver].
  destruct (cond p) eqn:Ec; [|intros [= <- <-]; left; naive_solver].
  destruct (put_payment i (f p) d) as [[? ?]|] eqn:Ep; [|done].
  apply put_payment_Ok in Ep as (? & ? & ->). intros [= <- <-]. right. eauto 10.
Qed.

Lemma update_txs_status_Ok cond f d n d' :
  update_txs_status cond f d = Ok (n, d') ->
  d' = set_txs d (map_imap (fun i r => Some (if cond i r then f r else r)) (txs d)).
Proof. unfold update_txs_status, bind, get, put, ret. by intros [= _ <-]. Qed.

Lemma insert_tx_Ok r d i d' :
  insert_tx r d = Ok (i, d') ->
  i = next_id d /\ tx_row_ok r = true /\
  map_Forall (fun j s => j = i \/ tx_compatible r s) (txs d) /\
  d' = set_txs (set_next_id d (N.succ (next_id d))) (<[i := r]> (txs d)).
Proof.
  unfold insert_tx, fresh_id, bind, get, put, ret.
  destruct (put_tx _ _ _) as [[? ?]|] eqn:E; [|done]. intros [= <- <-].
  apply put_tx_Ok in E as (? & ? & ->). done.
Qed.

Lemma insert_transition_Ok t d a d' :
  insert_transition t d = Ok (a, d') ->
  tr_actor t ∈ actor_types /\ d' = set_log d (transitions_log d ++ [t]).
Proof.
  unfold insert_transition, bind, get, put. destruct (bool_decide _) eqn:E; [|done].
  intros [= _ <-]. bool_hyps. done.
Qed.

Lemma lookup_update_txs (cond : N -> Tx -> bool) (f : Tx -> Tx) (m : gmap N Tx) i r' :
  map_imap (fun i r => Some (if cond i r then f r else r)) m !! i = Some r' ->
  exists r, m !! i = Some r /\ r' = if cond i r then f r else r.
Proof.
  rewrite map_lookup_imap. destruct (m !! i) as [r|]; simpl; [|done]. intros [= <-]. eauto.
Qed.
