(* ===== verification/Store.v ===== *)
(** [internal/store]: verification records ([store.go]), settlement intents
    ([settlement.go]), leases ([lease.go], [settlementwork.go]), the nonce
    sequence ([signer.go]) and payment retention ([retention.go]).

    A method that commits and still reports an error (a recorded rejection)
    returns the error as its value; an error of the [DB] computation itself is
    a rolled-back transaction. *)

From Stdlib Require Import ZArith Lia Strings.Byte.
From stdpp Require Import base gmap list strings sorting fin_maps.
From S2P Require Import Prelude GoStd WalletProof Verification State Schema Calldata Work.

Local Open Scope Z_scope.
Local Open Scope db_scope.

(** ** Queries *)

Definition find_payment (d : db) (cond : rowid -> Payment -> bool) : option (rowid * Payment) :=
  List.find (fun ip => cond ip.1 ip.2) (map_to_list (payments d)).

Definition find_tx (d : db) (cond : rowid -> Tx -> bool) : option (rowid * Tx) :=
  List.find (fun ir => cond ir.1 ir.2) (map_to_list (txs d)).

Definition select_txs (d : db) (cond : rowid -> Tx -> bool) : list (rowid * Tx) :=
  List.filter (fun ir => cond ir.1 ir.2) (map_to_list (txs d)).

(** [ORDER BY updated_at DESC LIMIT 1]. *)
Definition latest (l : list (rowid * Tx)) : option (rowid * Tx) :=
  fold_left (fun acc x =>
    match acc with
    | None => Some x
    | Some y => if t_updated_at y.2 <? t_updated_at x.2 then Some x else acc
    end) l None.

Definition count_payments (d : db) (cond : Payment -> bool) : Z :=
  Z.of_nat (size (filter (fun ip : rowid * Payment => cond ip.2 = true) (payments d))).

(** Sorting for [ORDER BY key, id]. *)
Definition key_le (a b : Z * rowid) : Prop := a.1 < b.1 \/ (a.1 = b.1 /\ (a.2 <= b.2)%N).

#[export] Instance key_le_dec : RelDecision key_le.
Proof. intros a b. unfold key_le. apply _. Defined.

Definition order_payments (key : Payment -> Z) (l : list (rowid * Payment)) : list (rowid * Payment) :=
  merge_sort (fun a b : rowid * Payment => key_le (key a.2, a.1) (key b.2, b.1)) l.

(** ** signer.go *)

Definition parseNonce (value : string) : res Z :=
  match ParseUint64 value with Some n => Ok n | None => Err [EOpaque] end.

Definition AllocateNonce (signerAddress : string) : DB Z :=
  address <-! lift (NormalizeAddress signerAddress) ;;
  d <-! get ;;
  match signers d !! address with
  | None => fail [ESignerAccountUnknown]
  | Some next =>
      if negb (numeric78 (next + 1)) then fail [EOpaque]
      else
        put (set_signers d (<[address := next + 1]> (signers d))) ;;!
        lift (parseNonce (FormatInt next))
  end.

Definition SeedSignerAccount (signerAddress : string) (chainNonce : Z) : DB Z :=
  address <-! lift (NormalizeAddress signerAddress) ;;
  d <-! get ;;
  let stored :=
    match signers d !! address with
    | Some n => Z.max n chainNonce
    | None => chainNonce
    end in
  if (stored <? 0) || negb (numeric78 stored) then fail [ECheckViolation]
  else
  put (set_signers d (<[address := stored]> (signers d))) ;;!
  lift (parseNonce (FormatInt stored)).

(** ** settlement.go *)

(** The refused attempt is recorded and committed; the caller sees [cause]. *)
Definition rejectSettlement (paymentID : option rowid) (identity reason : string) (cause : error) :
    DB (res Intent) :=
  insert_settlement_attempt
    {| at_payment := paymentID;
       at_identity := if String.eqb identity EmptyString then None else Some identity;
       at_result := "rejected"; at_reason := Some reason |} ;;!
  ret (Err cause).

Definition duplicate_attempt (paymentID : rowid) (identity : string) : AttemptRow :=
  {| at_payment := Some paymentID; at_identity := Some identity; at_result := "duplicate";
     at_reason := None |}.

Definition intent_tx (paymentID : rowid) (signer : string) (nonce : Z) (now : time) : Tx :=
  {| t_payment := paymentID; t_hash := None; t_signer := signer; t_nonce := nonce;
     t_raw_hash := None; t_sighash := None; t_raw := None; t_status := TxIntent;
     t_block_number := None; t_block_hash := None; t_gas_limit := None; t_gas_used := None;
     t_gas_price := None; t_max_fee := None; t_priority_fee := None; t_replaced_by := None;
     t_attempted_at := None; t_first_seen := None; t_confirmed_at := None; t_attempts := 0;
     t_updated_at := now |}.

(** The terminal transaction a duplicate request is answered from. *)
Definition terminal_tx (d : db) (paymentID : rowid) (state : State) : option (rowid * Tx) :=
  let status :=
    match state with
    | StateConfirmed => Some TxConfirmed
    | StateReverted => Some TxReverted
    | _ => None
    end in
  match status with
  | None => None
  | Some status =>
      latest (select_txs d (fun _ r => bool_decide (t_payment r = paymentID) &&
        bool_decide (t_status r = status) && bool_decide (is_Some (t_hash r))))
  end.

Definition active_tx (d : db) (paymentID : rowid) : option (rowid * Tx) :=
  find_tx d (fun _ r => bool_decide (t_payment r = paymentID) && active (t_status r)).

Definition requested_within (now : time) (window : duration) (p : Payment) : bool :=
  match p_requested_at p with
  | Some t => now - window <? t
  | None => false
  end.

(** The part after every admission check: the nonce, the payment's move to
    broadcasting, its audit row, the intent row and the attempt. *)
Definition admit_intent (request : IntentRequest) (signerAddress : string) (paymentID : rowid)
    (state : State) (now : time) : DB (res Intent) :=
  nonce <-! AllocateNonce signerAddress ;;
  previous <-! update_payment paymentID (fun p => bool_decide (p_state p = state))
    (fun p => payment_set_requested (ir_PayerSignature request) now
                (payment_set_state StateBroadcasting now p)) ;;
  match previous with
  | None => fail [EOpaque]
  | Some _ =>
      insert_transition {| tr_payment := paymentID; tr_from := state;
                           tr_to := StateBroadcasting; tr_actor := "http" |} ;;!
      transactionID <-! insert_tx (intent_tx paymentID signerAddress nonce now) ;;
      insert_settlement_attempt
        {| at_payment := Some paymentID; at_identity := Some (ir_PaymentIdentity request);
           at_result := "accepted"; at_reason := None |} ;;!
      ret (Ok {| in_PaymentID := paymentID; in_PaymentIdentity := ir_PaymentIdentity request;
                 in_TransactionID := transactionID; in_SignerAddress := signerAddress;
                 in_Nonce := nonce; in_TxHash := EmptyString; in_Reverted := false;
                 in_Confirmed := false; in_Duplicate := false |})
  end.

(** The admission policy for a payment without an active transaction. *)
Definition admission (request : IntentRequest) (signerAddress : string) (paymentID : rowid)
    (p : Payment) (now : time) : DB (res Intent) :=
  let identity := ir_PaymentIdentity request in
  let reject reason cause := rejectSettlement (Some paymentID) identity reason [cause] in
  d <-! get ;;
  if negb (CanTransition (p_state p) StateBroadcasting) then
    reject ReasonPaymentNotVerified EPaymentNotVerified
  else
    match p_merchant p with
    | None => reject ReasonRecipientNotMerchant ERecipientNotMerchant
    | Some merchantID =>
        match merchants d !! merchantID with
        | Some m =>
            if negb (bool_decide (m_status m = MActive)) then
              reject ReasonRecipientNotMerchant ERecipientNotMerchant
            else if negb (opt_check (fun vb => ir_Now request + ir_ExpiryMargin request <? vb)
                            (p_valid_before p) && bool_decide (is_Some (p_valid_before p))) then
              reject ReasonAuthorizationExpiring EAuthorizationExpiring
            else if ir_Quota request <=? count_payments d (fun q =>
                      bool_decide (p_merchant q = Some merchantID) &&
                      requested_within now (ir_QuotaWindow request) q) then
              reject ReasonMerchantQuotaExceeded EMerchantQuotaExceeded
            else if ir_GlobalQuota request <=? count_payments d
                      (requested_within now (ir_QuotaWindow request)) then
              reject ReasonGlobalQuotaExceeded EGlobalQuotaExceeded
            else if match p_signature p with
                    | Some s => negb (String.eqb s (ir_PayerSignature request))
                    | None => false
                    end then fail [EOpaque]
            else admit_intent request signerAddress paymentID (p_state p) now
        | None => reject ReasonRecipientNotMerchant ERecipientNotMerchant
        end
    end.

Definition duplicate_intent (request : IntentRequest) (paymentID : rowid) (state : State)
    (terminal : bool) (ir : rowid * Tx) : DB (res Intent) :=
  nonce <-! lift (parseNonce (FormatInt (t_nonce ir.2))) ;;
  insert_settlement_attempt (duplicate_attempt paymentID (ir_PaymentIdentity request)) ;;!
  ret (Ok {| in_PaymentID := paymentID; in_PaymentIdentity := ir_PaymentIdentity request;
             in_TransactionID := ir.1; in_SignerAddress := t_signer ir.2; in_Nonce := nonce;
             in_TxHash := default EmptyString (t_hash ir.2);
             in_Reverted := terminal && bool_decide (state = StateReverted);
             in_Confirmed := terminal && bool_decide (state = StateConfirmed);
             in_Duplicate := true |}).

Definition CreateSettlementIntent (request : IntentRequest) (now : time) : DB (res Intent) :=
  match IntentRequest_Validate request with
  | [] =>
      signerAddress <-! lift (NormalizeAddress (ir_SignerAddress request)) ;;
      d <-! get ;;
      match find_payment d (fun _ p => String.eqb (p_identity p) (ir_PaymentIdentity request)) with
      | None =>
          rejectSettlement None (ir_PaymentIdentity request) ReasonPaymentNotFound [EPaymentNotFound]
      | Some (paymentID, p) =>
          match terminal_tx d paymentID (p_state p) with
          | Some ir => duplicate_intent request paymentID (p_state p) true ir
          | None =>
              match active_tx d paymentID with
              | Some ir => duplicate_intent request paymentID (p_state p) false ir
              | None => admission request signerAddress paymentID p now
              end
          end
      end
  | e => fail e
  end.

(** ** lease.go and ClaimPayment *)

Definition claimable (now : time) (p : Payment) : bool :=
  match p_claimed_by p with
  | None => true
  | Some _ => match p_claimed_until p with Some until => until <=? now | None => false end
  end.

Definition lease_of (i : rowid) (p : Payment) (worker : string) (until : time) : Lease :=
  {| l_PaymentID := i; l_PaymentIdentity := p_identity p; l_State := p_state p;
     l_Worker := worker; l_Until := until |}.

Fixpoint claim_each (ids : list rowid) (worker : string) (until now dbNow : time) : DB (list Lease) :=
  match ids with
  | [] => ret []
  | i :: ids =>
      previous <-! update_payment i (claimable now)
        (fun p => payment_touch dbNow (payment_set_claim (Some worker) (Some until) p)) ;;
      rest <-! claim_each ids worker until now dbNow ;;
      ret (match previous with Some p => lease_of i p worker until :: rest | None => rest end)
  end.

(** [locked] are the rows another transaction holds, which SKIP LOCKED steps
    past. *)
Definition ClaimPayments (request : ClaimRequest) (locked : rowid -> bool) (dbNow : time) :
    DB (list Lease) :=
  match ClaimRequest_Validate request with
  | [] =>
      d <-! get ;;
      let candidates :=
        List.filter (fun ip : rowid * Payment =>
          bool_decide (p_state ip.2 ∈ cr_States request) && claimable (cr_Now request) ip.2 &&
          negb (locked ip.1)) (map_to_list (payments d)) in
      let chosen := take (Z.to_nat (cr_Limit request)) (order_payments p_updated_at candidates) in
      claim_each (map fst chosen) (cr_Worker request) (cr_Now request + cr_Duration request)
        (cr_Now request) dbNow
  | e => fail e
  end.

Definition ClaimPayment (paymentID : rowid) (worker : string) (duration : duration)
    (now dbNow : time) : DB Lease :=
  if (paymentID =? 0)%N || String.eqb worker EmptyString || (duration <=? 0) || IsZero now
  then fail [EOpaque]
  else
    previous <-! update_payment paymentID (claimable now)
      (fun p => payment_touch dbNow (payment_set_claim (Some worker) (Some (now + duration)) p)) ;;
    match previous with
    | None => fail [ELeaseUnavailable]
    | Some p => ret (lease_of paymentID p worker (now + duration))
    end.

Definition RenewLease (paymentID : rowid) (worker : string) (now : time) (duration : duration) :
    DB time :=
  if String.eqb worker EmptyString || (duration <=? 0) || IsZero now then fail [ELeaseLost]
  else
    previous <-! update_payment paymentID
      (fun p => bool_decide (p_claimed_by p = Some worker) &&
                match p_claimed_until p with Some until => now <? until | None => false end)
      (fun p => payment_set_claim (p_claimed_by p) (Some (now + duration)) p) ;;
    match previous with
    | None => fail [ELeaseLost]
    | Some _ => ret (now + duration)
    end.

Definition ReleaseLease (paymentID : rowid) (worker : string) (dbNow : time) : DB unit :=
  if String.eqb worker EmptyString then fail [ELeaseLost]
  else
    previous <-! update_payment paymentID (fun p => bool_decide (p_claimed_by p = Some worker))
      (fun p => payment_touch dbNow (payment_set_claim None None p)) ;;
    match previous with
    | None => fail [ELeaseLost]
    | Some _ => ret tt
    end.

(** ** store.go: recordVerification *)

(** The oldest active claimant of a recipient address. *)
Definition oldest_active (d : db) (recipient : string) : option rowid :=
  option_map fst (head (merge_sort
    (fun a b : rowid * Merchant => key_le (m_created_at a.2, a.1) (m_created_at b.2, b.1))
    (List.filter (fun im : rowid * Merchant =>
       String.eqb (m_recipient im.2) recipient && bool_decide (m_status im.2 = MActive))
     (map_to_list (merchants d))))).

(** The inserted row.  The asset is not kept: it is USDC in every row. *)
Definition received_payment (d : db) (v : VerifiedPayment) (amount : Z) (now : time) : Payment :=
  {| p_identity := vp_Identity v; p_merchant := oldest_active d (char_n 42 (vp_Recipient v));
     p_payer := Some (char_n 42 (vp_Payer v)); p_recipient := Some (char_n 42 (vp_Recipient v));
     p_amount := amount; p_auth_nonce := Some (char_n 66 (vp_Nonce v)); p_valid_after := Some (vp_ValidAfter v);
     p_valid_before := Some (vp_ValidBefore v); p_payload_hash := Some (char_n 64 (vp_PayloadHash v));
     p_signature := None; p_verification := "pending"; p_state := StateReceived;
     p_requested_at := None; p_confirmed_at := None; p_claimed_by := None;
     p_claimed_until := None; p_redacted_at := None; p_updated_at := now |}.

Definition null_string (s : string) : option string :=
  if String.eqb s EmptyString then None else Some s.

(** The insert with its [ON CONFLICT (payment_identity) DO NOTHING], then the
    move to verified when a row was inserted: the payment's id. *)
Definition record_payment (v : VerifiedPayment) (now : time) : DB rowid :=
  d <-! get ;;
  match find_payment d (fun _ p => String.eqb (p_identity p) (vp_Identity v)) with
  | Some (i, _) => ret i
  | None =>
      amount <-! of_option [EOpaque] (numeric_text (vp_Amount v)) ;;
      i <-! fresh_id ;;
      put_payment i (received_payment d v amount now) ;;!
      update_payment i (fun p => bool_decide (p_state p = StateReceived))
        (fun p => payment_set_verification "verified" (payment_set_state StateVerified now p)) ;;!
      insert_transition {| tr_payment := i; tr_from := StateReceived; tr_to := StateVerified;
                           tr_actor := "http" |} ;;!
      ret i
  end.

(** [nonceUsed] is the SDK's reason code for a nonce that was already used. *)
Definition recordVerification (nonceUsed : string) (attempt : Attempt) (now : time) : DB (res unit) :=
  if String.eqb (va_Result attempt) "verified" then
    match va_Payment attempt with
    | None => fail [EOpaque]
    | Some v =>
        fun d =>
          match record_payment v now d with
          | Ok (i, d') =>
              (insert_verification_attempt
                 {| at_payment := Some i; at_identity := null_string (va_PaymentIdentity attempt);
                    at_result := va_Result attempt;
                    at_reason := null_string (va_ReasonCode attempt) |} ;;!
               ret (Ok tt)) d'
          | Err e =>
              if errors_Is e EUniqueViolation then
                (insert_verification_attempt
                   {| at_payment := None; at_identity := Some (va_PaymentIdentity attempt);
                      at_result := "failed"; at_reason := Some nonceUsed |} ;;!
                 ret (Err [EAuthorizationConflict])) d
              else Err e
          end
    end
  else
    insert_verification_attempt
      {| at_payment := None; at_identity := null_string (va_PaymentIdentity attempt);
         at_result := va_Result attempt; at_reason := null_string (va_ReasonCode attempt) |} ;;!
    ret (Ok tt).

(** ** retention.go: the payment tables *)

Record RetentionRequest := {
  rr_Now : time;
  rr_PaymentAfter : duration;
  rr_EphemeralAfter : duration;
  rr_RevokedKeyAfter : duration;
  rr_BatchSize : Z;
}.

Definition RetentionRequest_Validate (r : RetentionRequest) : error :=
  if IsZero (rr_Now r) then [EOpaque]
  else if (rr_PaymentAfter r <=? 0) || (rr_EphemeralAfter r <=? 0) || (rr_RevokedKeyAfter r <=? 0)
  then [EOpaque]
  else if (rr_BatchSize r <? 1) || (10000 <? rr_BatchSize r) then [EOpaque]
  else [].

Definition before (t : option time) (cutoff : time) : bool :=
  match t with Some t => t <? cutoff | None => false end.

Fixpoint expire_each (ids : list rowid) (now : time) : DB Z :=
  match ids with
  | [] => ret 0
  | i :: ids =>
      previous <-! update_payment i (fun p => bool_decide (p_state p = StateVerified))
        (payment_set_state StateExpired now) ;;
      match previous with
      | None => expire_each ids now
      | Some _ =>
          insert_transition {| tr_payment := i; tr_from := StateVerified; tr_to := StateExpired;
                               tr_actor := "system" |} ;;!
          n <-! expire_each ids now ;; ret (n + 1)
      end
  end.

(** Failed and expired payments stay until every transaction is reverted. *)
Definition redactable (d : db) (cutoff : time) (i : rowid) (p : Payment) : bool :=
  bool_decide (p_redacted_at p = None) &&
  bool_decide (p_state p ∈ [StateConfirmed; StateReverted; StateFailed; StateExpired;
                            StateVerificationFailed]) &&
  before (p_valid_before p) cutoff &&
  (default (p_updated_at p) (p_confirmed_at p) <? cutoff) &&
  (bool_decide (p_state p ∈ [StateConfirmed; StateReverted; StateVerificationFailed]) ||
   bool_decide (find_tx d (fun _ r => bool_decide (t_payment r = i) &&
                                      negb (bool_decide (t_status r = TxReverted))) = None)).

Fixpoint redact_each (ids : list rowid) (now : time) : DB Z :=
  match ids with
  | [] => ret 0
  | i :: ids =>
      update_payment i (fun _ => true) (payment_redact now) ;;!
      n <-! redact_each ids now ;; ret (n + 1)
  end.

Definition payment_batch (d : db) (cond : rowid -> Payment -> bool) (key : Payment -> Z)
    (locked : rowid -> bool) (size : Z) : list rowid :=
  map fst (take (Z.to_nat size) (order_payments key
    (List.filter (fun ip : rowid * Payment => cond ip.1 ip.2 && negb (locked ip.1))
       (map_to_list (payments d))))).

(** The payment statements of [ApplyRetention]: expire, then redact. *)
Definition ApplyRetention (request : RetentionRequest) (locked : rowid -> bool) : DB (Z * Z) :=
  match RetentionRequest_Validate request with
  | [] =>
      let now := rr_Now request in
      d <-! get ;;
      expired <-! expire_each
        (payment_batch d (fun _ p => bool_decide (p_state p = StateVerified) &&
                                     before (p_valid_before p) now)
           (fun p => default 0 (p_valid_before p)) locked (rr_BatchSize request)) now ;;
      d <-! get ;;
      let cutoff := now - rr_PaymentAfter request in
      let ids := payment_batch d (redactable d cutoff)
                   (fun p => default (p_updated_at p) (p_confirmed_at p)) locked
                   (rr_BatchSize request) in
      update_txs_status (fun _ r => bool_decide (t_payment r ∈ ids) && bool_decide (is_Some (t_raw r)))
        (tx_set_raw None now) ;;!
      redacted <-! redact_each ids now ;;
      ret (expired, redacted)
  | e => fail e
  end.
