(* ===== verification/StoreWork.v ===== *)
(** [internal/store/settlementwork.go]: loading the work of a payment and
    recording the progress of its transaction.  Every write is guarded by the
    state it expects; losing a race is the error [ESettlementRace]. *)

From Stdlib Require Import ZArith Lia Strings.Byte.
From stdpp Require Import base gmap list strings fin_maps.
From S2P Require Import Prelude GoStd State Schema Calldata Work Store.

Local Open Scope Z_scope.
Local Open Scope db_scope.

(** ** Shared pieces *)

Definition race {A} : DB A := fail [ESettlementRace].

(** [WHERE id = $2 AND payment_id = $1 AND status IN statuses]. *)
Definition tx_in (paymentID : rowid) (statuses : list TxStatus) (r : Tx) : bool :=
  bool_decide (t_payment r = paymentID) && bool_decide (t_status r ∈ statuses).

(** [if tag.RowsAffected() != 1 { return ErrSettlementRace }]. *)
Definition exactly_one (n : Z) : DB unit := if n =? 1 then ret tt else race.

Definition recordTransition (paymentID : rowid) (from to : State) (actor : string) : DB unit :=
  insert_transition {| tr_payment := paymentID; tr_from := from; tr_to := to; tr_actor := actor |}.

Definition transitionPayment (paymentID : rowid) (from to : State) (actor : string) (now : time) :
    DB unit :=
  lift (ValidateTransition from to) ;;!
  previous <-! update_payment paymentID (fun p => bool_decide (p_state p = from))
    (payment_set_state to now) ;;
  match previous with
  | None => race
  | Some _ => recordTransition paymentID from to actor
  end.

Fixpoint validate_all (from : list State) (to : State) : DB unit :=
  match from with
  | [] => ret tt
  | s :: from => lift (ValidateTransition s to) ;;! validate_all from to
  end.

(** [assign] carries the terminal columns the statement sets beside the state. *)
Definition transitionPaymentIn (paymentID : rowid) (from : list State) (to : State) (actor : string)
    (assign : Payment -> Payment) (now : time) : DB unit :=
  validate_all from to ;;!
  previous <-! update_payment paymentID (fun p => bool_decide (p_state p ∈ from))
    (fun p => assign (payment_set_state to now p)) ;;
  match previous with
  | None => race
  | Some p => recordTransition paymentID (p_state p) to actor
  end.

Definition TxStatus_of (s : State) : option TxStatus :=
  match s with
  | StateConfirmed => Some TxConfirmed
  | StateReverted => Some TxReverted
  | _ => None
  end.

Definition terminalSettlementMatches (paymentID transactionID : rowid) (state : State) : DB bool :=
  d <-! get ;;
  ret (match txs d !! transactionID, payments d !! paymentID with
       | Some r, Some p =>
           bool_decide (t_payment r = paymentID) &&
           bool_decide (Some (t_status r) = TxStatus_of state) &&
           bool_decide (p_state p = state)
       | _, _ => false
       end).

(** ** Loading *)

Definition text (o : option Z) : string :=
  match o with Some z => FormatInt z | None => EmptyString end.

Definition LoadSettlementWork (paymentID : rowid) (now : time) : DB Work :=
  d <-! get ;;
  match payments d !! paymentID, active_tx d paymentID with
  | Some p, Some (i, r) =>
      match p_payer p, p_recipient p, p_auth_nonce p, p_valid_after p, p_valid_before p, p_signature p with
      | Some payer, Some recipient, Some authNonce, Some validAfter, Some validBefore, Some sig =>
          nonce <-! lift (parseNonce (FormatInt (t_nonce r))) ;;
          gasLimit <-! match t_gas_limit r with
                       | Some g => lift (parseNonce (FormatInt g))
                       | None => ret 0
                       end ;;
          ret {| w_PaymentID := paymentID; w_PaymentIdentity := p_identity p; w_State := p_state p;
                 w_Authorization :=
                   {| au_From := payer; au_To := recipient; au_Value := FormatInt (p_amount p);
                      au_ValidAfter := validAfter; au_ValidBefore := validBefore;
                      au_Nonce := authNonce; au_Signature := sig |};
                 w_TransactionID := i; w_TransactionStatus := t_status r; w_Nonce := nonce;
                 w_TxHash := default EmptyString (t_hash r);
                 w_RawHash := default EmptyString (t_raw_hash r);
                 w_Sighash := default EmptyString (t_sighash r);
                 w_SignerAddress := t_signer r; w_GasLimit := gasLimit;
                 w_MaxFeePerGas := text (t_max_fee r);
                 w_MaxPriorityFeePerGas := text (t_priority_fee r);
                 w_BroadcastAttemptedAt := default zeroTime (t_attempted_at r);
                 w_TransactionUpdatedAt := t_updated_at r;
                 w_AmbiguousAttempts := t_attempts r; w_DBNow := now |}
      | _, _, _, _, _, _ => fail [EOpaque]
      end
  | _, _ => fail [ENoRows]
  end.

(** ** The first broadcast *)

Definition MarkTxSigned (transactionID : rowid) (rawHash sighash : string) (gasLimit : Z)
    (maxFee priorityFee : string) (now : time) : DB unit :=
  fee <-! of_option [EOpaque] (numeric_text maxFee) ;;
  tip <-! of_option [EOpaque] (numeric_text priorityFee) ;;
  n <-! update_tx transactionID (fun r => bool_decide (t_status r = TxIntent))
    (fun r => tx_set_sighash sighash (tx_set_signed rawHash gasLimit fee tip
                (tx_set_status TxBroadcasting now r))) ;;
  exactly_one n.

Definition MarkTxBroadcast (paymentID transactionID : rowid) (txHash actor : string) (now : time) :
    DB unit :=
  n <-! update_tx transactionID (tx_in paymentID [TxBroadcasting])
    (fun r => tx_set_attempted now (tx_set_hash txHash (tx_set_status TxBroadcast now r))) ;;
  exactly_one n ;;!
  transitionPayment paymentID StateBroadcasting StateBroadcast actor now.

Definition MarkTxAmbiguous (paymentID transactionID : rowid) (actor : string) (now : time) : DB unit :=
  n <-! update_tx transactionID (tx_in paymentID [TxBroadcasting]) (tx_set_status TxAmbiguous now) ;;
  exactly_one n ;;!
  transitionPayment paymentID StateBroadcasting StateManualReview actor now.

Definition MarkIntentUnsettleable (paymentID transactionID : rowid) (actor : string) (now : time) :
    DB unit :=
  n <-! update_tx transactionID (tx_in paymentID [TxIntent]) (tx_set_status TxDropped now) ;;
  exactly_one n ;;!
  transitionPayment paymentID StateBroadcasting StateFailed actor now.

Definition MarkIntentExpired (paymentID transactionID : rowid) (actor : string) (now : time) : DB unit :=
  n <-! update_tx transactionID (tx_in paymentID [TxIntent]) (tx_set_status TxDropped now) ;;
  exactly_one n ;;!
  transitionPayment paymentID StateBroadcasting StateExpired actor now.

(** ** Confirmation *)

(** The number of transaction rows affected is not examined. *)
Definition MarkTxConfirming (paymentID transactionID : rowid) (blockNumber : Z) (blockHash actor : string)
    (now : time) : DB unit :=
  update_tx transactionID (tx_in paymentID [TxBroadcast; TxConfirming])
    (fun r => tx_set_seen now (tx_set_block (Some blockNumber) (Some blockHash)
                (tx_set_status TxConfirming now r))) ;;!
  previous <-! update_payment paymentID
    (fun p => bool_decide (p_state p ∈ [StateBroadcast; StateReplaced]))
    (payment_set_state StateConfirming now) ;;
  match previous with
  | None => ret tt
  | Some p => recordTransition paymentID (p_state p) StateConfirming actor
  end.

Definition settled_from : list State := [StateBroadcast; StateConfirming; StateReplaced].

Definition MarkTxConfirmed (paymentID transactionID : rowid) (blockNumber : Z) (blockHash : string)
    (gasUsed : Z) (gasPrice actor : string) (now : time) : DB unit :=
  price <-! of_option [EOpaque] (numeric_text gasPrice) ;;
  n <-! update_tx transactionID (tx_in paymentID [TxBroadcast; TxConfirming])
    (fun r => tx_set_confirmed_at now (tx_set_gas gasUsed price
                (tx_set_block (Some blockNumber) (Some blockHash) (tx_set_status TxConfirmed now r)))) ;;
  if n =? 1 then
    transitionPaymentIn paymentID settled_from StateConfirmed actor (payment_set_confirmed_at now) now
  else
    matching <-! terminalSettlementMatches paymentID transactionID StateConfirmed ;;
    if matching then ret tt else race.

Definition MarkTxReverted (paymentID transactionID : rowid) (gasUsed : Z) (gasPrice actor : string)
    (now : time) : DB unit :=
  price <-! of_option [EOpaque] (numeric_text gasPrice) ;;
  n <-! update_tx transactionID (tx_in paymentID [TxBroadcast; TxConfirming])
    (fun r => tx_set_gas gasUsed price (tx_set_status TxReverted now r)) ;;
  if n =? 1 then
    transitionPaymentIn paymentID settled_from StateReverted actor (fun p => p) now
  else
    matching <-! terminalSettlementMatches paymentID transactionID StateReverted ;;
    if matching then ret tt else race.
