(* ===== verification/StoreRecovery.v ===== *)
(** [internal/store/recovery.go]: recovered, replaced and reorganised
    transactions, and nonce-gap fillers. *)

From Stdlib Require Import ZArith Lia Strings.Byte.
From stdpp Require Import base gmap list strings fin_maps.
From S2P Require Import Prelude GoStd State Schema Calldata Work Store StoreWork.

Local Open Scope Z_scope.
Local Open Scope db_scope.

(** ** Ambiguous broadcasts *)

Definition MarkTxRecoveredBroadcast (paymentID transactionID : rowid) (txHash actor : string)
    (now : time) : DB unit :=
  n <-! update_tx transactionID (tx_in paymentID [TxAmbiguous])
    (fun r => tx_set_attempted now (tx_set_hash txHash (tx_set_status TxBroadcast now r))) ;;
  exactly_one n ;;!
  transitionPayment paymentID StateManualReview StateBroadcast actor now.

Definition MarkAmbiguousRetry (paymentID transactionID : rowid) (now : time) : DB unit :=
  n <-! update_tx transactionID (tx_in paymentID [TxAmbiguous]) (tx_bump_attempts now) ;;
  exactly_one n.

(** ** Replacements *)

(** The row a replacement inserts: same payment, signer and nonce as [old],
    already broadcast. *)
Definition replacement_tx (old : Tx) (r : Replacement) (fee tip : Z) (sighash : option string)
    (raw : option (list byte)) (now : time) : Tx :=
  {| t_payment := t_payment old; t_hash := Some (rp_TxHash r); t_signer := t_signer old;
     t_nonce := t_nonce old; t_raw_hash := Some (rp_RawHash r); t_sighash := sighash; t_raw := raw;
     t_status := TxBroadcast; t_block_number := None; t_block_hash := None;
     t_gas_limit := Some (rp_GasLimit r); t_gas_used := None; t_gas_price := None;
     t_max_fee := Some fee; t_priority_fee := Some tip; t_replaced_by := None;
     t_attempted_at := Some now; t_first_seen := None; t_confirmed_at := None; t_attempts := 0;
     t_updated_at := now |}.

(** [INSERT ... SELECT ... FROM ethereum_transactions WHERE id = $2 AND
    payment_id = $1 RETURNING id], then the linkage on the old row. *)
Definition insert_replacement (paymentID oldTxID : rowid) (r : Replacement) (keep_sighash : bool)
    (raw : option (list byte)) (now : time) : DB unit :=
  fee <-! of_option [EOpaque] (numeric_text (rp_MaxFee r)) ;;
  tip <-! of_option [EOpaque] (numeric_text (rp_PriorityFee r)) ;;
  d <-! get ;;
  match txs d !! oldTxID with
  | Some old =>
      if bool_decide (t_payment old = paymentID) then
        i <-! insert_tx (replacement_tx old r fee tip
                           (if keep_sighash then t_sighash old else None) raw now) ;;
        update_tx oldTxID (fun o => bool_decide (t_payment o = paymentID)) (tx_set_replaced_by i) ;;!
        ret tt
      else fail [ENoRows]
  | None => fail [ENoRows]
  end.

(** [tx_hash = '0x' || raw_transaction_hash], NULL when the latter is. *)
Definition tx_hash_from_raw (r : Tx) : Tx :=
  match t_raw_hash r with
  | Some h => tx_set_hash ("0x" +:+ h) r
  | None =>
      {| t_payment := t_payment r; t_hash := None; t_signer := t_signer r; t_nonce := t_nonce r;
         t_raw_hash := t_raw_hash r; t_sighash := t_sighash r; t_raw := t_raw r;
         t_status := t_status r; t_block_number := t_block_number r; t_block_hash := t_block_hash r;
         t_gas_limit := t_gas_limit r; t_gas_used := t_gas_used r; t_gas_price := t_gas_price r;
         t_max_fee := t_max_fee r; t_priority_fee := t_priority_fee r;
         t_replaced_by := t_replaced_by r; t_attempted_at := t_attempted_at r;
         t_first_seen := t_first_seen r; t_confirmed_at := t_confirmed_at r;
         t_attempts := t_attempts r; t_updated_at := t_updated_at r |}
  end.

Definition MarkTxAmbiguousReplaced (paymentID oldTxID : rowid) (r : Replacement) (actor : string)
    (now : time) : DB unit :=
  n <-! update_tx oldTxID (tx_in paymentID [TxAmbiguous])
    (fun o => tx_hash_from_raw (tx_set_status TxReplaced now o)) ;;
  exactly_one n ;;!
  insert_replacement paymentID oldTxID r true None now ;;!
  transitionPayment paymentID StateManualReview StateReplaced actor now.

(** A payment already in replaced stays there; only the first replacement is
    audited. *)
Definition MarkTxReplaced (paymentID oldTxID : rowid) (r : Replacement) (actor : string) (now : time) :
    DB unit :=
  n <-! update_tx oldTxID (tx_in paymentID [TxBroadcast]) (tx_set_status TxReplaced now) ;;
  exactly_one n ;;!
  insert_replacement paymentID oldTxID r false None now ;;!
  previous <-! update_payment paymentID
    (fun p => bool_decide (p_state p ∈ [StateBroadcast; StateReplaced]))
    (payment_set_state StateReplaced now) ;;
  match previous with
  | None => race
  | Some p =>
      if bool_decide (p_state p = StateBroadcast)
      then recordTransition paymentID StateBroadcast StateReplaced actor
      else ret tt
  end.

Definition MarkReplacementLanded (paymentID minedTxID : rowid) (succeeded : bool) (blockNumber : Z)
    (blockHash : string) (gasUsed : Z) (gasPrice actor : string) (now : time) : DB unit :=
  n <-! update_txs_status (fun _ r => bool_decide (t_payment r = paymentID) && active (t_status r))
    (tx_set_status TxDropped now) ;;
  exactly_one n ;;!
  n <-! (if succeeded then
           update_tx minedTxID (tx_in paymentID [TxReplaced])
             (fun r => tx_set_seen now (tx_set_block (Some blockNumber) (Some blockHash)
                         (tx_set_status TxConfirming now r)))
         else
           price <-! of_option [EOpaque] (numeric_text gasPrice) ;;
           update_tx minedTxID (tx_in paymentID [TxReplaced])
             (fun r => tx_set_gas gasUsed price (tx_set_status TxReverted now r))) ;;
  exactly_one n ;;!
  (if succeeded then
     transitionPaymentIn paymentID [StateReplaced; StateBroadcast] StateConfirming actor
       (fun p => p) now
   else
     transitionPaymentIn paymentID [StateReplaced; StateBroadcast; StateConfirming] StateReverted actor
       (fun p => p) now).

Definition MarkTxReorgedOut (paymentID transactionID : rowid) (actor : string) (now : time) : DB unit :=
  n <-! update_tx transactionID (tx_in paymentID [TxConfirming])
    (fun r => tx_set_block None None (tx_set_status TxBroadcast now r)) ;;
  exactly_one n ;;!
  transitionPayment paymentID StateConfirming StateBroadcast actor now.

(** ** Watch lists *)

Definition payment_state (d : db) (i : rowid) : option State := option_map p_state (payments d !! i).

Definition in_states (o : option State) (l : list State) : bool :=
  match o with Some s => bool_decide (s ∈ l) | None => false end.

Definition ListReplacedPending : DB (list TrackedTransaction) :=
  d <-! get ;;
  ret (map (fun ir : rowid * Tx =>
         {| tt_PaymentID := t_payment ir.2; tt_TransactionID := ir.1;
            tt_TxHash := default EmptyString (t_hash ir.2); tt_Status := None;
            tt_RawTransaction := [] |})
       (select_txs d (fun _ r => bool_decide (t_status r = TxReplaced) &&
          in_states (payment_state d (t_payment r))
            [StateReplaced; StateConfirming; StateBroadcast]))).

(** The payer authorization of a payment, when none of it was redacted. *)
Definition authorization_of (p : Payment) : option Calldata.Authorization :=
  match p_payer p, p_recipient p, p_auth_nonce p, p_valid_after p, p_valid_before p, p_signature p with
  | Some payer, Some recipient, Some authNonce, Some validAfter, Some validBefore, Some sig =>
      Some {| au_From := payer; au_To := recipient; au_Value := FormatInt (p_amount p);
              au_ValidAfter := validAfter; au_ValidBefore := validBefore; au_Nonce := authNonce;
              au_Signature := sig |}
  | _, _, _, _, _, _ => None
  end.

(** One row of a listing query as [Work]; a NULL authorization column or an
    out-of-range nonce fails the scan. *)
Definition scan_work (d : db) (ir : rowid * Tx) (gas : res Z) (hash signer fee tip : string) : res Work :=
  match payments d !! t_payment ir.2 with
  | None => Err [ENoRows]
  | Some p =>
      match authorization_of p with
      | None => Err [EOpaque]
      | Some auth =>
          let? nonce := parseNonce (FormatInt (t_nonce ir.2)) in
          let? gasLimit := gas in
          Ok {| w_PaymentID := t_payment ir.2; w_PaymentIdentity := p_identity p;
                w_State := p_state p; w_Authorization := auth; w_TransactionID := ir.1;
                w_TransactionStatus := t_status ir.2; w_Nonce := nonce; w_TxHash := hash;
                w_RawHash := EmptyString; w_Sighash := EmptyString; w_SignerAddress := signer;
                w_GasLimit := gasLimit; w_MaxFeePerGas := fee; w_MaxPriorityFeePerGas := tip;
                w_BroadcastAttemptedAt := zeroTime; w_TransactionUpdatedAt := zeroTime;
                w_AmbiguousAttempts := 0; w_DBNow := zeroTime |}
      end
  end.

Fixpoint scan_all {A B} (f : A -> res B) (l : list A) : res (list B) :=
  match l with
  | [] => Ok []
  | a :: l => let? b := f a in let? bs := scan_all f l in Ok (b :: bs)
  end.

Definition ListDroppedBlockingGaps (signerAddress : string) (expiredBefore : time) : DB (list Work) :=
  d <-! get ;;
  lift (scan_all (fun ir => scan_work d ir (Ok 0) EmptyString EmptyString EmptyString EmptyString)
    (select_txs d (fun _ r =>
       bool_decide (t_status r = TxDropped) && String.eqb (t_signer r) signerAddress &&
       bool_decide (t_raw_hash r = None) &&
       in_states (payment_state d (t_payment r)) [StateExpired; StateFailed] &&
       match payments d !! t_payment r with
       | Some p => match p_valid_before p with Some vb => vb <=? expiredBefore | None => false end
       | None => false
       end &&
       bool_decide (is_Some (find_tx d (fun _ later =>
         String.eqb (t_signer later) (t_signer r) && (t_nonce r <? t_nonce later) &&
         active (t_status later))))))).

Definition ListGapFillers : DB (list TrackedTransaction) :=
  d <-! get ;;
  ret (map (fun ir : rowid * Tx =>
         {| tt_PaymentID := t_payment ir.2; tt_TransactionID := ir.1;
            tt_TxHash := default EmptyString (t_hash ir.2); tt_Status := Some (t_status ir.2);
            tt_RawTransaction := default [] (t_raw ir.2) |})
       (select_txs d (fun _ r => bool_decide (t_status r ∈ [TxBroadcast; TxReplaced]) &&
          in_states (payment_state d (t_payment r)) [StateExpired; StateFailed] &&
          bool_decide (is_Some (t_raw_hash r)) && bool_decide (is_Some (t_raw r))))).

Definition opt_nonce (o : option Z) : res Z :=
  match o with Some g => parseNonce (FormatInt g) | None => Err [EOpaque] end.

Definition ListStuckGapFillers (signerAddress : string) (stuckFor : duration) (now : time) :
    DB (list Work) :=
  d <-! get ;;
  lift (scan_all (fun ir : rowid * Tx =>
      match t_max_fee ir.2, t_priority_fee ir.2 with
      | Some fee, Some tip =>
          scan_work d ir (opt_nonce (t_gas_limit ir.2)) (default EmptyString (t_hash ir.2))
            (t_signer ir.2) (FormatInt fee) (FormatInt tip)
      | _, _ => Err [EOpaque]
      end)
    (select_txs d (fun _ r =>
       bool_decide (t_status r = TxBroadcast) && String.eqb (t_signer r) signerAddress &&
       bool_decide (is_Some (t_raw r)) &&
       in_states (payment_state d (t_payment r)) [StateExpired; StateFailed] &&
       before (t_attempted_at r) (now - stuckFor)))).

(** ** Gap fillers *)

Definition MarkGapFillerPrepared (transactionID : rowid) (rawHash txHash : string) (raw : list byte)
    (gasLimit : Z) (maxFee priorityFee : string) (now : time) : DB unit :=
  fee <-! of_option [EOpaque] (numeric_text maxFee) ;;
  tip <-! of_option [EOpaque] (numeric_text priorityFee) ;;
  n <-! update_tx transactionID (fun r => bool_decide (t_status r = TxDropped))
    (fun r => tx_set_attempted now (tx_set_raw (Some raw) now (tx_set_hash txHash
                (tx_set_signed rawHash gasLimit fee tip (tx_set_status TxBroadcast now r))))) ;;
  exactly_one n.

Definition MarkGapFillerReplaced (paymentID oldTxID : rowid) (r : Replacement) (raw : list byte)
    (now : time) : DB unit :=
  n <-! update_tx oldTxID
    (fun o => tx_in paymentID [TxBroadcast] o && bool_decide (is_Some (t_raw o)))
    (tx_set_status TxReplaced now) ;;
  exactly_one n ;;!
  insert_replacement paymentID oldTxID r false (Some raw) now.

(** The sibling signatures of a nonce that can no longer mine. *)
Definition sibling (paymentID transactionID i : rowid) (r : Tx) : bool :=
  bool_decide (t_payment r = paymentID) && negb (bool_decide (i = transactionID)) &&
  bool_decide (t_status r ∈ [TxBroadcast; TxReplaced]).

Definition MarkGapFillerResolved (transactionID : rowid) (gasUsed : Z) (gasPrice : string) (now : time) :
    DB unit :=
  price <-! of_option [EOpaque] (numeric_text gasPrice) ;;
  n <-! update_tx transactionID (fun r => bool_decide (t_status r ∈ [TxBroadcast; TxReplaced]))
    (fun r => tx_set_gas gasUsed price (tx_set_status TxReverted now r)) ;;
  exactly_one n ;;!
  d <-! get ;;
  match txs d !! transactionID with
  | None => ret tt
  | Some r =>
      update_txs_status (sibling (t_payment r) transactionID) (tx_set_status TxDropped now) ;;! ret tt
  end.

Definition MarkGapFillerSucceeded (paymentID transactionID : rowid) (blockNumber : Z)
    (blockHash : string) (gasUsed : Z) (gasPrice actor : string) (now : time) : DB unit :=
  price <-! of_option [EOpaque] (numeric_text gasPrice) ;;
  n <-! update_tx transactionID (tx_in paymentID [TxBroadcast; TxReplaced])
    (fun r => tx_set_seen now (tx_set_gas gasUsed price
                (tx_set_block (Some blockNumber) (Some blockHash) (tx_set_status TxConfirming now r)))) ;;
  exactly_one n ;;!
  update_txs_status (sibling paymentID transactionID) (tx_set_status TxDropped now) ;;!
  transitionPayment paymentID StateExpired StateManualReview actor now.
