(* ===== verification/Prog.v ===== *)
(** Programs of the settlement service: trees of the calls it makes to the
    store, the clock, the signer and the chain.

    A tree is the code with its inputs open: every call is a node whose
    children are the answers.  [run] gives a tree its meaning against scripted
    answers; System.v gives it the meaning of one process among many. *)

From Stdlib Require Import ZArith Lia Strings.Byte.
From stdpp Require Import base gmap list strings.
From S2P Require Import Prelude GoStd Geth Policy Signer Schema.

Local Open Scope Z_scope.

(** ** The chain's answers ([internal/ethereum/rpc.go]) *)

Record Receipt := {
  rc_Status : Z;
  rc_BlockNumber : Z;
  rc_BlockHash : string;
  rc_GasUsed : Z;
  rc_EffectiveGasPrice : string;
}.

Record Block := {
  bl_Hash : string;
  bl_Number : Z;
  bl_BaseFee : string;
}.

Record ChainTransaction := {
  ct_Hash : string;
  ct_BlockNumber : option Z;
}.

(** ** Programs *)

(** What a statement sees beside the tables: the database clock, and the rows
    other transactions hold locked. *)
Record env := {
  e_now : time;
  e_locked : rowid -> bool;
}.

Inductive prog (A : Type) : Type :=
  | Ret (a : A)
  | Call {X : Type} (m : env -> DB X) (k : res X -> prog A)
  | Now (k : time -> prog A)
  | Cancelled (k : bool -> prog A)
  | Sign (tx : Transaction) (k : res SignedTransaction -> prog A)
  | Send (raw : string) (k : res string -> prog A)
  | GetReceipt (hash : string) (k : res (option Receipt) -> prog A)
  | GetTransaction (hash : string) (k : res (option ChainTransaction) -> prog A)
  | GetBlock (number : option Z) (k : res Block -> prog A)
  | GetHeight (k : res Z -> prog A)
  | Simulate (from to : string) (data : list byte) (k : res unit -> prog A).
Arguments Ret {A}.
Arguments Call {A X}.
Arguments Now {A}.
Arguments Cancelled {A}.
Arguments Sign {A}.
Arguments Send {A}.
Arguments GetReceipt {A}.
Arguments GetTransaction {A}.
Arguments GetBlock {A}.
Arguments GetHeight {A}.
Arguments Simulate {A}.

Fixpoint pbind {A B} (p : prog A) (k : A -> prog B) : prog B :=
  match p with
  | Ret a => k a
  | Call m h => Call m (fun x => pbind (h x) k)
  | Now h => Now (fun x => pbind (h x) k)
  | Cancelled h => Cancelled (fun x => pbind (h x) k)
  | Sign tx h => Sign tx (fun x => pbind (h x) k)
  | Send raw h => Send raw (fun x => pbind (h x) k)
  | GetReceipt hash h => GetReceipt hash (fun x => pbind (h x) k)
  | GetTransaction hash h => GetTransaction hash (fun x => pbind (h x) k)
  | GetBlock n h => GetBlock n (fun x => pbind (h x) k)
  | GetHeight h => GetHeight (fun x => pbind (h x) k)
  | Simulate from to data h => Simulate from to data (fun x => pbind (h x) k)
  end.

(** Go's [if err != nil { return err }]. *)
Definition pbind_ok {A B} (p : prog (res A)) (k : A -> prog (res B)) : prog (res B) :=
  pbind p (fun r => match r with Ok a => k a | Err e => Ret (Err e) end).

Declare Scope prog_scope.
Delimit Scope prog_scope with prog.
Notation "x <~ p ;; k" := (pbind p (fun x => k))
  (at level 100, p at next level, k at level 200, right associativity) : prog_scope.
Notation "x <~? p ;; k" := (pbind_ok p (fun x => k))
  (at level 100, p at next level, k at level 200, right associativity) : prog_scope.
Notation "p ;;~ k" := (pbind p (fun _ => k))
  (at level 100, k at level 200, right associativity) : prog_scope.
Notation "p ;;~? k" := (pbind_ok p (fun _ => k))
  (at level 100, k at level 200, right associativity) : prog_scope.
Local Open Scope prog_scope.

(** The single calls. *)
Definition call {X} (m : env -> DB X) : prog (res X) := Call m Ret.

(** A method that may commit and still report an error. *)
Definition call_res {X} (m : env -> DB (res X)) : prog (res X) :=
  Call m (fun r => Ret (match r with Ok x => x | Err e => Err e end)).

Definition now : prog time := Now Ret.
Definition cancelled : prog bool := Cancelled Ret.
Definition sign (tx : Transaction) : prog (res SignedTransaction) := Sign tx Ret.
Definition send (raw : string) : prog (res string) := Send raw Ret.
Definition getReceipt (hash : string) : prog (res (option Receipt)) := GetReceipt hash Ret.
Definition getTransaction (hash : string) : prog (res (option ChainTransaction)) := GetTransaction hash Ret.
Definition getBlock (number : option Z) : prog (res Block) := GetBlock number Ret.
Definition getHeight : prog (res Z) := GetHeight Ret.
Definition simulate (from to : string) (data : list byte) : prog (res unit) := Simulate from to data Ret.

(** [for _, x := range l { if ctx.Err() != nil { return }; body }]. *)
Fixpoint each {X} (l : list X) (body : X -> prog unit) : prog unit :=
  match l with
  | [] => Ret tt
  | x :: l =>
      stop <~ cancelled ;;
      if stop then Ret tt else body x ;;~ each l body
  end.

(** ** Running against scripted answers *)

(** A deterministic environment: the chain and the signer answer as functions
    of the request, the clocks are fixed, and nothing is cancelled. *)
Record script := {
  s_env : env;
  s_now : time;
  s_sign : Transaction -> res SignedTransaction;
  s_send : string -> res string;
  s_receipt : string -> res (option Receipt);
  s_transaction : string -> res (option ChainTransaction);
  s_block : option Z -> res Block;
  s_height : res Z;
  s_simulate : string -> string -> list byte -> res unit;
}.

(** The answer, the database and the raw transactions sent, in order. *)
Fixpoint run {A} (s : script) (p : prog A) (d : db) : A * db * list string :=
  match p with
  | Ret a => (a, d, [])
  | Call m k =>
      match m (s_env s) d with
      | Ok (x, d') => run s (k (Ok x)) d'
      | Err e => run s (k (Err e)) d
      end
  | Now k => run s (k (s_now s)) d
  | Cancelled k => run s (k false) d
  | Sign tx k => run s (k (s_sign s tx)) d
  | Send raw k => let '(a, d', sent) := run s (k (s_send s raw)) d in (a, d', raw :: sent)
  | GetReceipt h k => run s (k (s_receipt s h)) d
  | GetTransaction h k => run s (k (s_transaction s h)) d
  | GetBlock n k => run s (k (s_block s n)) d
  | GetHeight k => run s (k (s_height s)) d
  | Simulate f t data k => run s (k (s_simulate s f t data)) d
  end.
