(* ===== verification/Rpc.v ===== *)
(** [internal/ethereum/rpc.go]: the JSON-RPC client of the settlement
    service.  Every read is put to all configured providers, decoded from each
    answer, and returned only when the answers reconcile.

    The network is a parameter: what each endpoint answers to each attempt of
    each call.  Calls run concurrently and are joined in provider order, and
    the caller's context may end any of them. *)

From Stdlib Require Import ZArith Lia Strings.Byte.
From stdpp Require Import base list strings.
From S2P Require Import Prelude GoStd GoJson Prog.

Local Open Scope string_scope.
Local Open Scope Z_scope.

(** ** Errors *)

(** The error of one call: a JSON-RPC error object, which [errors.As] finds,
    or anything else. *)
Inductive call_error :=
  | RPCError (Code : Z) (Message : string)
  | CallFailed (e : error).

#[export] Instance call_error_eq_dec : EqDecision call_error.
Proof. solve_decision. Defined.

Definition Reverted (code : Z) (message : string) : bool :=
  (code =? 3) || Contains (ToLower message) "execution reverted".

(** The error of a read over all providers. *)
Inductive read_error :=
  | ReadFailed (e : call_error)
  | InvalidData
  | Disagreement.

Definition is_rpc (e : call_error) : bool :=
  match e with RPCError _ _ => true | CallFailed _ => false end.

(** What [errors.Is] sees of it. *)
Definition read_error_chain (e : read_error) : error :=
  match e with
  | ReadFailed (CallFailed e) => e
  | ReadFailed (RPCError _ _) => [EOpaque]
  | InvalidData => [EOpaque]
  | Disagreement => [EProviderDisagreement]
  end.

(** ** Requests and replies *)

(** A method with its parameters. *)
Inductive rpc_call :=
  | eth_chainId
  | eth_blockNumber
  | eth_getTransactionCount (address : string)
  | eth_sendRawTransaction (raw : string)
  | eth_getTransactionReceipt (hash : string)
  | eth_getTransactionByHash (hash : string)
  | eth_getBlockByNumber (tag : string)
  | eth_getBalance (address : string)
  | eth_call (from to data : string).

(** [ctx.Err()]. *)
Inductive context_error := ContextCanceled | ContextDeadlineExceeded.

Definition context_chain (e : context_error) : error :=
  match e with ContextCanceled => [ECanceled] | ContextDeadlineExceeded => [EOpaque] end.

(** The HTTP exchange: no response (an invalid endpoint, a transport failure
    or an unreadable body, or the end of the context), or a status and the
    value of its JSON body. *)
Inductive transport :=
  | TransportFailed (ctxErr : option context_error)
  | HttpReply (status : Z) (body : option any).

(** Only the context's own error survives; everything else becomes a message
    that names no endpoint. *)
Definition sanitizeRPCTransportError (ctxErr : option context_error) : error :=
  match ctxErr with Some e => context_chain e | None => [EOpaque] end.

Record Client := {
  c_url : string;
  c_fallback : string;
  c_retries : Z;
}.

Definition providerURLs (c : Client) : list string :=
  if negb (String.eqb (c_fallback c) EmptyString) && negb (String.eqb (c_fallback c) (c_url c))
  then [c_url c; c_fallback c] else [c_url c].

(** The [error] member: [null] clears it, an object is decoded over what an
    earlier duplicate left. *)
Definition into_rpc_error (old : option (Z * string)) (v : any) : option (option (Z * string)) :=
  match v with
  | AnyNil => Some None
  | AnyMap m =>
      let '(code, message) := default (0, EmptyString) old in
      match field "code" into_int code m, field "message" into_string message m with
      | Some code, Some message => Some (Some (code, message))
      | _, _ => None
      end
  | _ => None
  end.

Definition call_rpc (requestID : Z) (t : transport) : any + call_error :=
  match t with
  | TransportFailed ctxErr => inr (CallFailed (sanitizeRPCTransportError ctxErr))
  | HttpReply status body =>
      if negb (status =? 200) then inr (CallFailed [EOpaque])
      else
        match body with
        | None => inr (CallFailed [EOpaque])
        | Some body =>
            match into_struct body with
            | None => inr (CallFailed [EOpaque])
            | Some m =>
                match field "error" into_rpc_error None m with
                | None => inr (CallFailed [EOpaque])
                | Some rpcError =>
                    match raw_field "id" m with
                    | None => inr (CallFailed [EOpaque])
                    | Some id =>
                        match into_uint64 0 id with
                        | None => inr (CallFailed [EOpaque])
                        | Some responseID =>
                            if negb (responseID =? requestID) then inr (CallFailed [EOpaque])
                            else
                              match rpcError with
                              | Some (code, message) => inr (RPCError code message)
                              | None =>
                                  match raw_field "result" m with
                                  | None => inr (CallFailed [EOpaque])
                                  | Some result => inl result
                                  end
                              end
                        end
                    end
                end
            end
        end
  end.

Section Client.
(** The network: the request id each attempt drew, what came back, whether the
    context had ended after it, and whether it ended before the answers to a
    read were joined. *)
  Context (ids : string -> rpc_call -> nat -> Z)
          (net : string -> rpc_call -> nat -> transport)
          (ended : string -> rpc_call -> nat -> bool)
          (cancelled : rpc_call -> option context_error)
          (c : Client).

Fixpoint attempts (budget k : nat) (target : string) (request : rpc_call) (last : option any + call_error) :
    option any + call_error :=
  match budget with
  | O => last
  | S budget =>
      match call_rpc (ids target request k) (net target request k) with
      | inl result => inl (Some result)
      | inr e => if ended target request k then inr e else attempts budget (S k) target request (inr e)
      end
  end.

(** A retry budget below zero makes no attempt and returns neither a result
    nor an error. *)
Definition callProvider (target : string) (request : rpc_call) : option any + call_error :=
  attempts (Z.to_nat (c_retries c + 1)) 0 target request (inl None).

Definition readProviders (request : rpc_call) : list (option any + call_error) + context_error :=
  match cancelled request with
  | Some e => inr e
  | None => inl (map (fun target => callProvider target request) (providerURLs c))
  end.

End Client.

(** ** Agreement *)

Definition errs {A} (outcomes : list (A + call_error)) : list call_error :=
  omap (fun o => match o with inr e => Some e | inl _ => None end) outcomes.

Definition raws {A} (outcomes : list (A + call_error)) : list A :=
  omap (fun o => match o with inl r => Some r | inr _ => None end) outcomes.

(** Decoding in provider order; the first undecodable answer ends it. *)
Fixpoint decode_all {R T} (decode : R -> option T) (l : list R) : option (list T) :=
  match l with
  | [] => Some []
  | raw :: l =>
      match decode raw with
      | Some v => option_map (cons v) (decode_all decode l)
      | None => None
      end
  end.

(** Every provider failed: an executed error all providers agree on is
    returned; an unavailable provider hides what the others said. *)
Definition all_failed (es : list call_error) : read_error :=
  match List.find (fun e => negb (is_rpc e)) es with
  | Some e => ReadFailed e
  | None =>
      match es with
      | first :: rest =>
          if forallb (fun e => bool_decide (e = first)) rest then ReadFailed first else Disagreement
      | [] => Disagreement
      end
  end.

Definition agree {R T} (outcomes : list (R + call_error)) (decode : R -> option T)
    (reconcile : list T -> option T) : T + read_error :=
  match outcomes with
  | [inr e] => inr (ReadFailed e)
  | _ =>
      match errs outcomes with
      | failed :: _ =>
          inr (match raws outcomes with
               | _ :: _ => if is_rpc failed then Disagreement else ReadFailed failed
               | [] => all_failed (errs outcomes)
               end)
      | [] =>
          match decode_all decode (raws outcomes) with
          | None => inr InvalidData
          | Some values =>
              match reconcile values with
              | Some v => inl v
              | None => inr Disagreement
              end
          end
      end
  end.

Definition readClientAgreement {T} (outcomes : list (option any + call_error) + context_error)
    (decode : option any -> option T) (reconcile : list T -> option T) : T + read_error :=
  match outcomes with
  | inr e => inr (ReadFailed (CallFailed (context_chain e)))
  | inl outcomes => agree outcomes decode reconcile
  end.

(** [values[0]], provided every other value compares equal to it. *)
Definition all_equal {T} (eqb : T -> T -> bool) (values : list T) : option T :=
  match values with
  | first :: rest => if forallb (fun v => eqb first v) rest then Some first else None
  | [] => None
  end.

Definition exactComparable {T} `{EqDecision T} : list T -> option T :=
  all_equal (fun a b => bool_decide (a = b)).

(** ** Decoding *)

(** [json.Unmarshal(raw, &value)] into a string; a missing message is an
    error. *)
Definition raw_string (raw : option any) : option string :=
  match raw with Some v => into_string EmptyString v | None => None end.

Definition parseHexUint (value : string) : option Z := ParseUint16 (TrimPrefix value "0x").

Definition normalizeHash (value : string) : option string :=
  if negb (String.length value =? 66)%nat || negb (HasPrefix value "0x") then None
  else match hex_DecodeString (drop_str 2 value) with
       | Some _ => Some (ToLower value)
       | None => None
       end.

Definition decodeHexUintResult (raw : option any) : option Z :=
  match raw_string raw with
  | Some value => if String.eqb value EmptyString then None else parseHexUint value
  | None => None
  end.

(** An unsigned hexadecimal quantity of any size, printed in decimal. *)
Definition unsigned_hex (value : string) : option string :=
  match SetString16 (TrimPrefix value "0x") with
  | Some n => if n <? 0 then None else Some (FormatInt n)
  | None => None
  end.

(** [null], or a struct. *)
Definition into_nullable (raw : option any) : option (option object) :=
  match raw with
  | None => None
  | Some AnyNil => Some None
  | Some v => option_map Some (into_struct v)
  end.

#[export] Instance Receipt_eq_dec : EqDecision Receipt.
Proof. solve_decision. Defined.
#[export] Instance Block_eq_dec : EqDecision Block.
Proof. solve_decision. Defined.
#[export] Instance ChainTransaction_eq_dec : EqDecision ChainTransaction.
Proof. solve_decision. Defined.

Record rpcReceipt := {
  rr_TransactionHash : string;
  rr_Status : string;
  rr_BlockNumber : string;
  rr_BlockHash : string;
  rr_GasUsed : string;
  rr_EffectiveGasPrice : string;
}.

Definition unmarshal_receipt (m : object) : option rpcReceipt :=
  match string_field "transactionHash" m, string_field "status" m, string_field "blockNumber" m,
        string_field "blockHash" m, string_field "gasUsed" m, string_field "effectiveGasPrice" m with
  | Some hash, Some status, Some number, Some block, Some gas, Some price =>
      Some {| rr_TransactionHash := hash; rr_Status := status; rr_BlockNumber := number;
              rr_BlockHash := block; rr_GasUsed := gas; rr_EffectiveGasPrice := price |}
  | _, _, _, _, _, _ => None
  end.

Definition receipt_of (raw : rpcReceipt) (requestedHash : string) : option Receipt :=
  match parseHexUint (rr_Status raw) with
  | None => None
  | Some status =>
      if 1 <? status then None
      else
        match normalizeHash (rr_TransactionHash raw) with
        | None => None
        | Some returnedHash =>
            if negb (String.eqb returnedHash requestedHash) then None
            else
              match parseHexUint (rr_BlockNumber raw), parseHexUint (rr_GasUsed raw),
                    unsigned_hex (rr_EffectiveGasPrice raw), normalizeHash (rr_BlockHash raw) with
              | Some blockNumber, Some gasUsed, Some gasPrice, Some blockHash =>
                  Some {| rc_Status := status; rc_BlockNumber := blockNumber; rc_BlockHash := blockHash;
                          rc_GasUsed := gasUsed; rc_EffectiveGasPrice := gasPrice |}
              | _, _, _, _ => None
              end
        end
  end.

Definition decodeReceipt (requestedHash : string) (raw : option any) : option (option Receipt) :=
  match into_nullable raw with
  | None => None
  | Some None => Some None
  | Some (Some m) =>
      match unmarshal_receipt m with
      | Some r => option_map Some (receipt_of r requestedHash)
      | None => None
      end
  end.

Definition decodeTransaction (requestedHash : string) (raw : option any) : option (option ChainTransaction) :=
  match into_nullable raw with
  | None => None
  | Some None => Some None
  | Some (Some m) =>
      match string_field "hash" m, string_ptr_field "blockNumber" m with
      | Some hash, Some number =>
          match normalizeHash hash with
          | None => None
          | Some returnedHash =>
              if negb (String.eqb returnedHash requestedHash) then None
              else
                match number with
                | None => Some (Some {| ct_Hash := returnedHash; ct_BlockNumber := None |})
                | Some text =>
                    match parseHexUint text with
                    | Some n => Some (Some {| ct_Hash := returnedHash; ct_BlockNumber := Some n |})
                    | None => None
                    end
                end
          end
      | _, _ => None
      end
  end.

Definition decodeBlock (number : option Z) (raw : option any) : option Block :=
  match into_nullable raw with
  | None | Some None => None
  | Some (Some m) =>
      match string_field "hash" m, string_field "number" m, string_field "baseFeePerGas" m with
      | Some hash, Some text, Some fee =>
          match parseHexUint text with
          | None => None
          | Some blockNumber =>
              if match number with Some n => negb (blockNumber =? n) | None => false end then None
              else
                match normalizeHash hash,
                      (if String.eqb fee EmptyString then Some "0" else unsigned_hex fee) with
                | Some blockHash, Some baseFee =>
                    Some {| bl_Hash := blockHash; bl_Number := blockNumber; bl_BaseFee := baseFee |}
                | _, _ => None
                end
          end
      | _, _, _ => None
      end
  end.

Definition decodeBalance (raw : option any) : option Z :=
  match raw_string raw with
  | Some value =>
      if String.eqb value EmptyString then None else SetString16 (TrimPrefix value "0x")
  | None => None
  end.

Definition decodeHexData (raw : option any) : option (list byte) :=
  match raw_string raw with
  | Some value => if HasPrefix value "0x" then hex_DecodeString (drop_str 2 value) else None
  | None => None
  end.

(** ** Reconciliation *)

(** Two providers both know nothing, or know the same. *)
Definition reconcileReceipts : list (option Receipt) -> option (option Receipt) :=
  all_equal (fun a b =>
    match a, b with
    | None, None => true
    | Some a, Some b => bool_decide (a = b)
    | _, _ => false
    end).

Definition reconcileTransactions : list (option ChainTransaction) -> option (option ChainTransaction) :=
  all_equal (fun a b =>
    match a, b with
    | None, None => true
    | Some a, Some b =>
        String.eqb (ct_Hash a) (ct_Hash b) &&
        match ct_BlockNumber a, ct_BlockNumber b with
        | None, None => true
        | Some m, Some n => m =? n
        | _, _ => false
        end
    | _, _ => false
    end).

Definition maxLatestBlockSkew : Z := 2.

(** The lowest head, when the highest is close enough. *)
Definition reconcileHeads (values : list Z) : option Z :=
  match values with
  | [] => None
  | first :: rest =>
      let lowest := fold_left Z.min rest first in
      let highest := fold_left Z.max rest first in
      if highest - lowest <=? maxLatestBlockSkew then Some lowest else None
  end.

(** ** The client's methods *)

Module Eth.
Section Methods.
  Context (ids : string -> rpc_call -> nat -> Z)
          (net : string -> rpc_call -> nat -> transport)
          (ended : string -> rpc_call -> nat -> bool)
          (cancelled : rpc_call -> option context_error).

Definition read {T} (c : Client) (request : rpc_call) (decode : option any -> option T)
    (reconcile : list T -> option T) : T + read_error :=
  readClientAgreement (readProviders ids net ended cancelled c request) decode reconcile.

Definition ChainID (c : Client) : Z + read_error :=
  read c eth_chainId decodeHexUintResult exactComparable.

Definition BlockNumber (c : Client) : Z + read_error :=
  read c eth_blockNumber decodeHexUintResult reconcileHeads.

Definition TransactionCount (c : Client) (address : string) : Z + read_error :=
  read c (eth_getTransactionCount address) decodeHexUintResult exactComparable.

(** One attempt, at the primary provider only. *)
Definition SendRawTransaction (c : Client) (rawHex : string) : string + read_error :=
  let request := eth_sendRawTransaction rawHex in
  match call_rpc (ids (c_url c) request 0) (net (c_url c) request 0) with
  | inr e => inr (ReadFailed e)
  | inl result =>
      match raw_string (Some result) with
      | None => inr InvalidData
      | Some txHash =>
          match normalizeHash txHash with
          | Some normalized => inl normalized
          | None => inr InvalidData
          end
      end
  end.

Definition TransactionReceipt (c : Client) (txHash : string) : option Receipt + read_error :=
  match normalizeHash txHash with
  | None => inr InvalidData
  | Some requestedHash =>
      read c (eth_getTransactionReceipt requestedHash) (decodeReceipt requestedHash) reconcileReceipts
  end.

Definition TransactionByHash (c : Client) (txHash : string) : option ChainTransaction + read_error :=
  match normalizeHash txHash with
  | None => inr InvalidData
  | Some requestedHash =>
      read c (eth_getTransactionByHash requestedHash) (decodeTransaction requestedHash)
        reconcileTransactions
  end.

Definition block_tag (number : option Z) : string :=
  match number with Some n => "0x" +:+ FormatUint16 n | None => "latest" end.

Definition block_at (c : Client) (number : option Z) : Block + read_error :=
  read c (eth_getBlockByNumber (block_tag number)) (decodeBlock number) exactComparable.

(** With two providers the latest block is the one at the lower agreed head. *)
Definition BlockByNumber (c : Client) (number : option Z) : Block + read_error :=
  match number, providerURLs c with
  | None, _ :: _ :: _ =>
      match BlockNumber c with
      | inl head => block_at c (Some head)
      | inr e => inr e
      end
  | _, _ => block_at c number
  end.

Definition Balance (c : Client) (address : string) : Z + read_error :=
  read c (eth_getBalance address) decodeBalance (all_equal Z.eqb).

Definition Call (c : Client) (from to : string) (data : list byte) : res unit :=
  match read c (eth_call from to ("0x" +:+ hex_EncodeToString data)) decodeHexData
          (all_equal (fun a b => bool_decide (a = b))) with
  | inl _ => Ok tt
  | inr (ReadFailed (RPCError code message)) =>
      if Reverted code message then Err [ESimulationReverted] else Err [EOpaque]
  | inr e => Err (read_error_chain e)
  end.

(** Each provider on its own, before reads require agreement. *)
Definition ValidateProviders (primary fallback : string) (expectedChainID : Z) : res unit :=
  let check url :=
    match ChainID {| c_url := url; c_fallback := EmptyString; c_retries := 0 |} with
    | inl chainID => if chainID =? expectedChainID then Ok tt else Err [EOpaque]
    | inr e => Err (read_error_chain e)
    end in
  match check primary with
  | Err e => Err e
  | Ok _ => if String.eqb fallback EmptyString then Ok tt else check fallback
  end.

(** The reads as the settlement service sees them. *)
Definition chain_answer {T} (r : T + read_error) : res T :=
  match r with inl v => Ok v | inr e => Err (read_error_chain e) end.

End Methods.
End Eth.
