(* ===== verification/RpcProps.v ===== *)
(** Reads of the chain need every provider: what the client returns is what
    all configured providers answered, and a simulated revert is one they all
    reported. *)

From Stdlib Require Import ZArith Lia Strings.Byte.
From stdpp Require Import base list strings.
From S2P Require Import Prelude GoStd GoJson WalletProof Prog Rpc.

Local Open Scope Z_scope.

(** ** Agreement *)

Section Agree.
  Context {R T : Type} (decode : R -> option T) (reconcile : list T -> option T).

Lemma errs_nil (outcomes : list (R + call_error)) :
  errs outcomes = [] -> outcomes = map inl (raws outcomes).
Proof.
  unfold errs, raws. induction outcomes as [|[r|e] l IH]; simpl; [done| |done].
  intros Hl. f_equal. by apply IH.
Qed.

Lemma raws_nil (outcomes : list (R + call_error)) :
  raws outcomes = [] -> outcomes = map inr (errs outcomes).
Proof.
  unfold errs, raws. induction outcomes as [|[r|e] l IH]; simpl; [done|done|].
  intros Hl. f_equal. by apply IH.
Qed.

Lemma decode_all_Some l values :
  decode_all decode l = Some values -> Forall2 (fun r v => decode r = Some v) l values.
Proof.
  revert values. induction l as [|r l IH]; simpl; intros values; [intros [= <-]; constructor|].
  destruct (decode r) eqn:E; [|done]. destruct (decode_all decode l); [|done].
  intros [= <-]. constructor; [done | by apply IH].
Qed.

Lemma agree_Ok outcomes v :
  agree outcomes decode reconcile = inl v ->
  exists rs values, outcomes = map inl rs /\ Forall2 (fun r v => decode r = Some v) rs values /\
    reconcile values = Some v.
Proof.
  intros HH. assert (errs outcomes = [] /\ exists values, decode_all decode (raws outcomes) = Some values /\
    reconcile values = Some v) as (He & values & Hd & Hr).
  { unfold agree in HH. destruct outcomes as [|[r|e] [|o l]]; try done; revert HH;
      (destruct (errs _) eqn:E; [|done]); (destruct (decode_all _ _); [|done]);
      (destruct (reconcile _) eqn:Er; [|done]); intros [= <-]; eauto. }
  exists (raws outcomes), values. auto using errs_nil, decode_all_Some.
Qed.

(** An executed error is returned only when every provider reported it. *)
Lemma all_failed_rpc es code message :
  all_failed es = ReadFailed (RPCError code message) <->
  es <> [] /\ Forall (eq (RPCError code message)) es.
Proof.
  unfold all_failed. split.
  - destruct (List.find _ es) eqn:Ef; [intros [= ->]; by apply List.find_some in Ef as [_ Ef]|].
    destruct es as [|e es]; [done|]. destruct (forallb _ es) eqn:E; [|done]. intros [= ->].
    split; [done|]. constructor; [done|]. rewrite forallb_forall in E. apply Forall_forall.
    intros x Hx. apply list_elem_of_In, E in Hx. bool_hyps. done.
  - intros [Hne Hall]. destruct es as [|e es]; [done|]. apply Forall_cons in Hall as [<- Hall].
    assert (List.find (fun e => negb (is_rpc e)) (RPCError code message :: es) = None) as ->.
    { clear Hne. simpl. induction Hall as [|e es <- _ IH]; [done | exact IH]. }
    assert (forallb (fun e => bool_decide (e = RPCError code message)) es = true) as ->; [|done].
    apply forallb_forall. intros x Hx%list_elem_of_In. rewrite Forall_forall in Hall.
    apply bool_decide_eq_true. symmetry. by apply Hall.
Qed.

Lemma errs_inr (es : list call_error) : errs (map (@inr R call_error) es) = es.
Proof. unfold errs. induction es as [|e es IH]; [done|]. simpl. by f_equal. Qed.

Lemma raws_inr (es : list call_error) : raws (map (@inr R call_error) es) = [].
Proof. unfold raws. by induction es. Qed.

Lemma agree_rpc_error outcomes code message :
  agree outcomes decode reconcile = inr (ReadFailed (RPCError code message)) <->
  exists es, outcomes = map inr es /\ es <> [] /\ Forall (eq (RPCError code message)) es.
Proof.
  split.
  - intros HH. destruct outcomes as [|[r|e] [|o l]] eqn:Eo; unfold agree in HH;
      try (injection HH as ->; exists [RPCError code message]; auto; fail);
      rewrite <- Eo in *; clear Eo;
      (destruct (errs outcomes) as [|failed es] eqn:Ee;
        [by destruct (decode_all _ _) as [vs|]; [destruct (reconcile vs)|]|]);
      (destruct (raws outcomes) eqn:Er; [|by destruct failed]);
      injection HH as HH; rewrite <- Ee in HH; apply all_failed_rpc in HH as [];
      exists (errs outcomes); auto using raws_nil.
  - intros (es & -> & Hne & Hall). pose proof (proj2 (all_failed_rpc es code message) (conj Hne Hall)) as Hf.
    destruct es as [|e [|e' es]]; [done| |].
    + apply Forall_cons in Hall as [<- _]. done.
    + unfold agree. cbn [map]. rewrite <- !map_cons, raws_inr, errs_inr. by rewrite Hf.
Qed.

Lemma agree_call_failed outcomes e :
  agree outcomes decode reconcile = inr (ReadFailed e) -> inr e ∈ outcomes.
Proof.
  assert (forall l : list (R + call_error), e ∈ errs l -> inr e ∈ l) as Hin.
  { unfold errs. intros l He. apply list_elem_of_omap in He as ([r|e'] & Hl & He); [done|].
    injection He as ->. done. }
  destruct outcomes as [|[r|e'] [|o l]] eqn:Eo; unfold agree;
    try (intros [= ->]; by left); rewrite <- Eo; clear Eo; intros HH; apply Hin;
    (destruct (errs outcomes) as [|failed es] eqn:Ee;
      [by destruct (decode_all _ _) as [vs|]; [destruct (reconcile vs)|]|]);
    (destruct (raws outcomes); [|destruct failed; [done|]; injection HH as <-; by left]);
    injection HH as HH; unfold all_failed in HH;
    (destruct (List.find _ _) eqn:Ef;
      [injection HH as ->; apply List.find_some in Ef as [Ef _]; by apply list_elem_of_In|]);
    (destruct (forallb _ _); [|done]); injection HH as ->; by left.
Qed.

End Agree.

(** ** Reads *)

Lemma all_equal_Some {T} (eqb : T -> T -> bool) values v :
  (forall a b, eqb a b = true -> a = b) -> all_equal eqb values = Some v -> Forall (eq v) values.
Proof.
  intros Heq. destruct values as [|first rest]; [done|]. simpl.
  destruct (forallb _ rest) eqn:E; [|done]. intros [= ->]. constructor; [done|].
  rewrite forallb_forall in E. apply Forall_forall. intros x Hx%list_elem_of_In. by apply Heq, E.
Qed.

Lemma exactComparable_Some {T} `{EqDecision T} (values : list T) v :
  exactComparable values = Some v -> Forall (eq v) values.
Proof. apply all_equal_Some. intros a b. apply bool_decide_eq_true. Qed.

Lemma reconcileReceipts_Some values v : reconcileReceipts values = Some v -> Forall (eq v) values.
Proof.
  apply all_equal_Some. intros [a|] [b|]; try done. intros E%bool_decide_eq_true. by subst.
Qed.

Lemma reconcileTransactions_Some values v : reconcileTransactions values = Some v -> Forall (eq v) values.
Proof.
  apply all_equal_Some. intros [[h m]|] [[h' m']|]; try done. simpl.
  destruct m as [m|], m' as [m'|]; intros E; bool_hyps; try discriminate;
    repeat match goal with E : String.eqb _ _ = true |- _ => apply String.eqb_eq in E end; by subst.
Qed.

Lemma fold_min_max rest first :
  fold_left Z.min rest first <= first <= fold_left Z.max rest first /\
  Forall (fun v => fold_left Z.min rest first <= v <= fold_left Z.max rest first) rest.
Proof.
  assert (forall l a b, a <= b -> fold_left Z.min l a <= a /\ b <= fold_left Z.max l b /\
    Forall (fun v => fold_left Z.min l a <= v <= fold_left Z.max l b) l) as HF.
  { intros l. induction l as [|x l IH]; intros a b Hab; simpl; [repeat split; [lia | lia | constructor]|].
    destruct (IH (Z.min a x) (Z.max b x) ltac:(lia)) as (H1 & H2 & H3).
    split; [lia|]. split; [lia|]. constructor; [lia | done]. }
  destruct (HF rest first first ltac:(lia)) as (H1 & H2 & H3). split; [lia | done].
Qed.

Lemma reconcileHeads_Some values v :
  reconcileHeads values = Some v -> Forall (fun h => v <= h <= v + maxLatestBlockSkew) values.
Proof.
  destruct values as [|first rest]; [done|]. unfold reconcileHeads.
  destruct (fold_min_max rest first) as [H1 H2]. destruct (_ <=? _) eqn:E; [|done]. intros [= <-].
  bool_hyps. constructor; [lia|]. eapply Forall_impl; [exact H2|]. simpl. lia.
Qed.

(** The head returned is one of the heads. *)
Lemma reconcileHeads_In values v : reconcileHeads values = Some v -> v ∈ values.
Proof.
  destruct values as [|first rest]; [done|]. unfold reconcileHeads. destruct (_ <=? _); [|done]. intros [= <-].
  revert first. induction rest as [|x rest IH]; intros first; simpl; [by left|].
  destruct (Z.min_spec first x) as [[_ ->]|[_ ->]]; [|by right]. specialize (IH first).
  apply elem_of_cons in IH as [->|IH]; [by left|by right; right].
Qed.

Section Reads.
  Context (ids : string -> rpc_call -> nat -> Z)
          (net : string -> rpc_call -> nat -> transport)
          (ended : string -> rpc_call -> nat -> bool)
          (cancelled : rpc_call -> option context_error)
          (c : Client).

(** The answer of provider [url] to [request], decoded. *)
Definition answered {T} (decode : option any -> option T) (request : rpc_call) (url : string) (v : T) : Prop :=
  exists raw, callProvider ids net ended c url request = inl raw /\ decode raw = Some v.

(** Every provider answered [v]. *)
Definition unanimous {T} (decode : option any -> option T) (request : rpc_call) (v : T) : Prop :=
  Forall (fun url => answered decode request url v) (providerURLs c).

Abbreviation read := (Eth.read ids net ended cancelled c).

Lemma Forall2_map_inl {A B} (f : A -> option any + call_error) (l : list A) rs (P : option any -> B -> Prop) vs :
  map f l = map inl rs -> Forall2 P rs vs -> Forall2 (fun a v => exists r, f a = inl r /\ P r v) l vs.
Proof.
  revert rs vs. induction l as [|a l IH]; intros [|r rs] vs Hm Hp; try discriminate; simpl in Hm.
  - inversion Hp. constructor.
  - injection Hm as Ha Hm. inversion Hp; subst. constructor; [eauto | by eapply IH].
Qed.

Lemma read_Ok {T} request (decode : option any -> option T) reconcile v :
  read request decode reconcile = inl v ->
  exists values, Forall2 (fun url v => answered decode request url v) (providerURLs c) values /\
    reconcile values = Some v.
Proof.
  unfold Eth.read, readClientAgreement, readProviders. destruct (cancelled request); [done|].
  intros (rs & values & Hm & Hd & Hr)%agree_Ok. exists values. split; [|done].
  by eapply Forall2_map_inl.
Qed.

Lemma read_unanimous {T} request (decode : option any -> option T) reconcile v :
  (forall values v, reconcile values = Some v -> Forall (eq v) values) ->
  read request decode reconcile = inl v -> unanimous decode request v.
Proof.
  intros Hrec (values & H2 & Hr)%read_Ok. apply Hrec in Hr. unfold unanimous.
  induction H2 as [|url v' urls vs Ha _ IH]; [constructor|].
  apply Forall_cons in Hr as [<- Hr]. constructor; [done | by apply IH].
Qed.

Lemma read_rpc_error {T} request (decode : option any -> option T) reconcile code message :
  read request decode reconcile = inr (ReadFailed (RPCError code message)) <->
  cancelled request = None /\
  Forall (fun url => callProvider ids net ended c url request = inr (RPCError code message)) (providerURLs c).
Proof.
  unfold Eth.read, readClientAgreement, readProviders. destruct (cancelled request) as [e|].
  { split; [by destruct e|]. by intros [? _]. }
  rewrite agree_rpc_error. split.
  - intros (es & Hm & _ & Hall). split; [done|]. revert es Hm Hall.
    induction (providerURLs c) as [|url l IH]; intros [|e es] Hm Hall; try discriminate; [constructor|].
    simpl in Hm. injection Hm as Hu Hm. apply Forall_cons in Hall as [<- Hall]. constructor; eauto.
  - intros [_ Hall]. exists (map (fun _ => RPCError code message) (providerURLs c)). split; [|split].
    + rewrite map_map. apply map_ext_in. intros url Hu%list_elem_of_In. rewrite Forall_forall in Hall. auto.
    + unfold providerURLs. by destruct (_ && _).
    + apply Forall_map, Forall_true. done.
Qed.

(** ** No transport failure looks like a revert *)

Lemma call_rpc_chain id t e : call_rpc id t = inr (CallFailed e) -> errors_Is e ESimulationReverted = false.
Proof.
  unfold call_rpc. destruct t as [[[]|]|status body]; [by intros [= <-]..|].
  repeat case_match; intros HH; try discriminate; by injection HH as <-.
Qed.

Lemma attempts_chain budget k target request last e :
  (forall e, last = inr (CallFailed e) -> errors_Is e ESimulationReverted = false) ->
  attempts ids net ended budget k target request last = inr (CallFailed e) ->
  errors_Is e ESimulationReverted = false.
Proof.
  revert k last. induction budget as [|n IH]; simpl; intros k last Hl; [apply Hl|].
  destruct (call_rpc _ _) as [r|e'] eqn:E; [done|].
  assert (forall e, inr e' = @inr (option any) _ (CallFailed e) -> errors_Is e ESimulationReverted = false) as He.
  { intros e0 [= ->]. by eapply call_rpc_chain. }
  destruct (ended target request k); [apply He | by apply IH].
Qed.

Lemma read_failed_chain {T} request (decode : option any -> option T) reconcile e :
  read request decode reconcile = inr (ReadFailed (CallFailed e)) -> errors_Is e ESimulationReverted = false.
Proof.
  unfold Eth.read, readClientAgreement, readProviders. destruct (cancelled request) as [ce|].
  { intros [= <-]. by destruct ce. }
  intros Hin%agree_call_failed. apply list_elem_of_fmap in Hin as (url & Hu & _).
  symmetry in Hu. eapply attempts_chain; [|exact Hu]. done.
Qed.

End Reads.

(** ** Receipts *)

(** What a decoded receipt looks like: a status bit, 64-bit numbers, a
    32-byte block hash in lower case, and a decimal gas price. *)
Record receipt_ok (rc : Receipt) (price : Z) : Prop := {
  ok_status : rc_Status rc = 0 \/ rc_Status rc = 1;
  ok_number : is_u64 (rc_BlockNumber rc) = true;
  ok_hash : normalizeHash (rc_BlockHash rc) = Some (rc_BlockHash rc);
  ok_gas : is_u64 (rc_GasUsed rc) = true;
  ok_price : rc_EffectiveGasPrice rc = FormatInt price /\ 0 <= price;
}.

(** A node's answer for [rc]; the price takes at most [digits] digits. *)
Definition encode_receipt (hash : string) (digits : nat) (price : Z) (rc : Receipt) : any :=
  AnyMap [("transactionHash", AnyString hash);
          ("status", AnyString ("0x" +:+ FormatUint16 (rc_Status rc)));
          ("blockNumber", AnyString ("0x" +:+ FormatUint16 (rc_BlockNumber rc)));
          ("blockHash", AnyString (rc_BlockHash rc));
          ("gasUsed", AnyString ("0x" +:+ FormatUint16 (rc_GasUsed rc)));
          ("effectiveGasPrice", AnyString ("0x" +:+ hex_print digits price EmptyString))].

Lemma normalizeHash_idem v w : normalizeHash v = Some w -> normalizeHash w = Some w.
Proof.
  unfold normalizeHash. destruct (_ || _) eqn:E; [done|]. bool_hyps.
  destruct (hex_DecodeString (drop_str 2 v)) eqn:Eh; [|done]. intros [= <-].
  assert (HasPrefix (ToLower v) "0x" = true) as ->.
  { destruct (HasPrefix_inv v "0x") as [r ->]; [done|]. by rewrite ToLower_app. }
  rewrite ToLower_length, (proj2 (Nat.eqb_eq _ _)) by done. cbn [negb orb].
  by rewrite drop_str_lower, hex_DecodeString_lower, Eh, ToLower_idem.
Qed.

Lemma parseHexUint_print n : is_u64 n = true -> parseHexUint ("0x" +:+ FormatUint16 n) = Some n.
Proof. intros Hn. unfold parseHexUint. rewrite TrimPrefix_app. by apply ParseUint16_print. Qed.

Lemma unsigned_hex_print digits n :
  (0 < digits)%nat -> 0 <= n < 16 ^ Z.of_nat digits ->
  unsigned_hex ("0x" +:+ hex_print digits n EmptyString) = Some (FormatInt n).
Proof.
  intros Hd Hn. unfold unsigned_hex. rewrite TrimPrefix_app.
  rewrite (SetString16_digits _ n); [by rewrite (proj2 (Z.ltb_ge _ _)) by lia | by apply hex_print_nonempty |].
  by apply hval_print.
Qed.

Lemma unsigned_hex_Some s t : unsigned_hex s = Some t -> exists n, t = FormatInt n /\ 0 <= n.
Proof.
  unfold unsigned_hex. destruct (SetString16 _) as [n|]; [|done]. destruct (n <? 0) eqn:E; [done|].
  intros [= <-]. bool_hyps. eauto.
Qed.

Lemma receipt_of_ok raw h rc : receipt_of raw h = Some rc -> exists price, receipt_ok rc price.
Proof.
  unfold receipt_of. destruct (parseHexUint (rr_Status raw)) as [st|] eqn:Es; [|done].
  destruct (1 <? st) eqn:E1; [done|]. destruct (normalizeHash (rr_TransactionHash raw)); [|done].
  destruct (negb _); [done|]. destruct (parseHexUint (rr_BlockNumber raw)) eqn:En; [|done].
  destruct (parseHexUint (rr_GasUsed raw)) eqn:Eg; [|done].
  destruct (unsigned_hex _) eqn:Ep; [|done]. destruct (normalizeHash (rr_BlockHash raw)) eqn:Eh; [|done].
  intros [= <-]. apply unsigned_hex_Some in Ep as (price & -> & Hp). exists price.
  apply ParseUint16_range in Es, En, Eg. unfold is_u64 in Es. bool_hyps.
  split; simpl; eauto using normalizeHash_idem. lia.
Qed.

(** Receipts are decoded exactly.  Whatever a provider answers, a decoded
    receipt has a status of 0 or 1, 64-bit block and gas numbers, a canonical
    32-byte block hash and a non-negative decimal price; and the answer a node
    gives for such a receipt and transaction hash decodes to that receipt. *)
Theorem decodeReceipt_exact :
  (forall h raw rc, decodeReceipt h raw = Some (Some rc) -> exists price, receipt_ok rc price) /\
  (forall h rc price digits, normalizeHash h = Some h -> receipt_ok rc price ->
     (0 < digits)%nat -> price < 16 ^ Z.of_nat digits ->
     decodeReceipt h (Some (encode_receipt h digits price rc)) = Some (Some rc)).
Proof.
  split.
  - intros h raw rc. unfold decodeReceipt. destruct (into_nullable raw) as [[m|]|]; [|done..].
    destruct (unmarshal_receipt m) as [r|]; [|done]. destruct (receipt_of r h) eqn:E; [|done].
    intros [= <-]. by eapply receipt_of_ok.
  - intros h rc price digits Hh [Hs Hn Hb Hg [Hp Hp0]] Hd Hlt.
    assert (is_u64 (rc_Status rc) = true) as Hs' by by destruct Hs as [-> | ->].
    assert (unmarshal_receipt (match encode_receipt h digits price rc with AnyMap m => m | _ => [] end) =
      Some {| rr_TransactionHash := h; rr_Status := "0x" +:+ FormatUint16 (rc_Status rc);
              rr_BlockNumber := "0x" +:+ FormatUint16 (rc_BlockNumber rc); rr_BlockHash := rc_BlockHash rc;
              rr_GasUsed := "0x" +:+ FormatUint16 (rc_GasUsed rc);
              rr_EffectiveGasPrice := "0x" +:+ hex_print digits price EmptyString |}) as E by reflexivity.
    unfold decodeReceipt. cbn [into_nullable encode_receipt into_struct option_map] in *. rewrite E.
    unfold receipt_of; cbn [rr_Status rr_TransactionHash rr_BlockNumber rr_GasUsed rr_EffectiveGasPrice rr_BlockHash].
    rewrite !parseHexUint_print, unsigned_hex_print, Hh, Hb by (done || lia).
    rewrite (proj2 (Z.ltb_ge 1 (rc_Status rc))) by lia. rewrite String.eqb_refl. simpl.
    rewrite <- Hp. by destruct rc.
Qed.

(** ** Properties *)

Section Properties.
  Context (ids : string -> rpc_call -> nat -> Z)
          (net : string -> rpc_call -> nat -> transport)
          (ended : string -> rpc_call -> nat -> bool)
          (cancelled : rpc_call -> option context_error)
          (c : Client).

  Abbreviation unanimous := (unanimous ids net ended c).
  Abbreviation answered := (answered ids net ended c).

Lemma TransactionReceipt_unanimous h r :
  Eth.TransactionReceipt ids net ended cancelled c h = inl r ->
  exists h', normalizeHash h = Some h' /\
    unanimous (decodeReceipt h') (eth_getTransactionReceipt h') r.
Proof.
  unfold Eth.TransactionReceipt. destruct (normalizeHash h) as [h'|]; [|done]. intros HH.
  exists h'. split; [done|]. eapply read_unanimous; [|exact HH]. apply reconcileReceipts_Some.
Qed.

Lemma block_at_unanimous number b :
  Eth.block_at ids net ended cancelled c number = inl b ->
  unanimous (decodeBlock number) (eth_getBlockByNumber (Eth.block_tag number)) b.
Proof. apply read_unanimous. apply exactComparable_Some. Qed.

Lemma providerURLs_cons : exists url urls, providerURLs c = url :: urls.
Proof. unfold providerURLs. destruct (_ && _); eauto. Qed.

Lemma decodeBlock_number n raw b : decodeBlock (Some n) raw = Some b -> bl_Number b = n.
Proof.
  unfold decodeBlock. destruct (into_nullable raw) as [[m|]|]; [|done..].
  repeat (case_match; [|done]). case_match; [done|]. repeat (case_match; [|done]).
  intros [= <-]. simpl. by bool_hyps.
Qed.

Lemma BlockNumber_heads head :
  Eth.BlockNumber ids net ended cancelled c = inl head ->
  Forall (fun url => exists h, answered decodeHexUintResult eth_blockNumber url h /\
    head <= h <= head + maxLatestBlockSkew) (providerURLs c).
Proof.
  intros (values & H2 & Hr)%read_Ok. apply reconcileHeads_Some in Hr.
  induction H2 as [|url h urls hs Ha _ IH]; [constructor|].
  apply Forall_cons in Hr as [Hh Hr]. constructor; [by exists h | by apply IH].
Qed.

(** A head that providers agree on: the lowest of their heads, none of which is
    more than two blocks ahead. *)
Definition agreed_head (head : Z) : Prop :=
  Forall (fun url => exists h, answered decodeHexUintResult eth_blockNumber url h /\ head <= h <= head + 2) (providerURLs c) /\
  Exists (fun url => answered decodeHexUintResult eth_blockNumber url head) (providerURLs c).

Lemma BlockNumber_agreed head : Eth.BlockNumber ids net ended cancelled c = inl head -> agreed_head head.
Proof.
  intros HB. split; [by apply BlockNumber_heads|]. apply read_Ok in HB as (values & H2 & Hr%reconcileHeads_In).
  induction H2 as [|url h urls hs Ha _ IH]; [by apply elem_of_nil in Hr|].
  apply elem_of_cons in Hr as [->|Hr]; [by left|right; by apply IH].
Qed.

Lemma block_number number b :
  Eth.block_at ids net ended cancelled c (Some number) = inl b ->
  bl_Number b = number /\
  unanimous (decodeBlock (Some number)) (eth_getBlockByNumber ("0x" +:+ FormatUint16 number)) b.
Proof.
  intros Hb. pose proof (block_at_unanimous (Some number) b Hb) as U. split; [|done].
  destruct providerURLs_cons as (url & urls & Hu). unfold RpcProps.unanimous in U. rewrite Hu in U.
  apply Forall_cons in U as [(raw & _ & Hd) _]. by eapply decodeBlock_number.
Qed.

(** The block a caller without a number gets: what the only provider calls the
    latest, or the block at the agreed head. *)
Definition latest_block (b : Block) : Prop :=
  match providerURLs c with
  | _ :: _ :: _ =>
      agreed_head (bl_Number b) /\
      unanimous (decodeBlock (Some (bl_Number b))) (eth_getBlockByNumber ("0x" +:+ FormatUint16 (bl_Number b))) b
  | _ => unanimous (decodeBlock None) (eth_getBlockByNumber "latest") b
  end.

Lemma BlockByNumber_latest b : Eth.BlockByNumber ids net ended cancelled c None = inl b -> latest_block b.
Proof.
  unfold Eth.BlockByNumber, latest_block.
  destruct (providerURLs c) as [|url [|url' urls]]; [apply (block_at_unanimous None)..|].
  destruct (Eth.BlockNumber _ _ _ _ c) as [head|] eqn:E; [|done]. intros Hb.
  destruct (block_number head b Hb) as [-> U]. by split; [apply BlockNumber_agreed|].
Qed.

(** C22. A read of the chain needs every configured provider.  A chain id, an
    account's transaction count or balance, a receipt, a transaction or a
    numbered block is returned only if each provider answered and each answer
    decodes to that very value, and a simulated call passes only if all of
    them return the same data; a block is the one asked for.  The block
    height returned is the lowest that a provider reported, and no provider is
    more than two blocks ahead of it; the latest block of several providers is
    the one all of them have at that height. *)
Theorem reads_need_every_provider :
  (forall n, Eth.ChainID ids net ended cancelled c = inl n ->
     unanimous decodeHexUintResult eth_chainId n) /\
  (forall a n, Eth.TransactionCount ids net ended cancelled c a = inl n ->
     unanimous decodeHexUintResult (eth_getTransactionCount a) n) /\
  (forall a n, Eth.Balance ids net ended cancelled c a = inl n -> unanimous decodeBalance (eth_getBalance a) n) /\
  (forall from to data, Eth.Call ids net ended cancelled c from to data = Ok tt ->
     exists v, unanimous decodeHexData (eth_call from to ("0x" +:+ hex_EncodeToString data)) v) /\
  (forall h r, Eth.TransactionReceipt ids net ended cancelled c h = inl r ->
     exists h', normalizeHash h = Some h' /\
       unanimous (decodeReceipt h') (eth_getTransactionReceipt h') r) /\
  (forall h t, Eth.TransactionByHash ids net ended cancelled c h = inl t ->
     exists h', normalizeHash h = Some h' /\
       unanimous (decodeTransaction h') (eth_getTransactionByHash h') t) /\
  (forall number b, Eth.BlockByNumber ids net ended cancelled c (Some number) = inl b ->
     bl_Number b = number /\
     unanimous (decodeBlock (Some number)) (eth_getBlockByNumber ("0x" +:+ FormatUint16 number)) b) /\
  (forall b, Eth.BlockByNumber ids net ended cancelled c None = inl b -> latest_block b) /\
  (forall head, Eth.BlockNumber ids net ended cancelled c = inl head -> agreed_head head).
Proof.
  split_and!; [intros n|intros a n|intros a n|intros from to data|apply TransactionReceipt_unanimous|intros h t
    |apply block_number|apply BlockByNumber_latest|apply BlockNumber_agreed].
  1, 2: apply read_unanimous, exactComparable_Some.
  - apply read_unanimous. intros values v. apply all_equal_Some. intros x y. apply Z.eqb_eq.
  - unfold Eth.Call. destruct (Eth.read _ _ _ _ _ _ _ _) as [v|e] eqn:E; [|by repeat case_match].
    intros _. exists v. eapply read_unanimous; [apply exactComparable_Some|exact E].
  - unfold Eth.TransactionByHash. destruct (normalizeHash h) as [h'|]; [|done]. intros HH.
    exists h'. split; [done|]. eapply read_unanimous; [|exact HH]. apply reconcileTransactions_Some.
Qed.

(** A payment is abandoned as unsettleable only on the word of every
    provider: simulating a transfer reports a revert exactly when each
    configured provider executed it and returned the same revert error.  An
    unavailable provider, a timeout, different errors, or an error beside a
    value never count as a revert. *)
Theorem simulation_revert_unanimous from to data :
  let request := eth_call from to ("0x" +:+ hex_EncodeToString data) in
  (exists e, Eth.Call ids net ended cancelled c from to data = Err e /\
     errors_Is e ESimulationReverted = true) <->
  cancelled request = None /\
  exists code message, Reverted code message = true /\
    Forall (fun url => callProvider ids net ended c url request = inr (RPCError code message))
      (providerURLs c).
Proof.
  intros request. unfold Eth.Call. fold request.
  pose proof (fun code message => read_rpc_error ids net ended cancelled c request decodeHexData
    (all_equal (fun a b => bool_decide (a = b))) code message) as Hrpc.
  pose proof (read_failed_chain ids net ended cancelled c request decodeHexData
    (all_equal (fun a b => bool_decide (a = b)))) as Hchain.
  destruct (Eth.read _ _ _ _ _ _ _ _) as [v|[[code message|e]| |]]; split.
  all: try (intros (e0 & [= <-] & He); discriminate He).
  all: try (intros [Hc (code' & message' & Hr & Hall)];
    pose proof (proj2 (Hrpc code' message') (conj Hc Hall)) as HH; try discriminate HH).
  - intros (e & He & Hs). destruct (Reverted code message) eqn:E; [|injection He as <-; discriminate Hs].
    destruct (proj1 (Hrpc code message) eq_refl) as [Hc Hall]. eauto.
  - injection HH as -> ->. rewrite Hr. eauto.
  - simpl. intros (e0 & [= <-] & He). by rewrite Hchain in He.
Qed.

End Properties.

(** ** A concrete network: two providers that agree, one a block behind *)

Definition demo_hash (s : string) : string := "0x" +:+ Repeat s 32.

Definition demo_receipt : Receipt :=
  {| rc_Status := 1; rc_BlockNumber := 100; rc_BlockHash := demo_hash "bb"; rc_GasUsed := 60000;
     rc_EffectiveGasPrice := "1000" |}.

Definition demo_reply (result : any) : transport :=
  HttpReply 200 (Some (AnyMap [("jsonrpc", AnyString "2.0"); ("id", AnyNumber "7"); ("result", result)])).

Definition demo_net (url : string) (request : rpc_call) (attempt : nat) : transport :=
  match request with
  | eth_getTransactionReceipt h => demo_reply (encode_receipt h 8 1000 demo_receipt)
  | eth_blockNumber => demo_reply (AnyString (if String.eqb url "a" then "0x70" else "0x71"))
  | eth_getBlockByNumber tag =>
      demo_reply (AnyMap [("hash", AnyString (demo_hash "BB")); ("number", AnyString "0x64");
                          ("baseFeePerGas", AnyString "0xa")])
  | _ => TransportFailed None
  end.

Definition demo_client : Client := {| c_url := "a"; c_fallback := "b"; c_retries := 1 |}.

Definition demo_ids (url : string) (request : rpc_call) (attempt : nat) : Z := 7.
Definition demo_ended (url : string) (request : rpc_call) (attempt : nat) : bool := false.
Definition demo_cancelled (request : rpc_call) : option context_error := None.

Lemma reads_need_every_provider_witness :
  Eth.BlockNumber demo_ids demo_net demo_ended demo_cancelled demo_client = inl 112 /\
  unanimous demo_ids demo_net demo_ended demo_client (decodeReceipt (demo_hash "aa"))
    (eth_getTransactionReceipt (demo_hash "aa")) (Some demo_receipt).
Proof.
  refine (conj _ _); [vm_compute; reflexivity|].
  destruct (reads_need_every_provider demo_ids demo_net demo_ended demo_cancelled demo_client)
    as (_ & _ & _ & _ & Hr & _).
  destruct (Hr (demo_hash "AA") (Some demo_receipt)) as (h' & Hh & Hu); [vm_compute; reflexivity|].
  vm_compute in Hh. injection Hh as <-. exact Hu.
Defined.

Lemma decodeReceipt_exact_witness :
  decodeReceipt (demo_hash "aa") (Some (encode_receipt (demo_hash "aa") 8 1000 demo_receipt)) =
  Some (Some demo_receipt).
Proof.
  apply (proj2 decodeReceipt_exact); [vm_compute; reflexivity | | lia | vm_compute; reflexivity].
  split; [by right | vm_compute; reflexivity | vm_compute; reflexivity | vm_compute; reflexivity |].
  split; [vm_compute; reflexivity | lia].
Defined.
