(* ===== verification/Service.v ===== *)
(** [internal/settlement/service.go], wait.go and worker.go: admission, the
    broadcast pipeline shared by the HTTP path and the worker, confirmation,
    and the wait for an on-chain outcome.

    Logging, heartbeats and the recovery of panics are not modelled: they
    change neither the tables nor what is sent.  A context is modelled by
    whether it is cancelled where the code asks; the timeouts of single calls
    are among the errors those calls may return. *)

From Stdlib Require Import ZArith Lia Strings.Byte.
From stdpp Require Import base gmap list strings.
From S2P Require Import Prelude GoStd Geth Policy Verification Signer Fees State Schema Calldata.
From S2P Require Import Work Store StoreWork StoreRecovery Prog.

Local Open Scope Z_scope.
Local Open Scope prog_scope.

Record Config := {
  SignerAddress : string;
  ExpiryMargin : duration;
  MerchantQuota : Z;
  GlobalQuota : Z;
  QuotaWindow : duration;
  LeaseDuration : duration;
  Confirmations : Z;
  GasLimit : Z;
  MaxFeePerGas : string;
  MaxPriorityFeeGas : string;
  RecoveryGrace : duration;
  ReplacementAfter : duration;
  ResponseWait : duration;
}.

(** [x402.SettleResponse]. *)
Record SettleResponse := {
  sr_Success : bool;
  sr_ErrorReason : string;
  sr_ErrorMessage : string;
  sr_Payer : string;
  sr_Transaction : string;
  sr_Network : string;
  sr_Amount : string;
}.

(** ** settle.go: the wire reasons *)

Definition WireReasonInvalidRequest : string := "invalid_request".
Definition WireReasonPaymentNotFound : string := ReasonPaymentNotFound.
Definition WireReasonPaymentNotVerified : string := ReasonPaymentNotVerified.
Definition WireReasonRecipientNotMerchant : string := ReasonRecipientNotMerchant.
Definition WireReasonAuthorizationExpiring : string := ReasonAuthorizationExpiring.
Definition WireReasonMerchantQuotaExceeded : string := ReasonMerchantQuotaExceeded.
Definition WireReasonGlobalQuotaExceeded : string := ReasonGlobalQuotaExceeded.
Definition WireReasonSimulationReverted : string := ReasonSimulationReverted.
Definition WireReasonTransactionFailed : string := "invalid_exact_evm_transaction_failed".
Definition WireReasonFailedToGetReceipt : string := "invalid_exact_evm_failed_to_get_receipt".
Definition WireReasonBroadcastFailed : string := "broadcast_failed".

(** ** Responses *)

Definition rejected (reason : string) (payment : option VerifiedPayment) : SettleResponse :=
  {| sr_Success := false; sr_ErrorReason := reason; sr_ErrorMessage := EmptyString;
     sr_Payer := match payment with Some p => vp_Payer p | None => EmptyString end;
     sr_Transaction := EmptyString; sr_Network := MainnetNetwork;
     sr_Amount := match payment with Some p => vp_Amount p | None => EmptyString end |}.

Definition with_message (message : string) (r : SettleResponse) : SettleResponse :=
  {| sr_Success := sr_Success r; sr_ErrorReason := sr_ErrorReason r; sr_ErrorMessage := message;
     sr_Payer := sr_Payer r; sr_Transaction := sr_Transaction r; sr_Network := sr_Network r;
     sr_Amount := sr_Amount r |}.

Definition settled (payment : VerifiedPayment) (txHash : string) : SettleResponse :=
  {| sr_Success := true; sr_ErrorReason := EmptyString; sr_ErrorMessage := EmptyString;
     sr_Payer := vp_Payer payment; sr_Transaction := txHash; sr_Network := MainnetNetwork;
     sr_Amount := vp_Amount payment |}.

Definition revertedTx (payment : VerifiedPayment) : SettleResponse :=
  rejected WireReasonTransactionFailed (Some payment).

Definition receiptUnavailable (payment : VerifiedPayment) : SettleResponse :=
  rejected WireReasonFailedToGetReceipt (Some payment).

(** The inline broadcast did not produce a hash. *)
Definition broadcast_failed (payment : VerifiedPayment) (e : error) : SettleResponse :=
  with_message
    (if errors_Is e EBroadcastPending
     then "payment broadcast is already in progress; retry to observe it"
     else "transaction broadcast failed; the durable intent remains for the settlement worker")
    (rejected WireReasonBroadcastFailed (Some payment)).

(** ** wait.go *)

Inductive settlementObservation :=
  | observationPending
  | observationConfirmed (receipt : Receipt)
  | observationReverted (receipt : Receipt).

(** [depth := uint64(0); if current >= number { depth = current - number + 1 }]. *)
Definition depth (current number : Z) : Z :=
  if number <=? current then wrap64 (current - number + 1) else 0.

Definition requireBroadcastHash (returned expected : string) : res unit :=
  if EqualFold returned expected then Ok tt else Err [EOpaque].

(** How often the wait can poll before its deadline. *)
Definition poll_interval (cfg : Config) : duration := Z.min (2 * second) (ResponseWait cfg).
Definition polls (cfg : Config) : nat := Z.to_nat (ResponseWait cfg / poll_interval cfg) + 1.

Section Service.
  Context `{Geth} `{X402} (cfg : Config).

Definition observeSettlement (txHash : string) : prog (res settlementObservation) :=
  receipt <~? getReceipt txHash ;;
  match receipt with
  | None => Ret (Ok observationPending)
  | Some receipt =>
      canonical <~? getBlock (Some (rc_BlockNumber receipt)) ;;
      if negb (EqualFold (bl_Hash canonical) (rc_BlockHash receipt)) then Ret (Ok observationPending)
      else
        current <~? getHeight ;;
        if depth current (rc_BlockNumber receipt) <? Confirmations cfg then Ret (Ok observationPending)
        else if rc_Status receipt =? 0 then Ret (Ok (observationReverted receipt))
        else Ret (Ok (observationConfirmed receipt))
  end.

Fixpoint poll (n : nat) (txHash : string) : prog settlementObservation :=
  observation <~ observeSettlement txHash ;;
  match observation with
  | Ok (observationConfirmed r) => Ret (observationConfirmed r)
  | Ok (observationReverted r) => Ret (observationReverted r)
  | _ =>
      done <~ cancelled ;;
      match done, n with
      | false, S n => poll n txHash
      | _, _ => Ret observationPending
      end
  end.

Definition waitForSettlement (txHash : string) : prog settlementObservation :=
  if ResponseWait cfg <=? 0 then Ret observationPending else poll (polls cfg) txHash.

(** ** service.go: fees and leases *)

Definition estimateFees : prog (res (Z * Z)) :=
  block <~? getBlock None ;;
  Ret (match SetString10 (bl_BaseFee block), SetString10 (MaxPriorityFeeGas cfg),
             SetString10 (MaxFeePerGas cfg) with
       | Some baseFee, Some tip, Some ceiling => EstimateFees (Some baseFee) (Some tip) (Some ceiling)
       | _, _, _ => Err [EOpaque]
       end).

Definition release (paymentID : rowid) (worker : string) : prog unit :=
  call (fun e => ReleaseLease paymentID worker (e_now e)) ;;~ Ret tt.

(** The transaction every signing site of the service builds. *)
Definition settlement_tx (work : Work) (calldata : list byte) (gas : Z) (maxFee tip : string) :
    Transaction :=
  {| ChainID := MainnetChainID; t_Nonce := w_Nonce work; t_To := MainnetUSDC; t_Data := calldata;
     t_Value := "0"; t_GasLimit := gas; t_MaxFeePerGas := maxFee; t_MaxPriorityFeePerGas := tip;
     t_Authorization := Some (Wire (w_Authorization work)) |}.

Definition raw_hex (raw : list byte) : string := "0x" +:+ hex_EncodeToString raw.

(** From the signature on: record the hash, send, record the outcome. *)
Definition broadcastSigned (work : Work) (actor : string) (maxFee tip : Z) (signed : SignedTransaction) :
    prog (res string) :=
  let rawSum := keccak256 (Raw signed) in
  let expectedTxHash := "0x" +:+ hex_EncodeToString rawSum in
  call (fun e => MarkTxSigned (w_TransactionID work) (hex_EncodeToString rawSum)
          (hex_EncodeToString (SigHash signed)) (GasLimit cfg) (FormatInt maxFee) (FormatInt tip)
          (e_now e)) ;;~?
  txHash <~ send (raw_hex (Raw signed)) ;;
  match (let? h := txHash in requireBroadcastHash h expectedTxHash) with
  | Err e =>
      marked <~ call (fun e => MarkTxAmbiguous (w_PaymentID work) (w_TransactionID work) actor (e_now e)) ;;
      Ret (Err (match marked with Ok _ => e | Err e' => errors_Join e e' end))
  | Ok _ =>
      call (fun e => MarkTxBroadcast (w_PaymentID work) (w_TransactionID work) expectedTxHash actor
              (e_now e)) ;;~?
      Ret (Ok expectedTxHash)
  end.

(** From a pending intent to a signature: expiry, calldata, simulation, fees. *)
Definition broadcastPending (work : Work) (actor : string) : prog (res string) :=
  t <~ now ;;
  if au_ValidBefore (w_Authorization work) <=? t + ExpiryMargin cfg then
    call (fun e => MarkIntentExpired (w_PaymentID work) (w_TransactionID work) actor (e_now e)) ;;~?
    Ret (Err [EAuthorizationExpiring])
  else
    calldata <~? Ret (TransferWithAuthorizationData (w_Authorization work)) ;;
    simulated <~ simulate (w_SignerAddress work) MainnetUSDC calldata ;;
    match simulated with
    | Err e =>
        if errors_Is e ESimulationReverted then
          call (fun e => MarkIntentUnsettleable (w_PaymentID work) (w_TransactionID work) actor
                  (e_now e)) ;;~?
          Ret (Err [EPaymentUnsettleable])
        else Ret (Err e)
    | Ok _ =>
        fees <~? estimateFees ;;
        signed <~? sign (settlement_tx work calldata (GasLimit cfg) (FormatInt fees.1)
                           (FormatInt fees.2)) ;;
        broadcastSigned work actor fees.1 fees.2 signed
    end.

Definition broadcastClaimed (work : Work) (actor : string) : prog (res string) :=
  if negb (String.eqb (w_TxHash work) EmptyString) then Ret (Ok (w_TxHash work))
  else if AmbiguousBroadcast work then
    call (fun e => MarkTxAmbiguous (w_PaymentID work) (w_TransactionID work) actor (e_now e)) ;;~?
    Ret (Err [EOpaque])
  else if negb (BroadcastPending work) then Ret (Err [EOpaque])
  else broadcastPending work actor.

Definition Broadcast (paymentID : rowid) (actor : string) : prog (res string) :=
  t <~ now ;;
  lease <~ call (fun e => ClaimPayment paymentID actor (LeaseDuration cfg) t (e_now e)) ;;
  match lease with
  | Err e => Ret (Err (if errors_Is e ELeaseUnavailable then [EBroadcastPending] else e))
  | Ok _ =>
      work <~ call (fun e => LoadSettlementWork paymentID (e_now e)) ;;
      result <~ match work with
                | Err e => Ret (Err e)
                | Ok work => broadcastClaimed work actor
                end ;;
      release paymentID actor ;;~ Ret result
  end.

(** ** service.go: answering *)

Definition respondWithTx (payment : VerifiedPayment) (paymentID transactionID : rowid) (txHash : string) :
    prog SettleResponse :=
  observation <~ waitForSettlement txHash ;;
  match observation with
  | observationConfirmed receipt =>
      recorded <~ call (fun e => MarkTxConfirmed paymentID transactionID (rc_BlockNumber receipt)
                          (rc_BlockHash receipt) (rc_GasUsed receipt) (rc_EffectiveGasPrice receipt)
                          "http-wait" (e_now e)) ;;
      Ret (match recorded with Ok _ => settled payment txHash | Err _ => receiptUnavailable payment end)
  | observationReverted receipt =>
      recorded <~ call (fun e => MarkTxReverted paymentID transactionID (rc_GasUsed receipt)
                          (rc_EffectiveGasPrice receipt) "http-wait" (e_now e)) ;;
      Ret (match recorded with Ok _ => revertedTx payment | Err _ => receiptUnavailable payment end)
  | observationPending => Ret (receiptUnavailable payment)
  end.

(** The policy rejections of admission, in the order the code tests them. *)
Definition admission_reasons : list (sentinel * string) :=
  [(EPaymentNotFound, WireReasonPaymentNotFound);
   (EPaymentNotVerified, WireReasonPaymentNotVerified);
   (ERecipientNotMerchant, WireReasonRecipientNotMerchant);
   (EAuthorizationExpiring, WireReasonAuthorizationExpiring);
   (EMerchantQuotaExceeded, WireReasonMerchantQuotaExceeded);
   (EGlobalQuotaExceeded, WireReasonGlobalQuotaExceeded)].

Definition admission_reason (e : error) : option string :=
  option_map snd (List.find (fun sr => errors_Is e sr.1) admission_reasons).

(** What Settle does once the payment has an intent. *)
Definition settleIntent (payment : VerifiedPayment) (intent : Intent) : prog SettleResponse :=
  if negb (String.eqb (in_TxHash intent) EmptyString) then
    if in_Reverted intent then Ret (revertedTx payment)
    else if in_Confirmed intent then Ret (settled payment (in_TxHash intent))
    else if in_Duplicate intent then Ret (receiptUnavailable payment)
    else respondWithTx payment (in_PaymentID intent) (in_TransactionID intent) (in_TxHash intent)
  else
    result <~ Broadcast (in_PaymentID intent) "http" ;;
    match result with
    | Ok txHash => respondWithTx payment (in_PaymentID intent) (in_TransactionID intent) txHash
    | Err e =>
        if errors_Is e EAuthorizationExpiring
        then Ret (rejected WireReasonAuthorizationExpiring (Some payment))
        else if errors_Is e EPaymentUnsettleable
        then Ret (rejected WireReasonSimulationReverted (Some payment))
        else
          work <~ call (fun e => LoadSettlementWork (in_PaymentID intent) (e_now e)) ;;
          match work with
          | Ok work =>
              if negb (String.eqb (w_TxHash work) EmptyString)
              then respondWithTx payment (in_PaymentID intent) (w_TransactionID work) (w_TxHash work)
              else Ret (broadcast_failed payment e)
          | Err _ => Ret (broadcast_failed payment e)
          end
    end.

Definition Settle (request : Request) : prog (res SettleResponse) :=
  match ParseRequest request with
  | inr reason =>
      Ret (Ok (with_message ("payment is not acceptable to this facilitator: " +:+ reason)
                 (rejected WireReasonInvalidRequest None)))
  | inl payment =>
      t <~ now ;;
      intent <~ call_res (fun e => CreateSettlementIntent
        {| ir_PaymentIdentity := vp_Identity payment; ir_SignerAddress := SignerAddress cfg;
           ir_PayerSignature := vp_Signature payment; ir_ExpiryMargin := ExpiryMargin cfg;
           ir_Quota := MerchantQuota cfg; ir_QuotaWindow := QuotaWindow cfg;
           ir_GlobalQuota := GlobalQuota cfg; ir_Now := t |} (e_now e)) ;;
      match intent with
      | Err e =>
          Ret (match admission_reason e with
               | Some reason => Ok (rejected reason (Some payment))
               | None => Err e
               end)
      | Ok intent => response <~ settleIntent payment intent ;; Ret (Ok response)
      end
  end.

(** ** Confirmation *)

Definition Confirmation (paymentID : rowid) (actor : string) : prog (res unit) :=
  work <~? call (fun e => LoadSettlementWork paymentID (e_now e)) ;;
  let reorged :=
    if bool_decide (w_TransactionStatus work = TxConfirming)
    then call (fun e => MarkTxReorgedOut paymentID (w_TransactionID work) actor (e_now e))
    else Ret (Ok tt) in
  if String.eqb (w_TxHash work) EmptyString then Ret (Err [EOpaque])
  else
    receipt <~? getReceipt (w_TxHash work) ;;
    match receipt with
    | None => reorged
    | Some receipt =>
        canonical <~? getBlock (Some (rc_BlockNumber receipt)) ;;
        if negb (EqualFold (bl_Hash canonical) (rc_BlockHash receipt)) then reorged
        else
          current <~? getHeight ;;
          if depth current (rc_BlockNumber receipt) <? Confirmations cfg then
            call (fun e => MarkTxConfirming paymentID (w_TransactionID work) (rc_BlockNumber receipt)
                    (rc_BlockHash receipt) actor (e_now e))
          else if rc_Status receipt =? 0 then
            call (fun e => MarkTxReverted paymentID (w_TransactionID work) (rc_GasUsed receipt)
                    (rc_EffectiveGasPrice receipt) actor (e_now e))
          else
            call (fun e => MarkTxConfirmed paymentID (w_TransactionID work) (rc_BlockNumber receipt)
                    (rc_BlockHash receipt) (rc_GasUsed receipt) (rc_EffectiveGasPrice receipt) actor
                    (e_now e))
    end.

(** ** worker.go *)

Definition workerBatch : Z := 8.

(** One leased payment: renew, advance, release. *)
Definition advance_leased (identity : string) (advance : rowid -> string -> prog unit) (lease : Lease) :
    prog unit :=
  t <~ now ;;
  renewed <~ call (fun _ => RenewLease (l_PaymentID lease) identity t (LeaseDuration cfg)) ;;
  match renewed with
  | Err e =>
      if errors_Is e ELeaseLost || errors_Is e ECanceled then Ret tt
      else release (l_PaymentID lease) identity
  | Ok _ =>
      advance (l_PaymentID lease) "worker" ;;~ release (l_PaymentID lease) identity
  end.

(** One tick: claim a batch, then advance each payment on its own. *)
Definition process (identity : string) (states : list State)
    (advance : rowid -> string -> prog unit) : prog unit :=
  t <~ now ;;
  leases <~ call (fun e => ClaimPayments
    {| cr_Worker := identity; cr_States := states; cr_Duration := LeaseDuration cfg;
       cr_Limit := workerBatch; cr_Now := t |} (e_locked e) (e_now e)) ;;
  match leases with
  | Err _ => Ret tt
  | Ok leases => each leases (advance_leased identity advance)
  end.

Definition BroadcastWorker (identity : string) : prog unit :=
  process identity [StateBroadcasting] (fun paymentID actor =>
    work <~ call (fun e => LoadSettlementWork paymentID (e_now e)) ;;
    match work with
    | Err _ => Ret tt
    | Ok work => broadcastClaimed work actor ;;~ Ret tt
    end).

Definition ConfirmationWorker (identity : string) : prog unit :=
  process identity [StateBroadcast; StateConfirming; StateReplaced] (fun paymentID actor =>
    Confirmation paymentID actor ;;~ Ret tt).

End Service.
