(* ===== verification/Recovery.v ===== *)
(** [internal/settlement/recovery.go]: the recovery worker, which resolves
    ambiguous broadcasts, replaces stuck transactions, fills nonce gaps and
    watches the superseded signatures. *)

From Stdlib Require Import ZArith Lia Strings.Byte.
From stdpp Require Import base gmap list strings.
From S2P Require Import Prelude GoStd Geth Policy Verification Signer Fees State Schema Calldata.
From S2P Require Import Work Store StoreWork StoreRecovery Prog Service.

Local Open Scope Z_scope.
Local Open Scope prog_scope.

(** [grace << min(attempts, maxShift)]; configured windows are far below the
    width of a duration. *)
Definition ambiguousRetryDelay (attempts : Z) (grace : duration) : duration :=
  Z.shiftl grace (Z.min attempts 5).

Section Recovery.
  Context `{Geth} (cfg : Config).

(** ** Signing *)

Definition signIdentical (work : Work) : prog (res (list byte * string)) :=
  calldata <~? Ret (TransferWithAuthorizationData (w_Authorization work)) ;;
  signed <~? sign (settlement_tx work calldata (w_GasLimit work) (w_MaxFeePerGas work)
                     (w_MaxPriorityFeePerGas work)) ;;
  let rawHash := hex_EncodeToString (keccak256 (Raw signed)) in
  Ret (if negb (String.eqb (w_Sighash work) EmptyString) then
         if String.eqb (hex_EncodeToString (SigHash signed)) (w_Sighash work)
         then Ok (Raw signed, rawHash) else Err [EOpaque]
       else if String.eqb rawHash (w_RawHash work) then Ok (Raw signed, rawHash) else Err [EOpaque]).

(** [Ok None] when the ceiling leaves no room. *)
Definition replacementFees (work : Work) : prog (res (option (Z * Z))) :=
  match SetString10 (w_MaxFeePerGas work), SetString10 (w_MaxPriorityFeePerGas work) with
  | Some oldMax, Some oldTip =>
      block <~? getBlock None ;;
      Ret (match SetString10 (bl_BaseFee block), SetString10 (MaxFeePerGas cfg) with
           | Some baseFee, Some ceiling =>
               Ok (BumpFees (Some oldMax) (Some oldTip) (Some baseFee) (Some ceiling))
           | _, _ => Err [EOpaque]
           end)
  | _, _ => Ret (Err [EOpaque])
  end.

(** The durable record of a signature of [work]'s nonce. *)
Definition replacement_of (work : Work) (rawHash maxFee tip : string) : Replacement :=
  {| rp_Nonce := w_Nonce work; rp_TxHash := "0x" +:+ rawHash; rp_RawHash := rawHash;
     rp_GasLimit := w_GasLimit work; rp_MaxFee := maxFee; rp_PriorityFee := tip;
     rp_SignerAddress := w_SignerAddress work |}.

Definition signReplacement (work : Work) (maxFee priority : Z) :
    prog (res (SignedTransaction * Replacement)) :=
  calldata <~? Ret (TransferWithAuthorizationData (w_Authorization work)) ;;
  signed <~? sign (settlement_tx work calldata (w_GasLimit work) (FormatInt maxFee) (FormatInt priority)) ;;
  Ret (Ok (signed, replacement_of work (hex_EncodeToString (keccak256 (Raw signed)))
                     (FormatInt maxFee) (FormatInt priority))).

(** Send recorded bytes and check the acknowledged hash. *)
Definition send_checked (raw : list byte) (expected : string) : prog (res unit) :=
  returnedHash <~? send (raw_hex raw) ;;
  Ret (requireBroadcastHash returnedHash expected).

(** ** Ambiguous broadcasts *)

Definition lacks_fees (work : Work) : bool :=
  String.eqb (w_MaxFeePerGas work) EmptyString ||
  String.eqb (w_MaxPriorityFeePerGas work) EmptyString || (w_GasLimit work =? 0).

(** Past the backoff window: sign the identical transaction and send it. *)
Definition rebroadcast (work : Work) (txHash actor : string) : prog (res unit) :=
  signed <~? signIdentical work ;;
  let '(raw, rawHash) := signed in
  if negb (String.eqb rawHash (w_RawHash work)) then
    let replacement := replacement_of work rawHash (w_MaxFeePerGas work) (w_MaxPriorityFeePerGas work) in
    call (fun e => MarkTxAmbiguousReplaced (w_PaymentID work) (w_TransactionID work) replacement actor
            (e_now e)) ;;~?
    send_checked raw (rp_TxHash replacement)
  else
    sent <~ send_checked raw txHash ;;
    match sent with
    | Err e =>
        marked <~ call (fun e => MarkAmbiguousRetry (w_PaymentID work) (w_TransactionID work) (e_now e)) ;;
        Ret (Err (match marked with Ok _ => e | Err e' => errors_Join e e' end))
    | Ok _ =>
        call (fun e => MarkTxRecoveredBroadcast (w_PaymentID work) (w_TransactionID work) txHash actor
                (e_now e))
    end.

Definition resolveAmbiguous (work : Work) (actor : string) : prog (res unit) :=
  if String.eqb (w_RawHash work) EmptyString then Ret (Err [EOpaque])
  else
    let txHash := "0x" +:+ w_RawHash work in
    let recovered :=
      call (fun e => MarkTxRecoveredBroadcast (w_PaymentID work) (w_TransactionID work) txHash actor
              (e_now e)) in
    receipt <~? getReceipt txHash ;;
    match receipt with
    | Some _ => recovered
    | None =>
        pending <~? getTransaction txHash ;;
        match pending with
        | Some _ => recovered
        | None =>
            if w_DBNow work <? w_TransactionUpdatedAt work +
                 ambiguousRetryDelay (w_AmbiguousAttempts work) (RecoveryGrace cfg)
            then Ret (Ok tt)
            else if lacks_fees work then Ret (Err [EOpaque])
            else rebroadcast work txHash actor
        end
    end.

(** ** Stuck transactions *)

Definition replaceStuck (work : Work) (actor : string) : prog (res unit) :=
  if lacks_fees work then Ret (Ok tt)
  else
    fees <~? replacementFees work ;;
    match fees with
    | None => Ret (Ok tt)
    | Some (maxFee, priority) =>
        signed <~? signReplacement work maxFee priority ;;
        call (fun e => MarkTxReplaced (w_PaymentID work) (w_TransactionID work) signed.2 actor
                (e_now e)) ;;~?
        send_checked (Raw signed.1) (rp_TxHash signed.2)
    end.

Definition recoverPayment (paymentID : rowid) (actor : string) : prog (res unit) :=
  work <~? call (fun e => LoadSettlementWork paymentID (e_now e)) ;;
  if bool_decide (w_TransactionStatus work = TxAmbiguous) then resolveAmbiguous work actor
  else if bool_decide (w_TransactionStatus work = TxBroadcast) &&
          negb (IsZero (w_BroadcastAttemptedAt work)) &&
          (ReplacementAfter cfg <? w_DBNow work - w_BroadcastAttemptedAt work)
  then replaceStuck work actor
  else Ret (Ok tt).

Definition recoverLeased (identity : string) : prog unit :=
  process cfg identity [StateManualReview; StateBroadcast; StateReplaced]
    (fun paymentID actor => recoverPayment paymentID actor ;;~ Ret tt).

(** ** Watches without a batch lease *)

Definition underLease (identity : string) (paymentID : rowid) (fn : prog unit) : prog unit :=
  if (paymentID =? 0)%N then Ret tt
  else
    t <~ now ;;
    lease <~ call (fun e => ClaimPayment paymentID identity (LeaseDuration cfg) t (e_now e)) ;;
    match lease with
    | Err _ => Ret tt
    | Ok _ => fn ;;~ release paymentID identity
    end.

(** One superseded original: a mined success corrects the history at once, a
    mined revert only at confirmation depth. *)
Definition observeReplacement (t : TrackedTransaction) : prog unit :=
  receipt <~ getReceipt (tt_TxHash t) ;;
  match receipt with
  | Ok (Some receipt) =>
      let landed :=
        call (fun e => MarkReplacementLanded (tt_PaymentID t) (tt_TransactionID t)
                (rc_Status receipt =? 1) (rc_BlockNumber receipt) (rc_BlockHash receipt)
                (rc_GasUsed receipt) (rc_EffectiveGasPrice receipt) "worker" (e_now e)) ;;~ Ret tt in
      if rc_Status receipt =? 1 then landed
      else
        current <~ getHeight ;;
        match current with
        | Err _ => Ret tt
        | Ok current =>
            if depth current (rc_BlockNumber receipt) <? Confirmations cfg then Ret tt else landed
        end
  | _ => Ret tt
  end.

Definition observeReplacements (identity : string) : prog unit :=
  tracked <~ call (fun _ => ListReplacedPending) ;;
  match tracked with
  | Err _ => Ret tt
  | Ok tracked => each tracked (fun t => underLease identity (tt_PaymentID t) (observeReplacement t))
  end.

(** ** Nonce gaps *)

Definition fillNonceGap (work : Work) : prog (res unit) :=
  calldata <~? Ret (TransferWithAuthorizationData (w_Authorization work)) ;;
  fees <~? estimateFees cfg ;;
  signed <~? sign (settlement_tx work calldata (GasLimit cfg) (FormatInt fees.1) (FormatInt fees.2)) ;;
  let rawHash := hex_EncodeToString (keccak256 (Raw signed)) in
  let txHash := "0x" +:+ rawHash in
  call (fun e => MarkGapFillerPrepared (w_TransactionID work) rawHash txHash (Raw signed) (GasLimit cfg)
          (FormatInt fees.1) (FormatInt fees.2) (e_now e)) ;;~?
  send_checked (Raw signed) txHash.

Definition fillNonceGaps (identity : string) : prog unit :=
  t <~ now ;;
  works <~ call (fun _ => ListDroppedBlockingGaps (SignerAddress cfg) (t - ExpiryMargin cfg)) ;;
  match works with
  | Err _ => Ret tt
  | Ok works =>
      each works (fun work => underLease identity (w_PaymentID work) (fillNonceGap work ;;~ Ret tt))
  end.

(** ** Gap fillers *)

Definition observeGapFiller (t : TrackedTransaction) : prog unit :=
  receipt <~ getReceipt (tt_TxHash t) ;;
  match receipt with
  | Err _ => Ret tt
  | Ok None =>
      if bool_decide (tt_Status t = Some TxReplaced) then Ret tt
      else
        known <~ getTransaction (tt_TxHash t) ;;
        match known with
        | Ok None => send_checked (tt_RawTransaction t) (tt_TxHash t) ;;~ Ret tt
        | _ => Ret tt
        end
  | Ok (Some receipt) =>
      if rc_Status receipt =? 1 then
        call (fun e => MarkGapFillerSucceeded (tt_PaymentID t) (tt_TransactionID t)
                (rc_BlockNumber receipt) (rc_BlockHash receipt) (rc_GasUsed receipt)
                (rc_EffectiveGasPrice receipt) "worker" (e_now e)) ;;~ Ret tt
      else
        call (fun e => MarkGapFillerResolved (tt_TransactionID t) (rc_GasUsed receipt)
                (rc_EffectiveGasPrice receipt) (e_now e)) ;;~ Ret tt
  end.

Definition observeGapFillers (identity : string) : prog unit :=
  tracked <~ call (fun _ => ListGapFillers) ;;
  match tracked with
  | Err _ => Ret tt
  | Ok tracked => each tracked (fun t => underLease identity (tt_PaymentID t) (observeGapFiller t))
  end.

Definition bumpStuckGapFiller (work : Work) : prog (res unit) :=
  fees <~? replacementFees work ;;
  match fees with
  | None => Ret (Ok tt)
  | Some (maxFee, priority) =>
      signed <~? signReplacement work maxFee priority ;;
      call (fun e => MarkGapFillerReplaced (w_PaymentID work) (w_TransactionID work) signed.2
              (Raw signed.1) (e_now e)) ;;~?
      send_checked (Raw signed.1) (rp_TxHash signed.2)
  end.

Definition bumpStuckGapFillers (identity : string) : prog unit :=
  works <~ call (fun e => ListStuckGapFillers (SignerAddress cfg) (ReplacementAfter cfg) (e_now e)) ;;
  match works with
  | Err _ => Ret tt
  | Ok works =>
      each works (fun work => underLease identity (w_PaymentID work) (bumpStuckGapFiller work ;;~ Ret tt))
  end.

(** ** One tick *)

Definition recovery_process (identity : string) : prog unit :=
  recoverLeased identity ;;~
  observeReplacements identity ;;~
  fillNonceGaps identity ;;~
  observeGapFillers identity ;;~
  bumpStuckGapFillers identity.

End Recovery.
