(* ===== verification/StoreInv.v ===== *)
(** Invariants of the settlement tables under every sequence of store calls.

    [store_op] is the set of methods that write, with arbitrary arguments and
    clock readings; [reachable] databases are those some sequence of calls
    produces from the empty tables.  Calls are atomic: each runs in one
    database transaction. *)

From Stdlib Require Import ZArith Lia Strings.Byte.
From stdpp Require Import base gmap list strings fin_maps sorting.
From S2P Require Import Prelude GoStd WalletProof Verification State Schema Hoare Calldata Work.
From S2P Require Import Store StoreWork StoreRecovery.

Local Open Scope Z_scope.
Local Open Scope db_scope.

(** ** Calls *)

Inductive store_op :=
  | OpMerchants (m : gmap rowid Merchant)
  | OpSeed (address : string) (chainNonce : Z)
  | OpVerification (nonceUsed : string) (attempt : Attempt) (now : time)
  | OpIntent (request : IntentRequest) (now : time)
  | OpClaims (request : ClaimRequest) (locked : rowid -> bool) (now : time)
  | OpClaim (payment : rowid) (worker : string) (duration : duration) (now dbNow : time)
  | OpRenew (payment : rowid) (worker : string) (now : time) (duration : duration)
  | OpRelease (payment : rowid) (worker : string) (now : time)
  | OpRetention (request : RetentionRequest) (locked : rowid -> bool)
  | OpSigned (tx : rowid) (rawHash sighash : string) (gas : Z) (fee tip : string) (now : time)
  | OpBroadcast (payment tx : rowid) (hash actor : string) (now : time)
  | OpAmbiguous (payment tx : rowid) (actor : string) (now : time)
  | OpUnsettleable (payment tx : rowid) (actor : string) (now : time)
  | OpExpired (payment tx : rowid) (actor : string) (now : time)
  | OpConfirming (payment tx : rowid) (block : Z) (hash actor : string) (now : time)
  | OpConfirmed (payment tx : rowid) (block : Z) (hash : string) (gas : Z) (price actor : string)
      (now : time)
  | OpReverted (payment tx : rowid) (gas : Z) (price actor : string) (now : time)
  | OpRecovered (payment tx : rowid) (hash actor : string) (now : time)
  | OpAmbiguousRetry (payment tx : rowid) (now : time)
  | OpAmbiguousReplaced (payment tx : rowid) (r : Replacement) (actor : string) (now : time)
  | OpReplaced (payment tx : rowid) (r : Replacement) (actor : string) (now : time)
  | OpLanded (payment tx : rowid) (ok : bool) (block : Z) (hash : string) (gas : Z)
      (price actor : string) (now : time)
  | OpReorged (payment tx : rowid) (actor : string) (now : time)
  | OpGapPrepared (tx : rowid) (rawHash hash : string) (raw : list byte) (gas : Z)
      (fee tip : string) (now : time)
  | OpGapReplaced (payment tx : rowid) (r : Replacement) (raw : list byte) (now : time)
  | OpGapResolved (tx : rowid) (gas : Z) (price : string) (now : time)
  | OpGapSucceeded (payment tx : rowid) (block : Z) (hash : string) (gas : Z) (price actor : string)
      (now : time).

(** Registration and administration may change the merchant table at will. *)
Definition set_merchants (d : db) (m : gmap rowid Merchant) : db :=
  {| payments := payments d; txs := txs d; merchants := m; signers := signers d;
     transitions_log := transitions_log d; settlement_attempts := settlement_attempts d;
     verification_attempts := verification_attempts d; next_id := next_id d |}.

Definition write_merchants (m : gmap rowid Merchant) : DB unit := fun d => Ok (tt, set_merchants d m).

Definition discard {A} (m : DB A) : DB unit := m ;;! ret tt.

Definition exec (op : store_op) : DB unit :=
  match op with
  | OpMerchants m => write_merchants m
  | OpSeed a n => discard (SeedSignerAccount a n)
  | OpVerification u a now => discard (recordVerification u a now)
  | OpIntent r now => discard (CreateSettlementIntent r now)
  | OpClaims r locked now => discard (ClaimPayments r locked now)
  | OpClaim p w dur now dbNow => discard (ClaimPayment p w dur now dbNow)
  | OpRenew p w now dur => discard (RenewLease p w now dur)
  | OpRelease p w now => ReleaseLease p w now
  | OpRetention r locked => discard (ApplyRetention r locked)
  | OpSigned t rh sh g f p now => MarkTxSigned t rh sh g f p now
  | OpBroadcast p t h a now => MarkTxBroadcast p t h a now
  | OpAmbiguous p t a now => MarkTxAmbiguous p t a now
  | OpUnsettleable p t a now => MarkIntentUnsettleable p t a now
  | OpExpired p t a now => MarkIntentExpired p t a now
  | OpConfirming p t b h a now => MarkTxConfirming p t b h a now
  | OpConfirmed p t b h g pr a now => MarkTxConfirmed p t b h g pr a now
  | OpReverted p t g pr a now => MarkTxReverted p t g pr a now
  | OpRecovered p t h a now => MarkTxRecoveredBroadcast p t h a now
  | OpAmbiguousRetry p t now => MarkAmbiguousRetry p t now
  | OpAmbiguousReplaced p t r a now => MarkTxAmbiguousReplaced p t r a now
  | OpReplaced p t r a now => MarkTxReplaced p t r a now
  | OpLanded p t ok b h g pr a now => MarkReplacementLanded p t ok b h g pr a now
  | OpReorged p t a now => MarkTxReorgedOut p t a now
  | OpGapPrepared t rh h raw g f p now => MarkGapFillerPrepared t rh h raw g f p now
  | OpGapReplaced p t r raw now => MarkGapFillerReplaced p t r raw now
  | OpGapResolved t g pr now => MarkGapFillerResolved t g pr now
  | OpGapSucceeded p t b h g pr a now => MarkGapFillerSucceeded p t b h g pr a now
  end.

Definition empty_db : db :=
  {| payments := ∅; txs := ∅; merchants := ∅; signers := ∅; transitions_log := [];
     settlement_attempts := []; verification_attempts := []; next_id := 1 |}.

(** A failed call leaves the database as it was. *)
Definition call_op (d : db) (op : store_op) : db :=
  match exec op d with Ok (_, d') => d' | Err _ => d end.

Definition run_ops (d : db) (ops : list store_op) : db := fold_left call_op ops d.

Definition reachable (d : db) : Prop := exists ops, d = run_ops empty_db ops.

Lemma reachable_step op d a d' : reachable d -> exec op d = Ok (a, d') -> reachable d'.
Proof.
  intros [ops ->] E. exists (ops ++ [op]). unfold run_ops in *. rewrite fold_left_app. simpl.
  unfold call_op at 1. by rewrite E.
Qed.

Lemma reachable_ind' (I : db -> Prop) :
  I empty_db -> (forall op, preserves I (exec op)) -> forall d, reachable d -> I d.
Proof.
  intros H0 Hop d [ops ->]. unfold run_ops.
  assert (forall d0, I d0 -> I (fold_left call_op ops d0)) as H; [|auto].
  induction ops as [|op ops IH]; intros d0 Hd0; [done|]. simpl. apply IH.
  unfold call_op. destruct (exec op d0) as [[? ?]|] eqn:E; [|done]. by eapply Hop.
Qed.

(** ** Identifiers *)

Record wf (d : db) : Prop := {
  wf_next : (0 < next_id d)%N;
  wf_payments i p : payments d !! i = Some p -> (0 < i < next_id d)%N;
  wf_txs i r : txs d !! i = Some r -> (0 < i < next_id d)%N;
  wf_owner i r : txs d !! i = Some r -> is_Some (payments d !! t_payment r);
}.

(** ** The audit trail *)

Definition history (d : db) (i : rowid) : list (State * State) :=
  map (fun t => (tr_from t, tr_to t))
    (List.filter (fun t => bool_decide (tr_payment t = i)) (transitions_log d)).

(** Audit rows refer to payments that exist. *)
Definition logged (d : db) : Prop :=
  forall t, t ∈ transitions_log d -> is_Some (payments d !! tr_payment t).

Definition audit (d : db) : Prop :=
  wf d /\ logged d /\ forall i p, payments d !! i = Some p ->
    valid_path StateReceived (history d i) (p_state p) = true.

(** Between the statement that moves a payment and the one that records it. *)
Definition pending (i : rowid) (from to : State) (d : db) : Prop :=
  wf d /\ logged d /\ is_Some (payments d !! i) /\
  forall j p, payments d !! j = Some p ->
    if decide (j = i)
    then p_state p = to /\ valid_path StateReceived (history d j) from = true
    else valid_path StateReceived (history d j) (p_state p) = true.

(** ** Nonce ownership *)

(** States a payment has before settlement is admitted. *)
Definition unsettled (s : State) : bool :=
  match s with StateReceived | StateVerified | StateVerificationFailed => true | _ => false end.

Record nonces (d : db) : Prop := {
  nonces_wf : wf d;
  nonce_allocated i r : txs d !! i = Some r ->
    exists next, signers d !! t_signer r = Some next /\ 0 <= t_nonce r < next;
  nonce_one_payment i j r s : txs d !! i = Some r -> txs d !! j = Some s ->
    t_signer r = t_signer s -> t_nonce r = t_nonce s -> t_payment r = t_payment s;
  payment_one_nonce i j r s : txs d !! i = Some r -> txs d !! j = Some s ->
    t_payment r = t_payment s -> t_signer r = t_signer s /\ t_nonce r = t_nonce s;
  nonce_settling i r p : txs d !! i = Some r -> payments d !! t_payment r = Some p ->
    unsettled (p_state p) = false;
  nonce_counters a n : signers d !! a = Some n -> 0 <= n;
}.

(** ** The unique indexes *)

Record unique_rows (d : db) : Prop := {
  unique_wf : wf d;
  unique_txs i j r s : txs d !! i = Some r -> txs d !! j = Some s -> i <> j -> tx_compatible r s;
  unique_payments i j p q : payments d !! i = Some p -> payments d !! j = Some q -> i <> j ->
    payment_compatible p q;
}.

(** ** Well-formedness lemmas *)

Lemma wf_mono d d' :
  wf d -> (next_id d <= next_id d')%N ->
  (forall i p, payments d' !! i = Some p -> is_Some (payments d !! i) \/ (0 < i < next_id d')%N) ->
  (forall i, is_Some (payments d !! i) -> is_Some (payments d' !! i)) ->
  (forall i r, txs d' !! i = Some r ->
     (0 < i < next_id d')%N /\ is_Some (payments d' !! t_payment r)) ->
  wf d'.
Proof.
  intros [H1 H2 H3 H4] Hn Hp Hp' Ht. split.
  - lia.
  - intros i p [[q Hq]|?]%Hp; [|done]. apply H2 in Hq. lia.
  - intros i r [? _]%Ht. done.
  - intros i r [_ ?]%Ht. done.
Qed.

Lemma wf_update_tx d i r r' :
  wf d -> txs d !! i = Some r -> t_payment r' = t_payment r ->
  wf (set_txs d (<[i := r']> (txs d))).
Proof.
  intros W Hr Hp. apply (wf_mono d); simpl; [done | lia | by eauto | done |].
  intros j s [[<- <-]|[Hne Hs]]%lookup_insert_Some.
  - rewrite Hp. split; [by eapply wf_txs | by eapply wf_owner].
  - split; [by eapply wf_txs | by eapply wf_owner].
Qed.

Lemma wf_update_txs d (cond : N -> Tx -> bool) (f : Tx -> Tx) :
  wf d -> (forall r, t_payment (f r) = t_payment r) ->
  wf (set_txs d (map_imap (fun i r => Some (if cond i r then f r else r)) (txs d))).
Proof.
  intros W Hf. apply (wf_mono d); simpl; [done | lia | by eauto | done |].
  intros i r' (r & Hr & ->)%lookup_update_txs.
  assert (t_payment (if cond i r then f r else r) = t_payment r) as -> by (destruct (cond i r); auto).
  split; [by eapply wf_txs | by eapply wf_owner].
Qed.

Lemma wf_update_payment d i p p' :
  wf d -> payments d !! i = Some p -> wf (set_payments d (<[i := p']> (payments d))).
Proof.
  intros W Hp. apply (wf_mono d); simpl; [done | lia | | by eauto using is_Some_insert |].
  - intros j q [[<- <-]|[_ ?]]%lookup_insert_Some; eauto.
  - intros j r Hr. split; [by eapply wf_txs | apply is_Some_insert; by eapply wf_owner].
Qed.

Lemma wf_insert_payment d p' :
  wf d -> wf (set_payments (set_next_id d (N.succ (next_id d)))
                (<[next_id d := p']> (payments d))).
Proof.
  intros W. pose proof (wf_next d W).
  apply (wf_mono d); simpl; [done | lia | | by eauto using is_Some_insert |].
  - intros j q [[<- <-]|[_ ?]]%lookup_insert_Some; [right; lia|]. eauto.
  - intros j r Hr. pose proof (wf_txs d W j r Hr). split; [lia|].
    apply is_Some_insert. by eapply wf_owner.
Qed.

Lemma wf_insert_tx d r :
  wf d -> is_Some (payments d !! t_payment r) ->
  wf (set_txs (set_next_id d (N.succ (next_id d))) (<[next_id d := r]> (txs d))).
Proof.
  intros W Hp. pose proof (wf_next d W).
  apply (wf_mono d); simpl; [done | lia | by eauto | done |].
  intros j s [[<- <-]|[_ Hs]]%lookup_insert_Some; [split; [lia|done]|].
  pose proof (wf_txs d W j s Hs). split; [lia | by eapply wf_owner].
Qed.

(** Databases that differ in nothing the invariants read. *)
Lemma wf_same d d' :
  wf d -> payments d' = payments d -> txs d' = txs d -> next_id d' = next_id d -> wf d'.
Proof. intros [] Hp Ht Hn. split; rewrite ?Hp, ?Ht, ?Hn; auto. Qed.

Lemma wf_fresh_tx d : wf d -> txs d !! next_id d = None.
Proof. intros W. apply eq_None_not_Some. intros [r Hr]. apply (wf_txs d W) in Hr. lia. Qed.

Lemma wf_fresh_payment d : wf d -> payments d !! next_id d = None.
Proof. intros W. apply eq_None_not_Some. intros [r Hr]. apply (wf_payments d W) in Hr. lia. Qed.

(** What inserting a replacement does: a new row with the old row's payment,
    signer and nonce, and the link from the old row. *)
Lemma insert_replacement_Ok payment old r keep raw now d a d' :
  wf d -> insert_replacement payment old r keep raw now d = Ok (a, d') ->
  exists o fee tip,
    let new := replacement_tx o r fee tip (if keep then t_sighash o else None) raw now in
    txs d !! old = Some o /\ t_payment o = payment /\ numeric_text (rp_MaxFee r) = Some fee /\
    map_Forall (fun j s => j = next_id d \/ tx_compatible new s) (txs d) /\
    d' = set_txs (set_next_id d (N.succ (next_id d)))
           (<[old := tx_set_replaced_by (next_id d) o]> (<[next_id d := new]> (txs d))).
Proof.
  intros W. unfold insert_replacement, bind, of_option, get, fail, ret.
  destruct (numeric_text (rp_MaxFee r)) as [fee|] eqn:Hfee; [|done].
  destruct (numeric_text (rp_PriorityFee r)) as [tip|]; [|done].
  destruct (txs d !! old) as [o|] eqn:Ho; [|done].
  destruct (bool_decide_reflect (t_payment o = payment)) as [Hp|]; [|done].
  match goal with |- context [insert_tx ?n d] => set (new := n) end.
  destruct (insert_tx new d) as [[i d1]|] eqn:Ei; [|done].
  apply insert_tx_Ok in Ei as (-> & Hok & Hc & ->).
  assert (old <> next_id d) as Hne by (apply (wf_txs d W) in Ho; lia).
  destruct (update_tx _ _ _ _) as [[n d2]|] eqn:Eu; [|done]. intros [= _ <-].
  simpl in *. assert (<[next_id d := new]> (txs d) !! old = Some o) as Ho1
    by (by rewrite lookup_insert_ne).
  apply update_tx_Ok in Eu as [(_ & _ & Hf)|[_ (o' & Ho' & _ & _ & _ & ->)]]; simpl in *.
  - apply Hf in Ho1. by rewrite bool_decide_true in Ho1.
  - rewrite Ho1 in Ho'. injection Ho' as <-. by exists o, fee, tip.
Qed.

(** ** The audit trail is preserved *)

Lemma audit_same d d' :
  audit d -> wf d' -> payments d' = payments d -> transitions_log d' = transitions_log d -> audit d'.
Proof.
  intros (_ & L & H) W Hp Hl. split; [done|]. split; [unfold logged; by rewrite Hp, Hl|].
  intros i p Hi. rewrite Hp in Hi.
  unfold history. rewrite Hl. by apply H.
Qed.

Lemma audit_update_tx i cond f :
  (forall r, t_payment (f r) = t_payment r) -> preserves audit (update_tx i cond f).
Proof.
  intros Hf d n d' A [(_ & -> & _)|[_ (r & Hr & _ & _ & _ & ->)]]%update_tx_Ok; [done|].
  eapply audit_same; [exact A | | done..]. eapply wf_update_tx; [apply A | done | done].
Qed.

Lemma audit_update_txs cond f :
  (forall r, t_payment (f r) = t_payment r) -> preserves audit (update_txs_status cond f).
Proof.
  intros Hf d n d' A ->%update_txs_status_Ok.
  eapply audit_same; [exact A | | done..]. apply wf_update_txs; [apply A | done].
Qed.

Lemma audit_insert_settlement_attempt a : preserves audit (insert_settlement_attempt a).
Proof.
  intros d n d' A [= <- <-]. eapply audit_same; [exact A | | done..].
  eapply wf_same; [apply A | done..].
Qed.

Lemma audit_insert_verification_attempt a : preserves audit (insert_verification_attempt a).
Proof.
  intros d n d' A [= <- <-]. eapply audit_same; [exact A | | done..].
  eapply wf_same; [apply A | done..].
Qed.

Lemma wf_replacement d old o r fee tip sh raw now :
  wf d -> txs d !! old = Some o ->
  wf (set_txs (set_next_id d (N.succ (next_id d)))
        (<[old := tx_set_replaced_by (next_id d) o]>
           (<[next_id d := replacement_tx o r fee tip sh raw now]> (txs d)))).
Proof.
  intros W Ho. pose proof (wf_next d W). pose proof (wf_owner d W old o Ho).
  apply (wf_mono d); simpl; [done | lia | by eauto | done |].
  intros j s [[<- <-]|[_ [[<- <-]|[_ Hs]]%lookup_insert_Some]]%lookup_insert_Some; simpl.
  - pose proof (wf_txs d W _ _ Ho). split; [lia|done].
  - split; [lia|done].
  - pose proof (wf_txs d W _ _ Hs). split; [lia | by eapply wf_owner].
Qed.

Lemma audit_insert_replacement payment old r keep raw now :
  preserves audit (insert_replacement payment old r keep raw now).
Proof.
  intros d a d' A H. apply insert_replacement_Ok in H as (o & fee & tip & Ho & Hp & _ & _ & ->); [|apply A].
  eapply audit_same; [exact A | | done..]. apply wf_replacement; [apply A | done].
Qed.

(** A statement that leaves the payment's state alone. *)
Lemma audit_update_payment_keep i cond f :
  (forall p, p_state (f p) = p_state p) -> preserves audit (update_payment i cond f).
Proof.
  intros Hf d n d' A [(_ & -> & _)|(p & _ & Hp & _ & _ & ->)]%update_payment_Ok; [done|].
  split; [eapply wf_update_payment; [apply A | done]|].
  split; [intros t Ht; apply is_Some_insert; by apply A|]. simpl.
  intros j q [[<- <-]|[_ Hq]]%lookup_insert_Some; [rewrite Hf|]; by apply A.
Qed.

(** A statement that moves it leaves the audit row to be written. *)
Lemma audit_update_payment_move i cond f to :
  (forall p, p_state (f p) = to) ->
  triple audit (update_payment i cond f)
    (fun o d => match o with
                | None => audit d
                | Some p => cond p = true /\ pending i (p_state p) to d
                end).
Proof.
  intros Hf d o d' A [(-> & -> & _)|(p & -> & Hp & Hc & _ & ->)]%update_payment_Ok; [done|].
  split; [done|]. split; [eapply wf_update_payment; [apply A | done]|].
  split; [intros t Ht; apply is_Some_insert; by apply A|]. simpl.
  split; [rewrite lookup_insert_eq; eauto|].
  intros j q [[<- <-]|[Hne Hq]]%lookup_insert_Some.
  - rewrite decide_True by done. split; [done|]. by apply A.
  - rewrite decide_False by done. by apply A.
Qed.

Lemma history_snoc d t i :
  history (set_log d (transitions_log d ++ [t])) i =
  history d i ++ (if decide (tr_payment t = i) then [(tr_from t, tr_to t)] else []).
Proof.
  unfold history. simpl. rewrite List.filter_app, map_app. simpl. f_equal.
  destruct (decide (tr_payment t = i)) as [->|Hne]; [by rewrite bool_decide_true|].
  by rewrite bool_decide_false.
Qed.

Lemma pending_record i from to actor :
  CanTransition from to = true ->
  triple (pending i from to)
    (insert_transition {| tr_payment := i; tr_from := from; tr_to := to; tr_actor := actor |})
    (fun _ => audit).
Proof.
  intros Hc d a d' (W & L & Hi & HP) [_ ->]%insert_transition_Ok. split; [|split].
  - eapply wf_same; [exact W | done..].
  - intros t [?|Ht]%elem_of_app; [by apply L|]. apply list_elem_of_singleton in Ht. by subst.
  - intros j p Hj. rewrite history_snoc. simpl in *. specialize (HP j p Hj).
    destruct (decide (j = i)) as [->|Hne].
    + destruct HP as [-> Hv]. rewrite decide_True by done. by apply valid_path_snoc.
    + rewrite decide_False by done. by rewrite app_nil_r.
Qed.

Lemma pending_self i s d : pending i s s d -> audit d.
Proof.
  intros (W & L & _ & HP). split; [done|]. split; [done|]. intros j p Hj. specialize (HP j p Hj).
  destruct (decide (j = i)); [|done]. by destruct HP as [-> ?].
Qed.

#[export] Hint Resolve audit_insert_settlement_attempt audit_insert_verification_attempt
  audit_insert_replacement : store.
#[export] Hint Extern 1 (preserves audit (update_tx _ _ _)) => by apply audit_update_tx : store.
#[export] Hint Extern 1 (preserves audit (update_txs_status _ _)) => by apply audit_update_txs : store.
#[export] Hint Extern 1 (preserves audit (update_payment _ _ _)) =>
  by apply audit_update_payment_keep : store.

Lemma audit_transitionPayment i from to actor now :
  preserves audit (transitionPayment i from to actor now).
Proof.
  unfold transitionPayment. eapply triple_bind with (R := fun _ d => CanTransition from to = true /\ audit d).
  { apply triple_lift. unfold ValidateTransition. intros [] d H A.
    destruct (CanTransition from to); [done | discriminate]. }
  intros []. apply triple_pure. intros Hc.
  eapply triple_bind; [by apply audit_update_payment_move with (to := to)|].
  intros [p|]; [|apply triple_fail]. apply triple_pure. intros Hp. bool_hyps. subst from.
  by apply pending_record.
Qed.

Lemma validate_all_spec P from to :
  triple P (validate_all from to) (fun _ d => (forall s, s ∈ from -> CanTransition s to = true) /\ P d).
Proof.
  induction from as [|s from IH]; simpl.
  - apply triple_ret. intros d HP. split; [|done]. intros s Hs. set_solver.
  - eapply triple_bind with (R := fun _ d => CanTransition s to = true /\ P d).
    { apply triple_lift. unfold ValidateTransition. intros [] d H HP.
      destruct (CanTransition s to); [done | discriminate]. }
    intros []. apply triple_pure. intros Hs. eapply triple_conseq; [done| |exact IH].
    intros [] d [H HP]. split; [|done]. intros s' [->|?]%elem_of_cons; auto.
Qed.

Lemma audit_transitionPaymentIn i from to actor assign now :
  (forall p, p_state (assign p) = p_state p) ->
  preserves audit (transitionPaymentIn i from to actor assign now).
Proof.
  intros Ha. unfold transitionPaymentIn. eapply triple_bind; [apply validate_all_spec|].
  intros []. apply triple_pure. intros Hc.
  eapply triple_bind; [apply audit_update_payment_move with (to := to); intros p; by rewrite Ha|].
  intros [p|]; [|apply triple_fail]. apply triple_pure. intros Hp. bool_hyps.
  apply pending_record. auto.
Qed.

#[export] Hint Resolve audit_transitionPayment : store.
#[export] Hint Extern 1 (preserves audit (transitionPaymentIn _ _ _ _ _ _)) =>
  by apply audit_transitionPaymentIn : store.

Lemma audit_exactly_one n : preserves audit (exactly_one n).
Proof. unfold exactly_one. destruct (n =? 1); [apply preserves_ret | apply preserves_fail]. Qed.

Lemma audit_MarkTxConfirming p t b h a now : preserves audit (MarkTxConfirming p t b h a now).
Proof.
  unfold MarkTxConfirming. apply preserves_bind; [by apply audit_update_tx|]. intros _.
  eapply triple_bind; [by apply audit_update_payment_move with (to := StateConfirming)|].
  intros [q|]; [|by apply triple_ret]. apply triple_pure. intros Hq. bool_hyps.
  apply pending_record.
  by apply elem_of_list2 in Hq as [-> | ->].
Qed.

Lemma audit_MarkTxReplaced p t r a now : preserves audit (MarkTxReplaced p t r a now).
Proof.
  unfold MarkTxReplaced. apply preserves_bind; [by apply audit_update_tx|]. intros n.
  apply preserves_bind; [apply audit_exactly_one|]. intros _.
  apply preserves_bind; [apply audit_insert_replacement|]. intros _.
  eapply triple_bind; [by apply audit_update_payment_move with (to := StateReplaced)|].
  intros [q|]; [|apply triple_fail]. apply triple_pure. intros Hq. bool_hyps.
  destruct (bool_decide_reflect (p_state q = StateBroadcast)) as [->|Hne].
  - by apply pending_record.
  - apply elem_of_list2 in Hq as [?| ->]; [done|].
    apply triple_ret. apply pending_self.
Qed.

Lemma AllocateNonce_Ok a d n d' :
  AllocateNonce a d = Ok (n, d') ->
  exists addr, NormalizeAddress a = Ok addr /\ signers d !! addr = Some n /\ is_u64 n = true /\
    d' = set_signers d (<[addr := n + 1]> (signers d)).
Proof.
  unfold AllocateNonce, bind, lift, get, put, fail.
  destruct (NormalizeAddress a) as [addr|]; [|done].
  destruct (signers d !! addr) as [next|] eqn:E; [|done]. destruct (negb _); [done|].
  unfold parseNonce. destruct (ParseUint64 _) as [v|] eqn:Ev; [|done]. intros [= <- <-].
  apply ParseUint64_FormatInt in Ev as [-> ?]. eauto.
Qed.

Lemma SeedSignerAccount_Ok a c d n d' :
  SeedSignerAccount a c d = Ok (n, d') ->
  exists addr, NormalizeAddress a = Ok addr /\ 0 <= n /\ c <= n /\
    (forall old, signers d !! addr = Some old -> old <= n) /\
    d' = set_signers d (<[addr := n]> (signers d)).
Proof.
  unfold SeedSignerAccount, bind, lift, get, put, fail.
  destruct (NormalizeAddress a) as [addr|]; [|done].
  set (stored := match signers d !! addr with Some n => Z.max n c | None => c end).
  destruct (_ || _) eqn:E; [done|]. bool_hyps.
  unfold parseNonce. destruct (ParseUint64 _) as [v|] eqn:Ev; [|done]. intros [= <- <-].
  apply ParseUint64_FormatInt in Ev as [-> ?]. exists addr.
  repeat split; [done | subst stored; destruct (signers d !! addr); lia |].
  intros old Hold. subst stored. rewrite Hold. lia.
Qed.

Lemma audit_set_signers d m : audit d -> audit (set_signers d m).
Proof. intros A. eapply audit_same; [exact A | | done..]. eapply wf_same; [apply A | done..]. Qed.

Lemma audit_admit request signer payment state now :
  CanTransition state StateBroadcasting = true ->
  preserves audit (admit_intent request signer payment state now).
Proof.
  intros Hc. unfold admit_intent. apply preserves_bind.
  { intros d n d' A (addr & _ & _ & _ & ->)%AllocateNonce_Ok. by apply audit_set_signers. }
  intros nonce. eapply triple_bind; [by apply audit_update_payment_move with (to := StateBroadcasting)|].
  intros [p|]; [|apply triple_fail]. apply triple_pure. intros Hp. bool_hyps. subst state.
  eapply triple_bind with (R := fun _ d => audit d /\ is_Some (payments d !! payment)).
  { intros d a d' HP H. split; [by eapply pending_record|].
    apply insert_transition_Ok in H as [_ ->]. apply HP. }
  intros _. eapply triple_bind with (R := fun _ => audit).
  { intros d i d' [A Hi] (-> & _ & _ & ->)%insert_tx_Ok.
    eapply audit_same; [exact A | | done..]. apply wf_insert_tx; [apply A | done]. }
  intros i. walk.
Qed.

Lemma audit_rejectSettlement p i r c : preserves audit (rejectSettlement p i r c).
Proof. unfold rejectSettlement. walk. Qed.

#[export] Hint Resolve audit_rejectSettlement audit_exactly_one audit_MarkTxConfirming
  audit_MarkTxReplaced : store.

Lemma audit_CreateSettlementIntent r now : preserves audit (CreateSettlementIntent r now).
Proof.
  unfold CreateSettlementIntent, duplicate_intent, admission. walk.
  apply audit_admit. bool_hyps. done.
Qed.

Lemma audit_claim_each ids w u n dn : preserves audit (claim_each ids w u n dn).
Proof. induction ids; simpl; walk. Qed.

Lemma audit_expire_each ids now : preserves audit (expire_each ids now).
Proof.
  induction ids as [|i ids IH]; simpl; [apply preserves_ret|].
  eapply triple_bind; [by apply audit_update_payment_move with (to := StateExpired)|].
  intros [p|]; [|exact IH]. apply triple_pure. intros Hp. bool_hyps. rewrite Hp.
  eapply triple_bind; [by apply pending_record|]. intros []. apply preserves_bind; [exact IH|]. walk.
Qed.

Lemma audit_redact_each ids now : preserves audit (redact_each ids now).
Proof. induction ids; simpl; walk. Qed.

#[export] Hint Resolve audit_CreateSettlementIntent audit_claim_each audit_expire_each
  audit_redact_each : store.

Lemma fresh_id_Ok d i d' :
  fresh_id d = Ok (i, d') -> i = next_id d /\ d' = set_next_id d (N.succ (next_id d)).
Proof. by intros [= <- <-]. Qed.

(** Inserting a verified payment: a fresh row, verified, with one audit row;
    or the row that already has the identity. *)
Lemma record_payment_Ok v now d i d' :
  wf d -> record_payment v now d = Ok (i, d') ->
  (d' = d /\ exists p, payments d !! i = Some p /\ p_identity p = vp_Identity v) \/
  (i = next_id d /\ exists amount,
     let p := received_payment d v amount now in
     let p' := payment_set_verification "verified" (payment_set_state StateVerified now p) in
     map_Forall (fun j q => j = i \/ payment_compatible p q) (payments d) /\
     d' = set_log (set_payments (set_next_id d (N.succ i)) (<[i := p']> (payments d)))
            (transitions_log d ++
             [{| tr_payment := i; tr_from := StateReceived; tr_to := StateVerified;
                 tr_actor := "http" |}])).
Proof.
  intros W. unfold record_payment, bind, get, of_option, ret, fail, put.
  destruct (find_payment d _) as [[j p]|] eqn:Ef.
  { intros [= <- <-]. left. split; [done|]. apply find_some in Ef as [Hin Hid%str_eqb_eq].
    apply list_elem_of_In, elem_of_map_to_list in Hin. eauto. }
  destruct (numeric_text _) as [amount|]; [|done].
  destruct (fresh_id d) as [[j d1]|] eqn:Ei; [|done]. apply fresh_id_Ok in Ei as [-> ->].
  destruct (put_payment _ _ _) as [[[] d2]|] eqn:Ep; [|done].
  apply put_payment_Ok in Ep as (_ & Hc & ->). simpl in Hc.
  destruct (update_payment _ _ _ _) as [[o d3]|] eqn:Eu; [|done].
  apply update_payment_Ok in Eu as [(_ & _ & Hf)|(p & _ & Hp & _ & _ & ->)].
  { specialize (Hf _ (lookup_insert_eq _ _ _)). done. }
  simpl in Hp. rewrite lookup_insert_eq in Hp. injection Hp as <-.
  destruct (insert_transition _ _) as [[[] d4]|] eqn:Et; [|done].
  apply insert_transition_Ok in Et as [_ ->]. intros [= <- <-]. right. split; [done|].
  exists amount. split; [done|]. simpl. by rewrite insert_insert_eq.
Qed.

Lemma audit_record_payment v now : preserves audit (record_payment v now).
Proof.
  intros d i d' (W & L & A) H. apply record_payment_Ok in H as [[-> _]|(-> & amount & _ & ->)]; [done| |done].
  assert (history d (next_id d) = []) as Hh.
  { unfold history. destruct (List.filter _ _) as [|t l] eqn:E; [done|].
    assert (In t (t :: l)) as Ht by (by left). rewrite <- E in Ht.
    apply filter_In in Ht as [Ht%list_elem_of_In Hp]. bool_hyps.
    apply L in Ht. rewrite Hp, wf_fresh_payment in Ht by done. by destruct Ht. }
  match goal with |- audit (set_log ?d1 _) =>
    apply (pending_record (next_id d) StateReceived StateVerified "http" eq_refl d1 tt) end.
  - split; [by apply wf_insert_payment|].
    split; [intros t Ht; apply is_Some_insert; by apply L|]. simpl.
    split; [rewrite lookup_insert_eq; eauto|]. intros j p [[<- <-]|[Hne Hp]]%lookup_insert_Some.
    + rewrite decide_True by done. split; [done|]. unfold history in *. simpl. by rewrite Hh.
    + rewrite decide_False by done. by apply A.
  - reflexivity.
Qed.

Lemma audit_attempt_then (x : AttemptRow) (r : res unit) :
  preserves audit (insert_verification_attempt x ;;! ret r).
Proof. walk. Qed.

Lemma audit_recordVerification u a now : preserves audit (recordVerification u a now).
Proof.
  unfold recordVerification. destruct (String.eqb _ _); [|walk]. destruct (va_Payment a); [|walk].
  intros d r d' A H. destruct (record_payment v now d) as [[i d1]|e] eqn:E.
  - apply audit_record_payment in E; [|done]. by eapply audit_attempt_then.
  - destruct (errors_Is e EUniqueViolation); [|done]. by eapply audit_attempt_then.
Qed.

Lemma audit_ApplyRetention r locked : preserves audit (ApplyRetention r locked).
Proof. unfold ApplyRetention. walk. Qed.

Lemma audit_SeedSignerAccount a n : preserves audit (SeedSignerAccount a n).
Proof. intros d m d' A (addr & _ & _ & _ & _ & ->)%SeedSignerAccount_Ok. by apply audit_set_signers. Qed.

Lemma audit_MarkGapFillerResolved t g pr now : preserves audit (MarkGapFillerResolved t g pr now).
Proof. unfold MarkGapFillerResolved. walk. Qed.

#[export] Hint Resolve audit_recordVerification audit_ApplyRetention audit_SeedSignerAccount
  audit_MarkGapFillerResolved : store.

Lemma tx_hash_from_raw_payment r : t_payment (tx_hash_from_raw r) = t_payment r.
Proof. unfold tx_hash_from_raw. by destruct (t_raw_hash r). Qed.

Lemma audit_exec op : preserves audit (exec op).
Proof.
  destruct op; cbn [exec]; unfold discard, ClaimPayments, ClaimPayment, RenewLease, ReleaseLease,
    MarkTxSigned, MarkTxBroadcast, MarkTxAmbiguous, MarkIntentUnsettleable, MarkIntentExpired,
    MarkTxConfirmed, MarkTxReverted, MarkTxRecoveredBroadcast, MarkAmbiguousRetry,
    MarkTxAmbiguousReplaced, MarkReplacementLanded, MarkTxReorgedOut, MarkGapFillerPrepared,
    MarkGapFillerReplaced, MarkGapFillerSucceeded, terminalSettlementMatches, race; walk.
  - intros d x d' A [= <- <-]. eapply audit_same; [exact A | | done..].
    eapply wf_same; [apply A | done..].
  - apply audit_update_tx. intros r'. by rewrite tx_hash_from_raw_payment.
Qed.

Lemma audit_empty : audit empty_db.
Proof.
  split; [|split; [intros t Ht; by apply elem_of_nil in Ht|
    intros i p Hp; simpl in Hp; by rewrite lookup_empty in Hp]].
  split; simpl; [lia | | |]; intros *; by rewrite ?lookup_empty.
Qed.

Lemma reachable_wf d : reachable d -> wf d.
Proof. intros Hr. exact (proj1 (reachable_ind' audit audit_empty audit_exec d Hr)). Qed.
