(* ===== verification/StorePaid.v ===== *)
(** Invariants that read [payment_records] only.  Most store calls touch that
    table by moving a payment's state; what they leave alone is collected
    here once, so that an invariant of the table needs to look only at the
    calls that write more. *)

From Stdlib Require Import ZArith Lia Strings.Byte.
From stdpp Require Import base gmap list strings fin_maps sorting.
From S2P Require Import Prelude GoStd WalletProof Verification State Schema Hoare Calldata Work.
From S2P Require Import Store StoreWork StoreRecovery StoreInv.

Local Open Scope Z_scope.
Local Open Scope db_scope.

Definition paid (J : gmap N Payment -> Prop) (d : db) : Prop := J (payments d).

(** A state change: everything but the state, the confirmation stamp and
    [updated_at] is kept. *)
Definition moves (p p' : Payment) : Prop :=
  p_identity p' = p_identity p /\ p_merchant p' = p_merchant p /\
  p_payer p' = p_payer p /\ p_auth_nonce p' = p_auth_nonce p /\
  p_requested_at p' = p_requested_at p /\ p_claimed_by p' = p_claimed_by p /\
  p_claimed_until p' = p_claimed_until p /\ p_recipient p' = p_recipient p.

(** Closed under state changes. *)
Class Stable (J : gmap N Payment -> Prop) : Prop :=
  stable_moves : forall m i p p', J m -> m !! i = Some p -> moves p p' -> J (<[i := p']> m).

Section Paid.
  Context (J : gmap N Payment -> Prop).

Lemma paid_same d d' : paid J d -> payments d' = payments d -> paid J d'.
Proof. unfold paid. by intros ? ->. Qed.

Lemma paid_update_tx i cond f : preserves (paid J) (update_tx i cond f).
Proof.
  intros d n d' L [(_ & -> & _)|[_ (r & _ & _ & _ & _ & ->)]]%update_tx_Ok; [done|].
  by eapply paid_same.
Qed.

Lemma paid_update_txs cond f : preserves (paid J) (update_txs_status cond f).
Proof. intros d n d' L ->%update_txs_status_Ok. by eapply paid_same. Qed.

Lemma paid_insert_transition t : preserves (paid J) (insert_transition t).
Proof. intros d a d' L [_ ->]%insert_transition_Ok. by eapply paid_same. Qed.

Lemma paid_insert_settlement_attempt a : preserves (paid J) (insert_settlement_attempt a).
Proof. intros d n d' L [= <- <-]. by eapply paid_same. Qed.

Lemma paid_insert_verification_attempt a : preserves (paid J) (insert_verification_attempt a).
Proof. intros d n d' L [= <- <-]. by eapply paid_same. Qed.

Lemma paid_insert_tx r : preserves (paid J) (insert_tx r).
Proof. intros d n d' L (_ & _ & _ & ->)%insert_tx_Ok. by eapply paid_same. Qed.

Lemma paid_fresh_id : preserves (paid J) fresh_id.
Proof. intros d n d' L [_ ->]%fresh_id_Ok. by eapply paid_same. Qed.

Lemma paid_exactly_one n : preserves (paid J) (exactly_one n).
Proof. unfold exactly_one. destruct (n =? 1); [apply preserves_ret | apply preserves_fail]. Qed.

Lemma paid_SeedSignerAccount a n : preserves (paid J) (SeedSignerAccount a n).
Proof. intros d m d' L (addr & _ & _ & _ & _ & ->)%SeedSignerAccount_Ok. by eapply paid_same. Qed.

Lemma paid_AllocateNonce a : preserves (paid J) (AllocateNonce a).
Proof. intros d m d' L (addr & _ & _ & _ & ->)%AllocateNonce_Ok. by eapply paid_same. Qed.

Lemma paid_update_payment i cond f :
  (forall m p, J m -> m !! i = Some p -> cond p = true -> J (<[i := f p]> m)) ->
  preserves (paid J) (update_payment i cond f).
Proof.
  intros Hf d n d' L [(_ & -> & _)|(p & _ & Hp & Hc & _ & ->)]%update_payment_Ok; [done|].
  unfold paid. simpl. by apply Hf.
Qed.

Lemma paid_put_payment i p :
  (forall m, J m -> map_Forall (fun j q => j = i \/ payment_compatible p q) m -> J (<[i := p]> m)) ->
  preserves (paid J) (put_payment i p).
Proof. intros Hf d [] d' L (_ & Hc & ->)%put_payment_Ok. unfold paid. simpl. by apply Hf. Qed.

End Paid.

#[export] Hint Resolve paid_update_tx paid_update_txs paid_insert_transition
  paid_insert_settlement_attempt paid_insert_verification_attempt paid_insert_tx paid_fresh_id
  paid_exactly_one paid_SeedSignerAccount paid_AllocateNonce : store.

Section StablePaid.
  Context (J : gmap N Payment -> Prop) `{!Stable J}.

Lemma paid_move i cond f :
  (forall p, moves p (f p)) -> preserves (paid J) (update_payment i cond f).
Proof. intros Hf. apply paid_update_payment. intros m p Hm Hp _. by eapply stable_moves. Qed.

Lemma paid_insert_replacement payment old r keep raw now :
  preserves (paid J) (insert_replacement payment old r keep raw now).
Proof. unfold insert_replacement. walk. Qed.

Lemma paid_transitionPayment i from to actor now :
  preserves (paid J) (transitionPayment i from to actor now).
Proof.
  unfold transitionPayment, recordTransition, race. walk. apply paid_move. intros p. by repeat split.
Qed.

Lemma paid_validate_all from to : preserves (paid J) (validate_all from to).
Proof. induction from; simpl; walk. Qed.

Lemma paid_transitionPaymentIn i from to actor assign now :
  (forall p, moves p (assign p)) ->
  preserves (paid J) (transitionPaymentIn i from to actor assign now).
Proof.
  intros Ha. unfold transitionPaymentIn, recordTransition, race.
  apply preserves_bind; [apply paid_validate_all|]. intros _. walk.
  apply paid_move. intros p. destruct (Ha (payment_set_state to now p)) as (? & ? & ? & ? & ? & ? & ? & ?).
  repeat split; assumption.
Qed.

End StablePaid.

#[export] Hint Resolve paid_insert_replacement paid_transitionPayment : store.
#[export] Hint Extern 1 (preserves (paid _) (transitionPaymentIn _ _ _ _ _ _)) =>
  apply paid_transitionPaymentIn; [assumption || apply _ | intros ?; by repeat split] : store.
#[export] Hint Extern 1 (preserves (paid _) (update_payment _ _ _)) =>
  apply paid_move; [assumption || apply _ | intros ?; by repeat split] : store.

(** Calls that write the payment table only by moving states. *)
Definition ordinary (op : store_op) : Prop :=
  match op with
  | OpVerification _ _ _ | OpIntent _ _ | OpClaims _ _ _ | OpClaim _ _ _ _ _ | OpRenew _ _ _ _
  | OpRelease _ _ _ | OpRetention _ _ => False
  | _ => True
  end.

Lemma paid_exec J op : Stable J -> ordinary op -> preserves (paid J) (exec op).
Proof.
  intros HJ Ho. destruct op; try done; clear Ho; cbn [exec]; unfold discard, MarkTxSigned,
    MarkTxBroadcast, MarkTxAmbiguous, MarkIntentUnsettleable, MarkIntentExpired, MarkTxConfirming,
    MarkTxConfirmed, MarkTxReverted, MarkTxRecoveredBroadcast, MarkAmbiguousRetry,
    MarkTxAmbiguousReplaced, MarkTxReplaced, MarkReplacementLanded, MarkTxReorgedOut,
    MarkGapFillerPrepared, MarkGapFillerReplaced, MarkGapFillerResolved, MarkGapFillerSucceeded,
    terminalSettlementMatches, recordTransition, race; walk.
  intros d x d' L [= <- <-]. by eapply paid_same.
Qed.

(** ** The remaining calls, for an invariant that also survives what they write *)

(** Claims and redaction: leases change, authorization columns are cleared. *)
Definition cleared {A} (old new : option A) : Prop := new = old \/ new = None.

Definition administers (p p' : Payment) : Prop :=
  p_identity p' = p_identity p /\ cleared (p_merchant p) (p_merchant p') /\
  cleared (p_payer p) (p_payer p') /\ cleared (p_auth_nonce p) (p_auth_nonce p') /\
  p_requested_at p' = p_requested_at p /\ cleared (p_recipient p) (p_recipient p').

Class Administrable (J : gmap N Payment -> Prop) : Prop :=
  admin_closed : forall m i p p', J m -> m !! i = Some p -> administers p p' -> J (<[i := p']> m).

#[export] Instance Administrable_Stable J : Administrable J -> Stable J.
Proof.
  intros HA m i p p' Hm Hp (H1 & H2 & H3 & H4 & H5 & _ & _ & H6). eapply HA; [exact Hm | exact Hp |].
  repeat split; try done; by left.
Qed.

Section Administered.
  Context (J : gmap N Payment -> Prop) `{!Administrable J}.

Lemma paid_admin i cond f :
  (forall p, administers p (f p)) -> preserves (paid J) (update_payment i cond f).
Proof. intros Hf. apply paid_update_payment. intros m p Hm Hp _. by eapply admin_closed. Qed.

Lemma paid_claim_each ids w u n dn : preserves (paid J) (claim_each ids w u n dn).
Proof.
  induction ids; simpl; walk. apply paid_admin. intros p. repeat split; by left.
Qed.

Lemma paid_expire_each ids now : preserves (paid J) (expire_each ids now).
Proof. induction ids; simpl; walk. Qed.

Lemma paid_redact_each ids now : preserves (paid J) (redact_each ids now).
Proof.
  induction ids; simpl; walk. apply paid_admin. intros p. repeat split; by right.
Qed.

(** Every call but the two that create or accept a payment. *)
Lemma paid_exec_admin op :
  match op with OpVerification _ _ _ | OpIntent _ _ => False | _ => True end ->
  preserves (paid J) (exec op).
Proof.
  intros Ho. destruct op; try done; try (apply paid_exec; [apply _ | exact I]); clear Ho; cbn [exec];
    unfold discard, ClaimPayments, ClaimPayment, RenewLease, ReleaseLease, ApplyRetention;
    pose proof paid_claim_each; pose proof paid_expire_each; pose proof paid_redact_each; walk.
  all: apply paid_admin; intros p; repeat split; by left.
Qed.

End Administered.

(** ** Payment identities are unique *)

Definition identities (m : gmap N Payment) : Prop :=
  forall i j p q, m !! i = Some p -> m !! j = Some q -> p_identity p = p_identity q -> i = j.

Lemma identities_same m i p p' :
  identities m -> m !! i = Some p -> p_identity p' = p_identity p -> identities (<[i := p']> m).
Proof.
  intros HI Hp He j k a b [[<- <-]|[_ Ha]]%lookup_insert_Some [[<- <-]|[_ Hb]]%lookup_insert_Some Hab;
    try done; eapply HI; eauto; congruence.
Qed.

#[export] Instance identities_admin : Administrable identities.
Proof. intros m i p p' HI Hp (He & _). by eapply identities_same. Qed.

Lemma identities_recordVerification u a now : preserves (paid identities) (recordVerification u a now).
Proof.
  assert (forall (x : AttemptRow) (r : res unit),
    preserves (paid identities) (insert_verification_attempt x ;;! ret r)) as Hthen by walk.
  assert (forall v, preserves (paid identities) (record_payment v now)) as Hrec.
  { intros v. unfold record_payment. walk.
    apply paid_put_payment. intros tbl HI Hc j k x y Hx Hy Hxy.
    apply lookup_insert_Some in Hx as [[<- <-]|[Hj Hx]];
      apply lookup_insert_Some in Hy as [[<- <-]|[Hk Hy]]; try done; try (by eapply HI).
    - destruct (Hc k y Hy) as [?|[Hne _]]; congruence.
    - destruct (Hc j x Hx) as [?|[Hne _]]; congruence. }
  unfold recordVerification. destruct (String.eqb _ _); [|walk]. destruct (va_Payment a) as [v|]; [|walk].
  intros d r d' A H. destruct (record_payment v now d) as [[i d1]|e] eqn:E.
  - apply Hrec in E; [|done]. by eapply Hthen.
  - destruct (errors_Is e EUniqueViolation); [|done]. by eapply Hthen.
Qed.

Lemma identities_exec op : preserves (paid identities) (exec op).
Proof.
  destruct op; try (by apply paid_exec_admin; [apply _|]); cbn [exec]; unfold discard.
  - apply preserves_bind; [apply identities_recordVerification | walk].
  - unfold CreateSettlementIntent, duplicate_intent, admission, rejectSettlement, admit_intent. walk.
    apply paid_update_payment. intros tbl q HI Hq _. by eapply identities_same.
Qed.

Lemma identities_empty : paid identities empty_db.
Proof. intros i j p q Hp. simpl in Hp. by rewrite lookup_empty in Hp. Qed.
