(* ===== verification/StoreNonce.v ===== *)
(** Nonce ownership: under every sequence of store calls a payment is bound to
    one signer nonce and a nonce to one payment. *)

From Stdlib Require Import ZArith Lia Strings.Byte.
From stdpp Require Import base gmap list strings fin_maps sorting.
From S2P Require Import Prelude GoStd WalletProof Verification State Schema Hoare Calldata Work.
From S2P Require Import Store StoreWork StoreRecovery StoreInv.

Local Open Scope Z_scope.
Local Open Scope db_scope.

Definition same_key (r r' : Tx) : Prop :=
  t_payment r' = t_payment r /\ t_signer r' = t_signer r /\ t_nonce r' = t_nonce r.

Lemma nonces_ext d d' :
  nonces d -> wf d' ->
  (forall a n, signers d !! a = Some n -> exists n', signers d' !! a = Some n' /\ n <= n') ->
  (forall a n, signers d' !! a = Some n -> 0 <= n) ->
  (forall i r', txs d' !! i = Some r' -> exists j r, txs d !! j = Some r /\ same_key r r') ->
  (forall i p', payments d' !! i = Some p' ->
     payments d !! i = None \/
     exists p, payments d !! i = Some p /\
       (unsettled (p_state p) = false -> unsettled (p_state p') = false)) ->
  nonces d'.
Proof.
  intros [W N1 N2 N3 N4 N5] W' Hs Hs0 Ht Hp. split; [done | | | | | done].
  - intros i r' (j & r & Hr & Hk1 & Hk2 & Hk3)%Ht. rewrite Hk2, Hk3.
    destruct (N1 j r Hr) as (n & Hn & Hlt). destruct (Hs _ _ Hn) as (n' & Hn' & Hle).
    exists n'. split; [done|lia].
  - intros i j r s (i0 & r0 & Hr & -> & -> & ->)%Ht (j0 & s0 & Hs' & -> & -> & ->)%Ht. eauto.
  - intros i j r s (i0 & r0 & Hr & -> & -> & ->)%Ht (j0 & s0 & Hs' & -> & -> & ->)%Ht. eauto.
  - intros i r p (j & r0 & Hr & -> & _ & _)%Ht Hq. apply Hp in Hq as [Hq|(p0 & Hq & Himp)].
    + destruct (wf_owner d W j r0 Hr). congruence.
    + eauto.
Qed.

(** Nothing but rows of the other tables changed. *)
Lemma nonces_same d d' :
  nonces d -> wf d' -> signers d' = signers d -> txs d' = txs d -> payments d' = payments d ->
  nonces d'.
Proof.
  intros N W Hs Ht Hp. apply (nonces_ext d); [done|done| | | |]; rewrite ?Hs, ?Ht, ?Hp.
  - intros a n Hn. exists n. split; [done|lia].
  - apply (nonce_counters d N).
  - intros i r Hr. exists i, r. by repeat split.
  - intros i p Hi. right. eauto.
Qed.

Lemma nonces_txs d m :
  nonces d -> wf (set_txs d m) ->
  (forall i r', m !! i = Some r' -> exists j r, txs d !! j = Some r /\ same_key r r') ->
  nonces (set_txs d m).
Proof.
  intros N W Ht. apply (nonces_ext d); simpl; auto.
  - intros a n Hn. exists n. split; [done|lia].
  - apply (nonce_counters d N).
  - eauto.
Qed.

Lemma nonces_update_tx i cond f :
  (forall r, same_key r (f r)) -> preserves nonces (update_tx i cond f).
Proof.
  intros Hf d n d' N [(_ & -> & _)|[_ (r & Hr & _ & _ & _ & ->)]]%update_tx_Ok; [done|].
  apply nonces_txs; [done | eapply wf_update_tx; [apply N | done | apply Hf]|].
  intros j s [[<- <-]|[_ Hs]]%lookup_insert_Some; [by eauto|]. exists j, s. by repeat split.
Qed.

Lemma nonces_update_txs cond f :
  (forall r, same_key r (f r)) -> preserves nonces (update_txs_status cond f).
Proof.
  intros Hf d n d' N ->%update_txs_status_Ok.
  apply nonces_txs; [done | apply wf_update_txs; [apply N | apply Hf]|].
  intros j s (r & Hr & ->)%lookup_update_txs. exists j, r. split; [done|].
  destruct (cond j r); [apply Hf | by repeat split].
Qed.

Lemma nonces_update_payment i cond f :
  (forall p, cond p = true -> unsettled (p_state p) = false -> unsettled (p_state (f p)) = false) ->
  preserves nonces (update_payment i cond f).
Proof.
  intros Hf d n d' N [(_ & -> & _)|(p & _ & Hp & Hc & _ & ->)]%update_payment_Ok; [done|].
  apply (nonces_ext d); simpl; [done | eapply wf_update_payment; [apply N | done]| | | |].
  - intros a m Hm. exists m. split; [done|lia].
  - apply (nonce_counters d N).
  - intros j r Hr. exists j, r. by repeat split.
  - intros j q [[<- <-]|[_ Hq]]%lookup_insert_Some; right; eauto.
Qed.

Lemma nonces_insert_replacement payment old r keep raw now :
  preserves nonces (insert_replacement payment old r keep raw now).
Proof.
  intros d a d' N H. apply insert_replacement_Ok in H as (o & fee & tip & Ho & Hp & _ & _ & ->); [|apply N].
  apply (nonces_ext d); simpl; [done | by apply wf_replacement; [apply N|] | | | |].
  - intros b m Hm. exists m. split; [done|lia].
  - apply (nonce_counters d N).
  - intros j s [[<- <-]|[_ [[<- <-]|[_ Hs]]%lookup_insert_Some]]%lookup_insert_Some.
    + exists old, o. by repeat split.
    + exists old, o. by repeat split.
    + exists j, s. by repeat split.
  - eauto.
Qed.

Lemma nonces_insert_transition t : preserves nonces (insert_transition t).
Proof.
  intros d a d' N [_ ->]%insert_transition_Ok.
  apply (nonces_same d); try done. by eapply wf_same; [apply N|..].
Qed.

Lemma nonces_insert_settlement_attempt a : preserves nonces (insert_settlement_attempt a).
Proof.
  intros d n d' N [= <- <-]. apply (nonces_same d); try done. by eapply wf_same; [apply N|..].
Qed.

Lemma nonces_insert_verification_attempt a : preserves nonces (insert_verification_attempt a).
Proof.
  intros d n d' N [= <- <-]. apply (nonces_same d); try done. by eapply wf_same; [apply N|..].
Qed.

Lemma nonces_exactly_one n : preserves nonces (exactly_one n).
Proof. unfold exactly_one. destruct (n =? 1); [apply preserves_ret | apply preserves_fail]. Qed.

#[export] Hint Resolve nonces_insert_transition nonces_insert_settlement_attempt
  nonces_insert_verification_attempt nonces_insert_replacement nonces_exactly_one : store.
#[export] Hint Extern 1 (preserves nonces (update_tx _ _ _)) =>
  apply nonces_update_tx; intros ?; by repeat split : store.
#[export] Hint Extern 1 (preserves nonces (update_txs_status _ _)) =>
  apply nonces_update_txs; intros ?; by repeat split : store.
#[export] Hint Extern 1 (preserves nonces (update_payment _ _ _)) =>
  apply nonces_update_payment; simpl; by auto : store.

(** No edge of the state machine returns to a state before admission, except
    from manual review, which no store method takes. *)
Lemma nonces_transitionPayment i from to actor now :
  unsettled to = false -> preserves nonces (transitionPayment i from to actor now).
Proof. intros Ht. unfold transitionPayment, recordTransition, race. walk. Qed.

Lemma nonces_validate_all from to : preserves nonces (validate_all from to).
Proof. induction from; simpl; walk. Qed.

Lemma nonces_transitionPaymentIn i from to actor assign now :
  unsettled to = false -> (forall p, p_state (assign p) = p_state p) ->
  preserves nonces (transitionPaymentIn i from to actor assign now).
Proof.
  intros Ht Ha. unfold transitionPaymentIn, recordTransition, race.
  apply preserves_bind; [apply nonces_validate_all|]. intros _.
  apply preserves_bind; [|walk]. apply nonces_update_payment. intros p _ _. by rewrite Ha.
Qed.

#[export] Hint Extern 1 (preserves nonces (transitionPayment _ _ _ _ _)) =>
  by apply nonces_transitionPayment : store.
#[export] Hint Extern 1 (preserves nonces (transitionPaymentIn _ _ _ _ _ _)) =>
  by apply nonces_transitionPaymentIn : store.

(** ** Admission *)

(** Raising a signer's counter. *)
Lemma nonces_signers d a n :
  nonces d -> 0 <= n -> (forall old, signers d !! a = Some old -> old <= n) ->
  nonces (set_signers d (<[a := n]> (signers d))).
Proof.
  intros N H0 Hn. apply (nonces_ext d); simpl; auto.
  - by eapply wf_same; [apply N|..].
  - intros b m Hm. destruct (decide (a = b)) as [<-|Hne].
    + exists n. rewrite lookup_insert_eq. auto.
    + exists m. rewrite lookup_insert_ne by done. split; [done|lia].
  - intros b m [[<- <-]|[_ Hm]]%lookup_insert_Some; [done|]. by eapply nonce_counters.
  - intros i r Hr. exists i, r. by repeat split.
  - eauto.
Qed.

(** Adding the intent row of a payment that has none, with the nonce just
    allocated. *)
Lemma nonces_intent d payment p signer nonce now :
  nonces d -> payments d !! payment = Some p -> unsettled (p_state p) = false ->
  (forall i r, txs d !! i = Some r -> t_payment r <> payment) ->
  signers d !! signer = Some (nonce + 1) -> 0 <= nonce ->
  (forall i r, txs d !! i = Some r -> t_signer r = signer -> t_nonce r < nonce) ->
  nonces (set_txs (set_next_id d (N.succ (next_id d)))
            (<[next_id d := intent_tx payment signer nonce now]> (txs d))).
Proof.
  intros [W N1 N2 N3 N4 N5] Hp Hu Hnone Hs H0 Hlt.
  split; [apply wf_insert_tx; simpl; eauto | simpl.. | done].
  - intros i r [[<- <-]|[_ Hr]]%lookup_insert_Some; [|eauto]. simpl. exists (nonce + 1). split; [done|lia].
  - intros i j r s [[<- <-]|[_ Hr]]%lookup_insert_Some [[<- <-]|[_ Hs']]%lookup_insert_Some; simpl; eauto.
    + intros -> ->. specialize (Hlt _ _ Hs' eq_refl). lia.
    + intros He1 He2. specialize (Hlt _ _ Hr He1). lia.
  - intros i j r s [[<- <-]|[_ Hr]]%lookup_insert_Some [[<- <-]|[_ Hs']]%lookup_insert_Some; simpl; eauto.
    + intros He. exfalso. by eapply (Hnone _ _ Hs').
    + intros He. exfalso. by eapply (Hnone _ _ Hr).
  - intros i r q [[<- <-]|[_ Hr]]%lookup_insert_Some Hq; simpl in *; [congruence|eauto].
Qed.

(** Everything [admit_intent] writes. *)
Record admits (request : IntentRequest) (signer : string) (payment : rowid) (p : Payment) (nonce : Z)
    (now : time) (d d' : db) : Prop := {
  admits_payment : payments d !! payment = Some p;
  admits_counter : signers d !! signer = Some nonce;
  admits_u64 : is_u64 nonce = true;
  admits_payments : payments d' =
    <[payment := payment_set_requested (ir_PayerSignature request) now
                   (payment_set_state StateBroadcasting now p)]> (payments d);
  admits_txs : txs d' = <[next_id d := intent_tx payment signer nonce now]> (txs d);
  admits_signers : signers d' = <[signer := nonce + 1]> (signers d);
  admits_merchants : merchants d' = merchants d;
  admits_next : next_id d' = N.succ (next_id d);
  admits_log : transitions_log d' = transitions_log d ++
    [{| tr_payment := payment; tr_from := p_state p; tr_to := StateBroadcasting; tr_actor := "http" |}];
  admits_fits : map_Forall (fun j s => j = next_id d \/
    tx_compatible (intent_tx payment signer nonce now) s) (txs d);
}.

Lemma admit_Ok request signer payment state now d r d' :
  NormalizeAddress signer = Ok signer -> admit_intent request signer payment state now d = Ok (r, d') ->
  exists p nonce, p_state p = state /\ admits request signer payment p nonce now d d' /\
    r = Ok {| in_PaymentID := payment; in_PaymentIdentity := ir_PaymentIdentity request;
              in_TransactionID := next_id d; in_SignerAddress := signer; in_Nonce := nonce;
              in_TxHash := EmptyString; in_Reverted := false; in_Confirmed := false;
              in_Duplicate := false |}.
Proof.
  intros Hnorm. unfold admit_intent, bind at 1.
  destruct (AllocateNonce signer d) as [[nonce d1]|] eqn:E1; [|done].
  apply AllocateNonce_Ok in E1 as (addr & Ha & Hn & Hu & ->).
  rewrite Hnorm in Ha. injection Ha as <-. unfold bind at 1.
  destruct (update_payment _ _ _ _) as [[o d2]|] eqn:E2; [|done].
  apply update_payment_Ok in E2 as [(-> & _ & _)|(p & -> & Hp & Hc & _ & ->)]; [done|].
  bool_hyps. subst state. unfold bind at 1.
  destruct (insert_transition _ _) as [[[] d3]|] eqn:E3; [|done].
  apply insert_transition_Ok in E3 as [_ ->]. unfold bind at 1.
  destruct (insert_tx _ _) as [[i d4]|] eqn:E4; [|done].
  apply insert_tx_Ok in E4 as (-> & _ & Hf & ->).
  unfold bind, insert_settlement_attempt, bind, get, put, ret. intros [= <- <-].
  exists p, nonce. split; [done|]. split; [|done]. by split.
Qed.

Lemma nonces_admit request signer payment state now :
  NormalizeAddress signer = Ok signer -> CanTransition state StateBroadcasting = true ->
  preserves nonces (admit_intent request signer payment state now).
Proof.
  intros Hnorm Hc d r d' N H. apply admit_Ok in H as (p & nonce & <- & A & _); [|done].
  destruct A as [Hp Hn Hu Ep Et Es _ En _ _].
  apply CanTransition_broadcasting in Hc as Hv.
  set (d1 := set_payments (set_signers d (<[signer := nonce + 1]> (signers d)))
    (payments d')). unfold is_u64 in Hu. bool_hyps.
  assert (forall i r0, txs d !! i = Some r0 -> t_payment r0 <> payment) as Hnone.
  { intros i r0 Hr <-. pose proof (nonce_settling d N i r0 p Hr Hp) as Hx. by rewrite Hv in Hx. }
  assert (nonces d1) as N1.
  { subst d1. apply (nonces_ext (set_signers d (<[signer := nonce + 1]> (signers d)))).
    - apply nonces_signers; [done|lia|]. intros old Hold. simplify_eq. lia.
    - rewrite Ep. eapply (wf_update_payment (set_signers d (<[signer := nonce + 1]> (signers d))));
        [|exact Hp]. by eapply wf_same; [apply N|..].
    - intros a n Ha. exists n. split; [done|lia].
    - simpl. intros a n [[<- <-]|[_ Ha]]%lookup_insert_Some; [lia|]. by eapply nonce_counters.
    - intros i r0 Hr. exists i, r0. by repeat split.
    - simpl. intros i q Hq. rewrite Ep in Hq.
      apply lookup_insert_Some in Hq as [[<- <-]|[_ Hq]]; right; eauto. }
  assert (nonces (set_txs (set_next_id d1 (N.succ (next_id d1)))
    (<[next_id d1 := intent_tx payment signer nonce now]> (txs d1)))) as N2; [|
    apply (nonces_same _ _ N2); [eapply wf_same; [apply N2|..]|..]; done].
  eapply nonces_intent; subst d1; simpl; [exact N1 | rewrite Ep; apply lookup_insert_eq | done | done
    | apply lookup_insert_eq | lia |].
  intros i r0 Hr He. destruct (nonce_allocated d N i r0 Hr) as (m & Hm & Hlt).
  rewrite He in Hm. simplify_eq. lia.
Qed.

Lemma nonces_rejectSettlement p i r c : preserves nonces (rejectSettlement p i r c).
Proof. unfold rejectSettlement. walk. Qed.

#[export] Hint Resolve nonces_rejectSettlement : store.

Lemma nonces_admission request signer payment p now :
  NormalizeAddress signer = Ok signer -> preserves nonces (admission request signer payment p now).
Proof.
  intros Hn. unfold admission. walk. apply nonces_admit; [done|]. by bool_hyps.
Qed.

Lemma nonces_CreateSettlementIntent r now : preserves nonces (CreateSettlementIntent r now).
Proof.
  unfold CreateSettlementIntent. destruct (IntentRequest_Validate r); [|apply preserves_fail].
  eapply triple_bind with (R := fun s d => NormalizeAddress s = Ok s /\ nonces d).
  { apply triple_lift. intros s d Hs N. split; [by eapply NormalizeAddress_idem | done]. }
  intros signer. apply triple_pure. intros Hn. unfold duplicate_intent. walk.
  by apply nonces_admission.
Qed.

Lemma nonces_claim_each ids w u n dn : preserves nonces (claim_each ids w u n dn).
Proof. induction ids; simpl; walk. Qed.

Lemma nonces_expire_each ids now : preserves nonces (expire_each ids now).
Proof. induction ids; simpl; walk. Qed.

Lemma nonces_redact_each ids now : preserves nonces (redact_each ids now).
Proof. induction ids; simpl; walk. Qed.

#[export] Hint Resolve nonces_CreateSettlementIntent nonces_claim_each nonces_expire_each
  nonces_redact_each : store.

Lemma nonces_record_payment v now : preserves nonces (record_payment v now).
Proof.
  intros d i d' N H.
  apply record_payment_Ok in H as [[-> _]|(-> & amount & _ & ->)]; [done| |apply N].
  apply (nonces_ext d); simpl; [done | | | | |].
  - match goal with |- wf (set_log ?d1 _) => eapply (wf_same d1); [|done..] end.
    apply wf_insert_payment, N.
  - intros a n Hn. exists n. split; [done|lia].
  - apply (nonce_counters d N).
  - intros i r Hr. exists i, r. by repeat split.
  - intros i p [[<- <-]|[_ Hp]]%lookup_insert_Some; [left; apply wf_fresh_payment, N | right; eauto].
Qed.

Lemma nonces_attempt_then (x : AttemptRow) (r : res unit) :
  preserves nonces (insert_verification_attempt x ;;! ret r).
Proof. walk. Qed.

Lemma nonces_recordVerification u a now : preserves nonces (recordVerification u a now).
Proof.
  unfold recordVerification. destruct (String.eqb _ _); [|walk]. destruct (va_Payment a); [|walk].
  intros d r d' A H. destruct (record_payment v now d) as [[i d1]|e] eqn:E.
  - apply nonces_record_payment in E; [|done]. by eapply nonces_attempt_then.
  - destruct (errors_Is e EUniqueViolation); [|done]. by eapply nonces_attempt_then.
Qed.

Lemma nonces_SeedSignerAccount a n : preserves nonces (SeedSignerAccount a n).
Proof.
  intros d m d' N (addr & _ & H0 & _ & Hold & ->)%SeedSignerAccount_Ok. by apply nonces_signers.
Qed.

#[export] Hint Resolve nonces_recordVerification nonces_SeedSignerAccount : store.

Lemma tx_hash_from_raw_key r : same_key r (tx_hash_from_raw r).
Proof. unfold tx_hash_from_raw. destruct (t_raw_hash r); by repeat split. Qed.

Lemma nonces_exec op : preserves nonces (exec op).
Proof.
  destruct op; cbn [exec]; unfold discard, ClaimPayments, ClaimPayment, RenewLease, ReleaseLease,
    ApplyRetention, MarkTxSigned, MarkTxBroadcast, MarkTxAmbiguous, MarkIntentUnsettleable,
    MarkIntentExpired, MarkTxConfirming, MarkTxConfirmed, MarkTxReverted, MarkTxRecoveredBroadcast,
    MarkAmbiguousRetry, MarkTxAmbiguousReplaced, MarkTxReplaced, MarkReplacementLanded,
    MarkTxReorgedOut, MarkGapFillerPrepared, MarkGapFillerReplaced, MarkGapFillerResolved,
    MarkGapFillerSucceeded, terminalSettlementMatches, recordTransition, race; walk.
  - intros d x d' N [= <- <-]. apply (nonces_same d); try done. by eapply wf_same; [apply N|..].
  - apply nonces_update_tx. intros r'. apply (tx_hash_from_raw_key (tx_set_status TxReplaced now r')).
Qed.

Lemma nonces_empty : nonces empty_db.
Proof.
  split; simpl; [apply audit_empty | intros *; by rewrite ?lookup_empty..].
Qed.
