(* ===== verification/StoreEvolve.v ===== *)
(** What no store call undoes: the audit trail only grows, no payment or
    transaction row disappears, a transaction keeps its payment, signer and
    nonce, and a payment keeps its identity, amount and authorization until
    the authorization is redacted. *)

From Stdlib Require Import ZArith Lia Strings.Byte.
From stdpp Require Import base gmap list strings fin_maps sorting.
From S2P Require Import Prelude GoStd WalletProof Verification State Schema Hoare Calldata Work.
From S2P Require Import Store StoreWork StoreRecovery StoreInv StoreNonce.

Local Open Scope Z_scope.
Local Open Scope db_scope.

(** A column that may only be cleared. *)
Definition kept {A} (old new : option A) : Prop := new = old \/ new = None.

Definition payment_kept (p p' : Payment) : Prop :=
  p_identity p' = p_identity p /\ p_amount p' = p_amount p /\
  kept (p_payer p) (p_payer p') /\ kept (p_recipient p) (p_recipient p') /\
  kept (p_auth_nonce p) (p_auth_nonce p') /\ kept (p_valid_after p) (p_valid_after p') /\
  kept (p_valid_before p) (p_valid_before p').

Record evolves (d d' : db) : Prop := {
  ev_log : exists l, transitions_log d' = transitions_log d ++ l;
  ev_payments i p : payments d !! i = Some p ->
    exists p', payments d' !! i = Some p' /\ payment_kept p p';
  ev_txs i r : txs d !! i = Some r -> exists r', txs d' !! i = Some r' /\ same_key r r';
}.

Lemma kept_refl {A} (o : option A) : kept o o.
Proof. by left. Qed.

Lemma kept_trans {A} (a b c : option A) : kept a b -> kept b c -> kept a c.
Proof. unfold kept. intros [-> | ->] [-> | ->]; auto. Qed.

#[export] Hint Resolve kept_refl : fac.

Lemma payment_kept_refl p : payment_kept p p.
Proof. unfold payment_kept. eauto 10 with fac. Qed.

Lemma payment_kept_trans a b c : payment_kept a b -> payment_kept b c -> payment_kept a c.
Proof.
  unfold payment_kept. intros (-> & -> & ? & ? & ? & ? & ?) (-> & -> & ? & ? & ? & ? & ?).
  repeat split; eauto using kept_trans.
Qed.

Lemma same_key_refl r : same_key r r.
Proof. by repeat split. Qed.

Lemma same_key_trans a b c : same_key a b -> same_key b c -> same_key a c.
Proof. unfold same_key. intuition congruence. Qed.

#[export] Instance evolves_preorder : PreOrder evolves.
Proof.
  split.
  - intros d. split; [exists []; by rewrite app_nil_r | |]; eauto using payment_kept_refl, same_key_refl.
  - intros a b c [[l1 L1] P1 T1] [[l2 L2] P2 T2]. split.
    + exists (l1 ++ l2). by rewrite L2, L1, app_assoc.
    + intros i p (p1 & H1 & K1)%P1. destruct (P2 _ _ H1) as (p2 & H2 & K2).
      eauto using payment_kept_trans.
    + intros i r (r1 & H1 & K1)%T1. destruct (T2 _ _ H1) as (r2 & H2 & K2).
      eauto using same_key_trans.
Qed.

(** From a fixed earlier database, with fresh identifiers still fresh. *)
Definition since (d0 d : db) : Prop := wf d /\ evolves d0 d.

(** A change of rows in place. *)
Lemma evolves_rows d d' :
  (exists l, transitions_log d' = transitions_log d ++ l) ->
  (forall i p, payments d !! i = Some p -> exists p', payments d' !! i = Some p' /\ payment_kept p p') ->
  (forall i r, txs d !! i = Some r -> exists r', txs d' !! i = Some r' /\ same_key r r') ->
  evolves d d'.
Proof. by split. Qed.

Lemma evolves_same d d' :
  payments d' = payments d -> txs d' = txs d ->
  (exists l, transitions_log d' = transitions_log d ++ l) -> evolves d d'.
Proof.
  intros Hp Ht Hl. split; [done | |]; rewrite ?Hp, ?Ht; eauto using payment_kept_refl, same_key_refl.
Qed.

Lemma lookup_insert_kept {A} (R : A -> A -> Prop) (m : gmap N A) i a a' j b :
  (forall x, R x x) -> m !! i = Some a -> R a a' -> m !! j = Some b ->
  exists b', <[i := a']> m !! j = Some b' /\ R b b'.
Proof.
  intros Hr Ha HR Hb. destruct (decide (i = j)) as [<-|Hne].
  - exists a'. rewrite lookup_insert_eq. simplify_eq. done.
  - exists b. by rewrite lookup_insert_ne.
Qed.

Lemma lookup_insert_fresh {A} (R : A -> A -> Prop) (m : gmap N A) i a j b :
  (forall x, R x x) -> m !! i = None -> m !! j = Some b ->
  exists b', <[i := a]> m !! j = Some b' /\ R b b'.
Proof.
  intros Hr Hn Hb. exists b. rewrite lookup_insert_ne by congruence. done.
Qed.

Section Since.
  Variable d0 : db.

Lemma since_step d d' : since d0 d -> wf d' -> evolves d d' -> since d0 d'.
Proof. intros [_ E] W E'. split; [done|]. by etrans. Qed.

Lemma since_update_tx i cond f :
  (forall r, same_key r (f r)) -> preserves (since d0) (update_tx i cond f).
Proof.
  intros Hf d n d' S [(_ & -> & _)|[_ (r & Hr & _ & _ & _ & ->)]]%update_tx_Ok; [done|].
  eapply since_step; [exact S | eapply wf_update_tx; [apply S | done | apply Hf]|].
  apply evolves_rows; simpl; [exists []; by rewrite app_nil_r | by eauto using payment_kept_refl|].
  intros j s Hs. by eapply lookup_insert_kept; [apply same_key_refl|..].
Qed.

Lemma since_update_txs cond f :
  (forall r, same_key r (f r)) -> preserves (since d0) (update_txs_status cond f).
Proof.
  intros Hf d n d' S ->%update_txs_status_Ok.
  eapply since_step; [exact S | apply wf_update_txs; [apply S | apply Hf]|].
  apply evolves_rows; simpl; [exists []; by rewrite app_nil_r | by eauto using payment_kept_refl|].
  intros j s Hs. rewrite map_lookup_imap, Hs. simpl. eexists. split; [done|].
  destruct (cond j s); [apply Hf | apply same_key_refl].
Qed.

Lemma since_update_payment i cond f :
  (forall p, payment_kept p (f p)) -> preserves (since d0) (update_payment i cond f).
Proof.
  intros Hf d n d' S [(_ & -> & _)|(p & _ & Hp & _ & _ & ->)]%update_payment_Ok; [done|].
  eapply since_step; [exact S | eapply wf_update_payment; [apply S | done]|].
  apply evolves_rows; simpl; [exists []; by rewrite app_nil_r | | by eauto using same_key_refl].
  intros j q Hq. by eapply lookup_insert_kept; [apply payment_kept_refl|..].
Qed.

Lemma since_insert_replacement payment old r keep raw now :
  preserves (since d0) (insert_replacement payment old r keep raw now).
Proof.
  intros d a d' S H. pose proof (proj1 S) as W.
  apply insert_replacement_Ok in H as (o & fee & tip & Ho & Hp & _ & _ & ->); [|done].
  eapply since_step; [exact S | by apply wf_replacement|].
  apply evolves_rows; simpl; [exists []; by rewrite app_nil_r | by eauto using payment_kept_refl|].
  intros j s Hs. assert (next_id d <> j) by (apply (wf_txs d W) in Hs; lia).
  eapply lookup_insert_kept; [apply same_key_refl | | apply (same_key_refl o) |].
  - rewrite lookup_insert_ne; [exact Ho|]. apply (wf_txs d W) in Ho. lia.
  - by rewrite lookup_insert_ne.
Qed.

Lemma since_insert_transition t : preserves (since d0) (insert_transition t).
Proof.
  intros d a d' S [_ ->]%insert_transition_Ok. eapply since_step; [exact S | |].
  - by eapply wf_same; [apply S|..].
  - by apply evolves_same; simpl; eauto.
Qed.

Lemma since_rest d d' :
  since d0 d -> payments d' = payments d -> txs d' = txs d -> next_id d' = next_id d ->
  transitions_log d' = transitions_log d -> since d0 d'.
Proof.
  intros S Hp Ht Hn Hl. eapply since_step; [exact S | by eapply wf_same; [apply S|..]|].
  apply evolves_same; [done..|]. exists []. by rewrite app_nil_r.
Qed.

Lemma since_insert_settlement_attempt a : preserves (since d0) (insert_settlement_attempt a).
Proof. intros d n d' S [= <- <-]. by eapply since_rest. Qed.

Lemma since_insert_verification_attempt a : preserves (since d0) (insert_verification_attempt a).
Proof. intros d n d' S [= <- <-]. by eapply since_rest. Qed.

Lemma since_exactly_one n : preserves (since d0) (exactly_one n).
Proof. unfold exactly_one. destruct (n =? 1); [apply preserves_ret | apply preserves_fail]. Qed.

End Since.

#[export] Hint Resolve since_insert_transition since_insert_settlement_attempt
  since_insert_verification_attempt since_insert_replacement since_exactly_one : store.
#[export] Hint Extern 1 (preserves (since _) (update_tx _ _ _)) =>
  apply since_update_tx; intros ?; by repeat split : store.
#[export] Hint Extern 1 (preserves (since _) (update_txs_status _ _)) =>
  apply since_update_txs; intros ?; by repeat split : store.
#[export] Hint Extern 1 (preserves (since _) (update_payment _ _ _)) =>
  apply since_update_payment; intros ?; repeat split; unfold kept; by auto : store.

Section SinceMethods.
  Variable d0 : db.

Lemma since_transitionPayment i from to actor now :
  preserves (since d0) (transitionPayment i from to actor now).
Proof. unfold transitionPayment, recordTransition, race. walk. Qed.

Lemma since_validate_all from to : preserves (since d0) (validate_all from to).
Proof. induction from; simpl; walk. Qed.

Lemma since_transitionPaymentIn i from to actor assign now :
  (forall p, payment_kept p (assign p)) ->
  preserves (since d0) (transitionPaymentIn i from to actor assign now).
Proof.
  intros Ha. unfold transitionPaymentIn, recordTransition, race.
  apply preserves_bind; [apply since_validate_all|]. intros _.
  apply preserves_bind; [|walk]. apply since_update_payment. intros p.
  eapply payment_kept_trans; [|apply Ha]. repeat split; by left.
Qed.

Lemma since_admit request signer payment state now :
  NormalizeAddress signer = Ok signer -> preserves (since d0) (admit_intent request signer payment state now).
Proof.
  intros Hn d r d' S H. apply admit_Ok in H as (p & nonce & _ & A & _); [|done].
  destruct A as [Hp _ _ Ep Et _ _ En El _]. pose proof (proj1 S) as W.
  eapply since_step; [exact S | |].
  - apply (wf_mono d); rewrite ?Ep, ?Et, ?En; [done | lia | | by eauto using is_Some_insert |].
    + intros j q [[<- <-]|[_ ?]]%lookup_insert_Some; eauto.
    + pose proof (wf_next d W).
      intros j s [[<- <-]|[_ Hs]]%lookup_insert_Some; simpl.
      * split; [lia|]. rewrite lookup_insert_eq. eauto.
      * pose proof (wf_txs d W j s Hs). split; [lia|]. apply is_Some_insert. by eapply wf_owner.
  - apply evolves_rows; [rewrite El; eauto | rewrite Ep | rewrite Et].
    + intros j q Hq. eapply lookup_insert_kept; [apply payment_kept_refl | exact Hp | | exact Hq].
      repeat split; by left.
    + intros j s Hs. eapply lookup_insert_fresh; [apply same_key_refl | by apply wf_fresh_tx | done].
Qed.

Lemma since_CreateSettlementIntent r now : preserves (since d0) (CreateSettlementIntent r now).
Proof.
  unfold CreateSettlementIntent. destruct (IntentRequest_Validate r); [|apply preserves_fail].
  eapply triple_bind with (R := fun s d => NormalizeAddress s = Ok s /\ since d0 d).
  { apply triple_lift. intros s d Hs S. split; [by eapply NormalizeAddress_idem | done]. }
  intros signer. apply triple_pure. intros Hn.
  unfold duplicate_intent, admission, rejectSettlement. walk. by apply since_admit.
Qed.

Lemma since_record_payment v now : preserves (since d0) (record_payment v now).
Proof.
  intros d i d' S H. pose proof (proj1 S) as W.
  apply record_payment_Ok in H as [[-> _]|(-> & amount & _ & ->)]; [done| |done].
  eapply since_step; [exact S | |].
  - match goal with |- wf (set_log ?d1 _) => eapply (wf_same d1); [|done..] end.
    by apply wf_insert_payment.
  - apply evolves_rows; simpl; [eauto | | by eauto using same_key_refl].
    intros j q Hq. eapply lookup_insert_fresh; [apply payment_kept_refl | by apply wf_fresh_payment | done].
Qed.

Lemma since_attempt_then (x : AttemptRow) (r : res unit) :
  preserves (since d0) (insert_verification_attempt x ;;! ret r).
Proof. walk. Qed.

Lemma since_recordVerification u a now : preserves (since d0) (recordVerification u a now).
Proof.
  unfold recordVerification. destruct (String.eqb _ _); [|walk]. destruct (va_Payment a); [|walk].
  intros d r d' A H. destruct (record_payment v now d) as [[i d1]|e] eqn:E.
  - apply since_record_payment in E; [|done]. by eapply since_attempt_then.
  - destruct (errors_Is e EUniqueViolation); [|done]. by eapply since_attempt_then.
Qed.

Lemma since_claim_each ids w u n dn : preserves (since d0) (claim_each ids w u n dn).
Proof. induction ids; simpl; walk. Qed.

Lemma since_expire_each ids now : preserves (since d0) (expire_each ids now).
Proof. induction ids; simpl; walk. Qed.

Lemma since_redact_each ids now : preserves (since d0) (redact_each ids now).
Proof. induction ids; simpl; walk. Qed.

Lemma since_SeedSignerAccount a n : preserves (since d0) (SeedSignerAccount a n).
Proof. intros d m d' S (addr & _ & _ & _ & _ & ->)%SeedSignerAccount_Ok. by eapply since_rest. Qed.

End SinceMethods.

#[export] Hint Resolve since_transitionPayment since_CreateSettlementIntent since_recordVerification
  since_claim_each since_expire_each since_redact_each since_SeedSignerAccount : store.
#[export] Hint Extern 1 (preserves (since _) (transitionPaymentIn _ _ _ _ _ _)) =>
  apply since_transitionPaymentIn; intros ?; repeat split; by left : store.

Lemma since_exec d0 op : preserves (since d0) (exec op).
Proof.
  destruct op; cbn [exec]; unfold discard, ClaimPayments, ClaimPayment, RenewLease, ReleaseLease,
    ApplyRetention, MarkTxSigned, MarkTxBroadcast, MarkTxAmbiguous, MarkIntentUnsettleable,
    MarkIntentExpired, MarkTxConfirming, MarkTxConfirmed, MarkTxReverted, MarkTxRecoveredBroadcast,
    MarkAmbiguousRetry, MarkTxAmbiguousReplaced, MarkTxReplaced, MarkReplacementLanded,
    MarkTxReorgedOut, MarkGapFillerPrepared, MarkGapFillerReplaced, MarkGapFillerResolved,
    MarkGapFillerSucceeded, terminalSettlementMatches, recordTransition, race; walk.
  - intros d x d' S [= <- <-]. by eapply since_rest.
  - apply since_update_tx. intros r'. apply (tx_hash_from_raw_key (tx_set_status TxReplaced now r')).
Qed.

(** Every call only ever evolves a well-formed database. *)
Lemma exec_evolves op d a d' : wf d -> exec op d = Ok (a, d') -> wf d' /\ evolves d d'.
Proof. intros W H. by apply (since_exec d op d a d'). Qed.

Lemma run_ops_evolves ops d : wf d -> wf (run_ops d ops) /\ evolves d (run_ops d ops).
Proof.
  unfold run_ops. revert d. induction ops as [|op ops IH]; intros d W; simpl; [done|].
  assert (wf (call_op d op) /\ evolves d (call_op d op)) as [W1 E1].
  { unfold call_op. destruct (exec op d) as [[? ?]|] eqn:E; [by eapply exec_evolves | done]. }
  destruct (IH _ W1) as [W2 E2]. split; [done|]. by etrans.
Qed.
