(* ===== verification/StoreRows.v ===== *)
(** Where the rows of [ethereum_transactions] come from: every row after a
    call is a row before it whose recorded signature is unchanged, or one the
    call names with the hash, fee and bytes it was given. *)

From Stdlib Require Import ZArith Lia Strings.Byte.
From stdpp Require Import base gmap list strings fin_maps sorting.
From S2P Require Import Prelude GoStd WalletProof Verification State Schema Hoare Calldata Work.
From S2P Require Import Store StoreWork StoreRecovery StoreInv StoreNonce StoreEvolve.

Local Open Scope Z_scope.
Local Open Scope db_scope.

(** ** Rows that keep their signature *)

Record tracks (r r' : Tx) : Prop := {
  tracks_key : same_key r r';
  tracks_fee : t_max_fee r' = t_max_fee r;
  tracks_gas : t_gas_limit r' = t_gas_limit r;
  tracks_hash : t_raw_hash r' = t_raw_hash r;
  tracks_raw : kept (t_raw r) (t_raw r');
  tracks_intent : t_status r' = TxIntent -> t_status r = TxIntent;
}.

#[export] Instance tracks_preorder : PreOrder tracks.
Proof.
  split.
  - intros r. split; auto using same_key_refl, kept_refl.
  - intros a b c [K1 F1 G1 H1 R1 I1] [K2 F2 G2 H2 R2 I2].
    split; [eauto using same_key_trans | congruence | congruence | congruence | eauto using kept_trans | auto].
Qed.

Definition rows (P : rowid -> Tx -> Prop) (d : db) : Prop :=
  forall i r, txs d !! i = Some r -> P i r.

Class Tracked (P : rowid -> Tx -> Prop) : Prop :=
  tracked_closed : forall i r r', P i r -> tracks r r' -> P i r'.

Lemma tx_hash_from_raw_tracks r : tracks r (tx_hash_from_raw r).
Proof. unfold tx_hash_from_raw. destruct (t_raw_hash r) eqn:E; split; simpl; auto using kept_refl; by repeat split. Qed.

(** Closes [tracks r (f r)] for the setters of the statements. *)
Ltac tracked := intros; split; simpl; auto using kept_refl; try (by repeat split); try (by right); try done.

Section Rows.
  Context (P : rowid -> Tx -> Prop).

Lemma rows_same d d' : rows P d -> txs d' = txs d -> rows P d'.
Proof. unfold rows. by intros ? ->. Qed.

Lemma rows_update_tx_with i cond f :
  (forall r, P i r -> cond r = true -> P i (f r)) -> preserves (rows P) (update_tx i cond f).
Proof.
  intros Hf d n d' R [(_ & -> & _)|[_ (r & Hr & Hc & _ & _ & ->)]]%update_tx_Ok; [done|].
  intros j s Hj. simpl in Hj. apply lookup_insert_Some in Hj as [[<- <-]|[_ Hs]]; [|by eapply R].
  apply Hf; [by eapply R | done].
Qed.

Lemma rows_insert_transition t : preserves (rows P) (insert_transition t).
Proof. intros d a d' L [_ ->]%insert_transition_Ok. by eapply rows_same. Qed.

Lemma rows_insert_settlement_attempt a : preserves (rows P) (insert_settlement_attempt a).
Proof. intros d n d' L [= <- <-]. by eapply rows_same. Qed.

Lemma rows_insert_verification_attempt a : preserves (rows P) (insert_verification_attempt a).
Proof. intros d n d' L [= <- <-]. by eapply rows_same. Qed.

Lemma rows_fresh_id : preserves (rows P) fresh_id.
Proof. intros d n d' L [_ ->]%fresh_id_Ok. by eapply rows_same. Qed.

Lemma rows_exactly_one n : preserves (rows P) (exactly_one n).
Proof. unfold exactly_one. destruct (n =? 1); [apply preserves_ret | apply preserves_fail]. Qed.

Lemma rows_SeedSignerAccount a n : preserves (rows P) (SeedSignerAccount a n).
Proof. intros d m d' L (addr & _ & _ & _ & _ & ->)%SeedSignerAccount_Ok. by eapply rows_same. Qed.

Lemma rows_AllocateNonce a : preserves (rows P) (AllocateNonce a).
Proof. intros d m d' L (addr & _ & _ & _ & ->)%AllocateNonce_Ok. by eapply rows_same. Qed.

Lemma rows_update_payment i cond f : preserves (rows P) (update_payment i cond f).
Proof.
  intros d n d' L [(_ & -> & _)|(p & _ & Hp & Hc & _ & ->)]%update_payment_Ok; [done|].
  by eapply rows_same.
Qed.

Lemma rows_put_payment i p : preserves (rows P) (put_payment i p).
Proof. intros d [] d' L (_ & _ & ->)%put_payment_Ok. by eapply rows_same. Qed.

Lemma rows_write_merchants m : preserves (rows P) (write_merchants m).
Proof. intros d x d' L [= <- <-]. by eapply rows_same. Qed.

Lemma rows_insert_tx r : (forall i, P i r) -> preserves (rows P) (insert_tx r).
Proof.
  intros Hr d n d' L (_ & _ & _ & ->)%insert_tx_Ok j s Hj. simpl in Hj.
  apply lookup_insert_Some in Hj as [[<- <-]|[_ Hs]]; [done | by eapply L].
Qed.

End Rows.

#[export] Hint Resolve rows_insert_transition rows_insert_settlement_attempt
  rows_insert_verification_attempt rows_fresh_id rows_exactly_one rows_SeedSignerAccount
  rows_AllocateNonce rows_update_payment rows_put_payment rows_write_merchants : store.

Section TrackedRows.
  Context (P : rowid -> Tx -> Prop) `{!Tracked P}.

Lemma rows_update_tx i cond f :
  (forall r, tracks r (f r)) -> preserves (rows P) (update_tx i cond f).
Proof. intros Hf. apply rows_update_tx_with. intros r Hr _. by eapply tracked_closed. Qed.

Lemma rows_update_txs cond f :
  (forall r, tracks r (f r)) -> preserves (rows P) (update_txs_status cond f).
Proof.
  intros Hf d n d' L ->%update_txs_status_Ok j s (r & Hr & ->)%lookup_update_txs.
  destruct (cond j r); [|by eapply L]. eapply tracked_closed; [by eapply L | done].
Qed.

Lemma rows_insert_replacement payment old r keep raw now :
  (forall i o fee tip sh, P old o -> numeric_text (rp_MaxFee r) = Some fee ->
     P i (replacement_tx o r fee tip sh raw now)) ->
  preserves (rows P) (insert_replacement payment old r keep raw now).
Proof.
  intros Hnew d a d' L. unfold insert_replacement, bind at 1 2 3, of_option, get, fail, ret at 1 2 3.
  destruct (numeric_text (rp_MaxFee r)) as [fee|] eqn:Hfee; [|done].
  destruct (numeric_text (rp_PriorityFee r)) as [tip|]; [|done].
  destruct (txs d !! old) as [o|] eqn:Ho; [|done]. destruct (bool_decide _); [|done].
  match goal with |- _ = _ -> _ => intros H; revert H end.
  match goal with |- ?m d = Ok (a, d') -> _ =>
    intros H; refine ((_ : preserves (rows P) m) d a d' L H) end.
  apply preserves_bind; [apply rows_insert_tx; eauto|]. intros i.
  apply preserves_bind; [apply rows_update_tx; tracked | walk].
Qed.

Lemma rows_transitionPayment i from to actor now :
  preserves (rows P) (transitionPayment i from to actor now).
Proof. unfold transitionPayment, recordTransition, race. walk. Qed.

Lemma rows_validate_all from to : preserves (rows P) (validate_all from to).
Proof. induction from; simpl; walk. Qed.

Lemma rows_transitionPaymentIn i from to actor assign now :
  preserves (rows P) (transitionPaymentIn i from to actor assign now).
Proof.
  unfold transitionPaymentIn, recordTransition, race.
  apply preserves_bind; [apply rows_validate_all|]. intros _. walk.
Qed.

End TrackedRows.

#[export] Hint Resolve rows_transitionPayment rows_transitionPaymentIn : store.
#[export] Hint Extern 1 (preserves (rows _) (update_tx _ _ _)) =>
  solve [apply rows_update_tx; [assumption || apply _ | tracked]] : store.
#[export] Hint Extern 1 (preserves (rows _) (update_txs_status _ _)) =>
  solve [apply rows_update_txs; [assumption || apply _ | tracked]] : store.

(** ** Provenance *)

(** The signature a call records: the row it is recorded for, the hash, the
    fee cap and, for gap fillers, the bytes. *)
Record write := {
  wr_target : rowid;
  wr_hash : string;
  wr_fee : string;
  wr_gas : Z;
  wr_raw : option (list byte);
}.

Definition op_write (op : store_op) : option write :=
  match op with
  | OpSigned t rh _ g f _ _ => Some {| wr_target := t; wr_hash := rh; wr_fee := f; wr_gas := g; wr_raw := None |}
  | OpAmbiguousReplaced _ t r _ _ | OpReplaced _ t r _ _ =>
      Some {| wr_target := t; wr_hash := rp_RawHash r; wr_fee := rp_MaxFee r; wr_gas := rp_GasLimit r; wr_raw := None |}
  | OpGapPrepared t rh _ raw g f _ _ =>
      Some {| wr_target := t; wr_hash := rh; wr_fee := f; wr_gas := g; wr_raw := Some raw |}
  | OpGapReplaced _ t r raw _ =>
      Some {| wr_target := t; wr_hash := rp_RawHash r; wr_fee := rp_MaxFee r; wr_gas := rp_GasLimit r; wr_raw := Some raw |}
  | _ => None
  end.

Inductive origin (op : store_op) (d : db) (i : rowid) (r : Tx) : Prop :=
  | FromRow o : txs d !! i = Some o -> tracks o r -> origin op d i r
  | FromWrite w o :
      op_write op = Some w -> txs d !! wr_target w = Some o -> same_key o r ->
      t_max_fee r = numeric_text (wr_fee w) -> t_gas_limit r = Some (wr_gas w) -> t_raw_hash r = Some (wr_hash w) ->
      t_raw r = None \/ t_raw r = wr_raw w \/ (t_raw r = t_raw o /\ t_status o = TxIntent) ->
      t_status r <> TxIntent -> origin op d i r
  | FromIntent request now :
      op = OpIntent request now -> NormalizeAddress (ir_SignerAddress request) = Ok (t_signer r) ->
      t_max_fee r = None -> t_gas_limit r = None -> t_raw r = None -> t_raw_hash r = None -> origin op d i r.

#[export] Instance origin_tracked op d : Tracked (origin op d).
Proof.
  intros i r r' [o Ho Ht|w o Hw Ho Hk Hf Hg Hh Hr Hs|req now Hop Hn Hf Hg Hr Hh] [K F G H R I].
  - apply (FromRow _ _ _ _ o); [done|]. transitivity r; [done | by split].
  - apply (FromWrite _ _ _ _ w o); auto.
    + eauto using same_key_trans.
    + congruence.
    + congruence.
    + congruence.
    + destruct R as [->| ->]; auto.
  - apply (FromIntent _ _ _ _ req now); auto.
    + destruct K as (_ & -> & _). done.
    + congruence.
    + congruence.
    + destruct R; congruence.
    + congruence.
Qed.

Section Origin.
  Context (op : store_op) (d0 : db).

  Abbreviation I := (rows (origin op d0)).

(** The row a recorded signature belongs to, or an earlier one of the call. *)
Lemma origin_target w r :
  op_write op = Some w -> origin op d0 (wr_target w) r ->
  exists o, txs d0 !! wr_target w = Some o /\ same_key o r /\ (t_status r = TxIntent -> tracks o r).
Proof.
  intros Hw [o Ho Ht|w' o Hw' Ho Hk _ _ _ _ Hs|req now Hop _ _ _ _ _].
  - exists o. split; [done|]. split; [apply Ht | done].
  - assert (w' = w) as -> by congruence. exists o. split; [done|]. split; [done|]. intros; done.
  - subst op. discriminate Hw.
Qed.

Lemma origin_replacement w payment r keep raw now :
  op_write op = Some w -> wr_hash w = rp_RawHash r -> wr_fee w = rp_MaxFee r -> wr_gas w = rp_GasLimit r -> wr_raw w = raw ->
  preserves I (insert_replacement payment (wr_target w) r keep raw now).
Proof.
  intros Hw Hh Hf Hg Hr. apply rows_insert_replacement; [apply _|].
  intros i o fee tip sh Ho Hfee. apply (origin_target w) in Ho as (o0 & Ho0 & Hk & _); [|done].
  apply (FromWrite _ _ _ _ w o0); simpl; auto; congruence.
Qed.

End Origin.

Lemma origin_MarkTxSigned d t rh sh g f p now :
  preserves (rows (origin (OpSigned t rh sh g f p now) d)) (MarkTxSigned t rh sh g f p now).
Proof.
  unfold MarkTxSigned. apply preserves_of_option_bind. intros fee Hfee. walk.
  apply rows_update_tx_with. intros r Hr Hs. bool_hyps.
  destruct (origin_target _ _ _ _ (eq_refl : op_write (OpSigned t rh sh g f p now) = Some _) Hr)
    as (o & Ho & Hk & Ht). specialize (Ht Hs).
  eapply FromWrite; [reflexivity | exact Ho | simpl; auto..]; try (by rewrite Hfee).
  destruct (tracks_raw _ _ Ht) as [Hraw|Hraw]; [right; right | by left].
  split; [done | by apply (tracks_intent _ _ Ht)].
Qed.

Lemma origin_MarkGapFillerPrepared d t rh h raw g f p now :
  preserves (rows (origin (OpGapPrepared t rh h raw g f p now) d))
    (MarkGapFillerPrepared t rh h raw g f p now).
Proof.
  unfold MarkGapFillerPrepared. apply preserves_of_option_bind. intros fee Hfee. walk.
  apply rows_update_tx_with. intros r Hr _.
  destruct (origin_target _ _ _ _ (eq_refl : op_write (OpGapPrepared t rh h raw g f p now) = Some _) Hr)
    as (o & Ho & Hk & _).
  eapply FromWrite; [reflexivity | exact Ho | simpl; auto..]; by rewrite Hfee.
Qed.

Lemma rows_claim_each P ids w u n dn : preserves (rows P) (claim_each ids w u n dn).
Proof. induction ids; simpl; walk. Qed.

Lemma rows_expire_each P ids now : preserves (rows P) (expire_each ids now).
Proof. induction ids; simpl; walk. Qed.

Lemma rows_redact_each P ids now : preserves (rows P) (redact_each ids now).
Proof. induction ids; simpl; walk. Qed.

Lemma rows_recordVerification P u a now : preserves (rows P) (recordVerification u a now).
Proof.
  assert (forall (x : AttemptRow) (r : res unit),
    preserves (rows P) (insert_verification_attempt x ;;! ret r)) as Hthen by walk.
  assert (forall v, preserves (rows P) (record_payment v now)) as Hrec
    by (intros v; unfold record_payment; walk).
  unfold recordVerification. destruct (String.eqb _ _); [|walk]. destruct (va_Payment a); [|walk].
  intros d r d' A H. destruct (record_payment v now d) as [[i d1]|e] eqn:E.
  - apply Hrec in E; [|done]. by eapply Hthen.
  - destruct (errors_Is e EUniqueViolation); [|done]. by eapply Hthen.
Qed.

Lemma origin_CreateSettlementIntent d request now :
  preserves (rows (origin (OpIntent request now) d)) (CreateSettlementIntent request now).
Proof.
  unfold CreateSettlementIntent. destruct (IntentRequest_Validate request); [|walk].
  eapply triple_bind with
    (R := fun s d1 => NormalizeAddress (ir_SignerAddress request) = Ok s /\ rows (origin (OpIntent request now) d) d1).
  { apply triple_lift. auto. }
  intros signer. apply triple_pure. intros Hn.
  unfold duplicate_intent, admission, rejectSettlement, admit_intent. walk.
  apply rows_insert_tx. intros i. by apply (FromIntent _ _ _ _ request now).
Qed.

#[export] Hint Resolve origin_MarkTxSigned origin_MarkGapFillerPrepared rows_claim_each rows_expire_each
  rows_redact_each rows_recordVerification origin_CreateSettlementIntent : store.
#[export] Hint Extern 1 (preserves (rows (origin _ _)) (insert_replacement _ ?t ?r _ ?raw _)) =>
  apply (origin_replacement _ _
    {| wr_target := t; wr_hash := rp_RawHash r; wr_fee := rp_MaxFee r; wr_gas := rp_GasLimit r; wr_raw := raw |}); reflexivity : store.

Lemma origin_exec op d : preserves (rows (origin op d)) (exec op).
Proof.
  destruct op; cbn [exec]; unfold discard, ClaimPayments, ClaimPayment, RenewLease, ReleaseLease,
    ApplyRetention, MarkTxBroadcast, MarkTxAmbiguous, MarkIntentUnsettleable,
    MarkIntentExpired, MarkTxConfirming, MarkTxConfirmed, MarkTxReverted, MarkTxRecoveredBroadcast,
    MarkAmbiguousRetry, MarkTxAmbiguousReplaced, MarkTxReplaced, MarkReplacementLanded,
    MarkTxReorgedOut, MarkGapFillerReplaced, MarkGapFillerResolved,
    MarkGapFillerSucceeded, terminalSettlementMatches, recordTransition, race; walk.
  apply rows_update_tx; [apply _|]. intros o. transitivity (tx_set_status TxReplaced now o);
    [tracked | apply tx_hash_from_raw_tracks].
Qed.

Lemma exec_origin op d a d' : exec op d = Ok (a, d') -> rows (origin op d) d'.
Proof.
  apply (origin_exec op d). intros i r Hr. apply (FromRow _ _ _ _ r); [done | reflexivity].
Qed.
