(* ===== verification/StoreIntent.v ===== *)
(** What [CreateSettlementIntent] does, case by case, and the settlement
    quotas it enforces. *)

From Stdlib Require Import ZArith Lia Strings.Byte.
From stdpp Require Import base gmap list strings fin_maps sorting fin_map_dom.
From S2P Require Import Prelude GoStd State Calldata WalletProof Verification Schema Work Hoare.
From S2P Require Import Store StoreWork StoreRecovery StoreInv StorePaid StoreNonce StoreEvolve.

Local Open Scope Z_scope.
Local Open Scope db_scope.

(** ** Outcomes *)

(** Only an attempt row was added. *)
Definition only_attempt (d d' : db) (a : AttemptRow) : Prop :=
  d' = set_settlement_attempts d (settlement_attempts d ++ [a]).

(** The admission policy of the decision record, on the row the request names. *)
Record admissible (request : IntentRequest) (d : db) (p : Payment) (now : time) : Prop := {
  adm_verified : p_state p = StateVerified;
  adm_merchant : exists mid m, p_merchant p = Some mid /\ merchants d !! mid = Some m /\
    m_status m = MActive /\
    count_payments d (fun q => bool_decide (p_merchant q = Some mid) &&
      requested_within now (ir_QuotaWindow request) q) < ir_Quota request;
  adm_fresh : exists vb, p_valid_before p = Some vb /\
    ir_Now request + ir_ExpiryMargin request < vb;
  adm_global : count_payments d (requested_within now (ir_QuotaWindow request)) < ir_GlobalQuota request;
  adm_signature : forall s, p_signature p = Some s -> s = ir_PayerSignature request;
}.

Inductive intent_outcome (request : IntentRequest) (now : time) (d : db) : res Intent -> db -> Prop :=
  | OutRejected a cause d' :
      at_result a = "rejected"%string -> only_attempt d d' a ->
      intent_outcome request now d (Err cause) d'
  | OutDuplicate payment p i r intent d' :
      payments d !! payment = Some p -> p_identity p = ir_PaymentIdentity request ->
      txs d !! i = Some r -> t_payment r = payment ->
      in_PaymentID intent = payment -> in_TransactionID intent = i ->
      in_SignerAddress intent = t_signer r -> in_Nonce intent = t_nonce r ->
      in_TxHash intent = default EmptyString (t_hash r) -> in_Duplicate intent = true ->
      (in_Confirmed intent = true -> p_state p = StateConfirmed /\ t_status r = TxConfirmed) ->
      (in_Reverted intent = true -> p_state p = StateReverted /\ t_status r = TxReverted) ->
      only_attempt d d' (duplicate_attempt payment (ir_PaymentIdentity request)) ->
      intent_outcome request now d (Ok intent) d'
  | OutAdmitted signer payment p nonce intent d' :
      NormalizeAddress (ir_SignerAddress request) = Ok signer ->
      p_identity p = ir_PaymentIdentity request -> admissible request d p now ->
      admits request signer payment p nonce now d d' ->
      (forall i r, txs d !! i = Some r -> t_payment r = payment -> active (t_status r) = false) ->
      in_PaymentID intent = payment -> in_TransactionID intent = next_id d ->
      in_SignerAddress intent = signer -> in_Nonce intent = nonce ->
      in_TxHash intent = EmptyString -> in_Duplicate intent = false ->
      in_Confirmed intent = false -> in_Reverted intent = false ->
      intent_outcome request now d (Ok intent) d'.

(** ** Queries *)

Lemma find_payment_Some d cond i p :
  find_payment d cond = Some (i, p) -> payments d !! i = Some p /\ cond i p = true.
Proof.
  intros [Hin Hc]%find_some. by apply list_elem_of_In, elem_of_map_to_list in Hin.
Qed.

Lemma find_tx_Some d cond i r :
  find_tx d cond = Some (i, r) -> txs d !! i = Some r /\ cond i r = true.
Proof.
  intros [Hin Hc]%find_some. by apply list_elem_of_In, elem_of_map_to_list in Hin.
Qed.

Lemma find_tx_None d cond i r : find_tx d cond = None -> txs d !! i = Some r -> cond i r = false.
Proof.
  intros H Hr. apply (find_none _ _ H (i, r)). by apply list_elem_of_In, elem_of_map_to_list.
Qed.

Lemma select_txs_In d cond i r :
  (i, r) ∈ select_txs d cond -> txs d !! i = Some r /\ cond i r = true.
Proof.
  intros H%list_elem_of_In. apply filter_In in H as [Hin Hc].
  by apply list_elem_of_In, elem_of_map_to_list in Hin.
Qed.

Lemma latest_In l x : latest l = Some x -> x ∈ l.
Proof.
  unfold latest. assert (forall acc, fold_left (fun acc (x : rowid * Tx) =>
    match acc with
    | None => Some x
    | Some y => if t_updated_at y.2 <? t_updated_at x.2 then Some x else acc
    end) l acc = Some x -> x ∈ l \/ acc = Some x) as H; [|by intros [?|?]%H].
  induction l as [|y l IH]; intros acc Hx; simpl in Hx; [by right|].
  apply IH in Hx as [?|Hx]; [left; by constructor|].
  destruct acc as [z|]; [destruct (_ <? _)|]; simplify_eq; auto; left; constructor.
Qed.

Lemma active_tx_Some d payment i r :
  active_tx d payment = Some (i, r) ->
  txs d !! i = Some r /\ t_payment r = payment /\ active (t_status r) = true.
Proof. intros [? ?]%find_tx_Some. by bool_hyps. Qed.

Lemma terminal_tx_Some d payment state i r :
  terminal_tx d payment state = Some (i, r) ->
  txs d !! i = Some r /\ t_payment r = payment /\ is_Some (t_hash r) /\
  ((state = StateConfirmed /\ t_status r = TxConfirmed) \/
   (state = StateReverted /\ t_status r = TxReverted)).
Proof.
  unfold terminal_tx. destruct state; try done; intros [H1 H2]%latest_In%select_txs_In; bool_hyps;
    repeat split; auto.
Qed.

(** ** The case lemma *)

Lemma rejectSettlement_Ok p identity reason cause d r d' :
  rejectSettlement p identity reason cause d = Ok (r, d') ->
  r = Err cause /\ exists a, at_result a = "rejected"%string /\ only_attempt d d' a.
Proof.
  unfold rejectSettlement, insert_settlement_attempt, bind, get, put, ret. intros [= <- <-].
  split; [done|]. eexists. split; [|done]. done.
Qed.

Lemma duplicate_intent_Ok request payment state terminal i r d res d' :
  duplicate_intent request payment state terminal (i, r) d = Ok (res, d') ->
  only_attempt d d' (duplicate_attempt payment (ir_PaymentIdentity request)) /\
  exists intent, res = Ok intent /\
    in_PaymentID intent = payment /\ in_TransactionID intent = i /\
    in_SignerAddress intent = t_signer r /\ in_Nonce intent = t_nonce r /\
    in_TxHash intent = default EmptyString (t_hash r) /\ in_Duplicate intent = true /\
    in_Confirmed intent = terminal && bool_decide (state = StateConfirmed) /\
    in_Reverted intent = terminal && bool_decide (state = StateReverted).
Proof.
  unfold duplicate_intent, bind, lift, insert_settlement_attempt, bind, get, put, ret, parseNonce.
  simpl. destruct (ParseUint64 _) as [n|] eqn:En; [|done]. intros [= <- <-].
  apply ParseUint64_FormatInt in En as [-> _]. split; [done|]. eexists. split; [done|]. done.
Qed.

Lemma admission_Ok request signer payment p now d r d' :
  NormalizeAddress (ir_SignerAddress request) = Ok signer ->
  NormalizeAddress signer = Ok signer -> payments d !! payment = Some p ->
  p_identity p = ir_PaymentIdentity request ->
  (forall i r, txs d !! i = Some r -> t_payment r = payment -> active (t_status r) = false) ->
  admission request signer payment p now d = Ok (r, d') -> intent_outcome request now d r d'.
Proof.
  intros Hn0 Hn Hp Hid Hact. unfold admission, bind, get.
  destruct (CanTransition (p_state p) StateBroadcasting) eqn:Ec; cbn [negb];
    [|intros [-> (a & ? & ?)]%rejectSettlement_Ok; by eapply OutRejected].
  destruct (p_merchant p) as [mid|] eqn:Em;
    [|intros [-> (a & ? & ?)]%rejectSettlement_Ok; by eapply OutRejected].
  destruct (merchants d !! mid) as [m|] eqn:Emm;
    [|intros [-> (a & ? & ?)]%rejectSettlement_Ok; by eapply OutRejected].
  destruct (bool_decide (m_status m = MActive)) eqn:Es; cbn [negb];
    [|intros [-> (a & ? & ?)]%rejectSettlement_Ok; by eapply OutRejected].
  destruct (opt_check _ _ && _) eqn:Ev; cbn [negb];
    [|intros [-> (a & ? & ?)]%rejectSettlement_Ok; by eapply OutRejected].
  destruct (ir_Quota request <=? _) eqn:Eq;
    [intros [-> (a & ? & ?)]%rejectSettlement_Ok; by eapply OutRejected|].
  destruct (ir_GlobalQuota request <=? _) eqn:Eg;
    [intros [-> (a & ? & ?)]%rejectSettlement_Ok; by eapply OutRejected|].
  destruct (match p_signature p with Some _ => _ | None => _ end) eqn:Esig; [done|].
  intros (p' & nonce & Hst & HA & ->)%admit_Ok; [|done].
  pose proof (admits_payment _ _ _ _ _ _ _ _ HA) as Hp'. simplify_eq.
  apply andb_true_iff in Ev as [Ev1 Ev2]. bool_hyps. eapply OutAdmitted; try done. split.
  - by apply CanTransition_broadcasting.
  - exists mid, m. by repeat split.
  - destruct (p_valid_before p) as [vb|]; [|by destruct Ev2]. simpl in Ev1. bool_hyps. eauto.
  - done.
  - intros s Hs. rewrite Hs in Esig. bool_hyps. by apply String.eqb_eq.
Qed.

Lemma CreateSettlementIntent_Ok request now d r d' :
  CreateSettlementIntent request now d = Ok (r, d') -> intent_outcome request now d r d'.
Proof.
  unfold CreateSettlementIntent. destruct (IntentRequest_Validate request); [|done].
  unfold bind at 1, lift. destruct (NormalizeAddress _) as [signer|] eqn:En; [|done].
  unfold bind at 1, get. destruct (find_payment d _) as [[payment p]|] eqn:Ef.
  2:{ intros [-> (a & ? & ?)]%rejectSettlement_Ok. by eapply OutRejected. }
  apply find_payment_Some in Ef as [Hp Hid]. apply String.eqb_eq in Hid.
  destruct (terminal_tx d payment (p_state p)) as [[i t]|] eqn:Et.
  { apply terminal_tx_Some in Et as (Ht & Htp & _ & Hst).
    intros (Ha & intent & -> & ? & ? & ? & ? & ? & ? & Hc & Hr)%duplicate_intent_Ok.
    eapply (OutDuplicate _ _ _ payment p i t); try done; rewrite ?Hc, ?Hr; intros; bool_hyps;
      destruct Hst as [[? ?]|[? ?]]; try done; congruence. }
  destruct (active_tx d payment) as [[i t]|] eqn:Ea.
  { apply active_tx_Some in Ea as (Ht & Htp & _).
    intros (Ha & intent & -> & ? & ? & ? & ? & ? & ? & Hc & Hr)%duplicate_intent_Ok.
    by eapply (OutDuplicate _ _ _ payment p i t); rewrite ?Hc, ?Hr. }
  apply admission_Ok; try done; [by eapply NormalizeAddress_idem|].
  intros i t Ht Htp. pose proof (find_tx_None _ _ _ _ Ea Ht) as Hf. simpl in Hf.
  by rewrite bool_decide_true in Hf by done.
Qed.

(** The settlement quotas as invariants of the tables: whatever the order of
    calls and whatever the database clock reads, no window of the configured
    length holds more admitted settlements than the quota. *)

Local Open Scope Z_scope.
Local Open Scope db_scope.

(** ** Counting *)

(** Payments admitted in the half-open interval [(a, a + w]]. *)
Definition in_window (a : time) (w : duration) (p : Payment) : bool :=
  match p_requested_at p with
  | Some t => (a <? t) && (t <=? a + w)
  | None => false
  end.

(** Counted for everyone, or for one merchant. *)
Definition counted (who : option rowid) (p : Payment) : bool :=
  match who with
  | None => true
  | Some m => bool_decide (p_merchant p = Some m)
  end.

Definition settled_in (d : db) (who : option rowid) (a : time) (w : duration) : Z :=
  count_payments d (fun p => counted who p && in_window a w p).

(** The invariant, on the payment table. *)
Definition bounded (who : option rowid) (w : duration) (quota : Z) (d : db) : Prop :=
  forall a, settled_in d who a w <= quota.

Lemma size_le {A} (m1 m2 : gmap N A) :
  (forall j, is_Some (m1 !! j) -> is_Some (m2 !! j)) -> (size m1 <= size m2)%nat.
Proof.
  intros H. rewrite <- !(size_dom (D := gset N)). apply subseteq_size.
  intros j. rewrite !elem_of_dom. apply H.
Qed.

Lemma size_le_S {A} (m1 m2 : gmap N A) i :
  (forall j, j <> i -> is_Some (m1 !! j) -> is_Some (m2 !! j)) -> (size m1 <= S (size m2))%nat.
Proof.
  intros H. rewrite <- !(size_dom (D := gset N)).
  transitivity (size ({[i]} ∪ dom m2)).
  - apply subseteq_size. intros j. rewrite elem_of_union, elem_of_singleton, !elem_of_dom.
    destruct (decide (j = i)); auto.
  - rewrite size_union_alt, size_singleton.
    assert (size (dom m2 ∖ {[i]}) <= size (dom m2))%nat; [apply subseteq_size, subseteq_difference_l; done | lia].
Qed.

Lemma count_le d d' f g :
  (forall j p, payments d' !! j = Some p -> f p = true ->
     exists q, payments d !! j = Some q /\ g q = true) ->
  count_payments d' f <= count_payments d g.
Proof.
  intros H. unfold count_payments. apply inj_le, size_le.
  intros j [p [Hp Hf]%map_lookup_filter_Some]. destruct (H j p Hp Hf) as (q & Hq & Hg).
  exists q. by apply map_lookup_filter_Some.
Qed.

Lemma count_le_S d d' f g i :
  (forall j p, j <> i -> payments d' !! j = Some p -> f p = true ->
     exists q, payments d !! j = Some q /\ g q = true) ->
  count_payments d' f <= count_payments d g + 1.
Proof.
  intros H. unfold count_payments.
  enough (size (filter (fun ip : N * Payment => f ip.2 = true) (payments d')) <=
          S (size (filter (fun ip : N * Payment => g ip.2 = true) (payments d))))%nat by lia.
  apply (size_le_S _ _ i).
  intros j Hj [p [Hp Hf]%map_lookup_filter_Some]. destruct (H j p Hj Hp Hf) as (q & Hq & Hg).
  exists q. by apply map_lookup_filter_Some.
Qed.

(** ** The invariant on the table *)

Definition bounded_table (who : option rowid) (w : duration) (quota : Z) (m : gmap N Payment) : Prop :=
  bounded who w quota (set_payments empty_db m).

Lemma bounded_paid who w quota d : bounded who w quota d <-> paid (bounded_table who w quota) d.
Proof. done. Qed.

Lemma bounded_rows who w quota m m' :
  bounded_table who w quota m ->
  (forall j p, m' !! j = Some p -> p_requested_at p = None \/
     exists q, m !! j = Some q /\ p_requested_at p = p_requested_at q /\
       cleared (p_merchant q) (p_merchant p)) ->
  bounded_table who w quota m'.
Proof.
  intros B H a. etrans; [|apply (B a)]. apply count_le. intros j p Hp Hc.
  destruct (H j p Hp) as [Hn|(q & Hq & Hr & Hm)]; unfold in_window in *.
  - rewrite Hn, andb_false_r in Hc. done.
  - exists q. split; [done|]. rewrite <- Hr. bool_hyps. apply andb_true_intro. split; [|done].
    unfold counted in *. destruct who; [|done]. bool_hyps. apply bool_decide_eq_true.
    destruct Hm as [<-|Hm]; congruence.
Qed.

#[export] Instance bounded_admin who w quota : Administrable (bounded_table who w quota).
Proof.
  intros m i p p' B Hp (_ & Hm & _ & _ & Hr & _). apply (bounded_rows who w quota m); [done|].
  intros j q [[<- <-]|[_ Hq]]%lookup_insert_Some; right; [by exists p|].
  exists q. repeat split; [done | by left].
Qed.

Section BoundedMethods.
  Variables (who : option rowid) (w : duration) (quota : Z).

  Abbreviation I := (paid (bounded_table who w quota)).

Lemma bounded_record_payment v now : preserves I (record_payment v now).
Proof.
  unfold record_payment. walk. apply paid_put_payment. intros m B _.
  apply (bounded_rows who w quota m); [done|].
  intros j p [[<- <-]|[_ Hp]]%lookup_insert_Some; [by left | right].
  exists p. repeat split; [done | by left].
Qed.

Lemma bounded_recordVerification u a now : preserves I (recordVerification u a now).
Proof.
  assert (forall (x : AttemptRow) (r : res unit),
    preserves I (insert_verification_attempt x ;;! ret r)) as Hthen by walk.
  unfold recordVerification. destruct (String.eqb _ _); [|walk]. destruct (va_Payment a); [|walk].
  intros d r d' A H. destruct (record_payment v now d) as [[i d1]|e] eqn:E.
  - apply bounded_record_payment in E; [|done]. by eapply Hthen.
  - destruct (errors_Is e EUniqueViolation); [|done]. by eapply Hthen.
Qed.

(** Admission: the count the transaction checked covers every window that
    contains its own stamp. *)
Lemma bounded_CreateSettlementIntent request now :
  w <= ir_QuotaWindow request ->
  match who with None => ir_GlobalQuota request | Some _ => ir_Quota request end <= quota ->
  preserves I (CreateSettlementIntent request now).
Proof.
  intros Hw Hq d r d' B H. change (bounded who w quota d) in B.
  change (bounded who w quota d'). apply CreateSettlementIntent_Ok in H.
  destruct H as [a cause d' _ ->|payment p i r intent d' _ _ _ _ _ _ _ _ _ _ _ _ ->
    |signer payment p nonce intent d' _ _ HA HAd _ _ _ _ _ _ _ _ _].
  - exact B.
  - exact B.
  - intros a. destruct HAd as [Hp _ _ Ep _ _ _ _ _ _].
    set (p' := payment_set_requested _ _ _) in Ep.
    destruct (counted who p' && in_window a w p') eqn:Ec.
    + bool_hyps. assert (a < now <= a + w) as Hwin.
      { unfold in_window, p' in *. simpl in *. bool_hyps. lia. }
      etrans; [apply (count_le_S d d' _
        (fun q => counted who q && requested_within now (ir_QuotaWindow request) q) payment)|].
      * intros j q Hj Hq' Hc. rewrite Ep, lookup_insert_ne in Hq' by done. exists q. split; [done|].
        bool_hyps. apply andb_true_intro. split; [done|]. unfold in_window, requested_within in *.
        destruct (p_requested_at q); [|done]. bool_hyps. apply Z.ltb_lt. lia.
      * destruct HA as [_ (mid & m & Hm & _ & _ & Hcm) _ Hcg _]. unfold counted in *.
        destruct who as [m'|].
        -- bool_hyps. unfold p' in *. simpl in *. simplify_eq. lia.
        -- pose proof (count_le d d (fun q => true && requested_within now (ir_QuotaWindow request) q)
             (requested_within now (ir_QuotaWindow request))) as Hle.
           specialize (Hle ltac:(simpl; eauto)). lia.
    + etrans; [|apply (B a)]. apply count_le. intros j q Hq' Hc. rewrite Ep in Hq'.
      apply lookup_insert_Some in Hq' as [[<- <-]|[_ Hq']]; [congruence | eauto].
Qed.

End BoundedMethods.

(** Every request carries the configured quotas. *)
Definition under_policy (w : duration) (quota global : Z) (op : store_op) : Prop :=
  match op with
  | OpIntent r _ => w <= ir_QuotaWindow r /\ ir_Quota r <= quota /\ ir_GlobalQuota r <= global
  | _ => True
  end.

Lemma bounded_exec who w quota global op :
  under_policy w quota global op ->
  preserves (bounded who w (match who with None => global | Some _ => quota end)) (exec op).
Proof.
  intros Hp. set (q := match who with None => global | Some _ => quota end).
  change (preserves (paid (bounded_table who w q)) (exec op)).
  destruct op; try (by apply paid_exec_admin; [apply _|]); cbn [exec]; unfold discard.
  - apply preserves_bind; [apply bounded_recordVerification | walk].
  - apply preserves_bind; [|walk]. apply bounded_CreateSettlementIntent; [apply Hp|].
    unfold q. destruct who; apply Hp.
Qed.

Lemma bounded_run who w quota global ops :
  0 <= quota -> 0 <= global -> Forall (under_policy w quota global) ops ->
  bounded who w (match who with None => global | Some _ => quota end) (run_ops empty_db ops).
Proof.
  intros H0 H1 Hops. unfold run_ops.
  assert (forall d, bounded who w (match who with None => global | Some _ => quota end) d ->
    bounded who w (match who with None => global | Some _ => quota end) (fold_left call_op ops d)) as H.
  { induction Hops as [|op ops Hop _ IH]; intros d B; simpl; [done|]. apply IH. unfold call_op.
    destruct (exec op d) as [[? ?]|] eqn:E; [|done]. by eapply bounded_exec. }
  apply H. intros a. change (settled_in empty_db who a w) with 0. by destruct who.
Qed.
