(* ===== verification/System.v ===== *)
(** The settlement service as a concurrent system: any number of HTTP
    requests and worker ticks, each a program, interleaved call by call over
    one database, with an adversarial chain and processes that may stop at any
    point.

    A store call is atomic, being one database transaction.  Its caller sees
    the answer, or an error although the transaction committed, or an error
    and no change.  Everything the chain answers is arbitrary; the signer
    signs what it is asked to or fails. *)

From Stdlib Require Import ZArith Lia Strings.Byte.
From stdpp Require Import base gmap list strings relations.
From S2P Require Import Prelude GoStd Fees State Geth Policy Calldata Signer WalletProof.
From S2P Require Import Verification Schema Work Hoare Store StoreWork StoreRecovery Prog Service Recovery StoreInv.
From S2P Require Import StoreNonce StoreEvolve StoreRows StoreIntent.
Local Open Scope Z_scope.
Local Open Scope prog_scope.

(** ** Semantics *)

(** Committed databases and broadcast transactions, newest first. *)
Inductive event :=
  | Commit (d : db)
  | Sent (raw : string).

Record world := {
  w_db : db;
  w_trace : list event;
}.

Definition commit (d : db) (w : world) : world :=
  {| w_db := d; w_trace := Commit d :: w_trace w |}.

Definition emit (raw : string) (w : world) : world :=
  {| w_db := w_db w; w_trace := Sent raw :: w_trace w |}.

Section System.
  Context `{Geth} `{X402} (cfg : Config) (signs : Transaction -> SignedTransaction -> Prop).

Inductive pstep {A} : world -> prog A -> world -> prog A -> Prop :=
  | step_commit X (m : env -> DB X) k e x d w :
      m e (w_db w) = Ok (x, d) -> pstep w (Call m k) (commit d w) (k (Ok x))
  | step_lost X (m : env -> DB X) k e x d err w :
      m e (w_db w) = Ok (x, d) -> pstep w (Call m k) (commit d w) (k (Err err))
  | step_failed X (m : env -> DB X) k err w : pstep w (Call m k) w (k (Err err))
  | step_now k t w : pstep w (Now k) w (k t)
  | step_cancelled k b w : pstep w (Cancelled k) w (k b)
  | step_signed tx k st w : signs tx st -> pstep w (Sign tx k) w (k (Ok st))
  | step_unsigned tx k err w : pstep w (Sign tx k) w (k (Err err))
  | step_send raw k r w : pstep w (Send raw k) (emit raw w) (k r)
  | step_receipt h k r w : pstep w (GetReceipt h k) w (k r)
  | step_transaction h k r w : pstep w (GetTransaction h k) w (k r)
  | step_block n k r w : pstep w (GetBlock n k) w (k r)
  | step_height k r w : pstep w (GetHeight k) w (k r)
  | step_simulate from to data k r w : pstep w (Simulate from to data k) w (k r).

(** What runs: settle requests and the ticks of the three workers. *)
Inductive entry : prog unit -> Prop :=
  | entry_settle request : entry (Settle cfg request ;;~ Ret tt)
  | entry_broadcast identity : entry (BroadcastWorker cfg identity)
  | entry_confirmation identity : entry (ConfirmationWorker cfg identity)
  | entry_recovery identity : entry (recovery_process cfg identity).

(** The other writers of the tables: verification, start-up, retention and
    the merchant service. *)
Definition outside (op : store_op) : bool :=
  match op with
  | OpMerchants _ | OpSeed _ _ | OpVerification _ _ _ | OpRetention _ _ => true
  | _ => false
  end.

Definition sys : Type := world * list (prog unit).

Inductive sstep : sys -> sys -> Prop :=
  | s_spawn w ps p : entry p -> sstep (w, ps) (w, p :: ps)
  | s_run w l1 p l2 w' p' : pstep w p w' p' -> sstep (w, l1 ++ p :: l2) (w', l1 ++ p' :: l2)
  | s_crash w l1 p l2 : sstep (w, l1 ++ p :: l2) (w, l1 ++ l2)
  | s_store w ps op d : outside op = true -> exec op (w_db w) = Ok (tt, d) ->
      sstep (w, ps) (commit d w, ps).

Definition init : sys := ({| w_db := empty_db; w_trace := [Commit empty_db] |}, []).

Definition runs_to (s : sys) : Prop := rtc sstep init s.

(** ** What a broadcast transaction is *)

Definition ceiling : Z := default 0 (SetString10 (MaxFeePerGas cfg)).

(** The most gas a transaction may use, and the most settlements of a window. *)
Definition gas_cap : Z := Z.max 0 (GasLimit cfg).
Definition quota_cap (who : option rowid) : Z :=
  Z.max 0 (match who with None => GlobalQuota cfg | Some _ => MerchantQuota cfg end).

(** The configured signer, as the rows name it. *)
Definition signer_of : string :=
  match NormalizeAddress (SignerAddress cfg) with Ok s => s | Err _ => EmptyString end.

(** [auth] is the authorization of payment [i]. *)
Definition described (d : db) (i : rowid) (auth : Calldata.Authorization) : Prop :=
  exists p, payments d !! i = Some p /\ authorization_of p = Some auth.

(** It was, in a committed database: retention may since have redacted it. *)
Definition describes (trace : list event) (i : rowid) (auth : Calldata.Authorization) : Prop :=
  exists d, Commit d ∈ trace /\ described d i auth.

(** [raw] is a transaction for row [r]: a transfer of USDC on mainnet with the
    row's nonce, no ether, gas and a fee cap within their bounds, and calldata
    built from the authorization of the row's payment. *)
Definition signature_of (trace : list event) (r : Tx) (raw : list byte) : Prop :=
  exists t auth, UnmarshalBinary raw = Some t /\
    tx_ChainId t = MainnetChainID /\
    (exists to, tx_To t = Some to /\ EqualFold (address_Hex to) MainnetUSDC = true) /\
    tx_Value t = 0 /\ tx_Nonce t = t_nonce r /\ 0 < tx_GasFeeCap t <= ceiling /\ tx_Gas t <= gas_cap /\
    Calldata.TransferWithAuthorizationData auth = Ok (tx_Data t) /\ describes trace (t_payment r) auth.

(** The hash was in a row of a committed database. *)
Definition recorded (trace : list event) (h : string) : Prop :=
  exists d i r, Commit d ∈ trace /\ txs d !! i = Some r /\ t_raw_hash r = Some h.

(** What may be sent in a world. *)
Definition sendable (w : world) (raw : string) : Prop :=
  exists i r b, raw = raw_hex b /\ txs (w_db w) !! i = Some r /\
    signature_of (w_trace w) r b /\ recorded (w_trace w) (hex_EncodeToString (keccak256 b)).

(** ** The invariant of the tables *)

Definition raw_ok (trace : list event) (r : Tx) : Prop :=
  forall b, t_raw r = Some b ->
    t_status r <> TxIntent /\ t_raw_hash r = Some (hex_EncodeToString (keccak256 b)) /\ signature_of trace r b.

Record good (trace : list event) (d : db) : Prop := {
  good_reachable : reachable d;
  good_fee : rows (fun _ r => forall f, t_max_fee r = Some f -> f <= ceiling) d;
  good_gas : rows (fun _ r => forall g, t_gas_limit r = Some g -> g <= gas_cap) d;
  good_quota : forall who, bounded who (QuotaWindow cfg) (quota_cap who) d;
  good_signer : rows (fun _ r => t_signer r = signer_of) d;
  good_raw : rows (fun _ r => raw_ok trace r) d;
}.

(** What the service must respect when it calls [op]. *)
Definition op_ok (trace : list event) (d : db) (op : store_op) : Prop :=
  (forall request now, op = OpIntent request now -> ir_SignerAddress request = SignerAddress cfg) /\
  under_policy (QuotaWindow cfg) (quota_cap (Some 0%N)) (quota_cap None) op /\
  forall w, op_write op = Some w ->
    wr_gas w <= gas_cap /\
    (forall f, numeric_text (wr_fee w) = Some f -> f <= ceiling) /\
    forall b, wr_raw w = Some b -> wr_hash w = hex_EncodeToString (keccak256 b) /\
      forall o, txs d !! wr_target w = Some o -> signature_of trace o b.

(** ** Worlds to come *)

Definition inv (w : world) : Prop := good (w_trace w) (w_db w) /\ Commit (w_db w) ∈ w_trace w.

Definition future (w w' : world) : Prop :=
  evolves (w_db w) (w_db w') /\ inv w' /\ exists l, w_trace w' = l ++ w_trace w.

(** ** Safe programs

    [safe p Q w]: from [w], whatever the other processes do between the calls
    of [p], every call keeps the invariant, everything sent is sendable, and
    [p] ends with [Q]. *)
Fixpoint safe {A} (p : prog A) (Q : A -> world -> Prop) (w : world) : Prop :=
  match p with
  | Ret a => Q a w
  | Call m k =>
      forall w1, future w w1 ->
        (forall e x d, m e (w_db w1) = Ok (x, d) ->
           future w1 (commit d w1) /\ safe (k (Ok x)) Q (commit d w1) /\
           forall err, safe (k (Err err)) Q (commit d w1)) /\
        forall err, safe (k (Err err)) Q w1
  | Now k => forall t, safe (k t) Q w
  | Cancelled k => forall b, safe (k b) Q w
  | Sign tx k =>
      (forall st, signs tx st -> safe (k (Ok st)) Q w) /\ forall err, safe (k (Err err)) Q w
  | Send raw k => forall w1, future w w1 -> sendable w1 raw /\ forall r, safe (k r) Q (emit raw w1)
  | GetReceipt _ k => forall r, safe (k r) Q w
  | GetTransaction _ k => forall r, safe (k r) Q w
  | GetBlock _ k => forall r, safe (k r) Q w
  | GetHeight k => forall r, safe (k r) Q w
  | Simulate _ _ _ k => forall r, safe (k r) Q w
  end.

End System.
