(* ===== verification/SystemLogic.v ===== *)
(** The rules for showing programs safe, and that safe programs keep the
    system's invariant. *)

From Stdlib Require Import ZArith Lia Strings.Byte.
From stdpp Require Import base gmap list strings relations.
From S2P Require Import Prelude GoStd Fees State Geth Policy Calldata Signer WalletProof.
From S2P Require Import Verification Schema Work Hoare Store StoreWork StoreRecovery Prog Service Recovery StoreInv.
From S2P Require Import StoreNonce StoreEvolve StoreRows StoreIntent System.
Local Open Scope Z_scope.
Local Open Scope prog_scope.

Section Quiet.
  Context `{Geth} (cfg : Config).

(** ** Quiet programs: nothing is sent, and every call is permitted whatever
    the tables hold *)

Definition harmless {X} (m : env -> DB X) : Prop :=
  forall e d x d', m e d = Ok (x, d') ->
    d' = d \/ exists op, exec op d = Ok (tt, d') /\ forall tr d0, op_ok cfg tr d0 op.

Fixpoint quiet {A} (p : prog A) : Prop :=
  match p with
  | Ret _ => True
  | Call m k => harmless m /\ forall r, quiet (k r)
  | Now k => forall t, quiet (k t)
  | Cancelled k => forall b, quiet (k b)
  | Sign _ k => forall r, quiet (k r)
  | Send _ _ => False
  | GetReceipt _ k => forall r, quiet (k r)
  | GetTransaction _ k => forall r, quiet (k r)
  | GetBlock _ k => forall r, quiet (k r)
  | GetHeight k => forall r, quiet (k r)
  | Simulate _ _ _ k => forall r, quiet (k r)
  end.

Lemma quiet_bind {A B} (p : prog A) (k : A -> prog B) :
  quiet p -> (forall a, quiet (k a)) -> quiet (pbind p k).
Proof. intros Hp Hk. induction p as [a|X m h IH|h IH|h IH|tx h IH|raw h IH|hash h IH|hash h IH|n h IH|h IH|from to data h IH];
    simpl in *; naive_solver. Qed.

End Quiet.

Section Logic.
  Context `{Geth} `{X402} (cfg : Config) (signs : Transaction -> SignedTransaction -> Prop).

  Abbreviation good := (good cfg).
  Abbreviation inv := (inv cfg).
  Abbreviation future := (future cfg).
  Abbreviation safe := (safe cfg signs).
  Abbreviation sendable := (sendable cfg).
  Abbreviation op_ok := (op_ok cfg).
  Abbreviation harmless := (harmless cfg).
  Abbreviation quiet := (quiet cfg).

(** ** Facts that last *)

Lemma describes_mono t l i auth : describes t i auth -> describes (l ++ t) i auth.
Proof. intros (d & Hd & Hp). exists d. split; [apply elem_of_app; auto | done]. Qed.

Lemma signature_mono t l r r' raw :
  signature_of cfg t r raw -> same_key r r' -> signature_of cfg (l ++ t) r' raw.
Proof.
  intros (s & auth & H1 & H2 & H3 & H4 & H5 & H6 & H7 & H8 & H9) (Kp & Ks & Kn).
  exists s, auth. rewrite Kn, Kp. eauto 11 using describes_mono.
Qed.

Lemma recorded_mono t l h : recorded t h -> recorded (l ++ t) h.
Proof. intros (d & i & r & Hd & Hr). exists d, i, r. split; [apply elem_of_app; auto | done]. Qed.

Lemma future_refl w : inv w -> future w w.
Proof. intros I. split; [reflexivity|]. split; [done|]. by exists []. Qed.

Lemma future_trans a b c : future a b -> future b c -> future a c.
Proof.
  intros (E1 & _ & l1 & T1) (E2 & I & l2 & T2). split; [by etrans|]. split; [done|].
  exists (l2 ++ l1). by rewrite T2, T1, app_assoc.
Qed.

Lemma future_inv w w' : future w w' -> inv w'.
Proof. by intros (_ & I & _). Qed.

(** ** The invariant of the tables is kept by permitted calls *)

Lemma good_wf t d : good t d -> wf d.
Proof. intros G. apply reachable_wf, G. Qed.

Lemma raw_ok_tracks t l r r' : raw_ok cfg t r -> tracks r r' -> raw_ok cfg (l ++ t) r'.
Proof.
  intros Hr [K _ _ Hh R I] b Hb. destruct R as [E|E]; [|congruence]. rewrite E in Hb.
  destruct (Hr b Hb) as (Hs & Hh' & Hsig). split; [auto|]. split; [congruence|].
  by eapply signature_mono.
Qed.

Lemma good_mono t l d : good t d -> good (l ++ t) d.
Proof.
  intros [N F G Q S R]. split; try done. intros i r Hr.
  by apply (raw_ok_tracks t l r r); [apply (R i)|].
Qed.

Lemma future_emit raw w : inv w -> future w (emit raw w).
Proof.
  intros [G C]. split; [reflexivity|]. split; [|by exists [Sent raw]]. split; [by apply (good_mono _ [_])|].
  apply elem_of_cons. by right.
Qed.

Lemma bounded_exec_caps op d a d' who :
  under_policy (QuotaWindow cfg) (quota_cap cfg (Some 0%N)) (quota_cap cfg None) op ->
  bounded who (QuotaWindow cfg) (quota_cap cfg who) d -> exec op d = Ok (a, d') ->
  bounded who (QuotaWindow cfg) (quota_cap cfg who) d'.
Proof. intros Hp B E. pose proof (bounded_exec who _ _ _ op Hp d a d') as HB. destruct who; by apply HB. Qed.

Lemma good_exec t op d a d' :
  good t d -> op_ok t d op -> exec op d = Ok (a, d') -> evolves d d' /\ good (Commit d' :: t) d'.
Proof.
  intros [N F G Q S R] (Hint & Hq & Hw) E. pose proof (exec_origin _ _ _ _ E) as O.
  destruct (exec_evolves _ _ _ _ (reachable_wf _ N) E) as [_ Ev]. split; [done|]. split.
  - by eapply reachable_step.
  - intros i r Hr f Hf. destruct (O i r Hr) as [o Ho [_ Hfee _ _ _ _]|w o Hop _ _ Hfee _ _ _ _|req now _ _ Hfee _ _ _].
    + apply (F i o Ho). congruence.
    + apply (proj1 (proj2 (Hw w Hop))). congruence.
    + congruence.
  - intros i r Hr g Hg. destruct (O i r Hr) as [o Ho [_ _ Hgas _ _ _]|w o Hop _ _ _ Hgas _ _ _|req now _ _ _ Hgas _ _].
    + apply (G i o Ho). congruence.
    + rewrite Hgas in Hg. injection Hg as <-. apply (Hw w Hop).
    + congruence.
  - intros who. apply (bounded_exec_caps op d a d' who Hq (Q who) E).
  - intros i r Hr. destruct (O i r Hr) as [o Ho [K _ _ _ _ _]|w o Hop Ho K _ _ _ _ _|req now Hop Hn _ _ _ _].
    + destruct K as (_ & -> & _). by apply (S i o).
    + destruct K as (_ & -> & _). by apply (S (wr_target w) o).
    + rewrite (Hint req now Hop) in Hn. unfold signer_of. by rewrite Hn.
  - intros i r Hr. destruct (O i r Hr) as [o Ho T|w o Hop Ho K _ _ Hh Hraw Hs|req now _ _ _ _ Hraw _].
    + eapply (raw_ok_tracks t [_]); [by apply (R i o) | done].
    + intros b Hb. split; [done|]. destruct Hraw as [Hn|[Hraw|[Hraw Hi]]]; [congruence | |].
      * destruct (proj2 (proj2 (Hw w Hop)) b) as [Hhash Hsig]; [congruence|]. split; [congruence|].
        eapply (signature_mono t [_]); eauto.
      * destruct (R _ o Ho b) as [Hni _]; congruence.
    + intros b Hb. congruence.
Qed.

(** ** Rules *)

Lemma safe_future {A} (p : prog A) (Q : A -> world -> Prop) w w' :
  (forall a u v, future u v -> Q a u -> Q a v) -> future w w' -> safe p Q w -> safe p Q w'.
Proof.
  intros HQ. revert w w'. induction p as [a|X m h IH|h IH|h IH|tx h IH|raw h IH|hash h IH|hash h IH|n h IH|h IH|from to data h IH];
    simpl; intros w w' F HS; eauto using future_trans.
  destruct HS as [H1 H2]. split; eauto.
Qed.

Lemma safe_bind {A B} (p : prog A) (k : A -> prog B) (Q : B -> world -> Prop) w :
  safe p (fun a w' => safe (k a) Q w') w -> safe (pbind p k) Q w.
Proof.
  revert w. induction p as [a|X m h IH|h IH|h IH|tx h IH|raw h IH|hash h IH|hash h IH|n h IH|h IH|from to data h IH];
    simpl; intros w HS; eauto.
  - intros w1 F. destruct (HS w1 F) as [H1 H2]. split; [|eauto]. intros e x d E.
    destruct (H1 e x d E) as (F1 & S1 & S2). eauto.
  - destruct HS as [H1 H2]. split; eauto.
  - intros w1 F. destruct (HS w1 F) as [H1 H2]. eauto.
Qed.

Lemma safe_weaken {A} (p : prog A) (Q R : A -> world -> Prop) w :
  (forall a v, Q a v -> R a v) -> safe p Q w -> safe p R w.
Proof.
  intros HQ. revert w. induction p as [a|X m h IH|h IH|h IH|tx h IH|raw h IH|hash h IH|hash h IH|n h IH|h IH|from to data h IH];
    simpl; intros w HS; eauto.
  - intros w1 F. destruct (HS w1 F) as [H1 H2]. split; [|eauto]. intros e x d E.
    destruct (H1 e x d E) as (F1 & S1 & S2). eauto.
  - destruct HS as [H1 H2]. split; eauto.
  - intros w1 F. destruct (HS w1 F) as [H1 H2]. eauto.
Qed.

(** A call that only reads, or that some permitted operation explains. *)
Definition permitted {X} (m : env -> DB X) (w : world) : Prop :=
  forall w1 e x d, future w w1 -> m e (w_db w1) = Ok (x, d) ->
    d = w_db w1 \/ exists op, exec op (w_db w1) = Ok (tt, d) /\ op_ok (w_trace w1) (w_db w1) op.

Lemma permitted_future {X} (m : env -> DB X) w w1 e x d :
  permitted m w -> future w w1 -> m e (w_db w1) = Ok (x, d) -> future w1 (commit d w1).
Proof.
  intros P F E. pose proof (future_inv _ _ F) as [G C].
  assert (evolves (w_db w1) d /\ good (Commit d :: w_trace w1) d) as [Ev Gd].
  { destruct (P _ _ _ _ F E) as [->|(op & Hop & Hok)];
      [split; [reflexivity | by apply (good_mono _ [_])]|].
    by eapply good_exec. }
  split; [done|]. split; [|by exists [Commit d]]. split; [done|]. apply elem_of_cons. by left.
Qed.

(** The answer may be lost, so what follows an error holds in either world. *)
Lemma safe_call {A X} (m : env -> DB X) (k : res X -> prog A) Q w :
  permitted m w ->
  (forall w1 e x d, future w w1 -> m e (w_db w1) = Ok (x, d) -> future w1 (commit d w1) ->
     safe (k (Ok x)) Q (commit d w1)) ->
  (forall w1 err, future w w1 -> safe (k (Err err)) Q w1) ->
  safe (Call m k) Q w.
Proof.
  intros P Hok Herr w1 F. split; [|by intros err; apply Herr].
  intros e x d E. pose proof (permitted_future _ _ _ _ _ _ P F E) as F1.
  split; [done|]. split; [by eapply Hok|]. intros err. apply Herr. by eapply future_trans.
Qed.

Lemma safe_send {A} raw (k : res string -> prog A) Q w :
  (forall w1, future w w1 -> sendable w1 raw) ->
  (forall w1 r, future w w1 -> safe (k r) Q w1) -> safe (Send raw k) Q w.
Proof.
  intros Hs Hk w1 F. split; [by apply Hs|]. intros r. apply Hk.
  eapply future_trans; [exact F|]. apply future_emit. by eapply future_inv.
Qed.

Lemma harmless_permitted {X} (m : env -> DB X) w : harmless m -> permitted m w.
Proof. intros Hm w1 e x d _ E. destruct (Hm _ _ _ _ E) as [?|(op & ? & ?)]; eauto. Qed.

Lemma quiet_safe {A} (p : prog A) w : inv w -> quiet p -> safe p (fun _ w' => future w w') w.
Proof.
  intros I Hp. assert (forall w0, future w0 w -> safe p (fun _ w' => future w0 w') w) as HS;
    [|by apply HS, future_refl].
  revert w I. induction p as [a|X m h IH|h IH|h IH|tx h IH|raw h IH|hash h IH|hash h IH|n h IH|h IH|from to data h IH];
    simpl; intros w I w0 F; try (by eauto); try naive_solver.
  destruct Hp as [Hm Hk]. apply safe_call; [by apply harmless_permitted| |].
  - intros w1 e x d F1 _ F2. apply IH; [done | by eapply future_inv | eauto using future_trans].
  - intros w1 err F1. apply IH; [done | by eapply future_inv | eauto using future_trans].
Qed.

End Logic.
