(* ===== verification/SystemCalls.v ===== *)
(** The store calls of the service: which are harmless whatever the tables
    hold, what the loading calls return, and what the recording calls leave
    behind. *)

From Stdlib Require Import ZArith Lia Strings.Byte.
From stdpp Require Import base gmap list strings relations.
From S2P Require Import Prelude GoStd Geth Policy WalletProof Verification Signer Fees State.
From S2P Require Import Schema Hoare Calldata Work Store StoreWork StoreRecovery Prog Service.
From S2P Require Import Recovery StoreInv StoreNonce StoreEvolve StoreRows StoreIntent System.
From S2P Require Import SystemLogic.

Local Open Scope Z_scope.
Local Open Scope db_scope.

Section Calls.
  Context `{Geth} `{X402} (cfg : Config).

  Abbreviation harmless := (harmless cfg).
  Abbreviation op_ok := (op_ok cfg).

(** ** Harmless calls *)

Lemma op_ok_plain t d op :
  op_write op = None -> match op with OpIntent _ _ => False | _ => True end -> op_ok t d op.
Proof. intros Hw Hi. split; [by intros ? ? ->|]. split; [by destruct op | by intros w Hw'; rewrite Hw' in Hw]. Qed.

Lemma harmless_op {X} (m : env -> DB X) (op : env -> store_op) :
  (forall e d, exec (op e) d = discard (m e) d) ->
  (forall e, op_write (op e) = None /\ match op e with OpIntent _ _ => False | _ => True end) ->
  harmless m.
Proof.
  intros Hm Hop e d x d' E. right. exists (op e). split.
  - rewrite Hm. unfold discard, bind. by rewrite E.
  - intros t d0. destruct (Hop e). by apply op_ok_plain.
Qed.

(** A method without a result is its own operation. *)
Lemma harmless_unit (m : env -> DB unit) (op : env -> store_op) :
  (forall e d, exec (op e) d = m e d) ->
  (forall e, op_write (op e) = None /\ match op e with OpIntent _ _ => False | _ => True end) ->
  harmless m.
Proof.
  intros Hm Hop e d [] d' E. right. exists (op e). split; [by rewrite Hm|].
  intros t d0. destruct (Hop e). by apply op_ok_plain.
Qed.

Lemma harmless_read {X} (m : env -> DB X) :
  (forall e d, preserves (eq d) (m e)) -> harmless m.
Proof. intros Hm e d x d' E. left. symmetry. by apply (Hm e d d x d'). Qed.

Lemma harmless_ReleaseLease p w : harmless (fun e => ReleaseLease p w (e_now e)).
Proof. by apply (harmless_unit _ (fun e => OpRelease p w (e_now e))). Qed.

Lemma harmless_RenewLease p w t dur : harmless (fun _ => RenewLease p w t dur).
Proof. by apply (harmless_op _ (fun _ => OpRenew p w t dur)). Qed.

Lemma harmless_ClaimPayment p w dur t : harmless (fun e => ClaimPayment p w dur t (e_now e)).
Proof. by apply (harmless_op _ (fun e => OpClaim p w dur t (e_now e))). Qed.

Lemma harmless_ClaimPayments r : harmless (fun e => ClaimPayments r (e_locked e) (e_now e)).
Proof. by apply (harmless_op _ (fun e => OpClaims r (e_locked e) (e_now e))). Qed.

Lemma harmless_MarkTxAmbiguous p t a : harmless (fun e => MarkTxAmbiguous p t a (e_now e)).
Proof. by apply (harmless_unit _ (fun e => OpAmbiguous p t a (e_now e))). Qed.

Lemma harmless_MarkTxBroadcast p t h a : harmless (fun e => MarkTxBroadcast p t h a (e_now e)).
Proof. by apply (harmless_unit _ (fun e => OpBroadcast p t h a (e_now e))). Qed.

Lemma harmless_MarkIntentExpired p t a : harmless (fun e => MarkIntentExpired p t a (e_now e)).
Proof. by apply (harmless_unit _ (fun e => OpExpired p t a (e_now e))). Qed.

Lemma harmless_MarkIntentUnsettleable p t a : harmless (fun e => MarkIntentUnsettleable p t a (e_now e)).
Proof. by apply (harmless_unit _ (fun e => OpUnsettleable p t a (e_now e))). Qed.

Lemma harmless_MarkTxConfirming p t b h a : harmless (fun e => MarkTxConfirming p t b h a (e_now e)).
Proof. by apply (harmless_unit _ (fun e => OpConfirming p t b h a (e_now e))). Qed.

Lemma harmless_MarkTxConfirmed p t b h g pr a :
  harmless (fun e => MarkTxConfirmed p t b h g pr a (e_now e)).
Proof. by apply (harmless_unit _ (fun e => OpConfirmed p t b h g pr a (e_now e))). Qed.

Lemma harmless_MarkTxReverted p t g pr a : harmless (fun e => MarkTxReverted p t g pr a (e_now e)).
Proof. by apply (harmless_unit _ (fun e => OpReverted p t g pr a (e_now e))). Qed.

Lemma harmless_MarkTxReorgedOut p t a : harmless (fun e => MarkTxReorgedOut p t a (e_now e)).
Proof. by apply (harmless_unit _ (fun e => OpReorged p t a (e_now e))). Qed.

Lemma harmless_MarkTxRecoveredBroadcast p t h a :
  harmless (fun e => MarkTxRecoveredBroadcast p t h a (e_now e)).
Proof. by apply (harmless_unit _ (fun e => OpRecovered p t h a (e_now e))). Qed.

Lemma harmless_MarkAmbiguousRetry p t : harmless (fun e => MarkAmbiguousRetry p t (e_now e)).
Proof. by apply (harmless_unit _ (fun e => OpAmbiguousRetry p t (e_now e))). Qed.

Lemma harmless_MarkReplacementLanded p t ok b h g pr a :
  harmless (fun e => MarkReplacementLanded p t ok b h g pr a (e_now e)).
Proof. by apply (harmless_unit _ (fun e => OpLanded p t ok b h g pr a (e_now e))). Qed.

Lemma harmless_MarkGapFillerResolved t g pr : harmless (fun e => MarkGapFillerResolved t g pr (e_now e)).
Proof. by apply (harmless_unit _ (fun e => OpGapResolved t g pr (e_now e))). Qed.

Lemma harmless_MarkGapFillerSucceeded p t b h g pr a :
  harmless (fun e => MarkGapFillerSucceeded p t b h g pr a (e_now e)).
Proof. by apply (harmless_unit _ (fun e => OpGapSucceeded p t b h g pr a (e_now e))). Qed.

Lemma harmless_LoadSettlementWork p : harmless (fun e => LoadSettlementWork p (e_now e)).
Proof. apply harmless_read. intros e d. unfold LoadSettlementWork. walk. Qed.

Lemma harmless_ListReplacedPending : harmless (fun _ => ListReplacedPending).
Proof. apply harmless_read. intros e d. unfold ListReplacedPending. walk. Qed.

Lemma harmless_ListDroppedBlockingGaps s t : harmless (fun _ => ListDroppedBlockingGaps s t).
Proof. apply harmless_read. intros e d. unfold ListDroppedBlockingGaps. walk. Qed.

Lemma harmless_ListGapFillers : harmless (fun _ => ListGapFillers).
Proof. apply harmless_read. intros e d. unfold ListGapFillers. walk. Qed.

Lemma harmless_ListStuckGapFillers s dur : harmless (fun e => ListStuckGapFillers s dur (e_now e)).
Proof. apply harmless_read. intros e d. unfold ListStuckGapFillers. walk. Qed.

Lemma harmless_CreateSettlementIntent r :
  ir_SignerAddress r = SignerAddress cfg -> ir_QuotaWindow r = QuotaWindow cfg -> ir_Quota r = MerchantQuota cfg ->
  ir_GlobalQuota r = GlobalQuota cfg -> harmless (fun e => CreateSettlementIntent r (e_now e)).
Proof.
  intros Hr Hw Hq Hg e d x d' E. right. exists (OpIntent r (e_now e)). split.
  - cbn [exec]. unfold discard, bind. by rewrite E.
  - intros d0. split; [by intros ? ? [= <- _]|]. split; [|done]. cbn. rewrite Hw, Hq, Hg. unfold quota_cap. lia.
Qed.

End Calls.

Create HintDb quiet.
#[export] Hint Resolve harmless_ReleaseLease harmless_RenewLease harmless_ClaimPayment
  harmless_ClaimPayments harmless_MarkTxAmbiguous harmless_MarkTxBroadcast
  harmless_MarkIntentExpired harmless_MarkIntentUnsettleable harmless_MarkTxConfirming
  harmless_MarkTxConfirmed harmless_MarkTxReverted harmless_MarkTxReorgedOut
  harmless_MarkTxRecoveredBroadcast harmless_MarkAmbiguousRetry harmless_MarkReplacementLanded
  harmless_MarkGapFillerResolved harmless_MarkGapFillerSucceeded harmless_LoadSettlementWork
  harmless_ListReplacedPending harmless_ListDroppedBlockingGaps harmless_ListGapFillers
  harmless_ListStuckGapFillers harmless_CreateSettlementIntent : quiet.

(** ** What the loading calls return *)

(** The work of a row: its payment, nonce and authorization, and the fees, gas
    and hash the row has. *)
Definition loaded (d : db) (work : Work) : Prop :=
  exists r, txs d !! w_TransactionID work = Some r /\ t_payment r = w_PaymentID work /\
    t_nonce r = w_Nonce work /\ described d (w_PaymentID work) (w_Authorization work) /\
    (forall f, SetString10 (w_MaxFeePerGas work) = Some f -> t_max_fee r = Some f) /\
    (w_GasLimit work = 0 \/ t_gas_limit r = Some (w_GasLimit work)) /\
    (w_RawHash work <> EmptyString -> t_raw_hash r = Some (w_RawHash work)).

Lemma parseNonce_FormatInt z n : parseNonce (FormatInt z) = Ok n -> n = z.
Proof.
  unfold parseNonce. destruct (ParseUint64 (FormatInt z)) eqn:E; [|done]. intros [= <-].
  by apply ParseUint64_FormatInt in E as [-> _].
Qed.

Lemma text_inv o f : SetString10 (text o) = Some f -> o = Some f.
Proof. destruct o as [z|]; simpl; [by rewrite SetString10_print; intros [= ->] | done]. Qed.

Lemma LoadSettlementWork_Ok payment now d work d' :
  LoadSettlementWork payment now d = Ok (work, d') -> d' = d /\ loaded d work.
Proof.
  unfold LoadSettlementWork, bind, get, lift, fail, ret. intros HH.
  destruct (payments d !! payment) as [p|] eqn:Hp; [|done].
  destruct (active_tx d payment) as [[i r]|] eqn:Hr; [|done].
  apply active_tx_Some in Hr as (Hr & Hpay & _).
  destruct (p_payer p) as [payer|] eqn:E1; [|done]. destruct (p_recipient p) as [recipient|] eqn:E2; [|done].
  destruct (p_auth_nonce p) as [nonce|] eqn:E3; [|done]. destruct (p_valid_after p) as [after|] eqn:E4; [|done].
  destruct (p_valid_before p) as [before|] eqn:E5; [|done]. destruct (p_signature p) as [sig|] eqn:E6; [|done].
  destruct (parseNonce _) as [n|] eqn:En; [|done]. apply parseNonce_FormatInt in En as ->.
  assert (described d payment
    {| au_From := payer; au_To := recipient; au_Value := FormatInt (p_amount p);
       au_ValidAfter := after; au_ValidBefore := before; au_Nonce := nonce; au_Signature := sig |}) as Hd.
  { exists p. split; [done|]. unfold authorization_of. by rewrite E1, E2, E3, E4, E5, E6. }
  assert (default EmptyString (t_raw_hash r) <> EmptyString ->
    t_raw_hash r = Some (default EmptyString (t_raw_hash r))) as Hh by by destruct (t_raw_hash r).
  pose proof (text_inv (t_max_fee r)) as Hf.
  destruct (t_gas_limit r) as [g|] eqn:Eg; [destruct (parseNonce (FormatInt g)) as [gl|] eqn:El; [|done]|];
    [apply parseNonce_FormatInt in El as ->|]; injection HH as <- <-; (split; [done|]); exists r; simpl; auto 10.
Qed.

Lemma scan_work_loaded d ir gas hash signer fee tip work :
  txs d !! ir.1 = Some ir.2 -> (forall f, SetString10 fee = Some f -> t_max_fee ir.2 = Some f) ->
  (forall g, gas = Ok g -> g = 0 \/ t_gas_limit ir.2 = Some g) ->
  scan_work d ir gas hash signer fee tip = Ok work -> loaded d work.
Proof.
  intros Hr Hf Hg. unfold scan_work. destruct (payments d !! t_payment ir.2) as [p|] eqn:Hp; [|done].
  destruct (authorization_of p) as [a|] eqn:Ha; [|done]. simpl.
  destruct (parseNonce _) as [n|] eqn:En; [|done]. apply parseNonce_FormatInt in En as ->. simpl.
  destruct gas as [g|]; [|done]. intros [= <-]. exists ir.2. simpl. repeat split; auto; [|done].
  by exists p.
Qed.

Lemma scan_all_Forall {A B} (f : A -> res B) (P : B -> Prop) l l' :
  (forall a b, a ∈ l -> f a = Ok b -> P b) -> scan_all f l = Ok l' -> Forall P l'.
Proof.
  revert l'. induction l as [|a l IH]; simpl; intros l' Hf; [by intros [= <-]|].
  destruct (f a) as [b|] eqn:E; [|done]. simpl. destruct (scan_all f l) as [bs|]; [|done].
  intros [= <-]. constructor; [eapply Hf; [left | exact E]|]. apply IH; [|done].
  intros x y Hx. apply Hf. by right.
Qed.

Lemma ListDroppedBlockingGaps_Ok s t d works d' :
  ListDroppedBlockingGaps s t d = Ok (works, d') -> d' = d /\ Forall (loaded d) works.
Proof.
  unfold ListDroppedBlockingGaps, bind, get, lift. destruct (scan_all _ _) as [l|] eqn:E; [|done].
  intros [= -> ->]. split; [done|]. eapply scan_all_Forall; [|exact E].
  intros [i r] w [Hr _]%select_txs_In. apply scan_work_loaded; [done|done|]. intros g [= <-]. by left.
Qed.

Lemma ListStuckGapFillers_Ok s dur now d works d' :
  ListStuckGapFillers s dur now d = Ok (works, d') -> d' = d /\ Forall (loaded d) works.
Proof.
  unfold ListStuckGapFillers, bind, get, lift. destruct (scan_all _ _) as [l|] eqn:E; [|done].
  intros [= -> ->]. split; [done|]. eapply scan_all_Forall; [|exact E].
  intros [i r] w [Hr _]%select_txs_In. simpl.
  destruct (t_max_fee r) as [fee|] eqn:Ef; [|done]. destruct (t_priority_fee r); [|done].
  apply scan_work_loaded; [done| |]; simpl.
  - intros f. rewrite SetString10_print. congruence.
  - unfold opt_nonce. destruct (t_gas_limit r) as [g|]; [|done]. intros g' ->%parseNonce_FormatInt. by right.
Qed.

(** A listed filler carries the bytes of its row. *)
Definition filler (d : db) (t : TrackedTransaction) : Prop :=
  exists i r, txs d !! i = Some r /\ t_raw r = Some (tt_RawTransaction t).

Lemma ListGapFillers_Ok d ts d' : ListGapFillers d = Ok (ts, d') -> d' = d /\ Forall (filler d) ts.
Proof.
  unfold ListGapFillers, bind, get, ret. intros [= <- ->]. split; [done|].
  apply Forall_fmap, Forall_forall. intros [i r] [Hr Hc]%select_txs_In. simpl in *. bool_hyps.
  exists i, r. split; [done|]. simpl. by destruct (t_raw r) as [b|]; [|destruct (is_Some_None ltac:(eassumption))].
Qed.

(** ** What the recording calls leave behind *)

Definition has_hash (h : string) (d : db) : Prop :=
  exists i r, txs d !! i = Some r /\ t_raw_hash r = Some h.

Lemma has_hash_txs h d d' : has_hash h d -> txs d' = txs d -> has_hash h d'.
Proof. unfold has_hash. by intros ? ->. Qed.

Lemma has_hash_update_payment h i cond f : preserves (has_hash h) (update_payment i cond f).
Proof.
  intros d n d' L [(_ & -> & _)|(p & _ & _ & _ & _ & ->)]%update_payment_Ok; [done|].
  by eapply has_hash_txs.
Qed.

Lemma has_hash_insert_transition h t : preserves (has_hash h) (insert_transition t).
Proof. intros d a d' L [_ ->]%insert_transition_Ok. by eapply has_hash_txs. Qed.

#[export] Hint Resolve has_hash_update_payment has_hash_insert_transition : store.

Lemma has_hash_transitionPayment h i from to actor now :
  preserves (has_hash h) (transitionPayment i from to actor now).
Proof. unfold transitionPayment, recordTransition, race. walk. Qed.

Lemma MarkTxSigned_hash t rh sh g f p now d x d' :
  MarkTxSigned t rh sh g f p now d = Ok (x, d') -> has_hash rh d'.
Proof.
  unfold MarkTxSigned, bind, of_option. destruct (numeric_text f) as [fee|]; [|done].
  destruct (numeric_text p) as [tip|]; [|done]. simpl.
  destruct (update_tx _ _ _ d) as [[n d1]|] eqn:E; [|done].
  apply update_tx_Ok in E as [(-> & -> & _)|[-> (r & _ & _ & _ & _ & ->)]]; [done|].
  intros [= _ <-]. exists t. eexists. split; [apply lookup_insert_eq | done].
Qed.

Lemma MarkGapFillerPrepared_hash t rh h raw g f p now d x d' :
  MarkGapFillerPrepared t rh h raw g f p now d = Ok (x, d') -> has_hash rh d'.
Proof.
  unfold MarkGapFillerPrepared, bind, of_option. destruct (numeric_text f) as [fee|]; [|done].
  destruct (numeric_text p) as [tip|]; [|done]. simpl.
  destruct (update_tx _ _ _ d) as [[n d1]|] eqn:E; [|done].
  apply update_tx_Ok in E as [(-> & -> & _)|[-> (r & _ & _ & _ & _ & ->)]]; [done|].
  intros [= _ <-]. exists t. eexists. split; [apply lookup_insert_eq | done].
Qed.

Lemma wf_row_update i cond f :
  (forall r, t_payment (f r) = t_payment r) -> preserves wf (update_tx i cond f).
Proof.
  intros Hf d n d' W [(_ & -> & _)|[_ (r & Hr & _ & _ & _ & ->)]]%update_tx_Ok; [done|].
  eapply wf_update_tx; [done | exact Hr | apply Hf].
Qed.

Lemma insert_replacement_hash p t r keep raw now :
  triple wf (insert_replacement p t r keep raw now) (fun _ => has_hash (rp_RawHash r)).
Proof.
  intros d a d' W HH. apply insert_replacement_Ok in HH as (o & fee & tip & Ho & _ & _ & _ & ->); [|done].
  exists (next_id d). eexists. simpl. split;
    [rewrite lookup_insert_ne by (apply (wf_txs d W) in Ho; lia); apply lookup_insert_eq | done].
Qed.

Lemma replace_then p t r keep raw now cond f (k : DB unit) :
  (forall o, t_payment (f o) = t_payment o) -> preserves (has_hash (rp_RawHash r)) k ->
  triple wf (n <-! update_tx t cond f ;; exactly_one n ;;! insert_replacement p t r keep raw now ;;! k)
    (fun _ => has_hash (rp_RawHash r)).
Proof.
  intros Hf Hk. eapply triple_bind; [by apply wf_row_update|]. intros n.
  eapply triple_bind with (R := fun _ => wf).
  { unfold exactly_one. destruct (n =? 1); [apply preserves_ret | apply preserves_fail]. }
  intros _. eapply triple_bind; [apply insert_replacement_hash|]. intros u. exact Hk.
Qed.

Lemma MarkTxReplaced_hash p t r a now d x d' :
  wf d -> MarkTxReplaced p t r a now d = Ok (x, d') -> has_hash (rp_RawHash r) d'.
Proof. apply replace_then; [done|]. unfold race, recordTransition. walk. Qed.

Lemma MarkTxAmbiguousReplaced_hash p t r a now d x d' :
  wf d -> MarkTxAmbiguousReplaced p t r a now d = Ok (x, d') -> has_hash (rp_RawHash r) d'.
Proof.
  apply replace_then; [intros o; apply (tx_hash_from_raw_payment (tx_set_status TxReplaced now o))|].
  apply has_hash_transitionPayment.
Qed.

Lemma MarkGapFillerReplaced_hash p t r raw now d x d' :
  wf d -> MarkGapFillerReplaced p t r raw now d = Ok (x, d') -> has_hash (rp_RawHash r) d'.
Proof.
  intros W. unfold MarkGapFillerReplaced. refine (_ d x d' W).
  eapply triple_bind; [by apply wf_row_update|]. intros n. eapply triple_bind with (R := fun _ => wf).
  { unfold exactly_one. destruct (n =? 1); [apply preserves_ret | apply preserves_fail]. }
  intros _. apply insert_replacement_hash.
Qed.

(** ** Automation *)

Ltac quietly :=
  repeat first
    [ exact I
    | progress intros
    | progress (cbn [SystemLogic.quiet pbind])
    | match goal with
      | |- SystemLogic.quiet _ (pbind _ _) => apply quiet_bind
      | |- SystemLogic.quiet _ (pbind_ok _ _) => unfold pbind_ok
      | |- SystemLogic.quiet _ (match ?x with _ => _ end) => destruct x
      | |- _ /\ _ => split
      end
    | solve [eauto 2 with quiet] ].
