(* ===== verification/SystemSafe.v ===== *)
(** Every program of the settlement service is safe. *)

From Stdlib Require Import ZArith Lia Strings.Byte.
From stdpp Require Import base gmap list strings relations.
From S2P Require Import Prelude GoStd Geth Policy WalletProof Verification Signer Fees State.
From S2P Require Import Schema Hoare Calldata Work Store StoreWork StoreRecovery Prog Service.
From S2P Require Import Recovery StoreInv StoreNonce StoreEvolve StoreRows StoreIntent System.
From S2P Require Import SystemLogic SystemCalls.

Local Open Scope Z_scope.
Local Open Scope prog_scope.

Section Safe.
  Context `{Geth} `{X402} (cfg : Config) (signs : Transaction -> SignedTransaction -> Prop).

(** The signer signs exactly what it is handed ([Signer.sign_exact]). *)
  Hypothesis signs_exact : forall t st, signs t st ->
    Validate t = [] /\ exists s, UnmarshalBinary (Raw st) = Some s /\ matches s t /\
      SigHash st = SigHashOf (ChainID t) s.

  Abbreviation inv := (inv cfg).
  Abbreviation future := (future cfg).
  Abbreviation safe := (safe cfg signs).
  Abbreviation quiet := (quiet cfg).
  Abbreviation sendable := (sendable cfg).

(** ** Quiet programs *)

Lemma quiet_release p w : quiet (release p w).
Proof. unfold release, call. quietly. Qed.

Lemma quiet_observeSettlement h : quiet (observeSettlement cfg h).
Proof. unfold observeSettlement, getReceipt, getBlock, getHeight. quietly. Qed.

Lemma quiet_poll n h : quiet (poll cfg n h).
Proof.
  induction n; cbn [poll]; (apply quiet_bind; [apply quiet_observeSettlement|]); unfold cancelled; quietly.
Qed.

Lemma quiet_waitForSettlement h : quiet (waitForSettlement cfg h).
Proof. unfold waitForSettlement. destruct (_ <=? _); [done | apply quiet_poll]. Qed.

Lemma quiet_respondWithTx p i t h : quiet (respondWithTx cfg p i t h).
Proof.
  unfold respondWithTx, call. apply quiet_bind; [apply quiet_waitForSettlement|]. quietly.
Qed.

Lemma quiet_Confirmation p a : quiet (Confirmation cfg p a).
Proof. unfold Confirmation, call, getReceipt, getBlock, getHeight. quietly. Qed.

(** ** Work that was loaded *)

Definition work_ok (w : world) (work : Work) : Prop :=
  (exists r, txs (w_db w) !! w_TransactionID work = Some r /\ t_payment r = w_PaymentID work /\
     t_nonce r = w_Nonce work) /\
  describes (w_trace w) (w_PaymentID work) (w_Authorization work) /\
  (forall f, SetString10 (w_MaxFeePerGas work) = Some f -> f <= ceiling cfg) /\ w_GasLimit work <= gas_cap cfg /\
  (w_RawHash work <> EmptyString -> recorded (w_trace w) (w_RawHash work)).

Lemma future_row w w' i r :
  future w w' -> txs (w_db w) !! i = Some r -> exists r', txs (w_db w') !! i = Some r' /\ same_key r r'.
Proof. intros ([_ _ T] & _) Hr. by apply T. Qed.

Lemma future_recorded w w' h : future w w' -> recorded (w_trace w) h -> recorded (w_trace w') h.
Proof. intros (_ & _ & l & ->). apply recorded_mono. Qed.

Lemma work_ok_future w w' work : future w w' -> work_ok w work -> work_ok w' work.
Proof.
  intros F ((r & Hr & Hp & Hn) & Hd & Hf & Hg & Hh).
  destruct (future_row _ _ _ _ F Hr) as (r' & Hr' & Kp & _ & Kn).
  split; [exists r'; repeat split; congruence|]. split; [destruct F as (_ & _ & l & ->); by apply describes_mono|].
  split; [done|]. split; [done|]. intros Hne. eapply future_recorded; eauto.
Qed.

Lemma loaded_ok w work : inv w -> loaded (w_db w) work -> work_ok w work.
Proof.
  intros [G C] (r & Hr & Hp & Hn & Hd & Hf & Hg & Hh). split; [by exists r|]. split; [by exists (w_db w)|]. split_and!.
  - intros f Ef. by apply (good_fee _ _ _ G _ r Hr), Hf.
  - destruct Hg as [->|Hg]; [apply Z.le_max_l | by apply (good_gas _ _ _ G _ r Hr)].
  - intros Hne. exists (w_db w), (w_TransactionID work), r. auto.
Qed.

(** ** Signatures of loaded work *)

(** [b] may be recorded for the row of [work]. *)
Definition signed_for (w : world) (work : Work) (b : list byte) : Prop :=
  exists r, txs (w_db w) !! w_TransactionID work = Some r /\ signature_of cfg (w_trace w) r b.

Lemma signed_for_future w w' work b : future w w' -> signed_for w work b -> signed_for w' work b.
Proof.
  intros F (r & Hr & Hs). destruct (future_row _ _ _ _ F Hr) as (r' & Hr' & K).
  exists r'. split; [done|]. destruct F as (_ & _ & l & ->). by eapply signature_mono.
Qed.

Lemma work_signed w work calldata gas maxFee tip st :
  work_ok w work -> Calldata.TransferWithAuthorizationData (w_Authorization work) = Ok calldata ->
  (forall f, SetString10 maxFee = Some f -> f <= ceiling cfg) -> gas <= gas_cap cfg ->
  signs (settlement_tx work calldata gas maxFee tip) st -> signed_for w work (Raw st).
Proof.
  intros ((r & Hr & Hp & Hn) & Hd & _) Hc Hf Hg (Hv & s & Hs & Hm & _)%signs_exact.
  destruct Hm as (_ & Hchain & Hnonce & Hto & Hval & Hdata & Hgas & Hfee & _). simpl in *.
  exists r. split; [done|]. exists s, (w_Authorization work). rewrite Hp.
  apply Validate_nil in Hv as (_ & _ & _ & _ & _ & _ & m & tp & Hm & _ & Hpos & _). simpl in Hm.
  assert (m = tx_GasFeeCap s) as -> by congruence. pose proof (Hf _ Hfee).
  repeat split; try done; congruence.
Qed.

Lemma printed_fee fee : fee <= ceiling cfg ->
  forall f, SetString10 (FormatInt fee) = Some f -> f <= ceiling cfg.
Proof. intros Hle f. rewrite SetString10_print. by intros [= <-]. Qed.

Lemma gas_configured : GasLimit cfg <= gas_cap cfg.
Proof. apply Z.le_max_r. Qed.

(** Recorded and signed for a row: it may be sent from then on. *)
Lemma recorded_sendable w work b w' :
  signed_for w work b -> recorded (w_trace w) (hex_EncodeToString (keccak256 b)) -> future w w' ->
  sendable w' (raw_hex b).
Proof.
  intros Hs Hr F. destruct (signed_for_future _ _ _ _ F Hs) as (r & Hrow & Hsig).
  exists (w_TransactionID work), r, b. repeat split; try done. eapply future_recorded; eauto.
Qed.

Lemma commit_recorded d w h : has_hash h d -> recorded (w_trace (commit d w)) h.
Proof. intros (i & r & Hr & Hh). exists d, i, r. split; [apply elem_of_cons; by left | done]. Qed.

(** The write of a signature for the row of [work]. *)
Lemma write_ok w w1 work op wr :
  future w w1 -> op_write op = Some wr -> wr_target wr = w_TransactionID work ->
  (forall f, SetString10 (wr_fee wr) = Some f -> f <= ceiling cfg) -> wr_gas wr <= gas_cap cfg ->
  (forall b, wr_raw wr = Some b -> wr_hash wr = hex_EncodeToString (keccak256 b) /\ signed_for w work b) ->
  op_ok cfg (w_trace w1) (w_db w1) op.
Proof.
  intros F Hw Ht Hf Hg Hr. split; [by intros ? ? ->|]. split; [by destruct op|]. intros wr' Hw'.
  assert (wr' = wr) as -> by congruence. split; [done|]. split; [done|]. intros b Hb.
  destruct (Hr b Hb) as [Hh Hs]. split; [done|]. intros o Ho.
  destruct (signed_for_future _ _ _ _ F Hs) as (r & Hrow & Hsig). rewrite Ht in Ho. by simplify_eq.
Qed.

(** ** Programs that are safe and leave the world in its future *)

Definition keeps {A} (p : prog A) (w : world) : Prop := safe p (fun _ w' => future w w') w.

Lemma keeps_from {A} (p : prog A) w w1 :
  future w w1 -> keeps p w1 -> safe p (fun _ w' => future w w') w1.
Proof. intros F. apply safe_weaken. intros _ v. by apply future_trans. Qed.

Lemma keeps_ret {A} (a : A) w : inv w -> keeps (Ret a) w.
Proof. apply future_refl. Qed.

Lemma keeps_quiet {A} (p : prog A) w : inv w -> quiet p -> keeps p w.
Proof. apply quiet_safe. Qed.

Lemma keeps_bind {A B} (p : prog A) (k : A -> prog B) w :
  keeps p w -> (forall a w', future w w' -> keeps (k a) w') -> keeps (pbind p k) w.
Proof.
  intros Hp Hk. apply safe_bind. eapply safe_weaken; [|exact Hp]. intros a w' F.
  apply keeps_from; [done | by apply Hk].
Qed.

Lemma keeps_call {A X} (m : env -> DB X) (k : res X -> prog A) w :
  permitted cfg m w ->
  (forall w1 e x d, future w w1 -> m e (w_db w1) = Ok (x, d) -> future w1 (commit d w1) ->
     keeps (k (Ok x)) (commit d w1)) ->
  (forall w1 err, future w w1 -> keeps (k (Err err)) w1) -> keeps (Call m k) w.
Proof.
  intros P Hok Herr. apply safe_call; [done| |].
  - intros w1 e x d F E F1. apply keeps_from; [by eapply future_trans | by eapply Hok].
  - intros w1 err F. apply keeps_from; [done | by apply Herr].
Qed.

Lemma keeps_send {A} raw (k : res string -> prog A) w :
  (forall w1, future w w1 -> sendable w1 raw) ->
  (forall w1 r, future w w1 -> keeps (k r) w1) -> keeps (Send raw k) w.
Proof.
  intros Hs Hk. apply safe_send; [done|]. intros w1 r F. apply keeps_from; [done | by apply Hk].
Qed.

(** Loading work, then something that is safe for loaded work. *)
Lemma keeps_load {A} p (k : res Work -> prog A) w :
  (forall w' work, inv w' -> work_ok w' work -> keeps (k (Ok work)) w') ->
  (forall w' err, inv w' -> keeps (k (Err err)) w') ->
  keeps (pbind (call (fun e => LoadSettlementWork p (e_now e))) k) w.
Proof.
  intros Hok Herr. unfold call. cbn [pbind]. apply keeps_call.
  - apply harmless_permitted, harmless_LoadSettlementWork.
  - intros w1 e work d F E F1. apply LoadSettlementWork_Ok in E as [-> Hl].
    pose proof (future_inv _ _ _ F1) as I1. apply Hok; [done|]. by apply loaded_ok.
  - intros w1 err F. apply Herr. exact (future_inv _ _ _ F).
Qed.

Lemma keeps_each {X} (l : list X) body w :
  inv w -> (forall x w', x ∈ l -> future w w' -> keeps (body x) w') -> keeps (each l body) w.
Proof.
  revert w. induction l as [|x l IH]; intros w I Hb; cbn [each]; [by apply keeps_ret|].
  unfold cancelled. cbn [pbind]. intros [|]; cbn [System.safe]; [by apply future_refl|].
  apply (keeps_bind (body x)); [apply Hb; [left | by apply future_refl]|].
  intros _ w' F. apply IH; [by eapply future_inv|]. intros y v Hy Fv.
  apply Hb; [by right | by eapply future_trans].
Qed.

(** ** service.go *)

Lemma safe_estimateFees w :
  safe (estimateFees cfg) (fun r w' => w' = w /\ forall fees, r = Ok fees -> fees.1 <= ceiling cfg) w.
Proof.
  unfold estimateFees, getBlock, pbind_ok. cbn [pbind System.safe].
  intros [block|err]; cbn [pbind System.safe]; [|by split].
  split; [done|]. intros [m p] E.
  destruct (SetString10 (bl_BaseFee block)); [|done].
  destruct (SetString10 (MaxPriorityFeeGas cfg)); [|done].
  destruct (SetString10 (MaxFeePerGas cfg)) as [c|] eqn:Ec; [|done].
  apply EstimateFees_Ok in E as (? & ? & ? & ? & ? & Hc & ? & ? & ? & -> & _).
  unfold ceiling. rewrite Ec. injection Hc as <-. simpl. lia.
Qed.

(** Fees, then something that is safe below the ceiling. *)
Lemma keeps_fees {A} (k : Z * Z -> prog (res A)) w :
  inv w -> (forall fees, fees.1 <= ceiling cfg -> keeps (k fees) w) ->
  keeps (pbind_ok (estimateFees cfg) k) w.
Proof.
  intros I Hk. apply safe_bind. eapply safe_weaken; [|apply safe_estimateFees].
  intros [fees|err] w' [-> Hfee]; [by apply Hk, Hfee | by apply future_refl].
Qed.

Lemma keeps_broadcastSigned work actor maxFee tip signed w :
  signed_for w work (Raw signed) -> maxFee <= ceiling cfg ->
  keeps (broadcastSigned cfg work actor maxFee tip signed) w.
Proof.
  intros Hs Hle. unfold broadcastSigned, call, send, pbind_ok. cbn [pbind]. apply keeps_call.
  - intros w1 e [] d F E. right.
    eexists (OpSigned _ _ _ _ _ _ _). split; [exact E|].
    eapply write_ok; [exact F | reflexivity | reflexivity | by apply printed_fee | apply gas_configured | done].
  - intros w1 e [] d F E F1. apply keeps_send.
    + intros w2 F2. apply (recorded_sendable (commit d w1) work); [|apply commit_recorded|done].
      * eapply signed_for_future; [|done]. by eapply future_trans.
      * by eapply MarkTxSigned_hash.
    + intros w2 r F2. apply keeps_quiet; [by eapply future_inv|]. quietly.
  - intros w1 err F. apply keeps_ret. by eapply future_inv.
Qed.

Lemma keeps_broadcastPending work actor w :
  inv w -> work_ok w work -> keeps (broadcastPending cfg work actor) w.
Proof.
  intros I Hw. unfold broadcastPending, now, simulate, pbind_ok at 1 2 4. cbn [pbind]. intros t.
  destruct (_ <=? _); [apply keeps_quiet; [done|]; unfold call; quietly|].
  destruct (Calldata.TransferWithAuthorizationData _) as [calldata|] eqn:Hc; [|by apply keeps_ret].
  intros [u|err].
  2:{ destruct (errors_Is err _); (apply keeps_quiet; [done|]); unfold call; quietly. }
  apply keeps_fees; [done|]. intros [maxFee tip] Hfee. unfold pbind_ok, sign. cbn [pbind].
  split; [|intros err; by apply keeps_ret]. intros st Hst.
  apply keeps_broadcastSigned; [|done].
  eapply work_signed; [done | done | apply printed_fee; exact Hfee | apply gas_configured | exact Hst].
Qed.

Lemma keeps_broadcastClaimed work actor w :
  inv w -> work_ok w work -> keeps (broadcastClaimed cfg work actor) w.
Proof.
  intros I Hw. unfold broadcastClaimed. destruct (negb _); [by apply keeps_ret|].
  destruct (AmbiguousBroadcast work).
  { apply keeps_quiet; [done|]. unfold call, pbind_ok. quietly. }
  destruct (negb _); [by apply keeps_ret | by apply keeps_broadcastPending].
Qed.

Lemma keeps_Broadcast p actor w : inv w -> keeps (Broadcast cfg p actor) w.
Proof.
  intros I. unfold Broadcast, now. cbn [pbind]. intros t. apply keeps_bind.
  { apply keeps_quiet; [done|]. unfold call. quietly. }
  intros [lease|err] w1 F1; [|apply keeps_ret; by eapply future_inv].
  apply keeps_load; intros w2 x I2 **; (apply keeps_bind; [|intros; apply keeps_quiet;
    [by eapply future_inv|]; apply quiet_bind; [apply quiet_release | done]]).
  - by apply keeps_broadcastClaimed.
  - by apply keeps_ret.
Qed.

Lemma keeps_settleIntent payment intent w : inv w -> keeps (settleIntent cfg payment intent) w.
Proof.
  intros I. unfold settleIntent. destruct (negb _).
  { apply keeps_quiet; [done|]. repeat (destruct (_ : bool); [done|]). apply quiet_respondWithTx. }
  apply keeps_bind; [by apply keeps_Broadcast|]. intros r w1 F1.
  apply keeps_quiet; [by eapply future_inv|].
  destruct r as [h|err]; [apply quiet_respondWithTx|]. do 2 (destruct (errors_Is _ _); [done|]).
  unfold call. quietly; apply quiet_respondWithTx.
Qed.

Lemma keeps_Settle request w : inv w -> keeps (Settle cfg request) w.
Proof.
  intros I. unfold Settle. destruct (ParseRequest request) as [payment|r]; [|by apply keeps_ret].
  unfold now. cbn [pbind]. intros t. apply keeps_bind.
  { apply keeps_quiet; [done|]. unfold call_res. quietly. }
  intros [intent|err] w1 F1; [|apply keeps_ret; by eapply future_inv].
  apply keeps_bind; [apply keeps_settleIntent; by eapply future_inv|].
  intros r w2 F2. apply keeps_ret. by eapply future_inv.
Qed.

(** ** worker.go *)

Lemma keeps_process identity states advance w :
  inv w -> (forall p a w', inv w' -> keeps (advance p a) w') ->
  keeps (process cfg identity states advance) w.
Proof.
  intros I Ha. unfold process, now. cbn [pbind]. intros t. apply keeps_bind.
  { apply keeps_quiet; [done|]. unfold call. quietly. }
  intros [leases|err] w1 F1; [|apply keeps_ret; by eapply future_inv].
  apply keeps_each; [by eapply future_inv|]. intros lease w2 _ F2. unfold advance_leased, now.
  cbn [pbind]. intros t'. apply keeps_bind.
  { apply keeps_quiet; [by eapply future_inv|]. unfold call. quietly. }
  intros [r|err] w3 F3.
  - apply keeps_bind; [apply Ha; by eapply future_inv|]. intros _ w4 F4.
    apply keeps_quiet; [by eapply future_inv | apply quiet_release].
  - apply keeps_quiet; [by eapply future_inv|]. destruct (_ || _); [done | apply quiet_release].
Qed.

Lemma keeps_BroadcastWorker identity w : inv w -> keeps (BroadcastWorker cfg identity) w.
Proof.
  intros I. apply keeps_process; [done|]. intros p a w1 I1. apply keeps_load.
  - intros w2 work I2 Hw. apply keeps_bind; [by apply keeps_broadcastClaimed|].
    intros r w3 F3. apply keeps_ret. by eapply future_inv.
  - intros w2 err I2. by apply keeps_ret.
Qed.

Lemma keeps_ConfirmationWorker identity w : inv w -> keeps (ConfirmationWorker cfg identity) w.
Proof.
  intros I. apply keeps_process; [done|]. intros p a w1 I1. apply keeps_quiet; [done|].
  apply quiet_bind; [apply quiet_Confirmation | done].
Qed.

End Safe.
