(* ===== verification/SystemRecovery.v ===== *)
(** The recovery worker is safe: every signature it sends is recorded first,
    pays for the same authorization with the same nonce, and stays below the
    configured fee ceiling. *)

From Stdlib Require Import ZArith Lia Strings.Byte.
From stdpp Require Import base gmap list strings relations.
From S2P Require Import Prelude GoStd Geth Policy WalletProof Verification Signer Fees State.
From S2P Require Import Schema Hoare Calldata Work Store StoreWork StoreRecovery Prog Service.
From S2P Require Import Recovery StoreInv StoreNonce StoreEvolve StoreRows StoreIntent System.
From S2P Require Import SystemLogic SystemCalls SystemSafe.

Local Open Scope Z_scope.
Local Open Scope prog_scope.

Section Recovery.
  Context `{Geth} `{X402} (cfg : Config) (signs : Transaction -> SignedTransaction -> Prop).

  Hypothesis signs_exact : forall t st, signs t st ->
    Validate t = [] /\ exists s, UnmarshalBinary (Raw st) = Some s /\ matches s t /\
      SigHash st = SigHashOf (ChainID t) s.

  Abbreviation inv := (inv cfg).
  Abbreviation future := (future cfg).
  Abbreviation safe := (safe cfg signs).
  Abbreviation quiet := (quiet cfg).
  Abbreviation keeps := (keeps cfg signs).
  Abbreviation work_ok := (work_ok cfg).
  Abbreviation signed_for := (signed_for cfg).

Lemma keeps_send_checked raw expected w :
  inv w -> (forall w1, future w w1 -> sendable cfg w1 (raw_hex raw)) ->
  keeps (send_checked raw expected) w.
Proof.
  intros I Hs. unfold send_checked, send, pbind_ok. cbn [pbind]. apply keeps_send; [done|].
  intros w1 r F. destruct r; (apply keeps_ret; by eapply future_inv).
Qed.

(** ** Signing *)

Lemma keeps_signIdentical {A} work (k : list byte * string -> prog (res A)) w :
  inv w -> work_ok w work ->
  (forall raw, signed_for w work raw -> keeps (k (raw, hex_EncodeToString (keccak256 raw))) w) ->
  keeps (pbind_ok (signIdentical work) k) w.
Proof.
  intros I Hw Hk. unfold signIdentical, sign, pbind_ok.
  destruct (TransferWithAuthorizationData _) as [calldata|] eqn:Hc; [|by apply keeps_ret].
  cbn [pbind]. split; [|intros err; by apply keeps_ret]. intros st Hst. cbn [pbind].
  repeat case_match; simplify_eq; try (by apply keeps_ret);
    (apply Hk; eapply work_signed; [done | done | done | apply Hw | apply Hw | exact Hst]).
Qed.

Lemma keeps_signReplacement {A} work maxFee tip (k : SignedTransaction * Replacement -> prog (res A)) w :
  inv w -> work_ok w work -> maxFee <= ceiling cfg ->
  (forall st, signed_for w work (Raw st) ->
     keeps (k (st, replacement_of work (hex_EncodeToString (keccak256 (Raw st)))
                     (FormatInt maxFee) (FormatInt tip))) w) ->
  keeps (pbind_ok (signReplacement work maxFee tip) k) w.
Proof.
  intros I Hw Hle Hk. unfold signReplacement, sign, pbind_ok.
  destruct (TransferWithAuthorizationData _) as [calldata|] eqn:Hc; [|by apply keeps_ret].
  cbn [pbind]. split; [|intros err; by apply keeps_ret]. intros st Hst.
  apply Hk. eapply work_signed; [done | done | done | by apply printed_fee | apply Hw | exact Hst].
Qed.

(** A bump stays below the ceiling. *)
Lemma keeps_replacementFees {A} work (k : option (Z * Z) -> prog (res A)) w :
  inv w -> keeps (k None) w ->
  (forall maxFee tip, maxFee <= ceiling cfg -> keeps (k (Some (maxFee, tip))) w) ->
  keeps (pbind_ok (replacementFees cfg work) k) w.
Proof.
  intros I Hn Hs. unfold replacementFees, getBlock, pbind_ok.
  destruct (SetString10 (w_MaxFeePerGas work)) as [om|]; [|by apply keeps_ret].
  destruct (SetString10 (w_MaxPriorityFeePerGas work)) as [ot|]; [|by apply keeps_ret].
  cbn [pbind]. intros [block|err]; cbn [pbind]; [|by apply keeps_ret].
  destruct (SetString10 (bl_BaseFee block)); [|by apply keeps_ret].
  destruct (SetString10 (MaxFeePerGas cfg)) as [c|] eqn:Ec; [|by apply keeps_ret].
  destruct (BumpFees _ _ _ _) as [[m p]|] eqn:E; [|done].
  apply BumpFees_Some in E as (? & ? & ? & c' & _ & _ & _ & [= <-] & _ & _ & _ & Hm & _).
  apply Hs. unfold ceiling. by rewrite Ec.
Qed.

(** ** Recording, then sending

    The call records the hash of [raw] for the row of [work]; nothing is sent
    unless it committed. *)
Lemma keeps_record_send (m : env -> DB unit) (op : env -> store_op) wr work raw expected w :
  inv w -> signed_for w work raw ->
  (forall e d, exec (op e) d = m e d) ->
  (forall e, op_write (op e) = Some wr) -> wr_target wr = w_TransactionID work ->
  (forall f, SetString10 (wr_fee wr) = Some f -> f <= ceiling cfg) -> wr_gas wr <= gas_cap cfg ->
  (forall b, wr_raw wr = Some b -> b = raw) ->
  wr_hash wr = hex_EncodeToString (keccak256 raw) ->
  (forall e d x d', wf d -> m e d = Ok (x, d') -> has_hash (wr_hash wr) d') ->
  keeps (call m ;;~? send_checked raw expected) w.
Proof.
  intros I Hs Hop Hw Ht Hf Hg Hr Hh Hrec. unfold call, pbind_ok. cbn [pbind]. apply keeps_call.
  - intros w1 e [] d F E. right. exists (op e). split; [by rewrite Hop|].
    eapply write_ok; [exact F | apply Hw | done | done | done |]. intros b ->%Hr. done.
  - intros w1 e [] d F E F1. apply keeps_send_checked; [by eapply future_inv|].
    intros w2 F2. apply (recorded_sendable cfg (commit d w1) work); [| |done].
    + eapply signed_for_future; [|done]. by eapply future_trans.
    + apply commit_recorded. rewrite <- Hh. eapply Hrec; [|done].
      eapply (good_wf cfg), (future_inv _ _ _ F).
  - intros w1 err F. apply keeps_ret. by eapply future_inv.
Qed.

Ltac quiet_call := apply keeps_quiet; [done || (by eapply future_inv) |]; unfold call; quietly.

(** ** Ambiguous broadcasts *)

(** Bytes whose hash the loaded row already carried. *)
Lemma keeps_resend work raw txHash actor w :
  inv w -> work_ok w work -> signed_for w work raw ->
  w_RawHash work = hex_EncodeToString (keccak256 raw) -> w_RawHash work <> EmptyString ->
  keeps (sent <~ send_checked raw txHash ;;
         match sent with
         | Err e =>
             marked <~ call (fun e => MarkAmbiguousRetry (w_PaymentID work) (w_TransactionID work) (e_now e)) ;;
             Ret (Err (match marked with Ok _ => e | Err e' => errors_Join e e' end))
         | Ok _ =>
             call (fun e => MarkTxRecoveredBroadcast (w_PaymentID work) (w_TransactionID work) txHash actor
                     (e_now e))
         end) w.
Proof.
  intros I Hw Hs Hh Hne. apply keeps_bind.
  - apply keeps_send_checked; [done|]. intros w1 F1. eapply recorded_sendable; [done| |done].
    rewrite <- Hh. by apply Hw.
  - intros r w1 F1. destruct r; quiet_call.
Qed.

Lemma keeps_rebroadcast work txHash actor w :
  inv w -> work_ok w work -> w_RawHash work <> EmptyString -> keeps (rebroadcast work txHash actor) w.
Proof.
  intros I Hw Hne. unfold rebroadcast. apply keeps_signIdentical; [done | done |].
  intros raw Hs. destruct (String.eqb _ _) eqn:E; cbn [negb].
  - apply String.eqb_eq in E. by apply keeps_resend.
  - eapply keeps_record_send with
      (op := fun e => OpAmbiguousReplaced _ _ _ _ (e_now e));
      [done | exact Hs | done | done | done | apply Hw | apply Hw | done | done |].
    intros e d x d'. apply MarkTxAmbiguousReplaced_hash.
Qed.

Lemma keeps_resolveAmbiguous work actor w :
  inv w -> work_ok w work -> keeps (resolveAmbiguous cfg work actor) w.
Proof.
  intros I Hw. unfold resolveAmbiguous, getReceipt, getTransaction, pbind_ok.
  destruct (String.eqb _ _) eqn:E; [by apply keeps_ret|]. apply String.eqb_neq in E.
  cbn [pbind]. intros [[r|]|err]; [quiet_call | | by apply keeps_ret].
  cbn [pbind]. intros [[t|]|err]; [quiet_call | | by apply keeps_ret].
  destruct (_ <? _); [by apply keeps_ret|]. destruct (lacks_fees work); [by apply keeps_ret|].
  by apply keeps_rebroadcast.
Qed.

(** ** Stuck transactions *)

Lemma keeps_replaceStuck work actor w :
  inv w -> work_ok w work -> keeps (replaceStuck cfg work actor) w.
Proof.
  intros I Hw. unfold replaceStuck. destruct (lacks_fees work); [by apply keeps_ret|].
  apply keeps_replacementFees; [done | by apply keeps_ret|]. intros maxFee tip Hle.
  apply keeps_signReplacement; [done | done | done |]. intros st Hs.
  eapply keeps_record_send with (op := fun e => OpReplaced _ _ _ _ (e_now e));
    [done | exact Hs | done | done | done | by apply printed_fee | apply Hw | done | done |].
  intros e d x d'. apply MarkTxReplaced_hash.
Qed.

Lemma keeps_recoverPayment p actor w : inv w -> keeps (recoverPayment cfg p actor) w.
Proof.
  intros I. unfold recoverPayment. apply keeps_load; [|intros; by apply keeps_ret].
  intros w1 work I1 Hw. destruct (bool_decide _); [by apply keeps_resolveAmbiguous|].
  destruct (_ && _); [by apply keeps_replaceStuck | by apply keeps_ret].
Qed.

Lemma keeps_recoverLeased identity w : inv w -> keeps (recoverLeased cfg identity) w.
Proof.
  intros I. apply keeps_process; [done|]. intros p a w1 I1. apply keeps_bind.
  - by apply keeps_recoverPayment.
  - intros r w2 F2. apply keeps_ret. by eapply future_inv.
Qed.

(** ** Watches without a batch lease *)

Lemma keeps_underLease identity p fn w :
  inv w -> (forall w', future w w' -> keeps fn w') -> keeps (underLease cfg identity p fn) w.
Proof.
  intros I Hf. unfold underLease. destruct (_ =? _)%N; [by apply keeps_ret|].
  unfold now. cbn [pbind]. intros t. apply keeps_bind; [quiet_call|].
  intros [l|err] w1 F1; [|apply keeps_ret; by eapply future_inv].
  apply keeps_bind; [by apply Hf|]. intros u w2 F2.
  apply keeps_quiet; [by eapply future_inv | apply quiet_release].
Qed.

(** A listing, then each element under its payment's lease. *)
Lemma keeps_watch {X} (m : env -> DB (list X)) (P : db -> X -> Prop) identity payment (fn : X -> prog unit) w :
  inv w -> harmless cfg m ->
  (forall e d l d', m e d = Ok (l, d') -> d' = d /\ Forall (P d) l) ->
  (forall x w1 w2, inv w1 -> P (w_db w1) x -> future w1 w2 -> keeps (fn x) w2) ->
  keeps (l <~ call m ;;
         match l with
         | Err _ => Ret tt
         | Ok l => each l (fun x => underLease cfg identity (payment x) (fn x))
         end) w.
Proof.
  intros I Hm HP Hf. unfold call. cbn [pbind]. apply keeps_call; [by apply harmless_permitted| |].
  - intros w1 e l d F E F1. apply HP in E as [-> Hl]. pose proof (future_inv _ _ _ F1) as I1.
    apply keeps_each; [done|]. intros x w2 Hx F2. apply keeps_underLease; [by eapply future_inv|].
    intros w3 F3. apply (Hf x (commit (w_db w1) w1)); [done| |by eapply future_trans].
    rewrite Forall_forall in Hl. by apply Hl.
  - intros w1 err F. apply keeps_ret. by eapply future_inv.
Qed.

Lemma keeps_observeReplacements identity w : inv w -> keeps (observeReplacements cfg identity) w.
Proof.
  intros I. unfold observeReplacements. apply (keeps_watch (fun _ => ListReplacedPending) (fun _ _ => True)).
  - done.
  - apply harmless_ListReplacedPending.
  - unfold ListReplacedPending, bind, get, ret. intros e d l d' [= <- ->]. split; [done|]. by apply Forall_true.
  - intros x w1 w2 _ _ F. apply keeps_quiet; [by eapply future_inv|].
    unfold observeReplacement, getReceipt, getHeight, call. quietly.
Qed.

(** ** Nonce gaps *)

Lemma keeps_fillNonceGap work w : inv w -> work_ok w work -> keeps (fillNonceGap cfg work) w.
Proof.
  intros I Hw. unfold fillNonceGap. unfold pbind_ok at 1.
  destruct (TransferWithAuthorizationData _) as [calldata|] eqn:Hc; [|by apply keeps_ret].
  cbn [pbind]. apply keeps_fees; [done|]. intros fees Hle. unfold pbind_ok at 1, sign. cbn [pbind].
  split; [|intros err; by apply keeps_ret]. intros st Hst.
  eapply keeps_record_send with (op := fun e => OpGapPrepared _ _ _ _ _ _ _ (e_now e));
    [done | | done | done | done | by apply printed_fee | apply gas_configured | by intros b [= <-] | done |].
  - eapply work_signed; [done | done | done | by apply printed_fee | apply gas_configured | exact Hst].
  - intros e d x d' _. apply MarkGapFillerPrepared_hash.
Qed.

Lemma keeps_fillNonceGaps identity w : inv w -> keeps (fillNonceGaps cfg identity) w.
Proof.
  intros I. unfold fillNonceGaps, now. cbn [pbind]. intros t.
  apply (keeps_watch (fun _ => ListDroppedBlockingGaps _ _) loaded).
  - done.
  - apply harmless_ListDroppedBlockingGaps.
  - intros e d l d'. apply ListDroppedBlockingGaps_Ok.
  - intros work w1 w2 I1 Hl F. apply keeps_bind.
    + apply keeps_fillNonceGap; [by eapply future_inv|]. eapply work_ok_future; [done|]. by apply loaded_ok.
    + intros r w3 F3. apply keeps_ret. by eapply future_inv.
Qed.

(** ** Gap fillers *)

(** A row's bytes may be sent as long as the row exists. *)
Lemma filler_sendable w w' t :
  inv w -> filler (w_db w) t -> future w w' -> sendable cfg w' (raw_hex (tt_RawTransaction t)).
Proof.
  intros [G C] (i & r & Hr & Hraw) F. destruct (good_raw _ _ _ G i r Hr _ Hraw) as (_ & Hh & Hs).
  destruct (future_row _ _ _ _ _ F Hr) as (r' & Hr' & K).
  exists i, r', (tt_RawTransaction t). repeat split; [done | | ].
  - destruct F as (_ & _ & l & ->). by eapply signature_mono.
  - eapply future_recorded; [done|]. exists (w_db w), i, r. auto.
Qed.

Lemma keeps_observeGapFiller t w w1 :
  inv w -> filler (w_db w) t -> future w w1 -> keeps (observeGapFiller t) w1.
Proof.
  intros I Hf F. pose proof (future_inv _ _ _ F) as I1.
  unfold observeGapFiller, getReceipt, getTransaction. cbn [pbind].
  intros [[r|]|err]; [quiet_call | | by apply keeps_ret].
  destruct (bool_decide _); [by apply keeps_ret|]. cbn [pbind].
  intros [[tx|]|err]; [by apply keeps_ret | | by apply keeps_ret]. apply keeps_bind.
  - apply keeps_send_checked; [done|]. intros w2 F2. eapply filler_sendable; [exact I | done|].
    by eapply future_trans.
  - intros u w2 F2. apply keeps_ret. by eapply future_inv.
Qed.

Lemma keeps_observeGapFillers identity w : inv w -> keeps (observeGapFillers cfg identity) w.
Proof.
  intros I. unfold observeGapFillers. apply (keeps_watch (fun _ => ListGapFillers) filler).
  - done.
  - apply harmless_ListGapFillers.
  - intros e d l d'. apply ListGapFillers_Ok.
  - intros t w1 w2. apply keeps_observeGapFiller.
Qed.

Lemma keeps_bumpStuckGapFiller work w :
  inv w -> work_ok w work -> keeps (bumpStuckGapFiller cfg work) w.
Proof.
  intros I Hw. unfold bumpStuckGapFiller.
  apply keeps_replacementFees; [done | by apply keeps_ret|]. intros maxFee tip Hle.
  apply keeps_signReplacement; [done | done | done |]. intros st Hs.
  eapply keeps_record_send with (op := fun e => OpGapReplaced _ _ _ _ (e_now e));
    [done | exact Hs | done | done | done | by apply printed_fee | apply Hw | by intros b [= <-] | done |].
  intros e d x d'. apply MarkGapFillerReplaced_hash.
Qed.

Lemma keeps_bumpStuckGapFillers identity w : inv w -> keeps (bumpStuckGapFillers cfg identity) w.
Proof.
  intros I. unfold bumpStuckGapFillers.
  apply (keeps_watch (fun e => ListStuckGapFillers _ _ (e_now e)) loaded).
  - done.
  - apply harmless_ListStuckGapFillers.
  - intros e d l d'. apply ListStuckGapFillers_Ok.
  - intros work w1 w2 I1 Hl F. apply keeps_bind.
    + apply keeps_bumpStuckGapFiller; [by eapply future_inv|]. eapply work_ok_future; [done|].
      by apply loaded_ok.
    + intros r w3 F3. apply keeps_ret. by eapply future_inv.
Qed.

(** ** Every program of the system *)

Lemma keeps_recovery_process identity w : inv w -> keeps (recovery_process cfg identity) w.
Proof.
  intros I. unfold recovery_process.
  apply keeps_bind; [by apply keeps_recoverLeased | intros _ w1 F1%future_inv].
  apply keeps_bind; [by apply keeps_observeReplacements | intros _ w2 F2%future_inv].
  apply keeps_bind; [by apply keeps_fillNonceGaps | intros _ w3 F3%future_inv].
  apply keeps_bind; [by apply keeps_observeGapFillers | intros _ w4 F4%future_inv].
  by apply keeps_bumpStuckGapFillers.
Qed.

Lemma keeps_entry p w : entry cfg p -> inv w -> keeps p w.
Proof.
  intros [request|identity|identity|identity] I.
  - apply keeps_bind; [by apply keeps_Settle | intros r w1 F1%future_inv]. by apply keeps_ret.
  - by apply keeps_BroadcastWorker.
  - by apply keeps_ConfirmationWorker.
  - by apply keeps_recovery_process.
Qed.

End Recovery.
