(* ===== verification/StoreDemo.v ===== *)
(** Concrete histories of the settlement tables, for evaluation. *)

From Stdlib Require Import ZArith Lia Strings.Byte.
From stdpp Require Import base gmap list strings fin_maps.
From S2P Require Import Prelude GoStd Policy Verification State Schema Work Store StoreWork.
From S2P Require Import StoreRecovery StoreInv.

Local Open Scope Z_scope.

Definition demo_addr (c : string) : string := "0x" +:+ Repeat c 40.

Definition demo_identity : string := "pay_" +:+ Repeat "0" 64.

Definition demo_verified : VerifiedPayment :=
  {| vp_Identity := demo_identity; vp_Asset := ToLower MainnetUSDC; vp_Payer := demo_addr "1"; vp_Recipient := demo_addr "2";
     vp_Amount := "1000000"; vp_Nonce := "0x" +:+ Repeat "ab" 32; vp_ValidAfter := 0;
     vp_ValidBefore := 5000 * second; vp_PayloadHash := Repeat "0" 64;
     vp_Signature := "0x" +:+ Repeat "cd" 65 |}.

Definition demo_attempt : Attempt :=
  {| va_PaymentIdentity := demo_identity; va_Result := "verified"; va_ReasonCode := EmptyString;
     va_Payment := Some demo_verified |}.

Definition demo_intent : IntentRequest :=
  {| ir_PaymentIdentity := demo_identity; ir_SignerAddress := demo_addr "9";
     ir_PayerSignature := "0x" +:+ Repeat "cd" 65; ir_ExpiryMargin := 60 * second; ir_Quota := 2;
     ir_QuotaWindow := 3600 * second; ir_GlobalQuota := 3; ir_Now := 1000 * second |}.

Definition demo_merchants : gmap N Merchant :=
  {[ 7%N := {| m_recipient := demo_addr "2"; m_status := MActive; m_created_at := 0 |} ]}.

Definition demo_admission : list store_op :=
  [OpMerchants demo_merchants; OpSeed (demo_addr "9") 5; OpVerification "used" demo_attempt 1;
   OpIntent demo_intent (1000 * second)].

(** Signed, broadcast, mined and confirmed. *)
Definition demo_settlement : list store_op :=
  demo_admission ++
  [OpSigned 2 "aa" (Repeat "0" 64) 90000 "30" "1" 2; OpBroadcast 1 2 "0xaa" "http" 3;
   OpConfirming 1 2 100 "0xbb" "worker" 4; OpConfirmed 1 2 100 "0xbb" 60000 "20" "worker" 5].

Definition demo_db : db := run_ops empty_db demo_settlement.

Definition demo_bump : Replacement :=
  {| rp_Nonce := 5; rp_TxHash := "0xcc"; rp_RawHash := "cc"; rp_GasLimit := 90000; rp_MaxFee := "40";
     rp_PriorityFee := "2"; rp_SignerAddress := demo_addr "9" |}.

(** The intent expires before a broadcast; its nonce is filled, and the filler
    is replaced once. *)
Definition demo_filled : db := run_ops empty_db
  (demo_admission ++
   [OpExpired 1 2 "worker" 2; OpGapPrepared 2 "aa" "0xaa" [x00] 90000 "30" "1" 3;
    OpGapReplaced 1 2 demo_bump [x01] 4]).

(** Broadcast, then replaced by a signature with higher fees. *)
Definition demo_replaced : db := run_ops empty_db
  (demo_admission ++
   [OpSigned 2 "aa" (Repeat "0" 64) 90000 "30" "1" 2; OpBroadcast 1 2 "0xaa" "http" 3;
    OpReplaced 1 2 demo_bump "worker" 4]).
