(* ===== verification/SystemDemo.v ===== *)
(** Scripted runs are runs of the system, and a concrete one: a verified
    payment is settled over HTTP. *)

From Stdlib Require Import ZArith Lia Strings.Byte.
From stdpp Require Import base gmap list strings relations.
From S2P Require Import Prelude GoStd Geth Policy WalletProof Verification Signer Fees State.
From S2P Require Import Schema Calldata Work Store StoreWork StoreRecovery Prog Service Recovery.
From S2P Require Import StoreInv System StoreDemo.

Local Open Scope Z_scope.
Local Open Scope prog_scope.

(** ** The demonstration *)

#[local] Existing Instance DemoX402.

Definition demo_payment : VerifiedPayment :=
  match @ParseRequest (DemoGeth []) _ (demo_verify (demo_addr "1")) with
  | inl p => p
  | inr _ => demo_verified
  end.

Definition demo_cfg : Config :=
  {| SignerAddress := demo_addr "9"; ExpiryMargin := 60 * second; MerchantQuota := 2; GlobalQuota := 3;
     QuotaWindow := 3600 * second; LeaseDuration := 30 * second; Confirmations := 12; GasLimit := 100000;
     MaxFeePerGas := "100"; MaxPriorityFeeGas := "2"; RecoveryGrace := 60 * second;
     ReplacementAfter := 300 * second; ResponseWait := 0 |}.

(** What a request signs for [demo_payment] at base fee 10. *)
Definition demo_unsigned (maxFee tip : Z) : gethTx string :=
  @NewDynamicFeeTx (DemoGeth []) 1 5 (ToLower MainnetUSDC) 0 100000 maxFee tip
    (match @Calldata.TransferWithAuthorizationData (DemoGeth [])
        {| au_From := vp_Payer demo_payment; au_To := vp_Recipient demo_payment;
           au_Value := vp_Amount demo_payment; au_ValidAfter := vp_ValidAfter demo_payment;
           au_ValidBefore := vp_ValidBefore demo_payment; au_Nonce := vp_Nonce demo_payment;
           au_Signature := vp_Signature demo_payment |} with
     | Ok d => d
     | Err _ => []
     end).

Definition demo_sent : list (gethTx string) :=
  [@WithSignature (DemoGeth []) (demo_unsigned 22 2) (bytes_of_string (demo_addr "9"))].

Definition demo_geth : Geth := DemoGeth demo_sent.
#[local] Existing Instance demo_geth.

Definition demo_sign : Transaction -> res SignedTransaction :=
  Development_SignTransaction (fun _ => Some (bytes_of_string (demo_addr "9"))).

Definition demo_script : script :=
  {| s_env := {| e_now := 1000 * second; e_locked := fun _ => false |}; s_now := 1000 * second;
     s_sign := demo_sign; s_send := fun _ => Ok (raw_hex (keccak256 [x00]));
     s_receipt := fun _ => Ok None; s_transaction := fun _ => Ok None;
     s_block := fun _ => Ok {| bl_Hash := "0xbb"; bl_Number := 100; bl_BaseFee := "10" |};
     s_height := Ok 100; s_simulate := fun _ _ _ => Ok tt |}.

Definition demo_before : list store_op :=
  [OpMerchants demo_merchants; OpSeed (demo_addr "9") 5;
   OpVerification "used"
     {| va_PaymentIdentity := vp_Identity demo_payment; va_Result := "verified";
        va_ReasonCode := EmptyString; va_Payment := Some demo_payment |} 1].

Definition demo_settle : prog unit := Settle demo_cfg (demo_verify (demo_addr "1")) ;;~ Ret tt.

Definition demo_raw : string := raw_hex [x00].

Definition demo_end : unit * db * list string := run demo_script demo_settle (run_ops empty_db demo_before).



Lemma demo_sends : demo_end.2 = [demo_raw].
Proof. vm_compute. reflexivity. Qed.

(** ** Scripted runs *)

Section Scripted.
  Context `{Geth} `{X402} (cfg : Config) (signs : Transaction -> SignedTransaction -> Prop) (s : script).
  Hypothesis signs_script : forall tx st, s_sign s tx = Ok st -> signs tx st.

Lemma run_one w p w' p' s' :
  pstep signs w p w' p' -> rtc (sstep cfg signs) (w', [p']) s' -> rtc (sstep cfg signs) (w, [p]) s'.
Proof. intros S R. eapply rtc_l; [exact (s_run cfg signs w [] p [] w' p' S) | exact R]. Qed.

Lemma run_steps (p : prog unit) w :
  exists w', rtc (sstep cfg signs) (w, [p]) (w', [Ret tt]) /\
    (exists l, w_trace w' = l ++ w_trace w) /\ w_db w' = (run s p (w_db w)).1.2 /\
    forall raw, raw ∈ (run s p (w_db w)).2 -> Sent raw ∈ w_trace w'.
Proof.
  revert w. induction p as [[]|X m h IH|h IH|h IH|tx h IH|raw h IH|hash h IH|hash h IH|n h IH|h IH|from to data h IH];
    intros w; cbn [run].
  1:{ exists w. split; [apply rtc_refl|]. split; [by exists []|]. split; [done|]. intros raw Hr. by apply elem_of_nil in Hr. }
  1:{ destruct (m (s_env s) (w_db w)) as [[x d]|err] eqn:E.
      - destruct (IH (Ok x) (commit d w)) as (w' & R & [l L] & S). exists w'.
        split; [|split; [exists (l ++ [Commit d]); by rewrite L, <- app_assoc | done]].
        eapply run_one; [by eapply step_commit | done].
      - destruct (IH (Err err) w) as (w' & R & L & S). exists w'. split; [|done].
        eapply run_one; [by eapply step_failed | done]. }
  3:{ destruct (s_sign s tx) as [st|err] eqn:E; edestruct IH as (w' & R & L & S); exists w'; (split; [|done]).
      - eapply run_one; [by apply step_signed, signs_script | exact R].
      - eapply run_one; [by apply step_unsigned | exact R]. }
  3:{ destruct (IH (s_send s raw) (emit raw w)) as (w' & R & [l L] & S). exists w'.
      split; [eapply run_one; [by apply step_send | done]|].
      split; [exists (l ++ [Sent raw]); by rewrite L, <- app_assoc|].
      destruct (run s (h (s_send s raw)) (w_db w)) as [[a d] sent] eqn:E. simpl in S. rewrite E in S.
      destruct S as [D S]. split; [done|].
      intros r [->|Hr]%elem_of_cons; [|by apply S].
      rewrite L. apply elem_of_app. right. by left. }
  all: edestruct IH as (w' & R & L & S); exists w'; (split; [|exact (conj L S)]);
    (eapply run_one; [constructor | exact R]).
Qed.

Lemma outside_steps (ops : list store_op) w :
  forallb outside ops = true ->
  exists w', rtc (sstep cfg signs) (w, []) (w', []) /\ w_db w' = run_ops (w_db w) ops.
Proof.
  revert w. induction ops as [|op ops IH]; simpl; intros w Ho.
  { exists w. split; [apply rtc_refl | done]. }
  apply andb_true_iff in Ho as [Ho Hops]. unfold run_ops. simpl. fold (run_ops (call_op (w_db w) op) ops).
  unfold call_op. destruct (exec op (w_db w)) as [[[] d]|err] eqn:E.
  - destruct (IH (commit d w) Hops) as (w' & R & D). exists w'. split; [|done].
    eapply rtc_l; [by eapply s_store | done].
  - by apply IH.
Qed.

End Scripted.
