(* ===== verification/Finality.v ===== *)
(** What the chain must have said: programs with the log of the answers they
    received.

    Between two calls of a program anything may happen to the database, so a
    store call is logged with the database it found and the one it left. *)

From Stdlib Require Import ZArith Lia Strings.Byte.
From stdpp Require Import base gmap list strings.
From S2P Require Import Prelude GoStd GoJson Geth Policy Verification Signer State Schema Hoare Calldata.
From S2P Require Import Rpc RpcProps Work Store StoreWork StoreRecovery Prog Service.
From S2P Require Import StoreInv StorePaid StoreIntent StoreDemo SystemDemo.

Local Open Scope Z_scope.
Local Open Scope prog_scope.

Inductive answer :=
  | AStore (before after : db)
  | AReceipt (hash : string) (r : res (option Receipt))
  | ABlock (number : option Z) (r : res Block)
  | AHeight (r : res Z).

(** [replies p log log' a]: with some answers, logged in front of [log], the
    program ends in [a]. *)
Inductive replies {A} : prog A -> list answer -> list answer -> A -> Prop :=
  | r_ret a log : replies (Ret a) log log a
  | r_commit X (m : env -> DB X) k e d x d' log log' a :
      m e d = Ok (x, d') -> replies (k (Ok x)) (AStore d d' :: log) log' a ->
      replies (Call m k) log log' a
  | r_lost X (m : env -> DB X) k e d x d' err log log' a :
      m e d = Ok (x, d') -> replies (k (Err err)) (AStore d d' :: log) log' a ->
      replies (Call m k) log log' a
  | r_failed X (m : env -> DB X) k err log log' a :
      replies (k (Err err)) log log' a -> replies (Call m k) log log' a
  | r_now k t log log' a : replies (k t) log log' a -> replies (Now k) log log' a
  | r_cancelled k b log log' a : replies (k b) log log' a -> replies (Cancelled k) log log' a
  | r_sign tx k r log log' a : replies (k r) log log' a -> replies (Sign tx k) log log' a
  | r_send raw k r log log' a : replies (k r) log log' a -> replies (Send raw k) log log' a
  | r_receipt h k r log log' a :
      replies (k r) (AReceipt h r :: log) log' a -> replies (GetReceipt h k) log log' a
  | r_transaction h k r log log' a : replies (k r) log log' a -> replies (GetTransaction h k) log log' a
  | r_block n k r log log' a :
      replies (k r) (ABlock n r :: log) log' a -> replies (GetBlock n k) log log' a
  | r_height k r log log' a :
      replies (k r) (AHeight r :: log) log' a -> replies (GetHeight k) log log' a
  | r_simulate f t data k r log log' a : replies (k r) log log' a -> replies (Simulate f t data k) log log' a.

(** The same as a weakest precondition, which evaluates on a program. *)
Fixpoint wp {A} (p : prog A) (Q : A -> list answer -> Prop) (log : list answer) : Prop :=
  match p with
  | Ret a => Q a log
  | Call m k =>
      (forall e d x d', m e d = Ok (x, d') ->
         wp (k (Ok x)) Q (AStore d d' :: log) /\ forall err, wp (k (Err err)) Q (AStore d d' :: log)) /\
      forall err, wp (k (Err err)) Q log
  | Now k => forall t, wp (k t) Q log
  | Cancelled k => forall b, wp (k b) Q log
  | Sign _ k => forall r, wp (k r) Q log
  | Send _ k => forall r, wp (k r) Q log
  | GetReceipt h k => forall r, wp (k r) Q (AReceipt h r :: log)
  | GetTransaction _ k => forall r, wp (k r) Q log
  | GetBlock n k => forall r, wp (k r) Q (ABlock n r :: log)
  | GetHeight k => forall r, wp (k r) Q (AHeight r :: log)
  | Simulate _ _ _ k => forall r, wp (k r) Q log
  end.

(** Final evidence for transaction [h]: its receipt, in a block that is
    canonical and [Confirmations] deep, with the given outcome. *)
Definition evidence (cfg : Config) (log : list answer) (h : string) (succeeded : bool) : Prop :=
  exists receipt block current,
    AReceipt h (Ok (Some receipt)) ∈ log /\
    ABlock (Some (rc_BlockNumber receipt)) (Ok block) ∈ log /\
    EqualFold (bl_Hash block) (rc_BlockHash receipt) = true /\
    AHeight (Ok current) ∈ log /\
    Confirmations cfg <= depth current (rc_BlockNumber receipt) /\
    (rc_Status receipt =? 0) = negb succeeded.

(** Every payment of [m0] kept its state in [m], except that payment [p] may
    have moved to one of [states]. *)
Definition only_moves (m0 : gmap N Payment) (p : rowid) (states : list State) (m : gmap N Payment) : Prop :=
  forall i q q', m0 !! i = Some q -> m !! i = Some q' ->
    p_state q' = p_state q \/ (i = p /\ p_state q' ∈ states).

(** [h] was the hash of the active transaction of payment [p] when it was
    loaded. *)
Definition loaded_hash (log : list answer) (p : rowid) (h : string) : Prop :=
  exists d i r, AStore d d ∈ log /\ active_tx d p = Some (i, r) /\ t_hash r = Some h.

(** ** Answers of the RPC client *)

Definition from_client (c : Client) (a : answer) : Prop :=
  match a with
  | AStore _ _ => True
  | AReceipt h r => exists ids net ended cancelled,
      r = Eth.chain_answer (Eth.TransactionReceipt ids net ended cancelled c h)
  | ABlock number r => exists ids net ended cancelled,
      r = Eth.chain_answer (Eth.BlockByNumber ids net ended cancelled c number)
  | AHeight r => exists ids net ended cancelled,
      r = Eth.chain_answer (Eth.BlockNumber ids net ended cancelled c)
  end.

(** Provider [url] itself reported the receipt, a block at its height with its
    block hash, and a head at least [Confirmations] blocks from it. *)
Definition provider_confirms (c : Client) (cfg : Config) (h : string) (receipt : Receipt) (url : string) :
    Prop :=
  (exists ids net ended h', normalizeHash h = Some h' /\
     answered ids net ended c (decodeReceipt h') (eth_getTransactionReceipt h') url (Some receipt)) /\
  (exists ids net ended block,
     answered ids net ended c (decodeBlock (Some (rc_BlockNumber receipt)))
       (eth_getBlockByNumber (Eth.block_tag (Some (rc_BlockNumber receipt)))) url block /\
     EqualFold (bl_Hash block) (rc_BlockHash receipt) = true) /\
  (exists ids net ended head,
     answered ids net ended c decodeHexUintResult eth_blockNumber url head /\
     rc_BlockNumber receipt + Confirmations cfg - 1 <= head).

(** ** Rules *)

Lemma wp_sound {A} (p : prog A) Q log log' a : replies p log log' a -> wp p Q log -> Q a log'.
Proof.
  induction 1 as [| X m k e d x d' log log' a E _ IH | X m k e d x d' err log log' a E _ IH
    | X m k err log log' a _ IH | | | | | | | | |]; simpl; intros W; auto.
  - destruct W as [W _]. apply IH, (W e d x d' E).
  - destruct W as [W _]. apply IH, (W e d x d' E).
  - destruct W as [_ W]. apply IH, W.
Qed.

Ltac prog_induction p :=
  induction p as [a|X m h IH|h IH|h IH|tx h IH|raw h IH|hash h IH|hash h IH|n h IH|h IH|from to data h IH].

Lemma wp_bind {A B} (p : prog A) (k : A -> prog B) Q log :
  wp p (fun a log => wp (k a) Q log) log -> wp (pbind p k) Q log.
Proof.
  revert log. prog_induction p; simpl; intros log W; auto.
  destruct W as [W1 W2]. split; [|auto]. intros e d x d' E. destruct (W1 e d x d' E). auto.
Qed.

Lemma wp_mono {A} (p : prog A) (Q R : A -> list answer -> Prop) log :
  (forall a log, Q a log -> R a log) -> wp p Q log -> wp p R log.
Proof.
  intros HQ. revert log. prog_induction p; simpl; intros log W; auto.
  destruct W as [W1 W2]. split; [|auto]. intros e d x d' E. destruct (W1 e d x d' E). auto.
Qed.

Lemma wp_true {A} (p : prog A) log : wp p (fun _ _ => True) log.
Proof. revert log. prog_induction p; simpl; auto. Qed.

(** Something irrelevant, then the rest from any log. *)
Lemma wp_skip {A B} (p : prog A) (k : A -> prog B) Q log :
  (forall a log, wp (k a) Q log) -> wp (pbind p k) Q log.
Proof. intros Hk. apply wp_bind. eapply wp_mono; [|apply wp_true]. auto. Qed.

(** ** What the store calls move *)

Lemma only_moves_exec {X} m0 p states (m : DB X) :
  preserves (paid (only_moves m0 p states)) m ->
  forall d x d', m0 = payments d -> m d = Ok (x, d') -> only_moves m0 p states (payments d').
Proof.
  intros Hm d x d' -> E. apply (Hm d x d'); [|done]. intros i q q' H1 H2. left. congruence.
Qed.

Lemma only_moves_update m0 p states cond f :
  (forall q, p_state (f q) ∈ states) -> preserves (paid (only_moves m0 p states)) (update_payment p cond f).
Proof.
  intros Hf. apply paid_update_payment. intros m r Hm Hr _ i q q' Hq.
  intros [[<- <-]|[Hne Hq']]%lookup_insert_Some; [by right | by apply (Hm i)].
Qed.

Lemma only_moves_validate m0 p states from to :
  preserves (paid (only_moves m0 p states)) (validate_all from to).
Proof. induction from; simpl; walk. Qed.

Lemma moves_MarkTxReorgedOut m0 p t a now :
  preserves (paid (only_moves m0 p [StateBroadcast])) (MarkTxReorgedOut p t a now).
Proof.
  unfold MarkTxReorgedOut, transitionPayment, recordTransition, race. walk.
  apply only_moves_update. intros. by left.
Qed.

Lemma moves_MarkTxConfirming m0 p t b h a now :
  preserves (paid (only_moves m0 p [StateConfirming])) (MarkTxConfirming p t b h a now).
Proof.
  unfold MarkTxConfirming, recordTransition. walk. apply only_moves_update. intros. by left.
Qed.

Lemma moves_settle m0 p to actor assign now :
  (forall q, p_state (assign q) = p_state q) ->
  preserves (paid (only_moves m0 p [to])) (transitionPaymentIn p settled_from to actor assign now).
Proof.
  intros Ha. unfold transitionPaymentIn, recordTransition, race.
  apply preserves_bind; [apply only_moves_validate|]. intros _. walk.
  apply only_moves_update. intros. rewrite Ha. by left.
Qed.

Lemma moves_MarkTxReverted m0 p t g pr a now :
  preserves (paid (only_moves m0 p [StateReverted])) (MarkTxReverted p t g pr a now).
Proof. unfold MarkTxReverted, terminalSettlementMatches, race. walk. by apply moves_settle. Qed.

Lemma moves_MarkTxConfirmed m0 p t b h g pr a now :
  preserves (paid (only_moves m0 p [StateConfirmed])) (MarkTxConfirmed p t b h g pr a now).
Proof. unfold MarkTxConfirmed, terminalSettlementMatches, race. walk. by apply moves_settle. Qed.

(** ** What the programs conclude *)

Section Programs.
  Context `{Geth} `{X402} (cfg : Config).

Lemma evidence_intro h receipt block current ok log :
  EqualFold (bl_Hash block) (rc_BlockHash receipt) = true ->
  Confirmations cfg <= depth current (rc_BlockNumber receipt) -> (rc_Status receipt =? 0) = negb ok ->
  evidence cfg (AHeight (Ok current) :: ABlock (Some (rc_BlockNumber receipt)) (Ok block) ::
    AReceipt h (Ok (Some receipt)) :: log) h ok.
Proof.
  intros Hh Hd Hs. exists receipt, block, current.
  repeat split; try done; repeat first [left | right]; done.
Qed.

Lemma evidence_cons a log h ok : evidence cfg log h ok -> evidence cfg (a :: log) h ok.
Proof.
  intros (receipt & block & current & H1 & H2 & H3 & H4 & H5). exists receipt, block, current.
  do 2 (split; [rewrite !elem_of_cons; by auto|]). split; [done|].
  split; [rewrite elem_of_cons; by auto | done].
Qed.

(** What an observation stands for. *)
Definition observed (h : string) (o : settlementObservation) (log : list answer) : Prop :=
  match o with
  | observationConfirmed _ => evidence cfg log h true
  | observationReverted _ => evidence cfg log h false
  | observationPending => True
  end.

Lemma wp_observeSettlement h log :
  wp (observeSettlement cfg h) (fun r log => match r with Ok o => observed h o log | Err _ => True end) log.
Proof.
  unfold observeSettlement, getReceipt, getBlock, getHeight, pbind_ok. cbn [pbind wp].
  intros [[receipt|]|err]; cbn [pbind wp]; [|done..]. intros [block|err]; cbn [pbind wp]; [|done].
  destruct (EqualFold _ _) eqn:Eh; cbn [negb pbind wp]; [|done]. intros [current|err]; cbn [pbind wp]; [|done].
  destruct (_ <? _) eqn:Ed; [done|]. bool_hyps.
  destruct (rc_Status receipt =? 0) eqn:Es; cbn [wp observed]; by apply evidence_intro.
Qed.

Lemma wp_poll n h log : wp (poll cfg n h) (observed h) log.
Proof.
  revert log. induction n as [|n IH]; intros log; cbn [poll]; apply wp_bind;
    (eapply wp_mono; [|apply wp_observeSettlement]); intros [[|r|r]|err] log' Ho; try exact Ho;
    unfold cancelled; cbn [pbind wp]; intros [|]; cbn [wp observed]; auto; apply IH.
Qed.

Lemma wp_waitForSettlement h log : wp (waitForSettlement cfg h) (observed h) log.
Proof. unfold waitForSettlement. destruct (_ <=? _); [done | apply wp_poll]. Qed.

Lemma wp_respondWithTx payment p t h log :
  wp (respondWithTx cfg payment p t h) (fun resp log =>
    sr_Success resp = true -> resp = settled payment h /\ evidence cfg log h true) log.
Proof.
  unfold respondWithTx, call. apply wp_bind. eapply wp_mono; [|apply wp_waitForSettlement].
  intros [|r|r] log' Ho; cbn [pbind wp observed] in *; [done| |].
  - split; [|done]. intros e d x d' _. split; [|done]. intros _. split; [done | by apply evidence_cons].
  - split; [|done]. intros e d x d' _. split; done.
Qed.

(** ** Confirmation *)

(** Whatever a store call of the log moved to a final state, the evidence for
    it is in the log. *)
Definition finals_evident (p : rowid) (log : list answer) : Prop :=
  forall d d' i q q', AStore d d' ∈ log -> payments d !! i = Some q -> payments d' !! i = Some q' ->
    p_state q' <> p_state q ->
    forall ok : bool, p_state q' = (if ok then StateConfirmed else StateReverted) ->
    i = p /\ exists h, loaded_hash log p h /\ evidence cfg log h ok.

Lemma finals_cons p log a :
  match a with AStore _ _ => False | _ => True end -> finals_evident p log -> finals_evident p (a :: log).
Proof.
  intros Ha HF d d' i q q' Hin Hq Hq' Hne ok Hok.
  apply elem_of_cons in Hin as [<-|Hin]; [done|].
  destruct (HF d d' i q q' Hin Hq Hq' Hne ok Hok) as (-> & h & (d0 & j & r & H1 & H2 & H3) & He).
  split; [done|]. exists h. split; [|by apply evidence_cons]. exists d0, j, r. split; [by right | done].
Qed.

(** A store call that moves only [p], to a final state only with evidence. *)
Lemma finals_store p log d d' states :
  only_moves (payments d) p states (payments d') ->
  (forall ok : bool, (if ok then StateConfirmed else StateReverted) ∈ states ->
     exists h, loaded_hash log p h /\ evidence cfg log h ok) ->
  finals_evident p log -> finals_evident p (AStore d d' :: log).
Proof.
  intros Hm Hev HF e e' i q q' Hin Hq Hq' Hne ok Hok.
  assert (i = p /\ exists h, loaded_hash log p h /\ evidence cfg log h ok)
    as (-> & h & (d0 & j & r & H1 & H2 & H3) & He).
  { apply elem_of_cons in Hin as [[= -> ->]|Hin]; [|by eapply HF].
    destruct (Hm i q q' Hq Hq') as [?|[-> Hs]]; [done|]. split; [done|]. apply Hev. by rewrite <- Hok. }
  split; [done|]. exists h. split; [|by apply evidence_cons]. exists d0, j, r. split; [by right | done].
Qed.

Lemma LoadSettlementWork_hash p now d work d' :
  LoadSettlementWork p now d = Ok (work, d') ->
  d' = d /\ exists i r, active_tx d p = Some (i, r) /\ w_TxHash work = default EmptyString (t_hash r).
Proof.
  unfold LoadSettlementWork, bind, get, lift, fail, ret. intros HH.
  repeat (case_match; simplify_eq; try done); (split; [done|]); do 2 eexists; (split; [done|]); done.
Qed.

Lemma wp_call_moves {X} (m : env -> DB X) p states log :
  (forall e m0, preserves (paid (only_moves m0 p states)) (m e)) ->
  (forall ok : bool, (if ok then StateConfirmed else StateReverted) ∈ states ->
     exists h, loaded_hash log p h /\ evidence cfg log h ok) ->
  finals_evident p log -> wp (call m) (fun _ log => finals_evident p log) log.
Proof.
  intros Hm Hev HF. split; [|done]. intros e d x d' E.
  assert (finals_evident p (AStore d d' :: log)) as HF'; [|by split].
  eapply finals_store; [|exact Hev | done]. eapply (only_moves_exec _ _ _ (m e)); [apply Hm | done | exact E].
Qed.

(** A call that reaches no final state. *)
Lemma wp_call_open {X} (m : env -> DB X) p state log :
  (forall e m0, preserves (paid (only_moves m0 p [state])) (m e)) ->
  state <> StateConfirmed -> state <> StateReverted ->
  finals_evident p log -> wp (call m) (fun _ log => finals_evident p log) log.
Proof.
  intros Hm H1 H2. apply (wp_call_moves m p [state]); [done|].
  intros [|] Hin%list_elem_of_singleton; congruence.
Qed.

Lemma finals_nil p : finals_evident p [].
Proof. intros d d' i q q' Hin. by apply elem_of_nil in Hin. Qed.

Lemma finals_load p log d : finals_evident p log -> finals_evident p (AStore d d :: log).
Proof.
  apply (finals_store p log d d []); [intros i q q' H1 H2; left; congruence|].
  intros ok Hin. by apply elem_of_nil in Hin.
Qed.

Ltac finals := repeat (apply finals_cons; [exact I|]); done.

Lemma wp_Confirmation p actor :
  wp (Confirmation cfg p actor) (fun _ log => finals_evident p log) [].
Proof.
  unfold Confirmation, call at 1, getReceipt, getBlock, getHeight, pbind_ok. cbn [pbind wp].
  split; [|intros; apply finals_nil]. intros e d work d' (-> & i & r & Ha & Hw)%LoadSettlementWork_hash.
  set (log := [AStore d d]). assert (finals_evident p log) as HF by apply finals_load, finals_nil.
  split; [|done]. destruct (String.eqb_spec (w_TxHash work) EmptyString) as [?|Hne]; [done|].
  assert (loaded_hash log p (w_TxHash work)) as HL.
  { exists d, i, r. split; [by left|]. split; [done|]. rewrite Hw in *. by destruct (t_hash r). }
  assert (forall log', finals_evident p log' -> wp (if bool_decide (w_TransactionStatus work = TxConfirming)
    then call (fun e => MarkTxReorgedOut p (w_TransactionID work) actor (e_now e)) else Ret (Ok tt))
    (fun _ log => finals_evident p log) log') as Hre.
  { intros log' HF'. destruct (bool_decide _); [|done].
    by apply (wp_call_open _ p StateBroadcast); [intros; apply moves_MarkTxReorgedOut|..]. }
  cbn [pbind wp]. intros [[receipt|]|err]; cbn [pbind wp]; [|apply Hre; finals | finals].
  intros [block|err]; cbn [pbind wp]; [|finals].
  destruct (EqualFold _ _) eqn:Eh; cbn [negb pbind wp]; [|apply Hre; finals].
  intros [current|err]; cbn [pbind wp]; [|finals].
  match goal with |- context [wp _ _ ?l] => set (log' := l) end.
  assert (finals_evident p log') as HF' by finals.
  assert (loaded_hash log' p (w_TxHash work)) as HL'.
  { destruct HL as (d0 & j & r0 & H1 & H2). exists d0, j, r0. split; [do 3 right; done | done]. }
  destruct (_ <? _) eqn:Ed.
  { by apply (wp_call_open _ p StateConfirming); [intros; apply moves_MarkTxConfirming|..]. }
  bool_hyps. assert (forall ok, (rc_Status receipt =? 0) = negb ok -> evidence cfg log' (w_TxHash work) ok)
    as Hev by (intros; by apply evidence_intro).
  destruct (rc_Status receipt =? 0) eqn:Es.
  - apply (wp_call_moves _ p [StateReverted]); [intros; apply moves_MarkTxReverted | | done].
    intros [|] Hin%list_elem_of_singleton; [done|]. eauto.
  - apply (wp_call_moves _ p [StateConfirmed]); [intros; apply moves_MarkTxConfirmed | | done].
    intros [|] Hin%list_elem_of_singleton; [|done]. eauto.
Qed.

(** ** Settle *)

(** The payment was already settled when the request found it. *)
Definition already_confirmed (payment : VerifiedPayment) (h : string) (log : list answer) : Prop :=
  exists d d' i p j r, AStore d d' ∈ log /\ payments d !! i = Some p /\
    p_identity p = vp_Identity payment /\ p_state p = StateConfirmed /\
    txs d !! j = Some r /\ t_payment r = i /\ t_status r = TxConfirmed /\ t_hash r = Some h.

Definition final_success (payment : VerifiedPayment) (resp : SettleResponse) (log : list answer) : Prop :=
  sr_Success resp = true ->
  resp = settled payment (sr_Transaction resp) /\
  (evidence cfg log (sr_Transaction resp) true \/ already_confirmed payment (sr_Transaction resp) log).

Lemma wp_respond payment p t h log : wp (respondWithTx cfg payment p t h) (final_success payment) log.
Proof.
  eapply wp_mono; [|apply wp_respondWithTx]. intros resp log' HS Hs.
  destruct (HS Hs) as [-> He]. split; [done | by left].
Qed.

Lemma wp_settleIntent payment intent log :
  (in_TxHash intent <> EmptyString -> in_Confirmed intent = true ->
     already_confirmed payment (in_TxHash intent) log) ->
  wp (settleIntent cfg payment intent) (final_success payment) log.
Proof.
  intros Hc. unfold settleIntent. destruct (String.eqb_spec (in_TxHash intent) EmptyString) as [_|Hne].
  - cbn [negb]. apply wp_skip. intros [h|err] log'; [apply wp_respond|].
    do 2 (destruct (errors_Is _ _); [done|]). apply wp_skip. intros [work|err'] log''; [|done].
    destruct (negb _); [apply wp_respond | done].
  - cbn [negb]. destruct (in_Reverted intent); [done|]. destruct (in_Confirmed intent).
    { intros _. split; [done|]. right. by apply Hc. }
    destruct (in_Duplicate intent); [done | apply wp_respond].
Qed.

Lemma wp_Settle request :
  wp (Settle cfg request) (fun r log => forall resp, r = Ok resp -> sr_Success resp = true ->
    exists payment, ParseRequest request = inl payment /\ final_success payment resp log) [].
Proof.
  unfold Settle. destruct (ParseRequest request) as [payment|reason].
  2:{ cbn [wp]. by intros resp [= <-]. }
  apply (wp_mono _ (fun r log => forall resp, r = Ok resp -> final_success payment resp log)).
  { intros r log HS resp Hr _. exists payment. auto. }
  assert (forall err log, wp (Ret (match admission_reason err with
    | Some reason => Ok (rejected reason (Some payment)) | None => Err err end))
    (fun r log => forall resp, r = Ok resp -> final_success payment resp log) log) as Hrej.
  { intros err log. cbn [wp]. by destruct (admission_reason err); intros resp [= <-]. }
  unfold now, call_res. cbn [pbind wp]. intros t.
  split; [|intros err; apply Hrej]. intros e d r d' E. split; [|intros err; apply Hrej].
  apply CreateSettlementIntent_Ok in E. destruct r as [intent|err]; [|apply Hrej].
  apply wp_bind. eapply wp_mono; [|apply wp_settleIntent].
  { by intros resp log HS r [= <-]. }
  intros Hne Hc. inversion E as [|p q i r intent' d0 Hp Hid Hr Hrp _ _ _ _ Hh _ Hconf _ _|]; subst; [|congruence].
  destruct (Hconf Hc) as [Hst Htx]. exists d, d', (t_payment r), q, i, r.
  split; [by left|]. rewrite Hh in *. by destruct (t_hash r).
Qed.

End Programs.

(** ** Every provider *)

Lemma chain_answer_Ok {T} (r : T + read_error) v : Ok v = Eth.chain_answer r -> r = inl v.
Proof. destruct r; simpl; congruence. Qed.

Lemma depth_head current number n :
  0 < n -> n <= depth current number -> number + n - 1 <= current.
Proof.
  unfold depth. destruct (number <=? current) eqn:E; [|lia]. bool_hyps. intros Hn Hd.
  pose proof (Z.mod_le (current - number + 1) two64) as Hm. unfold wrap64, two64 in *. lia.
Qed.

(** What the client returned as final, every provider reported. *)
Lemma evidence_providers c cfg log h ok :
  Forall (from_client c) log -> 0 < Confirmations cfg -> evidence cfg log h ok ->
  exists receipt, (rc_Status receipt =? 0) = negb ok /\
    Forall (provider_confirms c cfg h receipt) (providerURLs c).
Proof.
  intros Hc Hn (receipt & block & current & H1 & H2 & Hb & H3 & Hd & Hs). exists receipt. split; [done|].
  rewrite Forall_forall in Hc. apply Hc in H1 as (i1 & n1 & e1 & k1 & E1%chain_answer_Ok).
  apply Hc in H2 as (i2 & n2 & e2 & k2 & E2%chain_answer_Ok).
  apply Hc in H3 as (i3 & n3 & e3 & k3 & E3%chain_answer_Ok).
  apply TransactionReceipt_unanimous in E1 as (h' & Hh & U1). apply block_at_unanimous in E2 as U2.
  apply BlockNumber_heads in E3 as U3. apply depth_head in Hd; [|done].
  unfold unanimous in *. rewrite Forall_forall in U1, U2, U3. apply Forall_forall. intros url Hu.
  split; [exists i1, n1, e1, h'; auto|]. split; [exists i2, n2, e2, block; auto|].
  destruct (U3 url Hu) as (head & Ha & Hle). exists i3, n3, e3, head. split; [done | lia].
Qed.

Section Properties.
  Context `{Geth} `{X402} (cfg : Config).

(** C4. A successful settle response is final: the service answers success
    only for a request that parses, with that payment's payer, amount and
    network, and only if either the request itself saw the named transaction's
    receipt report success in a canonical block at the configured confirmation
    depth, or the payment was already recorded as confirmed with that
    transaction hash. *)
Theorem settle_success_final request log resp :
  replies (Settle cfg request) [] log (Ok resp) -> sr_Success resp = true ->
  exists payment, ParseRequest request = inl payment /\
    resp = settled payment (sr_Transaction resp) /\
    (evidence cfg log (sr_Transaction resp) true \/ already_confirmed payment (sr_Transaction resp) log).
Proof.
  intros R Hs. destruct (wp_sound _ _ _ _ _ R (wp_Settle cfg request) resp eq_refl Hs) as (payment & Hp & HF).
  exists payment. split; [done | by apply HF].
Qed.

(** C5. Finality needs every provider: if the confirmation worker moves a
    payment to confirmed or reverted, then it is the payment it was handed,
    and every configured provider itself reported the same receipt for the
    loaded transaction hash (failed exactly when the payment is reverted), a
    block of that hash at the receipt's height, and a head that puts the
    receipt at the configured depth. *)
Theorem finality_needs_every_provider c p actor log r d d' i q q' :
  replies (Confirmation cfg p actor) [] log r -> Forall (from_client c) log -> 0 < Confirmations cfg ->
  AStore d d' ∈ log -> payments d !! i = Some q -> payments d' !! i = Some q' ->
  p_state q' <> p_state q -> p_state q' = StateConfirmed \/ p_state q' = StateReverted ->
  i = p /\ exists h receipt, loaded_hash log p h /\
    (rc_Status receipt = 0 <-> p_state q' = StateReverted) /\
    Forall (provider_confirms c cfg h receipt) (providerURLs c).
Proof.
  intros R Hc Hn Hin Hq Hq' Hne Hfinal.
  pose proof (wp_sound _ _ _ _ _ R (wp_Confirmation cfg p actor)) as HF.
  assert (exists ok : bool, p_state q' = (if ok then StateConfirmed else StateReverted)) as [ok Hok].
  { destruct Hfinal; [by exists true | by exists false]. }
  destruct (HF d d' i q q' Hin Hq Hq' Hne ok Hok) as (-> & h & HL & He). split; [done|].
  destruct (evidence_providers c cfg log h ok Hc Hn He) as (receipt & Hs & Hall).
  exists h, receipt. split; [done|]. split; [|done]. rewrite Hok, <- Z.eqb_eq, Hs. by destruct ok.
Qed.

End Properties.

(** ** Scripted executions *)

Fixpoint run_log {A} (s : script) (p : prog A) (d : db) (log : list answer) : A * db * list answer :=
  match p with
  | Ret a => (a, d, log)
  | Call m k =>
      match m (s_env s) d with
      | Ok (x, d') => run_log s (k (Ok x)) d' (AStore d d' :: log)
      | Err e => run_log s (k (Err e)) d log
      end
  | Now k => run_log s (k (s_now s)) d log
  | Cancelled k => run_log s (k false) d log
  | Sign tx k => run_log s (k (s_sign s tx)) d log
  | Send raw k => run_log s (k (s_send s raw)) d log
  | GetReceipt h k => run_log s (k (s_receipt s h)) d (AReceipt h (s_receipt s h) :: log)
  | GetTransaction h k => run_log s (k (s_transaction s h)) d log
  | GetBlock n k => run_log s (k (s_block s n)) d (ABlock n (s_block s n) :: log)
  | GetHeight k => run_log s (k (s_height s)) d (AHeight (s_height s) :: log)
  | Simulate f t data k => run_log s (k (s_simulate s f t data)) d log
  end.

Lemma run_log_replies {A} s (p : prog A) d log :
  replies p log (run_log s p d log).2 (run_log s p d log).1.1.
Proof.
  revert d log. prog_induction p; intros d log; cbn [run_log]; try (by econstructor; apply IH).
  destruct (m (s_env s) d) as [[x d']|e] eqn:E; [by eapply r_commit | by eapply r_failed].
Qed.

(** The chain answers through the client. *)
Definition client_answers (c : Client) (s : script) : Prop :=
  (forall h, from_client c (AReceipt h (s_receipt s h))) /\
  (forall n, from_client c (ABlock n (s_block s n))) /\ from_client c (AHeight (s_height s)).

Lemma run_log_client {A} c s (p : prog A) d log :
  client_answers c s -> Forall (from_client c) log -> Forall (from_client c) (run_log s p d log).2.
Proof.
  intros (Hr & Hb & Hh). revert d log. prog_induction p; intros d log HF; cbn [run_log]; auto.
  destruct (m (s_env s) d) as [[x d']|e]; apply IH; [by constructor | done].
Qed.

#[local] Existing Instance DemoX402.
#[local] Existing Instance demo_geth.

Definition rpc_script : script :=
  {| s_env := {| e_now := 1010 * second; e_locked := fun _ => false |}; s_now := 1010 * second;
     s_sign := demo_sign; s_send := fun _ => Err [EOpaque];
     s_receipt := fun h =>
       Eth.chain_answer (Eth.TransactionReceipt demo_ids demo_net demo_ended demo_cancelled demo_client h);
     s_transaction := fun _ => Ok None;
     s_block := fun n =>
       Eth.chain_answer (Eth.BlockByNumber demo_ids demo_net demo_ended demo_cancelled demo_client n);
     s_height := Eth.chain_answer (Eth.BlockNumber demo_ids demo_net demo_ended demo_cancelled demo_client);
     s_simulate := fun _ _ _ => Ok tt |}.

Lemma rpc_script_client : client_answers demo_client rpc_script.
Proof.
  split; [|split]; [intros h | intros n | ];
    by exists demo_ids, demo_net, demo_ended, demo_cancelled.
Qed.

(** The payment settled in SystemDemo.v, then observed at depth. *)
Definition demo_observed : res unit * db * list answer :=
  run_log rpc_script (Confirmation demo_cfg 1 "worker") demo_end.1.2 [].

Definition demo_state (d : db) : option State := option_map p_state (payments d !! 1%N).

Lemma demo_observed_states :
  demo_state demo_end.1.2 = Some StateBroadcast /\ demo_state demo_observed.1.2 = Some StateConfirmed.
Proof. vm_compute. split; reflexivity. Qed.

Lemma demo_observed_head :
  demo_observed.2 = AStore demo_end.1.2 demo_observed.1.2 :: tail demo_observed.2.
Proof. vm_compute. reflexivity. Qed.

Lemma demo_state_Some d s : demo_state d = Some s -> exists q, payments d !! 1%N = Some q /\ p_state q = s.
Proof. unfold demo_state. destruct (payments d !! 1%N) as [q|]; [|done]. intros [= <-]. eauto. Qed.

Lemma demo_observed_log :
  replies (Confirmation demo_cfg 1 "worker") [] demo_observed.2 demo_observed.1.1 /\
  Forall (from_client demo_client) demo_observed.2.
Proof.
  pose proof (run_log_replies rpc_script (Confirmation demo_cfg 1 "worker") demo_end.1.2 []) as R.
  pose proof (run_log_client demo_client rpc_script (Confirmation demo_cfg 1 "worker") demo_end.1.2 []
    rpc_script_client (List.Forall_nil _)) as C.
  fold demo_observed in R, C. split; [exact R | exact C].
Qed.

Lemma finality_needs_every_provider_witness :
  exists h receipt, Forall (provider_confirms demo_client demo_cfg h receipt) ["a"; "b"]%string.
Proof.
  destruct demo_observed_states as [[q [Hq Hs]]%demo_state_Some [q' [Hq' Hs']]%demo_state_Some].
  destruct (finality_needs_every_provider demo_cfg demo_client 1 "worker" demo_observed.2 demo_observed.1.1
    demo_end.1.2 demo_observed.1.2 1%N q q') as (_ & h & receipt & _ & _ & Hall).
  - exact (proj1 demo_observed_log).
  - exact (proj2 demo_observed_log).
  - reflexivity.
  - rewrite demo_observed_head. left.
  - exact Hq.
  - exact Hq'.
  - rewrite Hs, Hs'. discriminate.
  - left. exact Hs'.
  - exists h, receipt. exact Hall.
Defined.

(** The same request again, once the payment is confirmed. *)
Definition demo_again : res SettleResponse * db * list answer :=
  run_log rpc_script (Settle demo_cfg (demo_verify (demo_addr "1"))) demo_observed.1.2 [].

Lemma demo_again_answer : demo_again.1.1 = Ok (settled demo_payment (raw_hex (replicate 32 x00))).
Proof. vm_compute. reflexivity. Qed.

Lemma settle_success_final_witness :
  exists payment h, evidence demo_cfg demo_again.2 h true \/ already_confirmed payment h demo_again.2.
Proof.
  pose proof (run_log_replies rpc_script (Settle demo_cfg (demo_verify (demo_addr "1")))
    demo_observed.1.2 []) as R.
  fold demo_again in R. rewrite demo_again_answer in R.
  destruct (settle_success_final demo_cfg (demo_verify (demo_addr "1")) _ _ R eq_refl)
    as (payment & _ & _ & HF).
  eexists payment, _. exact HF.
Defined.
