(* ===== verification/SystemProps.v ===== *)
(** What the running service sends: the properties of every broadcast, over
    all interleavings of requests and worker ticks, crashes, lost answers,
    chain answers and signer backends. *)

From Stdlib Require Import ZArith Lia Strings.Byte.
From stdpp Require Import base gmap list strings relations.
From S2P Require Import Prelude GoStd Fees State Geth Policy Calldata Signer WalletProof.
From S2P Require Import Verification Schema Work Hoare Store StoreWork StoreRecovery Prog Service Recovery StoreInv.
From S2P Require Import StoreNonce StoreEvolve StoreRows StoreIntent System SystemLogic SystemCalls SystemSafe.
From S2P Require Import SystemRecovery StoreDemo SystemDemo.

(** The invariant of the running system: whatever the interleaving, the
    crashes, the lost answers and the chain do, every process stays safe and
    everything on the trace was allowed to be sent when it was sent. *)

Local Open Scope Z_scope.
Local Open Scope prog_scope.

(** Every database on the trace evolved into the later ones. *)
Fixpoint ordered (d : db) (trace : list event) : Prop :=
  match trace with
  | [] => True
  | Commit d' :: trace => evolves d' d /\ ordered d' trace
  | Sent _ :: trace => ordered d trace
  end.

Lemma ordered_commit d d' trace : evolves d d' -> ordered d trace -> ordered d' trace.
Proof.
  revert d d'. induction trace as [|[e|raw] trace IH]; simpl; intros d d' E; [done| |by apply IH].
  intros [E' O]. split; [by etrans | done].
Qed.

Lemma ordered_evolves d trace d1 : ordered d trace -> Commit d1 ∈ trace -> evolves d1 d.
Proof.
  revert d. induction trace as [|[e|raw] trace IH]; simpl; intros d O Hin.
  - by apply elem_of_nil in Hin.
  - destruct O as [E O]. apply elem_of_cons in Hin as [[= ->]|Hin]; [done|].
    etrans; [|exact E]. by apply IH.
  - apply elem_of_cons in Hin as [?|Hin]; [done | by apply IH].
Qed.

Lemma ordered_total d trace d1 d2 :
  ordered d trace -> Commit d1 ∈ trace -> Commit d2 ∈ trace -> evolves d1 d2 \/ evolves d2 d1.
Proof.
  revert d. induction trace as [|[e|raw] trace IH]; simpl; intros d O H1 H2.
  - by apply elem_of_nil in H1.
  - destruct O as [E O]. apply elem_of_cons in H1 as [[= ->]|H1], H2 as [[= ->]|H2].
    + by left.
    + right. by eapply ordered_evolves.
    + left. by eapply ordered_evolves.
    + by eapply IH.
  - apply elem_of_cons in H1 as [?|H1], H2 as [?|H2]; try done. by eapply IH.
Qed.

Section Invariant.
  Context `{Geth} `{X402} (cfg : Config) (signs : Transaction -> SignedTransaction -> Prop).

  Hypothesis signs_exact : forall t st, signs t st ->
    Validate t = [] /\ exists s, UnmarshalBinary (Raw st) = Some s /\ matches s t /\
      SigHash st = SigHashOf (ChainID t) s.

  Abbreviation inv := (inv cfg).
  Abbreviation future := (future cfg).
  Abbreviation safe := (safe cfg signs).

(** [raw] was allowed when only [trace] had happened; its row is still there. *)
Definition sent_ok (d : db) (trace : list event) (raw : string) : Prop :=
  exists i r b, raw = raw_hex b /\ txs d !! i = Some r /\ signature_of cfg trace r b /\
    recorded trace (hex_EncodeToString (keccak256 b)).

Definition running (w : world) (p : prog unit) : Prop := safe p (fun _ _ => True) w.

Record sys_ok (s : sys) : Prop := {
  ok_inv : inv s.1;
  ok_running : Forall (running s.1) s.2;
  ok_ordered : ordered (w_db s.1) (w_trace s.1);
  ok_sent : forall l1 raw l2, w_trace s.1 = l1 ++ Sent raw :: l2 -> sent_ok (w_db s.1) l2 raw;
}.

Lemma running_future w w' p : future w w' -> running w p -> running w' p.
Proof. intros F. by apply safe_future. Qed.

Lemma sent_ok_evolves d d' trace raw : evolves d d' -> sent_ok d trace raw -> sent_ok d' trace raw.
Proof.
  intros [_ _ T] (i & r & b & Hraw & Hr & Hs & Hh). destruct (T i r Hr) as (r' & Hr' & K).
  exists i, r', b. repeat split; try done. by apply (signature_mono cfg trace [] r).
Qed.

(** A step to a later world, in which something allowed may have been sent. *)
Lemma step_ok w p w' p' :
  inv w -> running w p -> pstep signs w p w' p' ->
  running w' p' /\ future w w' /\
  (w' = w \/ (exists d, w' = commit d w) \/ exists raw, w' = emit raw w /\ sendable cfg w raw).
Proof.
  intros I R S. pose proof (future_refl cfg w I) as F0. unfold running in *.
  destruct S as [X m k e x d w E|X m k e x d err w E|X m k err w|k t w|k b w|tx k st w Hs|tx k err w
    |raw k r w|h k r w|h k r w|n k r w|k r w|from to data k r w]; cbn [System.safe] in R;
    try (by split; [apply R | auto]).
  - destruct (R w F0) as [Rc _]. destruct (Rc e x d E) as (F & Rk & _). eauto 6.
  - destruct (R w F0) as [Rc _]. destruct (Rc e x d E) as (F & _ & Rk). eauto 6.
  - destruct (R w F0) as [Hs Rk]. split; [by apply Rk|]. split; [by apply future_emit | eauto].
Qed.

Lemma sent_ok_step w w' :
  future w w' ->
  (w' = w \/ (exists d, w' = commit d w) \/ exists raw, w' = emit raw w /\ sendable cfg w raw) ->
  ordered (w_db w) (w_trace w) ->
  (forall l1 raw l2, w_trace w = l1 ++ Sent raw :: l2 -> sent_ok (w_db w) l2 raw) ->
  ordered (w_db w') (w_trace w') /\
  forall l1 raw l2, w_trace w' = l1 ++ Sent raw :: l2 -> sent_ok (w_db w') l2 raw.
Proof.
  intros (E & _ & _) Hw O S. destruct Hw as [->|[[d ->]|(raw & -> & Hraw)]]; [done| |]; simpl in *.
  - split; [split; [reflexivity | by eapply ordered_commit]|]. intros [|e l1] raw l2 Hl; simplify_list_eq.
    eapply sent_ok_evolves; [done | by eapply S].
  - split; [done|]. intros [|e l1] raw' l2 Hl; simplify_list_eq; [|by eapply S].
    destruct Hraw as (i & r & b & ? & ? & ? & ?). by exists i, r, b.
Qed.

Lemma sys_ok_init : sys_ok init.
Proof.
  split; simpl.
  - split; [|by left]. split; [by exists []|..]; try (intros i r Hr; discriminate Hr).
    intros who a. change (settled_in empty_db who a (QuotaWindow cfg)) with 0. apply Z.le_max_l.
  - done.
  - split; reflexivity.
  - intros [|e [|e' l1]] raw l2 Hl; discriminate Hl.
Qed.

(** A write of verification, start-up, retention or the merchant service. *)
Lemma outside_future w op d :
  inv w -> outside op = true -> exec op (w_db w) = Ok (tt, d) -> future w (commit d w).
Proof.
  intros I Ho E. apply (permitted_future cfg (fun _ => exec op) w w {| e_now := 0; e_locked := fun _ => false |} tt);
    [|by apply future_refl | done].
  intros w1 e [] d1 F1 E1. right. exists op. split; [done|].
  by apply op_ok_plain; destruct op.
Qed.

Lemma sys_ok_step s s' : sys_ok s -> sstep cfg signs s s' -> sys_ok s'.
Proof.
  intros [I R O S] St. destruct St as [w ps p Hp|w l1 p l2 w' p' Hp|w l1 p l2|w ps op d Ho E]; simpl in *.
  - split; simpl; auto. constructor; [|done].
    eapply safe_weaken; [|by apply (keeps_entry cfg signs signs_exact)]. done.
  - apply Forall_app in R as [R1 R2]. apply Forall_cons in R2 as [Rp R2].
    destruct (step_ok _ _ _ _ I Rp Hp) as (Rp' & F & Hw).
    destruct (sent_ok_step _ _ F Hw O S) as [O' S']. split; simpl; auto; [by eapply future_inv|].
    apply Forall_app. split; [|constructor; [done|]];
      (eapply Forall_impl; [done|]; intros q; by apply running_future).
  - split; simpl; auto. apply Forall_app in R as [R1 R2]. apply Forall_cons in R2 as [_ R2].
    by apply Forall_app.
  - pose proof (outside_future _ _ _ I Ho E) as F.
    destruct (sent_ok_step w (commit d w) F) as [O' S']; eauto.
    split; simpl; auto; [by eapply future_inv|].
    eapply Forall_impl; [done|]. intros q. by apply running_future.
Qed.

Lemma runs_ok s : runs_to cfg signs s -> sys_ok s.
Proof.
  unfold runs_to. pose proof sys_ok_init as O. induction 1; [done|]. eauto using sys_ok_step.
Qed.

End Invariant.
Local Open Scope Z_scope.

Section Props.
  Context `{Geth} `{X402} (cfg : Config).

(** Any backend that keeps the signer's contract, chosen afresh each time. *)
Definition any_signer (t : Transaction) (st : SignedTransaction) : Prop :=
  exists sign, Signer sign /\ sign t = Ok st.

(** [raw] carries transaction [t], whose calldata is the authorization [auth]
    of payment [p]. *)
Definition pays (trace : list event) (raw : string) (t : gethTx address)
    (auth : Calldata.Authorization) (p : rowid) : Prop :=
  exists b, raw = raw_hex b /\ UnmarshalBinary b = Some t /\
    Calldata.TransferWithAuthorizationData auth = Ok (tx_Data t) /\ describes trace p auth.

(** The same transfer, whoever signed it when. *)
Definition same_transfer (a b : Calldata.Authorization) : Prop :=
  au_From a = au_From b /\ au_To a = au_To b /\ au_Value a = au_Value b /\
  au_ValidAfter a = au_ValidAfter b /\ au_ValidBefore a = au_ValidBefore b /\ au_Nonce a = au_Nonce b.

Lemma any_signer_exact t st :
  any_signer t st ->
  Validate t = [] /\ exists s, UnmarshalBinary (Raw st) = Some s /\ matches s t /\
    SigHash st = SigHashOf (ChainID t) s.
Proof. intros (sign & S & E). by apply (sign_exact t st). Qed.

Lemma runs_sys_ok s : runs_to cfg any_signer s -> sys_ok cfg any_signer s.
Proof. apply runs_ok, any_signer_exact. Qed.

Lemma same_transfer_sym a b : same_transfer a b -> same_transfer b a.
Proof. unfold same_transfer. intros (? & ? & ? & ? & ? & ?). auto 10. Qed.

Lemma evolves_transfer d d' p a b :
  evolves d d' -> described d p a -> described d' p b -> same_transfer a b.
Proof.
  intros [_ P _] (r & Hr & Ha) (r' & Hr' & Hb).
  destruct (P p r Hr) as (r'' & Hr'' & _ & Hm & K1 & K2 & K3 & K4 & K5). simplify_eq.
  unfold authorization_of in Ha, Hb. split_hyps Ha. split_hyps Hb. unfold same_transfer; simpl.
  rewrite Hm. unfold kept in *. repeat split; intuition congruence.
Qed.

Lemma describes_agree d trace p a b :
  ordered d trace -> describes trace p a -> describes trace p b -> same_transfer a b.
Proof.
  intros O (d1 & H1 & D1) (d2 & H2 & D2).
  destruct (ordered_total _ _ _ _ O H1 H2) as [E|E]; [by eapply evolves_transfer|].
  apply same_transfer_sym. by eapply evolves_transfer.
Qed.

Lemma raw_hex_inj a b : raw_hex a = raw_hex b -> a = b.
Proof. unfold raw_hex. intros E. apply hex_EncodeToString_inj. by injection E. Qed.

Lemma sent_row s raw :
  sys_ok cfg any_signer s -> Sent raw ∈ w_trace s.1 ->
  exists i r t auth, txs (w_db s.1) !! i = Some r /\ tx_Nonce t = t_nonce r /\
    0 < tx_GasFeeCap t <= ceiling cfg /\ tx_Gas t <= gas_cap cfg /\ pays (w_trace s.1) raw t auth (t_payment r).
Proof.
  intros O (l1 & l2 & Ht)%list_elem_of_split.
  destruct (ok_sent _ _ _ O _ _ _ Ht) as (i & r & b & -> & Hr & (t & auth & ? & _ & _ & _ & ? & ? & ? & ? & ?) & _).
  exists i, r, t, auth. do 4 (split; [done|]). exists b. repeat split; try done.
  rewrite Ht. apply describes_mono. by apply (describes_mono _ [_]).
Qed.

(** C2. Everything the service broadcasts conforms, in every run: the sent
    bytes decode to a mainnet transaction that calls USDC with no ether, with
    the nonce of a transaction row, gas and a fee cap within the configured
    limits, and calldata built from the payer authorization that the row's payment had
    in a database committed earlier; and the hash of the bytes was in a
    committed database before they were sent. *)
Theorem broadcasts_conform w ps l1 raw l2 :
  runs_to cfg any_signer (w, ps) -> w_trace w = l1 ++ Sent raw :: l2 ->
  exists i r b t auth, raw = raw_hex b /\ txs (w_db w) !! i = Some r /\
    UnmarshalBinary b = Some t /\ tx_ChainId t = MainnetChainID /\
    (exists to, tx_To t = Some to /\ EqualFold (address_Hex to) MainnetUSDC = true) /\
    tx_Value t = 0 /\ tx_Nonce t = t_nonce r /\ 0 < tx_GasFeeCap t <= ceiling cfg /\
    tx_Gas t <= gas_cap cfg /\ Calldata.TransferWithAuthorizationData auth = Ok (tx_Data t) /\
    describes l2 (t_payment r) auth /\
    recorded l2 (hex_EncodeToString (keccak256 b)).
Proof.
  intros R Ht. destruct (ok_sent _ _ _ (runs_sys_ok _ R) _ _ _ Ht)
    as (i & r & b & -> & Hr & (t & auth & Hs) & Hh).
  destruct Hs as (? & ? & ? & ? & ? & ? & ? & ? & ?).
  exists i, r, b, t, auth. by repeat (split; [done|]).
Qed.

(** C1. No double payment by the service: of any two broadcasts in a run, each
    pays for one payment, and they carry the same Ethereum nonce exactly when
    they pay for the same payment, in which case they move the same value from
    the same payer to the same recipient under the same EIP-3009 nonce and
    validity window.  Since an account's nonce is mined once, a payment is
    settled at most once. *)
Theorem one_nonce_per_payment w ps raw1 raw2 :
  runs_to cfg any_signer (w, ps) -> Sent raw1 ∈ w_trace w -> Sent raw2 ∈ w_trace w ->
  exists t1 a1 p1 t2 a2 p2,
    pays (w_trace w) raw1 t1 a1 p1 /\ pays (w_trace w) raw2 t2 a2 p2 /\
    (tx_Nonce t1 = tx_Nonce t2 <-> p1 = p2) /\ (p1 = p2 -> same_transfer a1 a2).
Proof.
  intros R S1 S2. pose proof (runs_sys_ok _ R) as O.
  destruct (sent_row _ _ O S1) as (i & r & t1 & a1 & Hr & Hn1 & _ & _ & P1).
  destruct (sent_row _ _ O S2) as (j & s & t2 & a2 & Hs & Hn2 & _ & _ & P2).
  destruct (ok_inv _ _ _ O) as [[Hreach _ _ _ Hsig _] _].
  exists t1, a1, (t_payment r), t2, a2, (t_payment s). split; [done|]. split; [done|].
  rewrite Hn1, Hn2.
  destruct (reachable_ind' nonces nonces_empty nonces_exec _ Hreach) as [_ N1 N2 N3 _ _].
  pose proof (Hsig _ _ Hr) as E1. pose proof (Hsig _ _ Hs) as E2. simpl in *. split.
  - split; [intros; eapply N2; eauto; congruence | intros; eapply N3; eauto].
  - intros E. destruct P1 as (? & _ & _ & _ & D1), P2 as (? & _ & _ & _ & D2). rewrite E in D1.
    eapply describes_agree; [apply (ok_ordered _ _ _ O) | exact D1 | exact D2].
Qed.

(** ** Exposure *)

(** The most a mined transaction can cost. *)
Definition fee_of (t : gethTx address) : Z := tx_Gas t * tx_GasFeeCap t.

Definition total_fees (l : list (gethTx address)) : Z := foldr (fun t n => fee_of t + n) 0 l.

(** [t] was sent, and its nonce belongs to a payment requested in the window
    that ends [QuotaWindow] after [a], of everyone or of one merchant. *)
Definition charged (w : world) (who : option rowid) (a : time) (t : gethTx address) : Prop :=
  (exists b, Sent (raw_hex b) ∈ w_trace w /\ UnmarshalBinary b = Some t) /\
  exists i r p, txs (w_db w) !! i = Some r /\ t_nonce r = tx_Nonce t /\ payments (w_db w) !! t_payment r = Some p /\
    counted who p && in_window a (QuotaWindow cfg) p = true.

Lemma charged_fee w ps who a t :
  runs_to cfg any_signer (w, ps) -> charged w who a t -> fee_of t <= gas_cap cfg * ceiling cfg.
Proof.
  intros R [(b & Hs & Hb) _]. destruct (sent_row _ _ (runs_sys_ok _ R) Hs) as (i & r & t' & auth & _ & _ & Hf & Hg & Hp).
  destruct Hp as (b' & Eb & Hb' & _). apply raw_hex_inj in Eb as <-. rewrite Hb in Hb'. injection Hb' as <-.
  pose proof (Z.le_max_l 0 (GasLimit cfg)). unfold fee_of, gas_cap in *. nia.
Qed.

(** Distinct nonces are distinct payments, and the quota bounds those. *)
Lemma charged_count w ps who a l :
  runs_to cfg any_signer (w, ps) -> NoDup (map tx_Nonce l) -> Forall (charged w who a) l ->
  Z.of_nat (length l) <= quota_cap cfg who.
Proof.
  intros R Hnd Hl. destruct (ok_inv _ _ _ (runs_sys_ok _ R)) as [[Hreach _ _ Hq Hsig _] _]. simpl in *.
  destruct (reachable_ind' nonces nonces_empty nonces_exec _ Hreach) as [_ _ _ N3 _ _].
  destruct (distinct_images (fun t i => exists j r p, txs (w_db w) !! j = Some r /\ t_nonce r = tx_Nonce t /\
    i = t_payment r /\ payments (w_db w) !! i = Some p /\ counted who p && in_window a (QuotaWindow cfg) p = true)
    tx_Nonce l) as (ids & Hlen & Hids & Hall); [done| | |].
  - intros t t' i (j & r & p & Hr & <- & -> & _) (j' & r' & p' & Hr' & <- & E & _). by eapply N3.
  - eapply Forall_impl; [exact Hl|]. intros t (_ & i & r & p & Hr & Hn & Hp & Hc). by exists (t_payment r), i, r, p.
  - rewrite <- Hlen. etransitivity; [|apply (Hq who a)]. unfold settled_in, count_payments.
    apply inj_le, length_le_size; [done|]. eapply Forall_impl; [exact Hall|].
    intros i (t & j & r & p & _ & _ & _ & Hp & Hc). exists p. by apply map_lookup_filter_Some.
Qed.

(** Transactions with distinct nonces, and so any set of which all can be
    mined, sent for payments requested within one quota window, cost together
    at most the quota times the gas limit times the fee ceiling. *)
Lemma exposure_bound w ps who a l :
  0 <= ceiling cfg -> runs_to cfg any_signer (w, ps) -> NoDup (map tx_Nonce l) -> Forall (charged w who a) l ->
  total_fees l <= quota_cap cfg who * (gas_cap cfg * ceiling cfg).
Proof.
  intros Hc R Hnd Hl. pose proof (charged_count _ _ _ _ _ R Hnd Hl) as Hn.
  assert (total_fees l <= Z.of_nat (length l) * (gas_cap cfg * ceiling cfg)) as Ht.
  { clear Hnd Hn. induction Hl as [|t l Ht Hl IH]; cbn [total_fees foldr length]; [lia|].
    pose proof (charged_fee _ _ _ _ _ R Ht). unfold total_fees in IH. rewrite Nat2Z.inj_succ, Z.mul_succ_l. lia. }
  etransitivity; [exact Ht|]. apply Z.mul_le_mono_nonneg_r; [|done].
  apply Z.mul_nonneg_nonneg; [apply Z.le_max_l | done].
Qed.

End Props.

(** ** Witnesses: the request of SystemDemo.v *)

#[local] Existing Instance DemoX402.
#[local] Existing Instance demo_geth.

Lemma demo_signer : Signer demo_sign.
Proof.
  exact (@Development_Signer (DemoGeth demo_sent) (demo_signed_codec demo_sent) (demo_hash_unsigned demo_sent)
    (demo_hex_usdc demo_sent) _).
Qed.

Lemma demo_runs : exists w, runs_to demo_cfg any_signer (w, [Ret tt]) /\ Sent demo_raw ∈ w_trace w /\ w_db w = demo_end.1.2.
Proof.
  destruct (outside_steps demo_cfg any_signer demo_before
    {| w_db := empty_db; w_trace := [Commit empty_db] |} eq_refl) as (w1 & R1 & D1).
  destruct (run_steps demo_cfg any_signer demo_script (fun tx st E => ex_intro _ demo_sign (conj demo_signer E))
    demo_settle w1) as (w2 & R2 & _ & D2 & S2).
  cbn [w_db] in D1. exists w2. split_and!.
  - unfold runs_to. etrans; [exact R1|]. eapply rtc_l; [apply s_spawn, entry_settle | exact R2].
  - apply S2. rewrite D1. fold demo_end. rewrite demo_sends. by left.
  - rewrite D2, D1. reflexivity.
Qed.

Lemma broadcasts_conform_witness :
  exists w l1 l2 t, w_trace w = l1 ++ Sent demo_raw :: l2 /\ tx_GasFeeCap (t : gethTx address) <= 100.
Proof.
  destruct demo_runs as (w & R & (l1 & l2 & S)%list_elem_of_split & _).
  destruct (broadcasts_conform demo_cfg w [Ret tt] l1 demo_raw l2 R S)
    as (_ & _ & _ & t & _ & _ & _ & _ & _ & _ & _ & _ & Hfee & _).
  exists w, l1, l2, t. split; [exact S | exact (proj2 Hfee)].
Defined.

Lemma one_nonce_per_payment_witness :
  exists w t a p, Sent demo_raw ∈ w_trace w /\ pays (w_trace w) demo_raw t a p.
Proof.
  destruct demo_runs as (w & R & S & _).
  destruct (one_nonce_per_payment demo_cfg w [Ret tt] demo_raw demo_raw R S S)
    as (t & a & p & _ & _ & _ & P & _).
  exists w, t, a, p. split; [exact S | exact P].
Defined.
