(* ===== verification/VerifyService.v ===== *)
(** The verify endpoint: [internal/ethereum/verification.go], the read-only
    client whose reads need every provider, and the handler of
    [internal/verification/service.go].

    Providers, the ABI codec and the x402 scheme are dependencies: what each
    answers is a parameter.  Verification runs in one request; the database
    moves only when it records its attempt. *)

From Stdlib Require Import ZArith Lia Strings.Byte.
From stdpp Require Import base gmap list strings.
From S2P Require Import Prelude GoStd GoJson Geth Policy WalletProof Verification State Schema Hoare.
From S2P Require Import Prog Rpc Calldata Work Store StoreWork StoreInv StoreIntent StoreDemo.

Local Open Scope string_scope.
Local Open Scope Z_scope.

(** ** verification.go *)

(** A value an ABI decoder returns. *)
#[warnings="-register-all"] Inductive output :=
  | OutBool (b : bool)
  | OutBig (z : Z)
  | OutNil
  | OutList (l : list output)
  | OutOther.

Section Client.
  Context `{Geth}.

(** One [ethclient.Client]: [None] is an error of the call. *)
Record provider := {
  CodeAt : address -> option (list byte);
  CallContract : address -> list byte -> option (list byte);
  provider_ChainID : option Z;
}.

(** [joined]: the context ended before all answers were joined; [ended]: it
    had ended once they were. *)
Definition readAgreement {T} (joined ended : option context_error) (outcomes : list (option T))
    (equal : T -> T -> bool) : res T :=
  match outcomes, joined with
  | [], _ => Err [EOpaque]
  | _, Some e => Err (context_chain e)
  | _, None =>
      match omap id outcomes with
      | [] => Err (match ended with Some e => context_chain e | None => [EOpaque] end)
      | first :: rest =>
          if negb (length (first :: rest) =? length outcomes)%nat then Err [EProviderDisagreement]
          else if forallb (fun v => equal first v) rest then Ok first
          else Err [EProviderDisagreement]
      end
  end.

Record VerificationClient := {
  clients : list provider;
  vc_joined : option context_error;
  vc_ended : option context_error;
}.

Definition bytes_Equal (a b : list byte) : bool := bool_decide (a = b).

Definition GetCode (c : VerificationClient) (a : string) : res (list byte) :=
  readAgreement (vc_joined c) (vc_ended c) (map (fun p => CodeAt p (HexToAddress a)) (clients c)) bytes_Equal.

Definition GetChainID (c : VerificationClient) : res Z :=
  readAgreement (vc_joined c) (vc_ended c) (map provider_ChainID (clients c)) Z.eqb.

(** [packed] is the encoded call, or [None] when the ABI or the arguments are
    unusable; [unpack] decodes its results. *)
Definition ReadContract (c : VerificationClient) (a : string) (packed : option (list byte))
    (unpack : list byte -> option (list output)) : res output :=
  match packed with
  | None => Err [EOpaque]
  | Some data =>
      match readAgreement (vc_joined c) (vc_ended c)
              (map (fun p => CallContract p (HexToAddress a) data) (clients c)) bytes_Equal with
      | Err e => Err e
      | Ok result =>
          match unpack result with
          | None => Err [EOpaque]
          | Some [] => Ok OutNil
          | Some [o] => Ok o
          | Some outputs => Ok (OutList outputs)
          end
      end
  end.

Definition GetBalance (c : VerificationClient) (token : string) (packed : option (list byte))
    (unpack : list byte -> option (list output)) : res Z :=
  match ReadContract c token packed unpack with
  | Err e => Err e
  | Ok (OutBig z) => Ok z
  | Ok _ => Err [EOpaque]
  end.

End Client.

(** ** service.go *)

Section Verify.
  Context `{Geth} `{X402}.

(** [x402.VerifyResponse]. *)
Record VerifyResponse := {
  vr_IsValid : bool;
  vr_InvalidReason : string;
  vr_Payer : string;
}.

(** What the scheme's own verifier returns: a response, a [VerifyError], or
    another error. *)
Inductive scheme_result :=
  | SchemeResponse (response : option VerifyResponse)
  | SchemeInvalid (reason payer : string)
  | SchemeFailed (e : error).

Record readers := {
  code_GetCode : string -> res (list byte);
  code_authorizationState : string -> address -> list byte -> res output;
  scheme_Verify : PaymentPayload -> PaymentRequirements -> scheme_result;
}.

(** A request's writes: the database is left changed even when it fails. *)
Definition Recorder : Type := option (Attempt -> DB (res unit)).

Definition record (recorder : Recorder) (a : Attempt) (d : db) : res unit * db :=
  match recorder with
  | None => (Ok tt, d)
  | Some f => match f a d with Ok (r, d') => (r, d') | Err e => (Err e, d) end
  end.

Definition failed_attempt (identity reason : string) : Attempt :=
  {| va_PaymentIdentity := identity; va_Result := "failed"; va_ReasonCode := reason; va_Payment := None |}.

Definition unavailable (recorder : Recorder) (payment : VerifiedPayment) (cause : error) (d : db) :
    res VerifyResponse * db :=
  match record recorder (failed_attempt (vp_Identity payment) "verification_unavailable") d with
  | (Ok _, d') => (Err cause, d')
  | (Err e, d') => (Err (errors_Join cause e), d')
  end.

(** Record a failed attempt and answer with its reason. *)
Definition invalid (recorder : Recorder) (identity reason payer : string) (d : db) : res VerifyResponse * db :=
  match record recorder (failed_attempt identity reason) d with
  | (Ok _, d') => (Ok {| vr_IsValid := false; vr_InvalidReason := reason; vr_Payer := payer |}, d')
  | (Err e, d') => (Err e, d')
  end.

(** [var nonce [32]byte; copy(nonce[:], nonceBytes)]. *)
Definition nonce_bytes (nonce : string) : list byte :=
  take 32 (default [] (hex_DecodeString (TrimPrefix nonce "0x")) ++ replicate 32 x00).

Definition ReasonNonceAlreadyUsed : string := reason ErrNonceAlreadyUsed.

Definition Verify (r : readers) (recorder : Recorder) (request : Request) (d : db) :
    res VerifyResponse * db :=
  match ParseRequest request with
  | inr why => invalid recorder EmptyString why EmptyString d
  | inl payment =>
      match code_GetCode r (vp_Payer payment) with
      | Err e => unavailable recorder payment e d
      | Ok (_ :: _) => invalid recorder (vp_Identity payment) "unsupported_payer_type" (vp_Payer payment) d
      | Ok [] =>
          match code_authorizationState r (vp_Asset payment) (HexToAddress (vp_Payer payment))
                  (nonce_bytes (vp_Nonce payment)) with
          | Err e => unavailable recorder payment e d
          | Ok (OutBool true) =>
              invalid recorder (vp_Identity payment) ReasonNonceAlreadyUsed (vp_Payer payment) d
          | Ok (OutBool false) =>
              match scheme_Verify r (rq_PaymentPayload request) (rq_PaymentRequirements request) with
              | SchemeFailed e => unavailable recorder payment e d
              | SchemeInvalid why payer => invalid recorder (vp_Identity payment) why payer d
              | SchemeResponse (Some response) =>
                  if vr_IsValid response then
                    match record recorder
                            {| va_PaymentIdentity := vp_Identity payment; va_Result := "verified";
                               va_ReasonCode := EmptyString; va_Payment := Some payment |} d with
                    | (Ok _, d') => (Ok response, d')
                    | (Err e, d') =>
                        if errors_Is e EAuthorizationConflict
                        then (Ok {| vr_IsValid := false; vr_InvalidReason := ReasonNonceAlreadyUsed;
                                    vr_Payer := vp_Payer payment |}, d')
                        else (Err e, d')
                    end
                  else unavailable recorder payment [EOpaque] d
              | SchemeResponse None => unavailable recorder payment [EOpaque] d
              end
          | Ok _ => unavailable recorder payment [EOpaque] d
          end
      end
  end.

Definition RecordInvalidRequest (recorder : Recorder) (d : db) : res unit * db :=
  record recorder (failed_attempt EmptyString "invalid_request") d.

(** ** store.go: RecordVerification *)

Definition retryableWrite (e : error) : bool := errors_Is e ETransient.

(** An abort by the database, transient or not. *)
Definition abort_error (transient : bool) : error := if transient then [ETransient] else [EOpaque].

(** [aborts k]: the database aborted attempt [k].  A commit whose
    acknowledgement was lost, after which the row is there and the attempt
    reports an error, is not modelled. *)
Fixpoint retry (budget k : nat) (aborts : nat -> option bool) (m : DB (res unit)) : DB (res unit) :=
  fun d =>
    match budget with
    | O => Err [EOpaque]
    | S budget =>
        match (match aborts k with Some t => Err (abort_error t) | None => m d end) with
        | Ok (Ok _, d') => Ok (Ok tt, d')
        | Ok (Err e, d') => Ok (Err e, d')
        | Err e =>
            if retryableWrite e then
              match budget with O => Err e | S _ => retry budget (S k) aborts m d end
            else Err e
        end
    end.

Definition RecordVerification (aborts : nat -> option bool) (now : time) (attempt : Attempt) :
    DB (res unit) :=
  retry 3 0 aborts (recordVerification ReasonNonceAlreadyUsed attempt now).

(** The endpoint as the service wires it. *)
Definition verify_store (r : readers) (aborts : nat -> option bool) (now : time) (request : Request)
    (d : db) : res VerifyResponse * db :=
  Verify r (Some (RecordVerification aborts now)) request d.

(** Reads of the chain through the agreement client; [pack] and [unpack] are
    the ABI of [authorizationState(address,bytes32)]. *)
Definition client_readers (c : VerificationClient) (pack : address -> list byte -> option (list byte))
    (unpack : list byte -> option (list output))
    (scheme : PaymentPayload -> PaymentRequirements -> scheme_result) : readers :=
  {| code_GetCode := GetCode c;
     code_authorizationState := fun asset payer nonce => ReadContract c asset (pack payer nonce) unpack;
     scheme_Verify := scheme |}.

End Verify.

(** ** Lemmas *)

Lemma omap_id_length {T} (l : list (option T)) : (length (omap id l) <= length l)%nat.
Proof. induction l as [|[v|] l IH]; cbn in *; lia. Qed.

Lemma omap_id_full {T} (l : list (option T)) :
  length (omap id l) = length l -> l = map Some (omap id l).
Proof.
  pose proof (omap_id_length (T := T)) as Hle. induction l as [|[v|] l IH]; intros E; cbn in *; [done| |].
  - f_equal. apply IH. by injection E.
  - specialize (Hle l). cbn in Hle. lia.
Qed.

Lemma readAgreement_Ok {T} joined ended (outcomes : list (option T)) equal v :
  (forall a b, equal a b = true -> a = b) ->
  readAgreement joined ended outcomes equal = Ok v -> outcomes <> [] /\ Forall (eq (Some v)) outcomes.
Proof.
  intros Heq. unfold readAgreement. destruct outcomes as [|o l] eqn:Eo; [done|]. destruct joined; [done|].
  rewrite <- Eo. destruct (omap id outcomes) as [|first rest] eqn:Em; [done|].
  destruct (negb _) eqn:El; [done|]. destruct (forallb _ _) eqn:Ef; [|done]. intros [= ->].
  split; [by rewrite Eo|]. bool_hyps. rewrite <- Em in El. rewrite (omap_id_full outcomes El), Em.
  apply Forall_map. constructor; [done|]. rewrite forallb_forall in Ef. apply Forall_forall.
  intros x Hx%list_elem_of_In. f_equal. by apply Heq, Ef.
Qed.

Lemma readAgreement_map {P T} joined ended (f : P -> option T) (l : list P) equal v :
  (forall a b, equal a b = true -> a = b) ->
  readAgreement joined ended (map f l) equal = Ok v -> l <> [] /\ Forall (fun p => f p = Some v) l.
Proof.
  intros Heq [Hne Hall]%readAgreement_Ok; [|done]. split; [by destruct l|].
  rewrite Forall_map in Hall. eapply Forall_impl; [exact Hall|]. simpl. congruence.
Qed.

Lemma bytes_Equal_eq a b : bytes_Equal a b = true -> a = b.
Proof. apply bool_decide_eq_true. Qed.

Lemma retry_Ok budget k aborts m d r d' :
  retry budget k aborts m d = Ok (r, d') -> m d = Ok (r, d').
Proof.
  revert k. induction budget as [|n IH]; intros k; cbn [retry]; [done|].
  destruct (aborts k) as [t|]; [|destruct (m d) as [[[[]|e] d1]|e]; try done];
    (destruct (retryableWrite _); [|done]); destruct n; try done; apply IH.
Qed.

Lemma retry_Err budget k aborts m d e :
  retry budget k aborts m d = Err e -> m d = Err e \/ e = [EOpaque] \/ e = [ETransient].
Proof.
  revert k. induction budget as [|n IH]; intros k; cbn [retry]; [intros [= <-]; auto|].
  assert (forall e', (if retryableWrite e' then match n with O => Err e' | S _ => retry n (S k) aborts m d end
    else Err e') = Err e -> e' = e \/ m d = Err e \/ e = [EOpaque] \/ e = [ETransient]) as Hk.
  { intros e'. destruct (retryableWrite e'); [|intros [= <-]; auto].
    destruct n; [intros [= <-]; auto|]. intros E%IH. auto. }
  destruct (aborts k) as [t|].
  - intros [<-|?]%Hk; [|done]. destruct t; auto.
  - destruct (m d) as [[[[]|e1] d1]|e1]; try done. intros [->|?]%Hk; auto.
Qed.

Lemma put_payment_Err i p d e : put_payment i p d = Err e -> e = [ECheckViolation] \/ e = [EUniqueViolation].
Proof. unfold put_payment. destruct (negb _); [|destruct (negb _)]; intros [= <-]; auto. Qed.

Lemma update_payment_Err i cond f d e :
  update_payment i cond f d = Err e -> e = [ECheckViolation] \/ e = [EUniqueViolation].
Proof.
  unfold update_payment, bind, get, ret. destruct (payments d !! i) as [p|]; [|done].
  destruct (cond p); [|done]. destruct (put_payment _ _ _) as [[? ?]|e1] eqn:E; [done|].
  intros [= <-]. by eapply put_payment_Err.
Qed.

Lemma record_payment_Err v now d e :
  record_payment v now d = Err e -> errors_Is e EAuthorizationConflict = false.
Proof.
  unfold record_payment, bind at 1 2 3, get at 1. destruct (find_payment d _) as [[i q]|]; [done|].
  destruct (numeric_text _) as [amount|]; cbn [of_option]; [|by intros [= <-]].
  cbn -[put_payment update_payment insert_transition]. unfold bind at 1.
  destruct (put_payment _ _ _) as [[u d1]|e1] eqn:E; [|by intros [= <-]; apply put_payment_Err in E as [->| ->]].
  unfold bind at 1.
  destruct (update_payment _ _ _ _) as [[o d2]|e2] eqn:F; [|by intros [= <-]; apply update_payment_Err in F as [->| ->]].
  done.
Qed.

Lemma recordVerification_Err u a now d e :
  recordVerification u a now d = Err e -> errors_Is e EAuthorizationConflict = false.
Proof.
  unfold recordVerification. destruct (String.eqb _ _); [|done].
  destruct (va_Payment a) as [v|]; [|by intros [= <-]].
  destruct (record_payment v now d) as [[i d1]|e1] eqn:E; [done|].
  destruct (errors_Is e1 EUniqueViolation); [done|]. intros [= <-]. by eapply record_payment_Err.
Qed.

(** The attempt row a recording leaves, and the row it is about. *)
Lemma recordVerification_row u a now d r d' :
  wf d -> recordVerification u a now d = Ok (r, d') ->
  txs d' = txs d /\ signers d' = signers d /\
  exists row, verification_attempts d' = (verification_attempts d ++ [row])%list /\
    match r with
    | Ok _ => at_result row = va_Result a /\
        forall v, va_Result a = "verified" -> va_Payment a = Some v ->
          exists i q, at_payment row = Some i /\ payments d' !! i = Some q /\ p_identity q = vp_Identity v
    | Err e => e = [EAuthorizationConflict] /\ at_result row = "failed" /\ va_Result a = "verified"
    end.
Proof.
  intros W. unfold recordVerification.
  destruct (String.eqb (va_Result a) "verified") eqn:Ev.
  - destruct (va_Payment a) as [v|]; [|done]. destruct (record_payment v now d) as [[i d1]|e] eqn:E.
    + unfold insert_verification_attempt, bind, get, put, ret. intros [= <- <-].
      pose proof E as E'. apply record_payment_Ok in E; [|done].
      assert (exists q, payments d1 !! i = Some q /\ p_identity q = vp_Identity v) as Hq.
      { destruct E as [[-> (q & Hq)]|(-> & amount & _ & ->)]; [eauto|].
        eexists. split; [apply lookup_insert_eq | done]. }
      destruct Hq as (q & Hq & Hid).
      assert (txs d1 = txs d /\ signers d1 = signers d /\ verification_attempts d1 = verification_attempts d)
        as (H1 & H2 & H3) by by destruct E as [[-> _]|(-> & amount & _ & ->)].
      split; [exact H1|]. split; [exact H2|]. eexists. split; [simpl; by rewrite H3|].
      split; [done|]. intros v' _ [= <-]. eauto.
    + destruct (errors_Is e _); [|done].
      unfold insert_verification_attempt, bind, get, put, ret. intros [= <- <-].
      apply String.eqb_eq in Ev. eauto 8.
  - unfold insert_verification_attempt, bind, get, put, ret. intros [= <- <-].
    do 2 (split; [done|]). eexists. split; [done|]. split; [done|]. intros v Hv.
    apply String.eqb_neq in Ev. congruence.
Qed.

(** ** Properties *)

Section Properties.
  Context `{Geth} `{X402}.

Lemma record_store aborts now a d r d' :
  record (Some (RecordVerification aborts now)) a d = (r, d') ->
  (exists e, r = Err e /\ d' = d /\ errors_Is e EAuthorizationConflict = false) \/ recordVerification ReasonNonceAlreadyUsed a now d = Ok (r, d').
Proof.
  unfold record. destruct (RecordVerification aborts now a d) as [[r' d1]|e] eqn:E; intros [= <- <-].
  - right. by eapply retry_Ok.
  - left. exists e. do 2 (split; [done|]). apply retry_Err in E as [E|[->| ->]]; [|done..].
    by eapply recordVerification_Err.
Qed.

(** A request that was answered with an invalid response, or failed. *)
Definition not_valid (r : res VerifyResponse) : Prop := forall resp, r = Ok resp -> vr_IsValid resp = false.

Lemma invalid_not_valid recorder identity why payer d r d' :
  invalid recorder identity why payer d = (r, d') -> not_valid r.
Proof. unfold invalid. destruct (record _ _ _) as [[u|e] d1]; intros [= <- <-] resp [= <-]; done. Qed.

Lemma unavailable_not_valid recorder payment cause d r d' :
  unavailable recorder payment cause d = (r, d') -> not_valid r.
Proof. unfold unavailable. destruct (record _ _ _) as [[u|e] d1]; by intros [= <- <-] resp. Qed.

Lemma ReadContract_Ok c a packed unpack v :
  v <> OutNil -> (forall l, v <> OutList l) -> ReadContract c a packed unpack = Ok v ->
  exists data out, packed = Some data /\
    Forall (fun p => CallContract p (HexToAddress a) data = Some out) (clients c) /\ unpack out = Some [v].
Proof.
  intros Hn Hl. unfold ReadContract. destruct packed as [data|]; [|done].
  destruct (readAgreement _ _ _ _) as [out|e] eqn:E; [|done].
  apply readAgreement_map in E as [_ E]; [|apply bytes_Equal_eq].
  destruct (unpack out) as [[|o [|o' l]]|] eqn:Eu; try done; intros [= <-]; try done; [eauto|].
  by destruct (Hl (o :: o' :: l)).
Qed.

(** A valid answer passed every check, and its attempt was recorded. *)
Lemma Verify_valid r recorder request d resp d' :
  Verify r recorder request d = (Ok resp, d') -> vr_IsValid resp = true ->
  exists payment, ParseRequest request = inl payment /\
    code_GetCode r (vp_Payer payment) = Ok [] /\
    code_authorizationState r (vp_Asset payment) (HexToAddress (vp_Payer payment))
      (nonce_bytes (vp_Nonce payment)) = Ok (OutBool false) /\
    scheme_Verify r (rq_PaymentPayload request) (rq_PaymentRequirements request) =
      SchemeResponse (Some resp) /\
    exists u, record recorder {| va_PaymentIdentity := vp_Identity payment; va_Result := "verified";
      va_ReasonCode := EmptyString; va_Payment := Some payment |} d = (Ok u, d').
Proof.
  unfold Verify. intros HV Hv.
  assert (not_valid (Ok resp) -> False) as Hno by (intros Hn; specialize (Hn resp eq_refl); congruence).
  destruct (ParseRequest request) as [payment|why]; [|by apply invalid_not_valid in HV].
  destruct (code_GetCode r _) as [[|b code]|e] eqn:Ec;
    [|by apply invalid_not_valid in HV | by apply unavailable_not_valid in HV].
  destruct (code_authorizationState r _ _ _) as [[[|]|z| |l|]|e] eqn:Ea;
    try (by apply invalid_not_valid in HV); try (by apply unavailable_not_valid in HV).
  destruct (scheme_Verify r _ _) as [[response|]|why payer|e] eqn:Es;
    try (by apply invalid_not_valid in HV); try (by apply unavailable_not_valid in HV).
  destruct (vr_IsValid response) eqn:Ev; [|by apply unavailable_not_valid in HV].
  destruct (record _ _ _) as [[u|e] d1] eqn:Er.
  - injection HV as -> ->. eauto 10.
  - destruct (errors_Is e _); injection HV; intros; subst; done.
Qed.

(** One attempt row was written, verified exactly when the answer is valid. *)
Definition audited (d d' : db) (r : res VerifyResponse) : Prop :=
  txs d' = txs d /\ signers d' = signers d /\
  exists row, verification_attempts d' = (verification_attempts d ++ [row])%list /\
    (at_result row = "verified" <-> exists resp, r = Ok resp /\ vr_IsValid resp = true).

Definition untouched (d d' : db) (r : res VerifyResponse) : Prop := (exists e, r = Err e) /\ d' = d.

Lemma failed_audited aborts now identity why d u d' :
  wf d -> record (Some (RecordVerification aborts now)) (failed_attempt identity why) d = (u, d') ->
  ((exists e, u = Err e) /\ d' = d) \/
  (u = Ok tt /\ forall r, not_valid r -> audited d d' r).
Proof.
  intros W Hr. apply record_store in Hr as [(e & -> & -> & _)|Hr]; [by eauto|]. right.
  apply recordVerification_row in Hr as (H1 & H2 & row & H3 & H4); [|done].
  destruct u as [[]|e].
  - destruct H4 as [H4 _]. split; [done|]. intros r Hn. do 2 (split; [done|]). exists row. split; [done|].
    split; [by rewrite H4 | intros (resp & -> & Hv)]. by rewrite (Hn resp eq_refl) in Hv.
  - by destruct H4 as (_ & _ & H4).
Qed.

Lemma invalid_audited aborts now identity why payer d r d' :
  wf d -> invalid (Some (RecordVerification aborts now)) identity why payer d = (r, d') ->
  untouched d d' r \/ audited d d' r.
Proof.
  intros W. unfold invalid. destruct (record _ _ d) as [u d1] eqn:E.
  apply failed_audited in E as [[[e ->] ->]|[-> Ha]]; [| |done]; intros [= <- <-].
  - left. split; eauto.
  - right. apply Ha. by intros resp [= <-].
Qed.

Lemma unavailable_audited aborts now payment cause d r d' :
  wf d -> unavailable (Some (RecordVerification aborts now)) payment cause d = (r, d') ->
  untouched d d' r \/ audited d d' r.
Proof.
  intros W. unfold unavailable. destruct (record _ _ d) as [u d1] eqn:E.
  apply failed_audited in E as [[[e ->] ->]|[-> Ha]]; [| |done]; intros [= <- <-].
  - left. split; eauto.
  - right. by apply Ha.
Qed.

Lemma verified_audited aborts now payment response d r d' :
  wf d -> vr_IsValid response = true ->
  match record (Some (RecordVerification aborts now))
          {| va_PaymentIdentity := vp_Identity payment; va_Result := "verified";
             va_ReasonCode := EmptyString; va_Payment := Some payment |} d with
  | (Ok _, d') => (Ok response, d')
  | (Err e, d') =>
      if errors_Is e EAuthorizationConflict
      then (Ok {| vr_IsValid := false; vr_InvalidReason := ReasonNonceAlreadyUsed;
                  vr_Payer := vp_Payer payment |}, d')
      else (Err e, d')
  end = (r, d') -> untouched d d' r \/ audited d d' r.
Proof.
  intros W Hv. destruct (record _ _ d) as [u d1] eqn:E. apply record_store in E as [(e & -> & -> & He)|E].
  - rewrite He. intros [= <- <-]. left. split; eauto.
  - apply recordVerification_row in E as (H1 & H2 & row & H3 & H4); [|done].
    destruct u as [[]|e].
    + destruct H4 as [H4 _]. intros [= <- <-]. right. do 2 (split; [done|]). exists row. split; [done|].
      split; [eauto | done].
    + destruct H4 as (-> & H4 & _). intros [= <- <-]. right. do 2 (split; [done|]). exists row.
      split; [done|]. rewrite H4. by split; [|intros (resp & [= <-] & ?)].
Qed.

(** C11. A valid answer of the verify endpoint was checked: the request
    parsed, every configured provider reported that the payer has no code and
    returned the same authorization state, which decodes to unused, the x402
    scheme accepted the payload, and the payment's row is stored under the
    identity the answer is about. *)
Theorem verified_means_checked c pack unpack scheme aborts now request d resp d' :
  reachable d ->
  verify_store (client_readers c pack unpack scheme) aborts now request d = (Ok resp, d') ->
  vr_IsValid resp = true ->
  exists payment, ParseRequest request = inl payment /\
    clients c <> [] /\
    Forall (fun p => CodeAt p (HexToAddress (vp_Payer payment)) = Some []) (clients c) /\
    (exists data out,
       pack (HexToAddress (vp_Payer payment)) (nonce_bytes (vp_Nonce payment)) = Some data /\
       Forall (fun p => CallContract p (HexToAddress (vp_Asset payment)) data = Some out) (clients c) /\
       (unpack out = Some [OutBool false])) /\
    scheme (rq_PaymentPayload request) (rq_PaymentRequirements request) = SchemeResponse (Some resp) /\
    exists i q, payments d' !! i = Some q /\ p_identity q = vp_Identity payment.
Proof.
  intros W%reachable_wf HV Hv. apply Verify_valid in HV as (payment & Hp & Hc & Ha & Hs & u & Hr); [|done].
  apply readAgreement_map in Hc as [Hne Hc]; [|apply bytes_Equal_eq].
  apply ReadContract_Ok in Ha as (data & out & Hd & Ho & Hu); [|done..].
  apply record_store in Hr as [(e & [=] & _)|Hr].
  apply recordVerification_row in Hr as (_ & _ & row & _ & _ & Hrow); [|done].
  destruct (Hrow payment eq_refl eq_refl) as (i & q & _ & Hq & Hid). eauto 20.
Qed.

(** C12. Every verify request that is answered leaves exactly one attempt row,
    recorded as verified exactly when the answer is valid, and touches no
    transaction or signer account; a request that left no row failed and
    changed nothing.  This holds for arbitrary answers of the chain and of the
    scheme, and under transient aborts of the database; a commit whose
    acknowledgement is lost is outside the model. *)
Theorem verify_audited r aborts now request d answer d' :
  reachable d -> verify_store r aborts now request d = (answer, d') ->
  untouched d d' answer \/ audited d d' answer.
Proof.
  intros W%reachable_wf. unfold verify_store, Verify.
  destruct (ParseRequest request) as [payment|why]; [|by apply invalid_audited].
  destruct (code_GetCode r _) as [[|b code]|e];
    [|by apply invalid_audited | by apply unavailable_audited].
  destruct (code_authorizationState r _ _ _) as [[[|]|z| |l|]|e];
    try (by apply invalid_audited); try (by apply unavailable_audited).
  destruct (scheme_Verify r _ _) as [[response|]|why payer|e];
    try (by apply invalid_audited); try (by apply unavailable_audited).
  destruct (vr_IsValid response) eqn:Ev; [|by apply unavailable_audited].
  by apply verified_audited.
Qed.

End Properties.

(** ** A request against two agreeing providers *)

Definition demo_provider : provider (H := DemoGeth []) :=
  {| CodeAt _ := Some []; CallContract _ _ := Some (replicate 32 x00); provider_ChainID := Some 1 |}.

Definition demo_client : VerificationClient (H := DemoGeth []) :=
  {| clients := [demo_provider; demo_provider]; vc_joined := None; vc_ended := None |}.

Definition demo_response : VerifyResponse :=
  {| vr_IsValid := true; vr_InvalidReason := EmptyString; vr_Payer := demo_addr "a" |}.

Definition demo_readers : readers (H := DemoGeth []) (H0 := DemoX402) :=
  client_readers (H := DemoGeth []) (H0 := DemoX402) demo_client (fun _ n => Some n)
    (fun out => Some [OutBool (negb (bool_decide (out = replicate 32 x00)))])
    (fun _ _ => SchemeResponse (Some demo_response)).

(** The first write is aborted by a deadlock, the second is not. *)
Definition demo_aborts (k : nat) : option bool := match k with O => Some true | _ => None end.

Definition demo_verification : res VerifyResponse * db :=
  verify_store (H := DemoGeth []) (H0 := DemoX402) demo_readers demo_aborts 1
    (demo_verify (demo_addr "A")) empty_db.

Lemma demo_verification_answer : demo_verification.1 = Ok demo_response.
Proof. vm_compute. reflexivity. Qed.

Lemma verified_means_checked_witness :
  exists payment, ParseRequest (H := DemoGeth []) (H0 := DemoX402) (demo_verify (demo_addr "A")) = inl payment /\
    exists i q, payments demo_verification.2 !! i = Some q /\ p_identity q = vp_Identity payment.
Proof.
  assert (verify_store (H := DemoGeth []) (H0 := DemoX402) demo_readers demo_aborts 1
    (demo_verify (demo_addr "A")) empty_db = (Ok demo_response, demo_verification.2)) as E.
  { fold demo_verification. rewrite <- demo_verification_answer. by destruct demo_verification. }
  pose proof (verified_means_checked (H := DemoGeth []) (H0 := DemoX402) demo_client _ _ _ demo_aborts 1
    (demo_verify (demo_addr "A")) empty_db demo_response demo_verification.2
    (ex_intro _ [] eq_refl) E eq_refl) as (payment & H1 & _ & _ & _ & _ & H2).
  exists payment. split; [exact H1 | exact H2].
Defined.

Lemma verify_audited_witness : audited empty_db demo_verification.2 demo_verification.1.
Proof.
  assert (verify_store (H := DemoGeth []) (H0 := DemoX402) demo_readers demo_aborts 1
    (demo_verify (demo_addr "A")) empty_db = (demo_verification.1, demo_verification.2)) as E.
  { fold demo_verification. by destruct demo_verification. }
  pose proof (verify_audited (H := DemoGeth []) (H0 := DemoX402) demo_readers demo_aborts 1
    (demo_verify (demo_addr "A")) empty_db demo_verification.1 demo_verification.2
    (ex_intro _ [] eq_refl) E) as [[[e He] _]|Ha]; [|exact Ha].
  rewrite demo_verification_answer in He. discriminate He.
Defined.
