(* ===== verification/StoreProps.v ===== *)
(** What the settlement tables guarantee, over every sequence of store calls
    with arbitrary arguments and clock readings. *)

From Stdlib Require Import ZArith Lia Strings.Byte.
From stdpp Require Import base gmap list strings fin_maps sorting.
From S2P Require Import Prelude GoStd State Geth Policy Calldata WalletProof Verification Schema.
From S2P Require Import Work Hoare Store StoreWork StoreRecovery StoreInv StorePaid StoreNonce StoreEvolve StoreIntent.
From S2P Require Import StoreDemo.

(** Leases ([internal/store/lease.go]): a live lease can only be changed by
    its holder. *)

Local Open Scope Z_scope.
Local Open Scope db_scope.

Definition leased (i : rowid) (worker : string) (until : time) (d : db) : Prop :=
  exists p, payments d !! i = Some p /\ p_claimed_by p = Some worker /\
    p_claimed_until p = Some until.

(** Calls that respect the lease [worker] holds on [i] until [until]: claims
    are made by a clock that has not passed [until], the holder itself neither
    renews nor releases, and retention does not run. *)
Definition respects (i : rowid) (worker : string) (until : time) (op : store_op) : Prop :=
  match op with
  | OpClaims r _ _ => cr_Now r < until
  | OpClaim p _ _ now _ => p = i -> now < until
  | OpRenew p w _ _ => p = i -> w <> worker
  | OpRelease p w _ => p = i -> w <> worker
  | OpRetention _ _ => False
  | _ => True
  end.

Definition leased_table (i : rowid) (worker : string) (until : time) (m : gmap N Payment) : Prop :=
  leased i worker until (set_payments empty_db m).

#[export] Instance leased_stable i worker until : Stable (leased_table i worker until).
Proof.
  intros m j p p' (q & Hq & Hb & Hu) Hp (_ & _ & _ & _ & _ & Hb' & Hu' & _).
  unfold leased_table, leased in *. simpl in *. destruct (decide (j = i)) as [->|Hne].
  - exists p'. rewrite lookup_insert_eq. assert (p = q) as -> by congruence. repeat split; congruence.
  - exists q. by rewrite lookup_insert_ne.
Qed.

Section LeasedMethods.
  Variables (i : rowid) (worker : string) (until : time).

  Abbreviation I := (paid (leased_table i worker until)).

(** A statement that cannot select the leased row, or leaves the lease alone. *)
Lemma leased_update_payment j cond f :
  (forall p, j = i -> cond p = true -> p_claimed_by p = Some worker -> p_claimed_until p = Some until ->
     p_claimed_by (f p) = Some worker /\ p_claimed_until (f p) = Some until) ->
  preserves I (update_payment j cond f).
Proof.
  intros Hf. apply paid_update_payment. intros m p (q & Hq & Hb & Hu) Hp Hc.
  unfold leased_table, leased. simpl in *. destruct (decide (j = i)) as [->|Hne].
  - assert (p = q) as -> by congruence. destruct (Hf q eq_refl Hc Hb Hu).
    exists (f q). by rewrite lookup_insert_eq.
  - exists q. by rewrite lookup_insert_ne.
Qed.

(** A live lease is not claimable. *)
Lemma leased_not_claimable now p :
  now < until -> p_claimed_by p = Some worker -> p_claimed_until p = Some until ->
  claimable now p = false.
Proof. intros Hn Hb Hu. unfold claimable. rewrite Hb, Hu. apply Z.leb_gt. lia. Qed.

Lemma leased_claim_each ids w u now dn : now < until -> preserves I (claim_each ids w u now dn).
Proof.
  intros Hn. induction ids as [|j ids IH]; simpl; [apply preserves_ret|].
  apply preserves_bind; [|walk]. apply leased_update_payment. intros p _ Hc Hb Hu.
  by rewrite (leased_not_claimable now p) in Hc by done.
Qed.

Lemma leased_CreateSettlementIntent r now : preserves I (CreateSettlementIntent r now).
Proof.
  unfold CreateSettlementIntent, duplicate_intent, admission, rejectSettlement, admit_intent. walk.
  apply leased_update_payment. auto.
Qed.

Lemma leased_recordVerification u a now d r d' :
  wf d -> I d -> recordVerification u a now d = Ok (r, d') -> I d'.
Proof.
  assert (forall (x : AttemptRow) (r : res unit),
    preserves I (insert_verification_attempt x ;;! ret r)) as Hthen by walk.
  intros W L H. unfold recordVerification in H. destruct (String.eqb _ _); [|by eapply Hthen].
  destruct (va_Payment a); [|done].
  destruct (record_payment v now d) as [[j d1]|e] eqn:E.
  - eapply Hthen; [|exact H].
    apply record_payment_Ok in E as [[-> _]|(-> & amount & _ & ->)]; [done| |done].
    destruct L as (p & Hp & ?). exists p. simpl in *. rewrite lookup_insert_ne; [done|].
    apply (wf_payments d W) in Hp. lia.
  - destruct (errors_Is e EUniqueViolation); [|done]. by eapply Hthen.
Qed.

End LeasedMethods.

Lemma leased_exec i worker until op d a d' :
  wf d -> respects i worker until op -> leased i worker until d -> exec op d = Ok (a, d') ->
  leased i worker until d'.
Proof.
  intros W Hr L H. change (paid (leased_table i worker until) d'). revert H.
  destruct op; cbn [respects] in Hr; try done;
    try (intros H; eapply (paid_exec _ _ (leased_stable i worker until)); [|exact L | exact H]; exact I);
    cbn [exec]; unfold discard.
  - unfold bind. destruct (recordVerification _ _ _ d) as [[r d1]|] eqn:E; [|done].
    intros [= _ <-]. by eapply leased_recordVerification.
  - apply preserves_bind; [apply leased_CreateSettlementIntent | walk | exact L].
  - apply preserves_bind; [|walk | exact L]. unfold ClaimPayments. walk. by apply leased_claim_each.
  - apply preserves_bind; [|walk | exact L]. unfold ClaimPayment. walk.
    apply leased_update_payment. intros p -> Hc Hb Hu.
    by rewrite (leased_not_claimable worker until now p) in Hc by auto.
  - apply preserves_bind; [|walk | exact L]. unfold RenewLease. walk.
    apply leased_update_payment. intros p -> Hc Hb Hu. bool_hyps. specialize (Hr eq_refl). congruence.
  - intros H. refine ((_ : preserves (paid (leased_table i worker until)) _) _ _ _ L H).
    unfold ReleaseLease. walk.
    apply leased_update_payment. intros p -> Hc Hb Hu. bool_hyps. specialize (Hr eq_refl). congruence.
Qed.
(** Recording a verified payment ([internal/store/store.go]): what happens to
    a payment the parser accepted. *)

Local Open Scope Z_scope.
Local Open Scope db_scope.

(** The attempt the verification service records for an accepted payment. *)
Definition verified_attempt (v : VerifiedPayment) : Attempt :=
  {| va_PaymentIdentity := vp_Identity v; va_Result := "verified"; va_ReasonCode := EmptyString;
     va_Payment := Some v |}.

Definition verified_row (d : db) (v : VerifiedPayment) (amount : Z) (now : time) : Payment :=
  payment_set_verification "verified" (payment_set_state StateVerified now (received_payment d v amount now)).

Definition attempted (d d' : db) : Prop :=
  payments d' = payments d /\ txs d' = txs d /\ signers d' = signers d /\
  transitions_log d' = transitions_log d.

Lemma char_n_exact n s : String.length s = n -> char_n n s = s.
Proof. intros <-. unfold char_n. rewrite Nat.sub_diag. by induction s; simpl; f_equal. Qed.

Lemma canonical_hex_length n s : canonical_hex n s = true -> String.length s = (2 + 2 * n)%nat.
Proof. unfold canonical_hex. intros E. bool_hyps. done. Qed.

Lemma canonical_row_ok d v value after before now :
  payment_form v value after before -> String.length (vp_Payer v) = 42%nat ->
  String.length (vp_Recipient v) = 42%nat -> payment_row_ok (received_payment d v value now) = true.
Proof.
  intros [(h & Hi & Hh) _ [_ Hp] [_ Hr] [Ha Hv] Hn (Hf & Hb & Ht & _) (g & Hg & Hgl) _] Lp Lr.
  assert (String.length (vp_Nonce v) = 66%nat) as Ln by by rewrite (canonical_hex_length _ _ Hn).
  assert (String.length (vp_PayloadHash v) = 64%nat) as Lg by by rewrite Hg, hex_EncodeToString_length, Hgl.
  assert (String.length (vp_Identity v) = 68%nat) as Li
    by by rewrite Hi, str_app_length, hex_EncodeToString_length, Hh.
  unfold payment_row_ok, received_payment, char_ok, opt_check, numeric78. cbn -[char_n ToLower Z.pow].
  rewrite !char_n_exact by done. rewrite Li, Lp, Lr, Ln, Lg, Hp, Hr, !String.eqb_refl, Hf, Hb.
  unfold time_Unix, second, maxUint256 in *.
  rewrite (proj2 (Z.ltb_lt 0 value)), (proj2 (Z.ltb_lt (Z.abs value) _)), (proj2 (Z.ltb_lt (after * _) _)) by lia.
  done.
Qed.

Lemma find_payment_None d f :
  find_payment d f = None -> forall i p, payments d !! i = Some p -> f i p = false.
Proof.
  intros Hn i p Hp. apply (find_none _ _ Hn (i, p)). apply list_elem_of_In.
  by apply elem_of_map_to_list.
Qed.

Definition conflicting (v : VerifiedPayment) (q : Payment) : Prop :=
  p_payer q = Some (vp_Payer v) /\ p_auth_nonce q = Some (vp_Nonce v).

(** The insert: a unique violation exactly when the authorization is taken. *)
Lemma put_received d v value after before now :
  payment_form v value after before -> String.length (vp_Payer v) = 42%nat ->
  String.length (vp_Recipient v) = 42%nat -> wf d ->
  (forall i q, payments d !! i = Some q -> p_identity q <> vp_Identity v) ->
  let row := received_payment d v value now in
  let d1 := set_next_id d (N.succ (next_id d)) in
  (put_payment (next_id d) row d1 = Ok (tt, set_payments d1 (<[next_id d := row]> (payments d1))) /\
   forall i q, payments d !! i = Some q -> ~ conflicting v q) \/
  (put_payment (next_id d) row d1 = Err [EUniqueViolation] /\
   exists i q, payments d !! i = Some q /\ conflicting v q).
Proof.
  intros HC Lp Lr W Hid row d1. unfold put_payment.
  assert (payment_row_ok row = true) as -> by by eapply canonical_row_ok.
  assert (String.length (vp_Nonce v) = 66%nat) as Ln
    by (rewrite (canonical_hex_length 32); [done | apply HC]).
  destruct (payment_fits d1 (next_id d) row) eqn:Ef; [left | right]; (split; [done|]).
  - intros i q Hq [Hp Hn]. apply bool_decide_eq_true in Ef.
    destruct (Ef i q Hq) as [->|[_ Hx]]; [apply (wf_payments d W) in Hq; lia|].
    unfold row, received_payment in Hx. simpl in Hx. rewrite !char_n_exact in Hx by done.
    destruct Hx as [?|[?|[?|?]]]; congruence.
  - apply bool_decide_eq_false in Ef. apply map_not_Forall in Ef as (i & q & Hq & Hx); [|apply _]. exists i, q. split; [done|].
    unfold payment_compatible, row, received_payment in Hx. simpl in Hx. rewrite !char_n_exact in Hx by done.
    split.
    + destruct (decide (p_payer q = Some (vp_Payer v))); [done|]. exfalso. apply Hx. right.
      split; [intros E; by apply (Hid i q Hq)|]. right. right. left. congruence.
    + destruct (decide (p_auth_nonce q = Some (vp_Nonce v))); [done|]. exfalso. apply Hx. right.
      split; [intros E; by apply (Hid i q Hq)|]. right. right. right. congruence.
Qed.

(** From the inserted row to the verified one. *)
Lemma verify_received d v value now d1 :
  put_payment (next_id d) (received_payment d v value now) d1 =
    Ok (tt, set_payments d1 (<[next_id d := received_payment d v value now]> (payments d1))) ->
  let d2 := set_payments d1 (<[next_id d := received_payment d v value now]> (payments d1)) in
  update_payment (next_id d) (fun p => bool_decide (p_state p = StateReceived))
    (fun p => payment_set_verification "verified" (payment_set_state StateVerified now p)) d2 =
  Ok (Some (received_payment d v value now),
      set_payments d1 (<[next_id d := verified_row d v value now]> (payments d1))).
Proof.
  intros Hput d2. apply put_payment_Ok in Hput as (Hok & Hfit & _).
  unfold update_payment, bind, get, d2. simpl. rewrite lookup_insert_eq. simpl.
  unfold put_payment.
  change (payment_row_ok (payment_set_verification "verified"
    (payment_set_state StateVerified now (received_payment d v value now))))
    with (payment_row_ok (received_payment d v value now)).
  rewrite Hok. unfold payment_fits. rewrite bool_decide_eq_true_2.
  - simpl. rewrite insert_insert_eq. reflexivity.
  - intros j q Hj. simpl in Hj. apply lookup_insert_Some in Hj as [[<- _]|[_ Hq]]; [by left|].
    exact (Hfit j q Hq).
Qed.

(** Recording an accepted payment always answers, with one of three
    outcomes: the identity is known and nothing but the attempt is written;
    the payer's nonce belongs to another payment, and the conflict is reported
    and recorded as a failed attempt; or a row is inserted, verified, with its
    transition, attributed to the oldest active merchant with that recipient. *)
Theorem recordVerification_spec u v value after before now d :
  payment_form v value after before -> String.length (vp_Payer v) = 42%nat ->
  String.length (vp_Recipient v) = 42%nat -> reachable d ->
  exists r d', recordVerification u (verified_attempt v) now d = Ok (r, d') /\
    ((r = Ok tt /\ attempted d d' /\ exists i q, payments d !! i = Some q /\ p_identity q = vp_Identity v) \/
     (r = Err [EAuthorizationConflict] /\ attempted d d' /\
        (forall i q, payments d !! i = Some q -> p_identity q <> vp_Identity v) /\
        exists i q, payments d !! i = Some q /\ conflicting v q) \/
     (r = Ok tt /\ (forall i q, payments d !! i = Some q -> p_identity q <> vp_Identity v /\ ~ conflicting v q) /\
        payments d' = <[next_id d := verified_row d v value now]> (payments d) /\ txs d' = txs d /\
        transitions_log d' = transitions_log d ++
          [{| tr_payment := next_id d; tr_from := StateReceived; tr_to := StateVerified;
              tr_actor := "http" |}])).
Proof.
  intros HC Lp Lr Hr%reachable_wf. unfold recordVerification. simpl.
  unfold record_payment, bind, get.
  destruct (find_payment d _) as [[i q]|] eqn:Ef.
  { apply find_payment_Some in Ef as [Hq Hid%str_eqb_eq]. simpl. do 2 eexists. split; [reflexivity|].
    left. repeat split; eauto. }
  assert (forall i q, payments d !! i = Some q -> p_identity q <> vp_Identity v) as Hid.
  { intros i q Hq Heq. apply find_payment_None with (i := i) (p := q) in Ef; [|done].
    by rewrite Heq, String.eqb_refl in Ef. }
  destruct (can_amount _ _ _ _ HC) as [-> _]. unfold numeric_text. rewrite SetString10_print.
  cbn [of_option]. unfold fresh_id, bind, get, put, ret.
  destruct (put_received d v value after before now HC Lp Lr Hr Hid) as [[Hput Hnc]|[Hput Hc]].
  - rewrite Hput. rewrite (verify_received d v value now) by exact Hput. simpl.
    do 2 eexists. split; [reflexivity|]. right. right. split; [done|]. split; [eauto|]. done.
  - rewrite Hput. simpl. do 2 eexists. split; [reflexivity|]. right. left. repeat split; eauto.
Qed.

Lemma demo_canonical : payment_form demo_verified 1000000 0 5000.
Proof.
  split; try (split_and!; reflexivity); try reflexivity.
  - exists (replicate 32 x00). split; reflexivity.
  - split; [reflexivity|]. unfold maxUint256. lia.
  - repeat split; try reflexivity; lia.
  - exists (replicate 32 x00). split; reflexivity.
Qed.

Lemma recordVerification_spec_witness :
  exists r d', recordVerification "used" (verified_attempt demo_verified) 1 empty_db = Ok (r, d').
Proof.
  destruct (recordVerification_spec "used" demo_verified 1000000 0 5000 1 empty_db demo_canonical)
    as (r & d' & H & _); [reflexivity | reflexivity | exists []; reflexivity |].
  exists r, d'. exact H.
Defined.
Local Open Scope Z_scope.
Local Open Scope db_scope.

(** ** The audit trail and final states *)

(** C7. The audit trail is a complete and valid history: in every reachable
    database the transitions recorded for a payment form an unbroken path of
    the state machine from received to the state the payment is in. *)
Theorem audit_trail_valid d i p :
  reachable d -> payments d !! i = Some p ->
  valid_path StateReceived (history d i) (p_state p) = true.
Proof. intros Hr. exact (proj2 (proj2 (reachable_ind' audit audit_empty audit_exec d Hr)) i p). Qed.

Lemma audit_trail_valid_witness :
  exists p, payments demo_db !! 1%N = Some p /\ p_state p = StateConfirmed /\
    valid_path StateReceived (history demo_db 1) (p_state p) = true.
Proof.
  destruct (payments demo_db !! 1%N) as [p|] eqn:E; [|vm_compute in E; discriminate].
  exists p. split; [done|]. split; [vm_compute in E; by injection E as <-|].
  apply audit_trail_valid; [by exists demo_settlement | exact E].
Defined.

Lemma history_app d d' i :
  (exists l, transitions_log d' = transitions_log d ++ l) ->
  exists h, history d' i = history d i ++ h.
Proof.
  intros [l Hl]. unfold history. rewrite Hl, List.filter_app, map_app. eauto.
Qed.

Lemma valid_path_split from h1 h2 mid to :
  valid_path from h1 mid = true -> valid_path from (h1 ++ h2) to = true ->
  valid_path mid h2 to = true.
Proof.
  revert from. induction h1 as [|[a b] h1 IH]; intros from H1 H2; simpl in *.
  - bool_hyps. by subst.
  - bool_hyps. eauto.
Qed.

Lemma reachable_run d ops : reachable d -> reachable (run_ops d ops).
Proof. intros [ops0 ->]. exists (ops0 ++ ops). unfold run_ops. by rewrite fold_left_app. Qed.

(** Finality: a payment that reached confirmed, reverted, failed or
    verification_failed stays in that state under every further sequence of
    store calls. *)
Theorem terminal_states_final d ops i p :
  reachable d -> payments d !! i = Some p -> terminal (p_state p) = true ->
  exists p', payments (run_ops d ops) !! i = Some p' /\ p_state p' = p_state p /\
    p_identity p' = p_identity p /\ p_amount p' = p_amount p.
Proof.
  intros Hr Hp Ht. destruct (run_ops_evolves ops d (reachable_wf d Hr)) as [_ [L P _]].
  destruct (P i p Hp) as (p' & Hp' & Hid & Ham & _). exists p'. split; [done|]. split; [|done].
  pose proof (reachable_ind' audit audit_empty audit_exec _ Hr) as (_ & _ & A).
  pose proof (reachable_ind' audit audit_empty audit_exec _ (reachable_run d ops Hr)) as (_ & _ & A').
  destruct (history_app d (run_ops d ops) i L) as [h Hh].
  pose proof (A' i p' Hp') as V. rewrite Hh in V. apply valid_path_split with (mid := p_state p) in V; [|auto].
  destruct h as [|[a b] h]; simpl in V; bool_hyps; [done|].
  subst a. by rewrite (terminal_no_exit _ _ Ht) in *.
Qed.

Lemma terminal_states_final_witness :
  exists p', payments (run_ops demo_db [OpReverted 1 2 60000 "20" "worker" 9]) !! 1%N = Some p' /\
    p_state p' = StateConfirmed.
Proof.
  destruct (payments demo_db !! 1%N) as [p|] eqn:E; [|vm_compute in E; discriminate].
  assert (p_state p = StateConfirmed) as Hs by (vm_compute in E; by injection E as <-).
  destruct (terminal_states_final demo_db [OpReverted 1 2 60000 "20" "worker" 9] 1%N p)
    as (p' & Hp' & Hs' & _); [by exists demo_settlement | exact E | by rewrite Hs |].
  exists p'. split; [exact Hp' | congruence].
Defined.

(** ** Nonces *)

(** Nonce ownership: every transaction row carries an allocated nonce of
    its signer; two rows with the same signer and nonce belong to the same
    payment; and all rows of one payment (the intent, its replacements and its
    gap fillers) carry the same signer and nonce. *)
Theorem nonce_ownership d i j r s :
  reachable d -> txs d !! i = Some r -> txs d !! j = Some s ->
  (exists next, signers d !! t_signer r = Some next /\ 0 <= t_nonce r < next) /\
  (t_payment r = t_payment s <-> t_signer r = t_signer s /\ t_nonce r = t_nonce s).
Proof.
  intros Hr Hi Hj. destruct (reachable_ind' nonces nonces_empty nonces_exec d Hr) as [_ N1 N2 N3 _ _].
  split; [eauto|]. split; [eauto | intros []; eauto].
Qed.

Lemma nonce_ownership_witness :
  exists r, txs demo_db !! 2%N = Some r /\
    exists next, signers demo_db !! t_signer r = Some next /\ 0 <= t_nonce r < next.
Proof.
  destruct (txs demo_db !! 2%N) as [r|] eqn:E; [|vm_compute in E; discriminate].
  exists r. split; [done|]. apply (nonce_ownership demo_db 2%N 2%N r r); [|exact E..].
  by exists demo_settlement.
Defined.

(** A payment is admitted to settlement at most once: once any transaction
    row exists for it, every later settle request for the same payment either
    is refused or answers with the existing transaction and its original
    signer and nonce; it changes no payment, transaction or nonce counter. *)
Theorem settlement_admitted_once d i r p request now res d' :
  reachable d -> txs d !! i = Some r -> payments d !! t_payment r = Some p ->
  ir_PaymentIdentity request = p_identity p ->
  CreateSettlementIntent request now d = Ok (res, d') ->
  txs d' = txs d /\ signers d' = signers d /\ payments d' = payments d /\
  match res with
  | Ok intent => in_Duplicate intent = true /\ in_PaymentID intent = t_payment r /\
      in_SignerAddress intent = t_signer r /\ in_Nonce intent = t_nonce r
  | Err _ => True
  end.
Proof.
  intros Hr Hi Hp Hid H.
  destruct (reachable_ind' nonces nonces_empty nonces_exec d Hr) as [_ _ _ N3 N4 _].
  pose proof (reachable_ind' _ identities_empty identities_exec d Hr) as HI.
  apply CreateSettlementIntent_Ok in H.
  destruct H as [a cause d' _ ->|payment q j s intent d' Hq Hqi Hs Hsp H1 H2 H3 H4 H5 H6 _ _ ->
    |signer payment q nonce intent d' _ Hqi HA HAd _ _ _ _ _ _ _ _ _]; [done| |].
  - do 3 (split; [done|]). split; [done|].
    assert (payment = t_payment r) as Hpay by (eapply HI; [exact Hq | exact Hp | congruence]).
    destruct (N3 i j r s Hi Hs ltac:(congruence)). repeat split; congruence.
  - exfalso. pose proof (admits_payment _ _ _ _ _ _ _ _ HAd) as Hq.
    assert (payment = t_payment r) as -> by (eapply HI; [exact Hq | exact Hp | congruence]).
    assert (q = p) as -> by congruence.
    pose proof (N4 i r p Hi Hp) as Hu. by rewrite (adm_verified _ _ _ _ HA) in Hu.
Qed.

Lemma demo_row : exists r p,
  txs demo_db !! 2%N = Some r /\ payments demo_db !! t_payment r = Some p /\
  ir_PaymentIdentity demo_intent = p_identity p /\ t_nonce r = 5.
Proof. do 2 eexists. split; [vm_compute; reflexivity|]. split; [vm_compute; reflexivity | by vm_compute]. Qed.

Lemma demo_again : exists intent d',
  CreateSettlementIntent demo_intent (1001 * second) demo_db = Ok (Ok intent, d').
Proof. do 2 eexists. vm_compute. reflexivity. Qed.

Lemma settlement_admitted_once_witness :
  exists intent d', CreateSettlementIntent demo_intent (1001 * second) demo_db = Ok (Ok intent, d') /\
    in_Duplicate intent = true /\ in_Nonce intent = 5.
Proof.
  destruct demo_row as (r & p & Hr & Hp & Hi & Hn). destruct demo_again as (intent & d' & E).
  exists intent, d'. split; [exact E|].
  destruct (settlement_admitted_once demo_db 2%N r p demo_intent (1001 * second) (Ok intent) d')
    as (_ & _ & _ & Hd & _ & _ & Hnonce).
  - exists demo_settlement. reflexivity.
  - exact Hr.
  - exact Hp.
  - exact Hi.
  - exact E.
  - split; [exact Hd | rewrite Hnonce; exact Hn].
Defined.

(** C8. Admission enforces the policy: a settle request that allocates a nonce
    found the payment verified, its merchant registered and active, the
    authorization valid beyond the safety margin, both quotas not yet spent
    on the database's clock, and no conflicting signature; it moves the
    payment to broadcasting, records the transition and inserts one intent
    row with the counter's nonce, all in one transaction. *)
Theorem admission_enforces_policy request now d intent d' :
  CreateSettlementIntent request now d = Ok (Ok intent, d') -> in_Duplicate intent = false ->
  exists signer p,
    NormalizeAddress (ir_SignerAddress request) = Ok signer /\ p_identity p = ir_PaymentIdentity request /\
    admissible request d p now /\
    admits request signer (in_PaymentID intent) p (in_Nonce intent) now d d' /\
    in_TransactionID intent = next_id d /\ in_SignerAddress intent = signer.
Proof.
  intros H Hd. apply CreateSettlementIntent_Ok in H. inversion H; subst; [congruence|]. eauto 10.
Qed.

Definition demo_ready : db :=
  run_ops empty_db [OpMerchants demo_merchants; OpSeed (demo_addr "9") 5;
                    OpVerification "used" demo_attempt 1].

Lemma demo_admitted : exists intent d',
  CreateSettlementIntent demo_intent (1000 * second) demo_ready = Ok (Ok intent, d') /\
  in_Duplicate intent = false.
Proof. do 2 eexists. split; [vm_compute; reflexivity | reflexivity]. Qed.

Lemma admission_enforces_policy_witness :
  exists intent d', CreateSettlementIntent demo_intent (1000 * second) demo_ready = Ok (Ok intent, d') /\
    exists p, admissible demo_intent demo_ready p (1000 * second).
Proof.
  destruct demo_admitted as (intent & d' & E & Hd). exists intent, d'. split; [exact E|].
  destruct (admission_enforces_policy demo_intent (1000 * second) demo_ready intent d' E Hd)
    as (signer & p & _ & _ & HA & _).
  exists p. exact HA.
Defined.

(** ** Quotas *)

(** C9. The settlement quotas hold over every window: if every request carries
    the configured window and quotas, then after any sequence of store calls
    no interval of the window's length contains more than [global] admitted
    settlements, nor more than [quota] of payments attributed to one merchant;
    this needs no assumption on the database clock, not even monotonicity. *)
Theorem quotas_hold w quota global ops a merchant :
  0 <= quota -> 0 <= global -> Forall (under_policy w quota global) ops ->
  settled_in (run_ops empty_db ops) None a w <= global /\
  settled_in (run_ops empty_db ops) (Some merchant) a w <= quota.
Proof.
  intros H0 H1 Hops. split.
  - exact (bounded_run None w quota global ops H0 H1 Hops a).
  - exact (bounded_run (Some merchant) w quota global ops H0 H1 Hops a).
Qed.

Lemma quotas_hold_witness :
  settled_in (run_ops empty_db demo_settlement) None 0 (3600 * second) <= 3 /\
  settled_in (run_ops empty_db demo_settlement) (Some 7%N) 0 (3600 * second) <= 2.
Proof.
  apply (quotas_hold (3600 * second) 2 3 demo_settlement 0 7%N); [lia | lia |].
  repeat constructor; vm_compute; congruence.
Defined.

(** ** Leases *)

(** C10. A live lease is exclusive: while [worker] holds payment [i] until
    [until], no store call by anyone else moves, extends or drops the lease;
    a claim takes the payment only from a clock that has reached [until].
    Retention, which clears the claims of the payments it expires, is not such
    a call. *)
Theorem lease_exclusive i worker until op d a d' :
  reachable d -> respects i worker until op -> leased i worker until d -> exec op d = Ok (a, d') ->
  leased i worker until d'.
Proof. intros Hr. apply leased_exec. by apply reachable_wf. Qed.

Definition demo_leased_ops : list store_op := demo_admission ++ [OpClaim 1 "w1" (60 * second) 100 100].

Definition demo_other_claim : store_op := OpClaims
  {| cr_Worker := "w2"; cr_States := [StateBroadcasting]; cr_Duration := second; cr_Limit := 5;
     cr_Now := 101 |} (fun _ => false) 101.

Lemma demo_other_claimed : exists d',
  exec demo_other_claim (run_ops empty_db demo_leased_ops) = Ok (tt, d').
Proof. eexists. vm_compute. reflexivity. Qed.

Lemma lease_exclusive_witness :
  exists d', exec demo_other_claim (run_ops empty_db demo_leased_ops) = Ok (tt, d') /\
    leased 1 "w1" (60 * second + 100) d'.
Proof.
  destruct demo_other_claimed as (d' & E). exists d'. split; [exact E|].
  apply (lease_exclusive 1 "w1" (60 * second + 100) demo_other_claim
    (run_ops empty_db demo_leased_ops) tt d').
  - exists demo_leased_ops. reflexivity.
  - vm_compute. reflexivity.
  - eexists. split; [vm_compute; reflexivity | split; reflexivity].
  - exact E.
Defined.
