(* ===== verification/StoreFindings.v ===== *)
(** Calls the store refuses although the program makes them: what the schema
    and the statements' guards imply for four call sites. *)

From Stdlib Require Import ZArith Lia Strings.Byte.
From stdpp Require Import base gmap list strings fin_maps.
From S2P Require Import Prelude GoStd Geth Policy Verification Calldata State Schema Hoare Work.
From S2P Require Import Store StoreWork StoreRecovery StoreInv StoreDemo.

Local Open Scope Z_scope.
Local Open Scope db_scope.

(** [settlement.respondWithTx] names this actor; the CHECK constraint of
    [payment_transitions.actor_type] does not. *)
Definition wait_actor : string := "http-wait".

Lemma recordTransition_wait i from to d a d' : recordTransition i from to wait_actor d <> Ok (a, d').
Proof. intros [H _]%insert_transition_Ok. apply (bool_decide_eq_true_2 _) in H. discriminate H. Qed.

Lemma validate_all_same from to d a d' : validate_all from to d = Ok (a, d') -> d' = d.
Proof.
  revert d. induction from as [|s from IH]; intros d; simpl; [by intros [= _ ->]|].
  unfold bind, lift. destruct (ValidateTransition s to); [apply IH | done].
Qed.

Lemma transitionPaymentIn_wait i from to f now d a d' :
  transitionPaymentIn i from to wait_actor f now d <> Ok (a, d').
Proof.
  unfold transitionPaymentIn, bind. destruct (validate_all from to d) as [[[] d1]|]; [|done].
  destruct (update_payment _ _ _ d1) as [[[p|] d2]|]; [|done..]. apply recordTransition_wait.
Qed.

(** The common tail of the two recorders: settle the row, or accept a replay. *)
Lemma settle_wait i t cond f from state g now d a d' :
  (n <-! update_tx t cond f ;;
   if n =? 1 then transitionPaymentIn i from state wait_actor g now
   else matching <-! terminalSettlementMatches i t state ;; if matching then ret tt else race) d
    = Ok (a, d') ->
  d' = d /\ exists r p, txs d !! t = Some r /\ payments d !! i = Some p /\ p_state p = state /\
    Some (t_status r) = TxStatus_of state.
Proof.
  unfold bind at 1. destruct (update_tx t cond f d) as [[n d1]|] eqn:E; [|done].
  apply update_tx_Ok in E as [(-> & -> & _)|(-> & _)]; simpl; [|by intros ?%transitionPaymentIn_wait].
  unfold terminalSettlementMatches, bind, get, ret.
  destruct (txs d !! t) as [r|]; [|done]. destruct (payments d !! i) as [p|]; [|done].
  destruct (_ && _ && _) eqn:Hm; [|done]. intros [= _ <-]. bool_hyps. naive_solver.
Qed.

Lemma of_option_Ok {A} e (o : option A) d a d' : of_option e o d = Ok (a, d') -> d' = d /\ o = Some a.
Proof. destruct o; [by intros [= -> ->] | done]. Qed.

(** C36. The HTTP request that waited for its transaction cannot record the
    outcome it observed: with the actor it passes, both recorders fail unless
    the same outcome is already stored, and then they change nothing. *)
Theorem wait_records_nothing i t block hash gas price now d a d' :
  MarkTxConfirmed i t block hash gas price wait_actor now d = Ok (a, d') \/
  MarkTxReverted i t gas price wait_actor now d = Ok (a, d') ->
  d' = d /\ exists r p, txs d !! t = Some r /\ payments d !! i = Some p /\
    (p_state p = StateConfirmed /\ t_status r = TxConfirmed \/
     p_state p = StateReverted /\ t_status r = TxReverted).
Proof.
  intros [H|H]; unfold MarkTxConfirmed, MarkTxReverted in H; unfold bind at 1 in H.
  all: destruct (of_option _ _ d) as [[? ?]|] eqn:E; [|done]; apply of_option_Ok in E as [-> _].
  all: apply settle_wait in H as (-> & r & p & ? & ? & Hs & Ht); simpl in Ht; split; [done|].
  all: exists r, p; naive_solver.
Qed.

Lemma wait_records_nothing_witness :
  MarkTxConfirmed 1 2 100 "0xbb" 1 "1" wait_actor 6 demo_db = Ok (tt, demo_db) /\
  exists p, payments demo_db !! 1%N = Some p /\ (p_state p = StateConfirmed \/ p_state p = StateReverted).
Proof.
  assert (MarkTxConfirmed 1 2 100 "0xbb" 1 "1" wait_actor 6 demo_db = Ok (tt, demo_db)) as H
    by (vm_compute; reflexivity).
  split; [exact H|].
  destruct (wait_records_nothing 1 2 100 "0xbb" 1 "1" 6 demo_db tt demo_db (or_introl H))
    as (_ & r & p & _ & Hp & [[Hs _]|[Hs _]]); exists p; (split; [exact Hp|]); [left|right]; exact Hs.
Defined.

(** A transition out of a state the payment is not in is refused. *)
Lemma transitionPayment_guard i from to actor now d p :
  payments d !! i = Some p -> p_state p <> from ->
  forall a d', transitionPayment i from to actor now d <> Ok (a, d').
Proof.
  intros Hp Hs a d'. unfold transitionPayment, bind, lift. destruct (ValidateTransition from to); [|done].
  destruct (update_payment _ _ _ d) as [[o d1]|] eqn:E; [|done].
  apply update_payment_Ok in E as [(-> & -> & _)|(q & -> & Hq & Hc & _)]; [done|].
  bool_hyps. congruence.
Qed.

Lemma transitionPayment_missing i from to actor now d a d' :
  payments d !! i = None -> transitionPayment i from to actor now d <> Ok (a, d').
Proof.
  intros Hp. unfold transitionPayment, bind, lift. destruct (ValidateTransition from to); [|done].
  destruct (update_payment _ _ _ d) as [[o d1]|] eqn:E; [|done].
  apply update_payment_Ok in E as [(-> & -> & _)|(q & -> & Hq & _)]; [done|congruence].
Qed.

Lemma update_txs_status_payments cond f d n d' :
  update_txs_status cond f d = Ok (n, d') -> payments d' = payments d.
Proof. by intros ->%update_txs_status_Ok. Qed.

(** A filler whose success can be recorded: its payment is expired, its row is
    broadcast or replaced, and no other row of the payment is active. *)
Definition escalatable (i t : rowid) (d : db) : Prop :=
  exists p r, payments d !! i = Some p /\ p_state p = StateExpired /\
    txs d !! t = Some r /\ t_payment r = i /\ t_status r ∈ [TxBroadcast; TxReplaced] /\
    forall s q, s <> t -> txs d !! s = Some q -> t_payment q = i -> active (t_status q) = false.

(** C37. Escalating a gap filler the chain accepted fails unless its payment is
    expired and no other row of the payment is active.  The recovery worker
    also watches fillers of failed payments, and fillers that were replaced
    while the replacement is active: those are refused, the latter because
    the row is made active before its sibling is dropped. *)
Theorem filler_escalation_refused i t block hash gas price actor now d a d' :
  MarkGapFillerSucceeded i t block hash gas price actor now d = Ok (a, d') -> escalatable i t d.
Proof.
  unfold MarkGapFillerSucceeded, bind.
  destruct (of_option _ _ d) as [[g d0]|] eqn:E0; [|done]. apply of_option_Ok in E0 as [-> _].
  destruct (update_tx _ _ _ d) as [[n d1]|] eqn:E1; [|done].
  apply update_tx_Ok in E1 as [(-> & -> & _)|(-> & r & Hr & Hc & _ & Hfit & ->)]; [done|].
  cbn [exactly_one Z.eqb Pos.eqb ret].
  match goal with |- context [update_txs_status ?c ?f ?x] => destruct (update_txs_status c f x) as [[m d2]|] eqn:E2; [|done] end.
  apply update_txs_status_payments in E2. cbn [payments] in E2. intros HT.
  unfold tx_in in Hc. bool_hyps. destruct (payments d !! i) as [p|] eqn:Hp.
  2: { by destruct (transitionPayment_missing i StateExpired StateManualReview actor now d2 a d'); [rewrite E2|]. }
  exists p, r. split_and!; try done.
  - destruct (decide (p_state p = StateExpired)) as [|Hne]; [done|].
    by destruct (transitionPayment_guard i StateExpired StateManualReview actor now d2 p) with a d'; [rewrite E2|..].
  - intros s q Hne Hq Hqi. destruct (active (t_status q)) eqn:Hact; [|done].
    exfalso. destruct (Hfit s q Hq) as [?|[_ [HH|[HH|HH]]]]; simpl in *; congruence.
Qed.

(** A filler replaced by another: the worker watches both rows; the success of
    the replacement is recorded, that of the replaced one is refused. *)
Lemma filler_escalation_refused_witness :
  escalatable 1 3 demo_filled /\
  (exists watched, ListGapFillers demo_filled = Ok (watched, demo_filled) /\
     map tt_TransactionID watched = [2; 3]%N) /\
  forall a d', MarkGapFillerSucceeded 1 2 100 "0xbb" 1 "1" "worker" 6 demo_filled <> Ok (a, d').
Proof.
  split; [|split].
  - destruct (MarkGapFillerSucceeded 1 3 100 "0xbb" 1 "1" "worker" 6 demo_filled) as [[a d']|] eqn:E;
      [exact (filler_escalation_refused _ _ _ _ _ _ _ _ _ _ _ E)|vm_compute in E; discriminate E].
  - eexists. split; vm_compute; reflexivity.
  - intros a d' E. destruct (filler_escalation_refused _ _ _ _ _ _ _ _ _ _ _ E) as (p & r & _ & _ & _ & _ & _ & H).
    assert (exists q, txs demo_filled !! 3%N = Some q /\ t_payment q = 1%N /\ active (t_status q) = true)
      as (q & Hq & Hp & Ha) by (eexists; repeat (refine (conj _ _); [vm_compute; reflexivity|]); vm_compute; reflexivity).
    rewrite (H 3%N q) in Ha; [discriminate Ha|discriminate|exact Hq|exact Hp].
Defined.

(** Recording a mined transaction does not check that its row is the live
    one: for a row that is not broadcast or confirming the call still moves a
    broadcast payment to confirming, and leaves every transaction row as it
    was. *)
Theorem confirming_ignores_stale_row i t block hash actor now d p r :
  payments d !! i = Some p -> p_state p = StateReplaced -> txs d !! t = Some r ->
  t_status r = TxReplaced -> actor ∈ actor_types ->
  payment_row_ok (payment_set_state StateConfirming now p) = true ->
  payment_fits d i (payment_set_state StateConfirming now p) = true ->
  exists d', MarkTxConfirming i t block hash actor now d = Ok (tt, d') /\ txs d' = txs d /\
    payments d' = <[i := payment_set_state StateConfirming now p]> (payments d).
Proof.
  intros Hp Hs Hr Ht Ha Hok Hfit. eexists. split; [|split].
  - unfold MarkTxConfirming, update_tx, bind, get. rewrite Hr. unfold tx_in. rewrite Ht.
    rewrite (bool_decide_eq_false_2 (TxReplaced ∈ _)) by (intros [?|?]%elem_of_list2; congruence). rewrite andb_false_r. simpl.
    unfold update_payment, bind, get, ret. rewrite Hp.
    rewrite bool_decide_eq_true_2 by (rewrite Hs; apply elem_of_list2; auto). unfold put_payment. rewrite Hok, Hfit.
    unfold recordTransition, insert_transition, bind, get. simpl.
    rewrite bool_decide_eq_true_2 by done. reflexivity.
  - reflexivity.
  - reflexivity.
Qed.

Lemma confirming_ignores_stale_row_witness :
  exists d', MarkTxConfirming 1 2 100 "0xbb" "worker" 6 demo_replaced = Ok (tt, d') /\
    txs d' = txs demo_replaced.
Proof.
  assert (exists p r, payments demo_replaced !! 1%N = Some p /\ p_state p = StateReplaced /\
    txs demo_replaced !! 2%N = Some r /\ t_status r = TxReplaced /\
    payment_row_ok (payment_set_state StateConfirming 6 p) = true /\
    payment_fits demo_replaced 1 (payment_set_state StateConfirming 6 p) = true)
    as (p & r & H1 & H2 & H3 & H4 & H5 & H6).
  { do 2 eexists. repeat (refine (conj _ _); [vm_compute; reflexivity|]). vm_compute. reflexivity. }
  destruct (confirming_ignores_stale_row 1 2 100 "0xbb" "worker" 6 demo_replaced p r H1 H2 H3 H4)
    as (d' & E & Ht & _); [apply elem_of_cons; right; left | exact H5 | exact H6 |].
  exists d'. split; [exact E | exact Ht].
Defined.

(** ** Addresses without a prefix *)

Lemma strip_0x_padded s pad :
  (2 <= String.length s)%nat -> strip_0x (s +:+ pad) = strip_0x s +:+ pad.
Proof.
  destruct s as [|a [|b s]]; simpl; [lia | lia |]. intros _. unfold strip_0x. simpl.
  by destruct (_ || _).
Qed.

Lemma padded_not_address s :
  hex_address s = true -> String.length s = 40%nat -> hex_address (char_n 42 s) = false.
Proof.
  unfold hex_address, char_n. intros Hs Hl. rewrite strip_0x_padded by lia. rewrite Hl. simpl Repeat.
  destruct (hex_DecodeString (strip_0x s)) as [b|] eqn:E; [|done]. apply Nat.eqb_eq in Hs.
  apply hex_DecodeString_length in E.
  destruct (hex_DecodeString (strip_0x s +:+ _)) as [c|] eqn:F; [|done].
  apply hex_DecodeString_length in F. rewrite str_app_length in F. simpl in F.
  apply Nat.eqb_neq. lia.
Qed.

(** The parser accepts a payer written without the 0x prefix, but such a
    payment can never be settled: the address column returns it padded with
    blanks, and no calldata can be built for it, neither to broadcast the
    payment nor to fill the nonce its intent allocated. *)
Theorem unprefixed_payer_never_packs `{Geth} `{X402}
    (IsHexAddress_spec : forall s, IsHexAddress s = hex_address s) request p d value now auth :
  ParseRequest request = inl p -> String.length (vp_Payer p) = 40%nat ->
  p_payer (received_payment d p value now) = Some (au_From auth) ->
  Calldata.TransferWithAuthorizationData auth = Err [EOpaque].
Proof.
  intros Hp Hl [= Ha]. apply ParseRequest_inl in Hp as (a & w & s & b & Hacc).
  assert (hex_address (vp_Payer p) = true) as Hx.
  { pose proof (accepted_derive _ _ _ _ _ _ Hacc) as Hd. destruct Hacc as (_ & _ & _ & _ & Hf & _).
    apply derive_inl in Hd as (? & ? & _ & ->). simpl. by rewrite hex_address_lower, <- IsHexAddress_spec. }
  unfold Calldata.TransferWithAuthorizationData.
  by rewrite <- Ha, IsHexAddress_spec, padded_not_address.
Qed.

Definition demo_unprefixed : Calldata.Authorization :=
  {| au_From := char_n 42 (Repeat "a" 40); au_To := "0x" +:+ Repeat "2" 40; au_Value := "1000000";
     au_ValidAfter := 0; au_ValidBefore := 5000 * second; au_Nonce := "0x" +:+ Repeat "ab" 32;
     au_Signature := "0x" +:+ Repeat "cd" 65 |}.

Lemma unprefixed_payer_never_packs_witness :
  @Calldata.TransferWithAuthorizationData (DemoGeth []) demo_unprefixed = Err [EOpaque].
Proof.
  destruct (@ParseRequest (DemoGeth []) DemoX402 (demo_verify (Repeat "a" 40))) as [p|r] eqn:E;
    [|vm_compute in E; discriminate].
  apply (@unprefixed_payer_never_packs (DemoGeth []) DemoX402 (fun s => eq_refl)
    (demo_verify (Repeat "a" 40)) p empty_db 1000000 1 demo_unprefixed E);
    vm_compute in E; injection E as <-; vm_compute; reflexivity.
Defined.
