(* ===== verification/GoNet.v ===== *)
(** Network names of the Go standard library: [net/netip] addresses and
    prefixes, [net.SplitHostPort] and [net/url].

    A parser's error is [None]: the callers only ask whether there was one. *)

From Stdlib Require Import ZArith Lia Ascii String.
From stdpp Require Import base strings list.
From S2P Require Import Prelude GoStd GoJson.

Local Open Scope string_scope.
Local Open Scope Z_scope.

(** ** Cutting strings at a character *)

(** Around the first occurrence, and around the last one. *)
Fixpoint cut_first (c : ascii) (s : string) : option (string * string) :=
  match s with
  | EmptyString => None
  | String a r =>
      if Ascii.eqb a c then Some (EmptyString, r)
      else match cut_first c r with Some (x, y) => Some (String a x, y) | None => None end
  end.

Fixpoint cut_last (c : ascii) (s : string) : option (string * string) :=
  match s with
  | EmptyString => None
  | String a r =>
      match cut_last c r with
      | Some (x, y) => Some (String a x, y)
      | None => if Ascii.eqb a c then Some (EmptyString, r) else None
      end
  end.

(** [strings.Cut(s, c)] without its flag. *)
Definition Cut (c : ascii) (s : string) : string * string :=
  match cut_first c s with Some p => p | None => (s, EmptyString) end.

(** [strings.Split(s, c)]. *)
Fixpoint Split (c : ascii) (s : string) : list string :=
  match s with
  | EmptyString => [EmptyString]
  | String a r =>
      if Ascii.eqb a c then EmptyString :: Split c r
      else match Split c r with x :: l => String a x :: l | [] => [String a EmptyString] end
  end.

Definition has_char (c : ascii) (s : string) : bool := match cut_first c s with Some _ => true | None => false end.

(** The longest prefix of characters in a class, and the rest. *)
Fixpoint span_str (p : ascii -> bool) (s : string) : string * string :=
  match s with
  | EmptyString => (EmptyString, EmptyString)
  | String a r => if p a then let '(x, y) := span_str p r in (String a x, y) else (EmptyString, s)
  end.

Fixpoint all_chars (p : ascii -> bool) (s : string) : bool :=
  match s with
  | EmptyString => true
  | String a r => p a && all_chars p r
  end.

Definition one_of (l : string) (c : ascii) : bool := has_char c l.

Definition code (c : ascii) : Z := Z.of_N (N_of_ascii c).

Definition is_digit (c : ascii) : bool := match digit_of c with Some _ => true | None => false end.
Definition is_hex (c : ascii) : bool := match hex_value c with Some _ => true | None => false end.
Definition is_letter (c : ascii) : bool :=
  (97 <=? code (lower_ascii c)) && (code (lower_ascii c) <=? 122).
Definition is_alnum (c : ascii) : bool := is_letter c || is_digit c.

(** ** netip.Addr *)

(** An address of either family; the number is the address read as one
    big-endian integer. *)
Inductive Addr :=
  | Addr4 (n : Z)
  | Addr6 (n : Z) (zone : string).

#[export] Instance Addr_EqDecision : EqDecision Addr.
Proof. solve_decision. Defined.

Definition Is6 (a : Addr) : bool := match a with Addr4 _ => false | Addr6 _ _ => true end.
Definition BitLen (a : Addr) : Z := match a with Addr4 _ => 32 | Addr6 _ _ => 128 end.

(** A decimal octet: no leading zero, at most 255. *)
Definition octet (s : string) : option Z :=
  match s with
  | EmptyString => None
  | String "0" (String _ _) => None
  | _ => match dval 0 s with
         | Some v => if v <=? 255 then Some v else None
         | None => None
         end
  end.

Definition parseIPv4Fields (s : string) : option Z :=
  match map octet (Split "." s) with
  | [Some a; Some b; Some c; Some d] => Some (((a * 256 + b) * 256 + c) * 256 + d)
  | _ => None
  end.

(** A trailing IPv4 address stands for the last two groups. *)
Definition embedded (room : nat) (ellipsis : option nat) (acc : list Z) (s : string) :
    option (list Z * option nat * string) :=
  match room with
  | O => None
  | S _ =>
      match parseIPv4Fields s with
      | Some v => Some (v mod 2 ^ 16 :: v / 2 ^ 16 :: acc, ellipsis, EmptyString)
      | None => None
      end
  end.

(** The groups of an IPv6 address, the last one read first, with the position
    of the ellipsis and what is left of the text; [room] groups still fit. *)
Fixpoint ipv6_groups (room : nat) (ellipsis : option nat) (acc : list Z) (s : string) :
    option (list Z * option nat * string) :=
  match room with
  | O => Some (acc, ellipsis, s)
  | S room =>
      let '(digits, rest) := span_str is_hex s in
      match hval 0 digits with
      | None => None
      | Some v =>
          if (String.length digits =? 0)%nat || (4 <? String.length digits)%nat then None
          else
            match rest with
            | String "." _ =>
                match ellipsis with
                | None => if (length acc =? 6)%nat then embedded room ellipsis acc s else None
                | Some _ => embedded room ellipsis acc s
                end
            | EmptyString => Some (v :: acc, ellipsis, EmptyString)
            | String ":" EmptyString => None
            | String ":" (String ":" r) =>
                match ellipsis with
                | Some _ => None
                | None =>
                    match r with
                    | EmptyString => Some (v :: acc, Some (S (length acc)), EmptyString)
                    | _ => ipv6_groups room (Some (S (length acc))) (v :: acc) r
                    end
                end
            | String ":" r => ipv6_groups room ellipsis (v :: acc) r
            | _ => None
            end
      end
  end.

Definition of_groups (l : list Z) : Z := fold_left (fun n g => n * 2 ^ 16 + g) l 0.

Definition ipv6_number (s : string) : option Z :=
  let start := if HasPrefix s "::" then (Some 0%nat, drop_str 2 s) else (None, s) in
  if HasPrefix s "::" && String.eqb (drop_str 2 s) EmptyString then Some 0
  else
    match ipv6_groups 8 (fst start) [] (snd start) with
    | Some (acc, ellipsis, EmptyString) =>
        let groups := rev acc in
        match ellipsis with
        | None => if (length groups =? 8)%nat then Some (of_groups groups) else None
        | Some e =>
            if (length groups =? 8)%nat then None
            else Some (of_groups (take e groups ++ replicate (8 - length groups) 0 ++ drop e groups))
        end
    | _ => None
    end.

Definition parseIPv6 (s : string) : option Addr :=
  match cut_first "%" s with
  | Some (_, EmptyString) => None
  | Some (s, zone) => option_map (fun n => Addr6 n zone) (ipv6_number s)
  | None => option_map (fun n => Addr6 n EmptyString) (ipv6_number s)
  end.

(** [netip.ParseAddr]: the first separator decides the family. *)
Definition ParseAddr (s : string) : option Addr :=
  match snd (span_str (fun c => negb (one_of ".:%" c)) s) with
  | String "." _ => option_map Addr4 (parseIPv4Fields s)
  | String ":" _ => parseIPv6 s
  | _ => None
  end.

Definition Unmap (a : Addr) : Addr :=
  match a with
  | Addr6 n _ => if n / 2 ^ 32 =? 65535 then Addr4 (n mod 2 ^ 32) else a
  | Addr4 _ => a
  end.

(** [address.WithZone("")]. *)
Definition without_zone (a : Addr) : Addr :=
  match a with Addr6 n _ => Addr6 n EmptyString | Addr4 _ => a end.

(** *** Printing *)

Definition groups_of (n : Z) : list Z := map (fun i => n / 2 ^ (16 * (7 - Z.of_nat i)) mod 2 ^ 16) (seq 0 8).

Definition string4 (n : Z) : string :=
  FormatInt (n / 2 ^ 24 mod 256) +:+ "." +:+ FormatInt (n / 2 ^ 16 mod 256) +:+ "." +:+
  FormatInt (n / 2 ^ 8 mod 256) +:+ "." +:+ FormatInt (n mod 256).

Fixpoint zeros (l : list Z) : nat :=
  match l with
  | g :: l => if g =? 0 then S (zeros l) else 0%nat
  | [] => 0%nat
  end.

(** The first longest run of at least two zero groups: its start and length. *)
Fixpoint longest_zeros (i : nat) (best : nat * nat) (l : list Z) : nat * nat :=
  match l with
  | [] => best
  | _ :: r =>
      let run := zeros l in
      longest_zeros (S i) (if (2 <=? run)%nat && (snd best <? run)%nat then (i, run) else best) r
  end.

Definition joined (l : list Z) : string := String.concat ":" (map FormatUint16 l).

Definition string6 (n : Z) : string :=
  let l := groups_of n in
  let '(start, run) := longest_zeros 0 (0%nat, 0%nat) l in
  if (run =? 0)%nat then joined l
  else joined (take start l) +:+ "::" +:+ joined (drop (start + run) l).

(** [Addr.String]. *)
Definition addr_String (a : Addr) : string :=
  match a with
  | Addr4 n => string4 n
  | Addr6 n zone =>
      (if n / 2 ^ 32 =? 65535 then "::ffff:" +:+ string4 (n mod 2 ^ 32) else string6 n) +:+
      match zone with EmptyString => EmptyString | _ => "%" +:+ zone end
  end.

(** ** netip.Prefix *)

(** A valid prefix: an address without a zone and at most its length of bits. *)
Record Prefix := { pfx_addr : Addr; pfx_bits : Z }.

#[export] Instance Prefix_EqDecision : EqDecision Prefix.
Proof. solve_decision. Defined.

Definition addr_number (a : Addr) : Z := match a with Addr4 n => n | Addr6 n _ => n end.

Definition mask_number (len bits n : Z) : Z := Z.shiftl (Z.shiftr n (len - bits)) (len - bits).

(** [p.Masked()], and [a.Prefix(bits)] for [bits] in range. *)
Definition Masked (p : Prefix) : Prefix :=
  {| pfx_addr :=
       match pfx_addr p with
       | Addr4 n => Addr4 (mask_number 32 (pfx_bits p) n)
       | Addr6 n _ => Addr6 (mask_number 128 (pfx_bits p) n) EmptyString
       end;
     pfx_bits := pfx_bits p |}.

(** [netip.PrefixFrom] for [bits] in range. *)
Definition PrefixFrom (a : Addr) (bits : Z) : Prefix := {| pfx_addr := without_zone a; pfx_bits := bits |}.

Definition ParsePrefix (s : string) : option Prefix :=
  match cut_last "/" s with
  | None => None
  | Some (ip, bitsStr) =>
      match ParseAddr ip with
      | None => None
      | Some (Addr6 _ (String _ _)) => None
      | Some a =>
          match bitsStr with
          | String c (String _ _) =>
              if (49 <=? code c) && (code c <=? 57) then
                match ParseInt64 bitsStr with
                | Some bits => if (bits <? 0) || (BitLen a <? bits) then None else Some (PrefixFrom a bits)
                | None => None
                end
              else None
          | _ =>
              match ParseInt64 bitsStr with
              | Some bits => if (bits <? 0) || (BitLen a <? bits) then None else Some (PrefixFrom a bits)
              | None => None
              end
          end
      end
  end.

(** [p.Contains(a)]. *)
Definition prefix_Contains (p : Prefix) (a : Addr) : bool :=
  match pfx_addr p, a with
  | Addr4 m, Addr4 n => Z.shiftr (Z.lxor n m) (32 - pfx_bits p) =? 0
  | Addr6 m _, Addr6 n EmptyString => Z.shiftr (Z.lxor n m) (128 - pfx_bits p) =? 0
  | _, _ => false
  end.

Definition prefix_String (p : Prefix) : string := addr_String (pfx_addr p) +:+ "/" +:+ FormatInt (pfx_bits p).

(** ** net.SplitHostPort *)

Definition SplitHostPort (hostport : string) : option (string * string) :=
  match cut_last ":" hostport with
  | None => None
  | Some (before, port) =>
      match hostport with
      | String "[" inner =>
          match cut_first "]" inner with
          | None => None
          | Some (host, rest) =>
              if String.eqb rest (":" +:+ port) then
                if has_char "[" inner || has_char "]" rest then None else Some (host, port)
              else None
          end
      | _ =>
          if has_char ":" before || has_char "[" hostport || has_char "]" hostport then None
          else Some (before, port)
      end
  end.

(** ** net/mail *)

Record MailAddress := { ma_Name : string; ma_Address : string }.

(** The grammar of RFC 5322 and the encodings of RFC 2045 and 2047 are
    parameters of the models that read and write mail: [mail.ParseAddress],
    [Address.String], [mime.QEncoding.Encode("UTF-8", s)] and the writer of
    [mime/quotedprintable]. *)
Class Mail := {
  ParseAddress : string -> option MailAddress;
  address_String : MailAddress -> string;
  QEncoding : string -> string;
  quotedprintable : string -> string;
}.

(** Lemmas on the string functions of GoStd.v and GoNet.v: splitting and
    joining, and the characters that printed numbers consist of. *)

Local Open Scope string_scope.
Local Open Scope Z_scope.

Lemma Split_nonempty c s : Split c s <> [].
Proof. destruct s as [|x s]; [done|]. cbn. destruct (Ascii.eqb x c); [done|]. by destruct (Split c s). Qed.

Lemma Split_app c a b : Split c (a +:+ String c b) = (Split c a ++ Split c b)%list.
Proof.
  induction a as [|x a IH]; cbn; [by rewrite Ascii.eqb_refl|]. rewrite IH. destruct (Ascii.eqb x c); [done|].
  pose proof (Split_nonempty c a). by destruct (Split c a).
Qed.

Lemma Split_one c s : has_char c s = false -> Split c s = [s].
Proof.
  unfold has_char. induction s as [|x s IH]; [done|]. cbn. destruct (Ascii.eqb x c); [done|].
  destruct (cut_first c s) as [[]|]; [done|]. intros _. by rewrite IH.
Qed.

Lemma all_chars_app p a b : all_chars p (a +:+ b) = all_chars p a && all_chars p b.
Proof. induction a as [|x a IH]; [done|]. cbn. by rewrite IH, andb_assoc. Qed.

Lemma all_chars_not_char p c s : p c = false -> all_chars p s = true -> has_char c s = false.
Proof.
  unfold has_char. intros Hp. induction s as [|x s IH]; [done|]. cbn. intros [Hx Hs]%andb_true_iff.
  destruct (Ascii.eqb_spec x c) as [->|]; [congruence|]. specialize (IH Hs). by destruct (cut_first c s) as [[]|].
Qed.

Lemma dval_all_digits acc s v : dval acc s = Some v -> all_chars is_digit s = true.
Proof.
  revert acc. induction s as [|c s IH]; [done|]. intros acc. cbn. unfold is_digit at 1.
  destruct (digit_of c); [apply IH|done].
Qed.

Lemma digits_FormatInt n : 0 <= n -> all_chars is_digit (FormatInt n) = true.
Proof.
  intros Hn. pose proof (digits_value_print n Hn) as H. rewrite digits_value_dval in H.
  destruct (FormatInt n) as [|c s]; [done|]. by eapply dval_all_digits.
Qed.

Lemma hex_print_hex digits n acc : all_chars is_hex acc = true -> all_chars is_hex (hex_print digits n acc) = true.
Proof.
  revert n acc. induction digits as [|d IH]; intros m acc Ha; [done|]. cbn [hex_print].
  assert (all_chars is_hex (String (hex_digit (Z.to_N (m mod 16))) acc) = true) as Ha'.
  { cbn. rewrite Ha. unfold is_hex. rewrite hex_digit_value; [done|]. pose proof (Z.mod_pos_bound m 16). lia. }
  destruct (_ =? _); [done|by apply IH].
Qed.

Lemma str_app_nil_r (a : string) : a +:+ EmptyString = a.
Proof. induction a as [|x a IH]; [done|]. cbn. by rewrite IH. Qed.

Lemma str_app_inv_tail (a b c : string) : a +:+ c = b +:+ c -> a = b.
Proof.
  intros H. apply (f_equal list_ascii_of_string) in H.
  assert (forall x y : string, list_ascii_of_string (x +:+ y) = (list_ascii_of_string x ++ list_ascii_of_string y)%list) as Ha.
  { intros x y. induction x as [|z x IH]; [done|]. cbn. by rewrite IH. }
  rewrite !Ha in H. apply app_inv_tail in H. apply (f_equal string_of_list_ascii) in H.
  by rewrite !string_of_list_ascii_of_string in H.
Qed.

Lemma Split_concat c l : l <> [] -> Forall (fun s => has_char c s = false) l ->
  Split c (String.concat (String c EmptyString) l) = l.
Proof.
  intros Hl HF. induction HF as [|s l Hs HF IH]; [done|]. destruct l as [|s' l]; [by apply Split_one|].
  cbn [String.concat]. change (String c EmptyString +:+ ?x) with (String c x).
  rewrite Split_app, Split_one by done. cbn. f_equal. by apply IH.
Qed.
