(* ===== verification/GoUrl.v ===== *)
(** Package [net/url] of the Go standard library: parsing, host names and
    query parameters. *)

From Stdlib Require Import ZArith Lia Ascii.
From stdpp Require Import base strings list.
From S2P Require Import Prelude GoStd GoJson GoNet.

Local Open Scope string_scope.
Local Open Scope Z_scope.

(** The fields the callers read; [User] tells whether there is a userinfo. *)
Record URL := {
  Scheme : string;
  Opaque : string;
  User : bool;
  Host : string;
  Path : string;
  RawQuery : string;
  Fragment : string;
}.

(** ** Escapes *)

Inductive encoding := encodePath | encodeHost | encodeZone | encodeUserPassword | encodeQueryComponent | encodeFragment.

(** [!shouldEscape(c, encodeHost)], which is also [!shouldEscape(c, encodeZone)]. *)
Definition host_char (c : ascii) : bool :=
  is_alnum c || one_of "!$&'()*+,;=:[]<>-_.~" c || (code c =? 34).

Definition unhex (c : ascii) : Z := match hex_value c with Some d => Z.of_N d | None => 0 end.

(** An escape the mode allows. *)
Definition escape_ok (mode : encoding) (a b : ascii) : bool :=
  let v := 16 * unhex a + unhex b in
  match mode with
  | encodeHost => (8 <=? unhex a) || (v =? 37)
  | encodeZone => (v =? 37) || (v =? 32) || host_char (ascii_of_N (Z.to_N v))
  | _ => true
  end.

Definition plain_ok (mode : encoding) (c : ascii) : bool :=
  match mode with
  | encodeHost | encodeZone => (128 <=? code c) || host_char c
  | _ => true
  end.

Fixpoint unescape (mode : encoding) (s : string) : option string :=
  match s with
  | EmptyString => Some EmptyString
  | String c r =>
      if Ascii.eqb c "%" then
        match r with
        | String a (String b r) =>
            if is_hex a && is_hex b && escape_ok mode a b then
              option_map (String (ascii_of_N (Z.to_N (16 * unhex a + unhex b)))) (unescape mode r)
            else None
        | _ => None
        end
      else if plain_ok mode c then
        option_map
          (String (match mode with encodeQueryComponent => if Ascii.eqb c "+" then " "%char else c | _ => c end))
          (unescape mode r)
      else None
  end.

(** ** Parts of a URL *)

(** [getScheme]: the scheme and what follows it. *)
Definition getScheme (s : string) : option (string * string) :=
  let '(scheme, rest) := span_str (fun c => is_alnum c || one_of "+-." c) s in
  match scheme, rest with
  | EmptyString, String ":" _ => None
  | String a _, String ":" r => if is_letter a then Some (scheme, r) else Some (EmptyString, s)
  | _, _ => Some (EmptyString, s)
  end.

Definition validOptionalPort (port : string) : bool :=
  match port with
  | EmptyString => true
  | String ":" r => all_chars is_digit r
  | _ => false
  end.

(** A bracketed host: an IPv6 address, a zone of which follows a [%25]. *)
Fixpoint cut_zone (s : string) : string * option string :=
  if HasPrefix s "%25" then (EmptyString, Some s)
  else match s with
       | EmptyString => (EmptyString, None)
       | String c r => let '(x, y) := cut_zone r in (String c x, y)
       end.

Definition unescape_literal (hostname : string) : option string :=
  match cut_zone hostname with
  | (a, None) => unescape encodeHost a
  | (a, Some zone) =>
      match unescape encodeHost a, unescape encodeZone zone with
      | Some a, Some zone => Some (a +:+ zone)
      | _, _ => None
      end
  end.

Definition parseHost (host : string) : option string :=
  match cut_last "[" host with
  | Some (String _ _, _) => None
  | Some (EmptyString, inner) =>
      match cut_last "]" inner with
      | None => None
      | Some (hostname, colonPort) =>
          if validOptionalPort colonPort then
            match unescape encodeHost colonPort, unescape_literal hostname with
            | Some colonPort, Some hostname =>
                match ParseAddr hostname with
                | Some (Addr6 _ _) => Some ("[" +:+ hostname +:+ "]" +:+ colonPort)
                | _ => None
                end
            | _, _ => None
            end
          else None
      end
  | None =>
      match cut_last ":" host with
      | Some (_, port) => if all_chars is_digit port then unescape encodeHost host else None
      | None => unescape encodeHost host
      end
  end.

Definition validUserinfo (s : string) : bool := all_chars (fun c => is_alnum c || one_of "-._:~!$&'()*+,;=%@" c) s.

(** Whether there is a userinfo, and the host. *)
Definition parseAuthority (authority : string) : option (bool * string) :=
  match cut_last "@" authority with
  | None => option_map (pair false) (parseHost authority)
  | Some (userinfo, host) =>
      match parseHost host with
      | None => None
      | Some host =>
          let '(username, password) := Cut ":" userinfo in
          match validUserinfo userinfo, unescape encodeUserPassword username, unescape encodeUserPassword password with
          | true, Some _, Some _ => Some (true, host)
          | _, _, _ => None
          end
      end
  end.

Definition control (c : ascii) : bool := (code c <? 32) || (code c =? 127).

(** The query is what follows the first question mark. *)
Definition path_of (user : bool) (scheme host query path : string) : option URL :=
  option_map (fun path => {| Scheme := scheme; Opaque := EmptyString; User := user; Host := host; Path := path;
                             RawQuery := query; Fragment := EmptyString |}) (unescape encodePath path).

Definition parse (s : string) (viaRequest : bool) : option URL :=
  if negb (all_chars (fun c => negb (control c)) s) then None
  else if String.eqb s EmptyString && viaRequest then None
  else if String.eqb s "*" then
    Some {| Scheme := EmptyString; Opaque := EmptyString; User := false; Host := EmptyString; Path := "*";
            RawQuery := EmptyString; Fragment := EmptyString |}
  else
    match getScheme s with
    | None => None
    | Some (scheme, rest) =>
        let scheme := ToLower scheme in
        let '(rest, query) := Cut "?" rest in
        let absolute := negb (String.eqb scheme EmptyString) in
        if negb (HasPrefix rest "/") && absolute then
          Some {| Scheme := scheme; Opaque := rest; User := false; Host := EmptyString; Path := EmptyString;
                  RawQuery := query; Fragment := EmptyString |}
        else if negb (HasPrefix rest "/") && (viaRequest || has_char ":" (fst (Cut "/" rest))) then None
        else if (absolute || negb viaRequest && negb (HasPrefix rest "///")) && HasPrefix rest "//" then
          let '(authority, path) := span_str (fun c => negb (Ascii.eqb c "/")) (drop_str 2 rest) in
          match parseAuthority authority with
          | None => None
          | Some (user, host) => path_of user scheme host query path
          end
        else path_of false scheme EmptyString query rest
    end.

(** [url.Parse]. *)
Definition url_Parse (s : string) : option URL :=
  let '(u, frag) := Cut "#" s in
  match parse u false, unescape encodeFragment frag with
  | Some url, Some frag =>
      Some {| Scheme := Scheme url; Opaque := Opaque url; User := User url; Host := Host url; Path := Path url;
              RawQuery := RawQuery url; Fragment := frag |}
  | _, _ => None
  end.

(** [url.ParseRequestURI]. *)
Definition ParseRequestURI (s : string) : option URL := parse s true.

(** ** Reading a URL *)

Definition unbracket (host : string) : string :=
  match host, cut_last "]" host with
  | String "[" _, Some (h, EmptyString) => drop_str 1 h
  | _, _ => host
  end.

(** [u.Hostname()] and [u.Port()]. *)
Definition url_split (hostPort : string) : string * string :=
  match cut_last ":" hostPort with
  | Some (h, p) => if all_chars is_digit p then (unbracket h, p) else (unbracket hostPort, EmptyString)
  | None => (unbracket hostPort, EmptyString)
  end.

Definition Hostname (u : URL) : string := fst (url_split (Host u)).
Definition Port (u : URL) : string := snd (url_split (Host u)).

(** The parameters of a query that can be decoded, in order; a query of more
    than ten thousand is not read. *)
Definition query_parameter (s : string) : option (string * string) :=
  if has_char ";" s || String.eqb s EmptyString then None
  else
    let '(key, value) := Cut "=" s in
    match unescape encodeQueryComponent key, unescape encodeQueryComponent value with
    | Some key, Some value => Some (key, value)
    | _, _ => None
    end.

Definition Query (u : URL) : list (string * string) :=
  if 10000 <? Z.of_nat (length (Split "&" (RawQuery u))) then []
  else omap query_parameter (Split "&" (RawQuery u)).

(** [values.Get(key)]. *)
Definition query_Get (l : list (string * string)) (key : string) : string :=
  match List.find (fun p => String.eqb (fst p) key) l with Some (_, v) => v | None => EmptyString end.
