(* ===== verification/GoDuration.v ===== *)
(** [time.ParseDuration], [strconv.ParseBool] and the integer parsers of the
    configuration, from the Go standard library.  A duration counts
    nanoseconds in 64 bits. *)

From Stdlib Require Import ZArith Lia Ascii SpecFloat.
From stdpp Require Import base strings list.
From S2P Require Import Prelude GoStd GoNet.

Local Open Scope string_scope.
Local Open Scope Z_scope.

(** Signed 64-bit arithmetic wraps around. *)
Definition wrap_int64 (z : Z) : Z := (z + 2 ^ 63) mod 2 ^ 64 - 2 ^ 63.

Definition Microsecond : Z := 1000.
Definition Millisecond : Z := 1000 * Microsecond.
Definition Second : Z := 1000 * Millisecond.
Definition Minute : Z := 60 * Second.
Definition Hour : Z := 60 * Minute.

(** ** strconv *)

Definition Atoi (s : string) : option Z := ParseInt64 s.

(** [strconv.ParseInt(s, 10, 32)]. *)
Definition ParseInt32 (s : string) : option Z :=
  match SetString10 s with
  | Some z => if (- 2 ^ 31 <=? z) && (z <? 2 ^ 31) then Some z else None
  | None => None
  end.

(** [strconv.ParseUint(s, 10, 16)]. *)
Definition ParseUint10_16 (s : string) : option Z :=
  match digits_value s with
  | Some z => if z <? 2 ^ 16 then Some z else None
  | None => None
  end.

Definition ParseBool (s : string) : option bool :=
  if existsb (String.eqb s) ["1"; "t"; "T"; "TRUE"; "true"; "True"] then Some true
  else if existsb (String.eqb s) ["0"; "f"; "F"; "FALSE"; "false"; "False"] then Some false
  else None.

(** ** time.ParseDuration *)

(** [float64(n)], and the integral part of a finite float. *)
Definition float64 (n : Z) : spec_float := binary_normalize 53 1024 n 0 false.

Definition float_trunc (f : spec_float) : Z :=
  match f with
  | S754_finite false m e => if 0 <=? e then Z.pos m * 2 ^ e else Z.pos m / 2 ^ (- e)
  | _ => 0
  end.

Definition unitMap (u : string) : option Z :=
  if String.eqb u "ns" then Some 1
  else if String.eqb u "us" || String.eqb u "µs" || String.eqb u "μs" then Some Microsecond
  else if String.eqb u "ms" then Some Millisecond
  else if String.eqb u "s" then Some Second
  else if String.eqb u "m" then Some Minute
  else if String.eqb u "h" then Some Hour
  else None.

(** The digits a number starts with; [None] past 2^63. *)
Fixpoint leadingInt (x : Z) (s : string) : option (Z * string) :=
  match s with
  | String c r =>
      match digit_of c with
      | Some d =>
          if (2 ^ 63 / 10 <? x) || (2 ^ 63 <? 10 * x + d) then None else leadingInt (10 * x + d) r
      | None => Some (x, s)
      end
  | EmptyString => Some (x, s)
  end.

(** The digits of a fraction and their scale; digits past 2^63 are skipped. *)
Fixpoint leadingFraction (x scale : Z) (overflow : bool) (s : string) : Z * Z * string :=
  match s with
  | String c r =>
      match digit_of c with
      | Some d =>
          if overflow || ((2 ^ 63 - 1) / 10 <? x) || (2 ^ 63 <? 10 * x + d) then leadingFraction x scale true r
          else leadingFraction (10 * x + d) (10 * scale) false r
      | None => (x, scale, s)
      end
  | EmptyString => (x, scale, s)
  end.

(** [uint64(float64(f) * (float64(unit) / scale))]; a scale is at most 10^19,
    which [float64] represents. *)
Definition fraction_of (f scale unit : Z) : Z :=
  float_trunc (SFmul 53 1024 (float64 f) (SFdiv 53 1024 (float64 unit) (float64 scale))).

(** One number with its unit: its nanoseconds and the rest. *)
Definition duration_term (s : string) : option (Z * string) :=
  match leadingInt 0 s with
  | None => None
  | Some (v, s1) =>
      let pre := negb (String.length s1 =? String.length s)%nat in
      let '(f, scale, s2, post) :=
        match s1 with
        | String "." r =>
            let '(f, scale, s2) := leadingFraction 0 1 false r in
            (f, scale, s2, negb (String.length s2 =? String.length r)%nat)
        | _ => (0, 1, s1, false)
        end in
      if negb pre && negb post then None
      else
        let '(u, s3) := span_str (fun c => negb (Ascii.eqb c "." || is_digit c)) s2 in
        match unitMap u with
        | None => None
        | Some unit =>
            if 2 ^ 63 / unit <? v then None
            else
              let v := v * unit + (if 0 <? f then fraction_of f scale unit else 0) in
              if 2 ^ 63 <? v then None else Some (v, s3)
        end
  end.

(** The terms are added; every one consumes a character, so that the length
    of the text bounds their number. *)
Fixpoint duration_terms (fuel : nat) (d : Z) (s : string) : option Z :=
  match s, fuel with
  | EmptyString, _ => Some d
  | _, O => None
  | _, S fuel =>
      match duration_term s with
      | Some (v, r) => if 2 ^ 63 <? d + v then None else duration_terms fuel (d + v) r
      | None => None
      end
  end.

Definition ParseDuration (s : string) : option Z :=
  let '(neg, s) :=
    match s with
    | String "-" r => (true, r)
    | String "+" r => (false, r)
    | _ => (false, s)
    end in
  if String.eqb s "0" then Some 0
  else if String.eqb s EmptyString then None
  else
    match duration_terms (String.length s) 0 s with
    | Some d => if neg then Some (- d) else if 2 ^ 63 - 1 <? d then None else Some d
    | None => None
    end.

(** ** Lemmas *)

Lemma span_str_app p s x y : span_str p s = (x, y) -> s = x +:+ y.
Proof.
  revert x y. induction s as [|c s IH]; intros x y; simpl; [by intros [= <- <-]|].
  destruct (p c); [|by intros [= <- <-]]. destruct (span_str p s) as [a b] eqn:E.
  intros [= <- <-]. simpl. by rewrite (IH a b).
Qed.

Lemma leadingInt_shorter s : forall x v r, leadingInt x s = Some (v, r) -> (String.length r <= String.length s)%nat.
Proof.
  induction s as [|c s IH]; intros x v r; simpl; [by intros [= <- <-]|].
  destruct (digit_of c); [|by intros [= <- <-]].
  destruct (_ || _); [done|]. intros E%IH. lia.
Qed.

Lemma leadingFraction_shorter s : forall x scale b f k r,
  leadingFraction x scale b s = (f, k, r) -> (String.length r <= String.length s)%nat.
Proof.
  induction s as [|c s IH]; intros x scale b f k r; simpl; [by intros [= <- <- <-]|].
  destruct (digit_of c); [|by intros [= <- <- <-]].
  destruct (_ || _); intros E%IH; lia.
Qed.

Lemma duration_term_shorter s v r : duration_term s = Some (v, r) -> (String.length r < String.length s)%nat.
Proof.
  unfold duration_term. destruct (leadingInt 0 s) as [[n s1]|] eqn:E1; [|done].
  pose proof (leadingInt_shorter _ _ _ _ E1) as H1.
  set (t := match s1 with String "." _ => _ | _ => _ end).
  destruct t as [[[f scale] s2] post] eqn:Et.
  assert (String.length s2 <= String.length s1)%nat as H2.
  { subst t. destruct s1 as [|a s1]; [by injection Et as <- <- <- <-|].
    destruct a as [[] [] [] [] [] [] [] []]; try (by injection Et as <- <- <- <-).
    destruct (leadingFraction 0 1 false s1) as [[f' k'] r'] eqn:E2. injection Et as <- <- <- <-.
    apply leadingFraction_shorter in E2. simpl. lia. }
  destruct (negb _ && negb _); [done|]. destruct (span_str _ s2) as [u s3] eqn:E3.
  apply span_str_app in E3 as ->. rewrite str_app_length in H2.
  destruct u as [|c u]; [done|]. destruct (unitMap _); [|done]. destruct (_ <? _); [done|].
  destruct (_ <? _); [done|]. intros [= _ <-]. simpl in H2. lia.
Qed.

(** The fuel is enough. *)
Lemma duration_terms_fuel n m d s :
  (String.length s <= n)%nat -> (String.length s <= m)%nat -> duration_terms n d s = duration_terms m d s.
Proof.
  revert m d s. induction n as [|n IH]; intros m d s Hn Hm; destruct s as [|c s]; try (by destruct m); [simpl in Hn; lia|].
  destruct m as [|m]; [simpl in Hm; lia|]. cbn [duration_terms].
  destruct (duration_term _) as [[v r]|] eqn:E; [|done]. destruct (_ <? _); [done|].
  apply duration_term_shorter in E. apply IH; simpl in *; lia.
Qed.

Lemma float_trunc_nonneg f : 0 <= float_trunc f.
Proof.
  destruct f as [| | |[] m e]; simpl; try lia. destruct (0 <=? e) eqn:E; bool_hyps.
  - assert (0 < 2 ^ e) by (apply Z.pow_pos_nonneg; lia). nia.
  - apply Z.div_pos; [lia|]. apply Z.pow_pos_nonneg; lia.
Qed.
