(* ===== verification/Config.v ===== *)
(** internal/config: the environment variables, their defaults, and the
    validation of a configuration.

    The environment is a function from names to values, the empty string where
    a variable is not set.  A problem is one element of the joined error. *)

From Stdlib Require Import ZArith Lia Ascii.
From stdpp Require Import base strings list.
From S2P Require Import Prelude GoStd GoJson GoNet GoUrl GoDuration.

Local Open Scope string_scope.
Local Open Scope Z_scope.

Definition MainnetChainID : Z := 1.
Definition MainnetNetwork : string := "eip155:1".
Definition MainnetUSDC : string := "0xA0b86991c6218b36c1d19D4a2e9Eb0cE3606eB48".
Definition MinGasLimit : Z := 100000.

(** Durations count nanoseconds. *)
Record Config := {
  Environment : string;
  HTTPAddr : string;
  PublicBaseURL : string;
  DatabaseURL : string;
  DatabaseMaxConns : Z;
  EthereumRPCURL : string;
  FallbackRPCURL : string;
  ChainID : Z;
  Network : string;
  USDCContract : string;
  RPCTimeout : Z;
  RPCReadRetries : Z;
  Confirmations : Z;
  MaxFeePerGasWei : string;
  MaxPriorityFeeWei : string;
  MaxGasLimit : Z;
  SignerMode : string;
  PolicySignerURL : string;
  PolicySignerToken : string;
  DevSignerKey : string;
  KMSKeyName : string;
  AllowUnsafeSigner : bool;
  EmailBackend : string;
  EmailFileDir : string;
  SMTPAddress : string;
  SMTPUsername : string;
  SMTPPassword : string;
  SMTPFrom : string;
  SMTPTLSMode : string;
  SMTPTimeout : Z;
  EmailTokenTTL : Z;
  EmailResend : Z;
  EmailOutboxKey : string;
  WalletChallengeTTL : Z;
  MerchantSessionTTL : Z;
  RecipientCooldown : Z;
  TermsVersion : string;
  APIKeyPepper : string;
  OperatorToken : string;
  BlockDisposable : bool;
  RestrictFreeEmail : bool;
  EmailAllowlist : list string;
  EmailDenylist : list string;
  StatsCacheTTL : Z;
  PublishStatsVolume : bool;
  WorkerStaleAfter : Z;
  WorkerInterval : Z;
  SettlementExpiryMargin : Z;
  SigningTimeout : Z;
  SettlementLeaseDuration : Z;
  SettlementRecoveryGrace : Z;
  SettlementReplacementAfter : Z;
  SettleResponseWait : Z;
  MerchantSettlementQuota : Z;
  GlobalSettlementQuota : Z;
  MerchantQuotaWindow : Z;
  LogLevel : string;
  MetricsEnabled : bool;
  PublicRatePerMin : Z;
  RegistrationRate : Z;
  MerchantRequestsPerWindow : Z;
  FairUseWindow : Z;
  PaymentRetention : Z;
  EphemeralRetention : Z;
  RevokedKeyRetention : Z;
  RetentionInterval : Z;
  RetentionBatchSize : Z;
  TrustedProxies : list Prefix;
}.

(** ** The loader *)

Inductive problem :=
  | Message (text : string)
  | Malformed (key requirement : string)
  | NotAnAddress (key value : string)
  | AllowedAndDenied (domain : string).

(** A reader of the environment that reports problems on the way. *)
Definition loader (A : Type) : Type := (string -> string) -> list problem -> A * list problem.

Definition lret {A} (a : A) : loader A := fun _ errs => (a, errs).

Definition lbind {A B} (m : loader A) (k : A -> loader B) : loader B :=
  fun env errs => let '(a, errs) := m env errs in k a env errs.

Declare Scope loader_scope.
Notation "x <-$ m ;; k" := (lbind m (fun x => k)) (at level 100, m at next level, right associativity) : loader_scope.
Local Open Scope loader_scope.

Definition getenv (key : string) : loader string := fun env errs => (env key, errs).

Definition reject (key requirement : string) : loader unit := fun _ errs => (tt, (errs ++ [Malformed key requirement])%list).

Definition l_str (key fallback : string) : loader string :=
  value <-$ getenv key ;; lret (if String.eqb value EmptyString then fallback else value).

(** A value that must parse; a malformed one is reported and replaced. *)
Definition l_parsed {A} (parser : string -> option A) (requirement key : string) (fallback : A) : loader A :=
  value <-$ getenv key ;;
  if String.eqb value EmptyString then lret fallback
  else
    match parser value with
    | Some v => lret v
    | None => _ <-$ reject key requirement ;; lret fallback
    end.

Definition l_int : string -> Z -> loader Z := l_parsed Atoi "an integer".
Definition l_int32 : string -> Z -> loader Z := l_parsed ParseInt32 "a 32-bit integer".
Definition l_uint64 : string -> Z -> loader Z := l_parsed ParseUint64 "an unsigned 64-bit integer".
Definition l_boolean : string -> bool -> loader bool := l_parsed ParseBool "a boolean".
Definition l_duration : string -> Z -> loader Z := l_parsed ParseDuration "a Go duration such as 30s or 24h".

Definition csv_values (value : string) : list string :=
  let value := TrimSpace value in
  if String.eqb value EmptyString then []
  else List.filter (fun s => negb (String.eqb s EmptyString)) (map (fun part => ToLower (TrimSpace part)) (Split "," value)).

Definition l_csv (key : string) : loader (list string) := value <-$ getenv key ;; lret (csv_values value).

(** A CIDR prefix, or an address that stands for itself. *)
Definition proxy_prefix (value : string) : option Prefix :=
  match ParsePrefix value with
  | Some prefix => Some (Masked prefix)
  | None => option_map (fun address => PrefixFrom address (BitLen address)) (ParseAddr value)
  end.

Fixpoint proxy_prefixes (key : string) (values : list string) : loader (list Prefix) :=
  match values with
  | [] => lret []
  | value :: values =>
      match proxy_prefix value with
      | Some prefix => rest <-$ proxy_prefixes key values ;; lret (prefix :: rest)
      | None =>
          _ <-$ (fun _ errs => (tt, (errs ++ [NotAnAddress key value])%list)) ;;
          proxy_prefixes key values
      end
  end.

Definition l_prefixes (key : string) : loader (list Prefix) := values <-$ l_csv key ;; proxy_prefixes key values.

Definition DevelopmentPepper : string := "eth402-development-pepper-change-me".
Definition DevelopmentOutboxKey : string := Repeat "0" 64.

(** [Load] before the validation: the fields in the order they are read. *)
Definition load_fields : loader Config :=
  c_Environment <-$ l_str "ETH402_ENV" "development" ;;
  c_HTTPAddr <-$ l_str "ETH402_HTTP_ADDR" ":8080" ;;
  c_PublicBaseURL <-$ l_str "ETH402_PUBLIC_BASE_URL" "http://localhost:8080" ;;
  c_DatabaseURL <-$ getenv "ETH402_DATABASE_URL" ;;
  c_DatabaseMaxConns <-$ l_int32 "ETH402_DATABASE_MAX_CONNS" 10 ;;
  c_EthereumRPCURL <-$ getenv "ETH402_ETHEREUM_RPC_URL" ;;
  c_FallbackRPCURL <-$ getenv "ETH402_ETHEREUM_FALLBACK_RPC_URL" ;;
  c_ChainID <-$ l_uint64 "ETH402_ETHEREUM_CHAIN_ID" 1 ;;
  c_Network <-$ l_str "ETH402_ETHEREUM_NETWORK" MainnetNetwork ;;
  c_USDCContract <-$ l_str "ETH402_USDC_CONTRACT" MainnetUSDC ;;
  c_RPCTimeout <-$ l_duration "ETH402_RPC_TIMEOUT" (5 * Second) ;;
  c_RPCReadRetries <-$ l_int "ETH402_RPC_READ_RETRIES" 2 ;;
  c_Confirmations <-$ l_uint64 "ETH402_REQUIRED_CONFIRMATIONS" 12 ;;
  c_MaxFeePerGasWei <-$ l_str "ETH402_MAX_FEE_PER_GAS_WEI" "0" ;;
  c_MaxPriorityFeeWei <-$ l_str "ETH402_MAX_PRIORITY_FEE_PER_GAS_WEI" "0" ;;
  c_MaxGasLimit <-$ l_uint64 "ETH402_MAX_GAS_LIMIT" 0 ;;
  c_SignerMode <-$ l_str "ETH402_SIGNER_MODE" "disabled" ;;
  c_PolicySignerURL <-$ l_str "ETH402_POLICY_SIGNER_URL" EmptyString ;;
  c_PolicySignerToken <-$ l_str "ETH402_POLICY_SIGNER_TOKEN" EmptyString ;;
  c_DevSignerKey <-$ getenv "ETH402_DEV_SIGNER_PRIVATE_KEY" ;;
  c_KMSKeyName <-$ l_str "ETH402_KMS_KEY_NAME" EmptyString ;;
  c_AllowUnsafeSigner <-$ l_boolean "ETH402_ALLOW_UNSAFE_PRODUCTION_SIGNER" false ;;
  c_EmailBackend <-$ l_str "ETH402_EMAIL_BACKEND" "log" ;;
  c_EmailFileDir <-$ l_str "ETH402_EMAIL_FILE_DIR" "./email-outbox" ;;
  c_SMTPAddress <-$ l_str "ETH402_SMTP_ADDRESS" EmptyString ;;
  c_SMTPUsername <-$ l_str "ETH402_SMTP_USERNAME" EmptyString ;;
  c_SMTPPassword <-$ getenv "ETH402_SMTP_PASSWORD" ;;
  c_SMTPFrom <-$ l_str "ETH402_SMTP_FROM" EmptyString ;;
  c_SMTPTLSMode <-$ l_str "ETH402_SMTP_TLS_MODE" "starttls" ;;
  c_SMTPTimeout <-$ l_duration "ETH402_SMTP_TIMEOUT" (10 * Second) ;;
  c_EmailTokenTTL <-$ l_duration "ETH402_EMAIL_TOKEN_TTL" (30 * Minute) ;;
  c_EmailResend <-$ l_duration "ETH402_EMAIL_RESEND_INTERVAL" (2 * Minute) ;;
  c_EmailOutboxKey <-$ l_str "ETH402_EMAIL_OUTBOX_KEY" DevelopmentOutboxKey ;;
  c_WalletChallengeTTL <-$ l_duration "ETH402_WALLET_CHALLENGE_TTL" (10 * Minute) ;;
  c_MerchantSessionTTL <-$ l_duration "ETH402_MERCHANT_SESSION_TTL" (12 * Hour) ;;
  c_RecipientCooldown <-$ l_duration "ETH402_RECIPIENT_CHANGE_COOLDOWN" (24 * Hour) ;;
  c_TermsVersion <-$ l_str "ETH402_TERMS_VERSION" "2026-07-27" ;;
  c_APIKeyPepper <-$ l_str "ETH402_API_KEY_PEPPER" DevelopmentPepper ;;
  c_OperatorToken <-$ getenv "ETH402_OPERATOR_TOKEN" ;;
  c_BlockDisposable <-$ l_boolean "ETH402_DISPOSABLE_EMAIL_BLOCK" true ;;
  c_RestrictFreeEmail <-$ l_boolean "ETH402_FREE_EMAIL_RESTRICTION" false ;;
  c_EmailAllowlist <-$ l_csv "ETH402_EMAIL_DOMAIN_ALLOWLIST" ;;
  c_EmailDenylist <-$ l_csv "ETH402_EMAIL_DOMAIN_DENYLIST" ;;
  c_StatsCacheTTL <-$ l_duration "ETH402_STATS_CACHE_TTL" (10 * Second) ;;
  c_PublishStatsVolume <-$ l_boolean "ETH402_PUBLISH_STATS_VOLUME" false ;;
  c_WorkerStaleAfter <-$ l_duration "ETH402_WORKER_STALE_AFTER" 0 ;;
  c_WorkerInterval <-$ l_duration "ETH402_WORKER_INTERVAL" (15 * Second) ;;
  c_SettlementExpiryMargin <-$ l_duration "ETH402_SETTLEMENT_EXPIRY_MARGIN" Minute ;;
  c_SigningTimeout <-$ l_duration "ETH402_SIGNING_TIMEOUT" (10 * Second) ;;
  c_SettlementLeaseDuration <-$ l_duration "ETH402_SETTLEMENT_LEASE_DURATION" (2 * Minute) ;;
  c_SettlementRecoveryGrace <-$ l_duration "ETH402_SETTLEMENT_RECOVERY_GRACE" (2 * Minute) ;;
  c_SettlementReplacementAfter <-$ l_duration "ETH402_SETTLEMENT_REPLACEMENT_AFTER" (5 * Minute) ;;
  c_SettleResponseWait <-$ l_duration "ETH402_SETTLE_RESPONSE_WAIT" (3 * Minute) ;;
  c_MerchantSettlementQuota <-$ l_int "ETH402_MERCHANT_SETTLEMENT_QUOTA" 1000 ;;
  c_GlobalSettlementQuota <-$ l_int "ETH402_GLOBAL_SETTLEMENT_QUOTA" 10000 ;;
  c_MerchantQuotaWindow <-$ l_duration "ETH402_MERCHANT_QUOTA_WINDOW" (24 * Hour) ;;
  c_LogLevel <-$ l_str "ETH402_LOG_LEVEL" "info" ;;
  c_MetricsEnabled <-$ l_boolean "ETH402_METRICS_ENABLED" true ;;
  c_PublicRatePerMin <-$ l_int "ETH402_PUBLIC_RATE_PER_MINUTE" 60 ;;
  c_RegistrationRate <-$ l_int "ETH402_REGISTRATION_RATE_PER_MINUTE" 5 ;;
  c_MerchantRequestsPerWindow <-$ l_int "ETH402_MERCHANT_REQUESTS_PER_WINDOW" 5000 ;;
  c_FairUseWindow <-$ l_duration "ETH402_FAIR_USE_WINDOW" Hour ;;
  c_PaymentRetention <-$ l_duration "ETH402_PAYMENT_RETENTION" (30 * 24 * Hour) ;;
  c_EphemeralRetention <-$ l_duration "ETH402_EPHEMERAL_RETENTION" (24 * Hour) ;;
  c_RevokedKeyRetention <-$ l_duration "ETH402_REVOKED_KEY_RETENTION" (30 * 24 * Hour) ;;
  c_RetentionInterval <-$ l_duration "ETH402_RETENTION_INTERVAL" Hour ;;
  c_RetentionBatchSize <-$ l_int "ETH402_RETENTION_BATCH_SIZE" 500 ;;
  c_TrustedProxies <-$ l_prefixes "ETH402_TRUSTED_PROXIES" ;;
  lret {| Environment := c_Environment; HTTPAddr := c_HTTPAddr; PublicBaseURL := c_PublicBaseURL;
          DatabaseURL := c_DatabaseURL; DatabaseMaxConns := c_DatabaseMaxConns; EthereumRPCURL := c_EthereumRPCURL;
          FallbackRPCURL := c_FallbackRPCURL; ChainID := c_ChainID; Network := c_Network;
          USDCContract := c_USDCContract; RPCTimeout := c_RPCTimeout; RPCReadRetries := c_RPCReadRetries;
          Confirmations := c_Confirmations; MaxFeePerGasWei := c_MaxFeePerGasWei;
          MaxPriorityFeeWei := c_MaxPriorityFeeWei; MaxGasLimit := c_MaxGasLimit; SignerMode := c_SignerMode;
          PolicySignerURL := c_PolicySignerURL; PolicySignerToken := c_PolicySignerToken;
          DevSignerKey := c_DevSignerKey; KMSKeyName := c_KMSKeyName; AllowUnsafeSigner := c_AllowUnsafeSigner;
          EmailBackend := c_EmailBackend; EmailFileDir := c_EmailFileDir; SMTPAddress := c_SMTPAddress;
          SMTPUsername := c_SMTPUsername; SMTPPassword := c_SMTPPassword; SMTPFrom := c_SMTPFrom;
          SMTPTLSMode := c_SMTPTLSMode; SMTPTimeout := c_SMTPTimeout; EmailTokenTTL := c_EmailTokenTTL;
          EmailResend := c_EmailResend; EmailOutboxKey := c_EmailOutboxKey; WalletChallengeTTL := c_WalletChallengeTTL;
          MerchantSessionTTL := c_MerchantSessionTTL; RecipientCooldown := c_RecipientCooldown;
          TermsVersion := c_TermsVersion; APIKeyPepper := c_APIKeyPepper; OperatorToken := c_OperatorToken;
          BlockDisposable := c_BlockDisposable; RestrictFreeEmail := c_RestrictFreeEmail;
          EmailAllowlist := c_EmailAllowlist; EmailDenylist := c_EmailDenylist; StatsCacheTTL := c_StatsCacheTTL;
          PublishStatsVolume := c_PublishStatsVolume; WorkerStaleAfter := c_WorkerStaleAfter;
          WorkerInterval := c_WorkerInterval; SettlementExpiryMargin := c_SettlementExpiryMargin;
          SigningTimeout := c_SigningTimeout; SettlementLeaseDuration := c_SettlementLeaseDuration;
          SettlementRecoveryGrace := c_SettlementRecoveryGrace;
          SettlementReplacementAfter := c_SettlementReplacementAfter; SettleResponseWait := c_SettleResponseWait;
          MerchantSettlementQuota := c_MerchantSettlementQuota; GlobalSettlementQuota := c_GlobalSettlementQuota;
          MerchantQuotaWindow := c_MerchantQuotaWindow; LogLevel := c_LogLevel; MetricsEnabled := c_MetricsEnabled;
          PublicRatePerMin := c_PublicRatePerMin; RegistrationRate := c_RegistrationRate;
          MerchantRequestsPerWindow := c_MerchantRequestsPerWindow; FairUseWindow := c_FairUseWindow;
          PaymentRetention := c_PaymentRetention; EphemeralRetention := c_EphemeralRetention;
          RevokedKeyRetention := c_RevokedKeyRetention; RetentionInterval := c_RetentionInterval;
          RetentionBatchSize := c_RetentionBatchSize; TrustedProxies := c_TrustedProxies |}.

(** ** Validation *)

Definition report (b : bool) (text : string) : list problem := if b then [Message text] else [].

Definition short_of (n : nat) (s : string) : bool := (String.length s <? n)%nat.

(** An HTTP(S) origin without credentials, query, fragment or path. *)
Definition is_origin (raw : string) : bool :=
  match url_Parse raw with
  | None => false
  | Some u =>
      (String.eqb (Scheme u) "http" || String.eqb (Scheme u) "https") && negb (String.eqb (Host u) EmptyString) &&
      negb (User u) && String.eqb (RawQuery u) EmptyString && String.eqb (Fragment u) EmptyString &&
      (String.eqb (Path u) EmptyString || String.eqb (Path u) "/")
  end.

Definition validate_identity (c : Config) : list problem :=
  (report (negb (String.eqb (Environment c) "development") && negb (String.eqb (Environment c) "test") &&
          negb (String.eqb (Environment c) "production")) "environment must be development, test, or production" ++
  report (String.eqb (HTTPAddr c) EmptyString) "HTTP address is required" ++
  report (negb (is_origin (PublicBaseURL c)))
    "public base URL must be an HTTP(S) origin without credentials, query, or path" ++
  report (String.eqb (DatabaseURL c) EmptyString) "database URL is required" ++
  report (String.eqb (EthereumRPCURL c) EmptyString) "ethereum RPC URL is required" ++
  report (negb (ChainID c =? MainnetChainID) || negb (String.eqb (Network c) MainnetNetwork))
    "ETH402 supports only Ethereum mainnet (chain ID 1, eip155:1)" ++
  report (negb (EqualFold (USDCContract c) MainnetUSDC)) "ETH402 supports only canonical Ethereum-mainnet USDC")%list.

Definition validate_limits (c : Config) : list problem :=
  (report ((DatabaseMaxConns c <? 1) || (RPCReadRetries c <? 0) || (Confirmations c <? 1))
    "database connections and confirmations must be positive; retries non-negative" ++
  report ((PublicRatePerMin c <? 1) || (RegistrationRate c <? 1)) "rate limits must be positive" ++
  report ((MerchantSettlementQuota c <? 1) || (MerchantQuotaWindow c <=? 0))
    "merchant settlement quota and window must be positive" ++
  report ((MerchantRequestsPerWindow c <? 0) || (FairUseWindow c <? 0))
    "merchant fair-use limit and window must not be negative" ++
  report ((0 <? MerchantRequestsPerWindow c) && (FairUseWindow c <=? 0))
    "a merchant fair-use limit requires a positive window" ++
  report ((PaymentRetention c <=? 0) || (EphemeralRetention c <=? 0) || (RevokedKeyRetention c <=? 0) ||
          (RetentionInterval c <=? 0)) "retention periods and interval must be positive" ++
  report (PaymentRetention c <? MerchantQuotaWindow c)
    "payment retention must not be shorter than the merchant quota window" ++
  report ((RetentionBatchSize c <? 1) || (10000 <? RetentionBatchSize c))
    "retention batch size must be between 1 and 10000" ++
  report (GlobalSettlementQuota c <? 1) "global settlement quota must be positive" ++
  report ((0 <? GlobalSettlementQuota c) && (GlobalSettlementQuota c <? MerchantSettlementQuota c))
    "global settlement quota must not be below the per-merchant quota")%list.

Definition validate_durations (c : Config) : list problem :=
  (report ((RPCTimeout c <=? 0) || (EmailTokenTTL c <=? 0) || (EmailResend c <=? 0) || (WalletChallengeTTL c <=? 0) ||
          (MerchantSessionTTL c <=? 0) || (RecipientCooldown c <? 0) || (StatsCacheTTL c <? 0) ||
          (WorkerInterval c <=? 0)) "durations must be positive (stats cache may be zero)" ++
  report ((SettlementExpiryMargin c <=? 0) || (SigningTimeout c <=? 0) || (SettlementLeaseDuration c <=? 0))
    "settlement expiry margin, signing timeout, and lease duration must be positive" ++
  report ((SettlementRecoveryGrace c <=? 0) || (SettlementReplacementAfter c <=? 0) || (SettleResponseWait c <=? 0))
    "settlement recovery grace, replacement delay, and settle response wait must be positive")%list.

Definition is_outbox_key (s : string) : bool :=
  match hex_DecodeString s with Some decoded => (length decoded =? 32)%nat | None => false end.

Definition logLevels : list string := ["debug"; "info"; "warn"; "error"].

Definition validate_secrets (c : Config) : list problem :=
  (report (short_of 32 (APIKeyPepper c)) "API key pepper must be at least 32 bytes" ++
  report (negb (is_outbox_key (EmailOutboxKey c)))
    "email outbox key must be exactly 32 bytes encoded as 64 hexadecimal characters" ++
  report (String.eqb (EmailOutboxKey c) (APIKeyPepper c)) "email outbox key and API key pepper must be independent" ++
  report (String.eqb (TermsVersion c) EmptyString) "terms version is required" ++
  report (negb (existsb (String.eqb (LogLevel c)) logLevels)) "log level must be debug, info, warn, or error" ++
  report (negb (existsb (String.eqb (EmailBackend c)) ["log"; "file"; "smtp"]))
    "email backend must be log, file, or smtp")%list.

Definition line_break (c : ascii) : bool := (code c =? 13) || (code c =? 10).

Definition validate_smtp `{Mail} (c : Config) : list problem :=
  if String.eqb (EmailBackend c) "smtp" then
    (report (match SplitHostPort (SMTPAddress c) with
            | Some (host, _) => String.eqb host EmptyString
            | None => true
            end) "SMTP address must be host:port" ++
    report (negb (Bool.eqb (String.eqb (SMTPUsername c) EmptyString) (String.eqb (SMTPPassword c) EmptyString)))
      "SMTP username and password must be configured together" ++
    report (match ParseAddress (SMTPFrom c) with
            | Some address => String.eqb (ma_Address address) EmptyString
            | None => true
            end || negb (all_chars (fun a => negb (line_break a)) (SMTPFrom c))) "SMTP from address is invalid" ++
    report (negb (String.eqb (SMTPTLSMode c) "starttls") && negb (String.eqb (SMTPTLSMode c) "tls"))
      "SMTP TLS mode must be starttls or tls" ++
    report (SMTPTimeout c <=? 0) "SMTP timeout must be positive")%list
  else [].

(** A fee that does not parse has no sign. *)
Definition validate_fees (c : Config) : list problem :=
  let maxFee := SetString10 (MaxFeePerGasWei c) in
  let priorityFee := SetString10 (MaxPriorityFeeWei c) in
  (report (match maxFee with Some f => f <? 0 | None => true end)
    "max fee per gas must be an unsigned decimal integer" ++
  report (match priorityFee with Some f => f <? 0 | None => true end)
    "max priority fee per gas must be an unsigned decimal integer" ++
  report (match maxFee, priorityFee with Some m, Some p => (0 <? m) && (m <? p) | _, _ => false end)
    "max priority fee per gas must not exceed max fee per gas" ++
  report (negb (String.eqb (SignerMode c) "disabled") &&
          (match maxFee with Some f => f <=? 0 | None => true end || (MaxGasLimit c =? 0)))
    "enabling a settlement signer requires non-zero max fee per gas and max gas limit" ++
  report (negb (MaxGasLimit c =? 0) && (MaxGasLimit c <? MinGasLimit))
    ("max gas limit must be zero (unset) or at least " +:+ FormatInt MinGasLimit))%list.

Definition validate_domains (c : Config) : list problem :=
  map AllowedAndDenied (List.filter (fun domain => existsb (String.eqb domain) (EmailAllowlist c)) (EmailDenylist c)).

(** The Cloud KMS key version resource. *)
Definition kmsKeyName (s : string) : bool :=
  match Split "/" s with
  | [a; project; b; location; c; ring; d; key; e; version] =>
      String.eqb a "projects" && String.eqb b "locations" && String.eqb c "keyRings" && String.eqb d "cryptoKeys" &&
      String.eqb e "cryptoKeyVersions" &&
      forallb (fun s => negb (String.eqb s EmptyString)) [project; location; ring; key] &&
      match version with String v r => is_digit v && negb (Ascii.eqb v "0") && all_chars is_digit r | _ => false end
  | _ => false
  end.

Definition validate_signer (c : Config) : list problem :=
  (report (negb (existsb (String.eqb (SignerMode c)) ["disabled"; "development"; "external"; "policy"]))
    "signer mode must be disabled, development, external, or policy" ++
  (if String.eqb (SignerMode c) "policy" then
     report (negb (is_origin (PolicySignerURL c)))
       "policy signer URL must be an HTTP(S) origin without credentials, query, or path" ++
     report (short_of 32 (PolicySignerToken c))
       "policy signer requires ETH402_POLICY_SIGNER_TOKEN of at least 32 characters" ++
     report (String.eqb (Environment c) "production" &&
             match url_Parse (PolicySignerURL c) with Some u => negb (String.eqb (Scheme u) "https") | None => true end)
       "production policy signer URL must use HTTPS"
   else []) ++
  report (String.eqb (SignerMode c) "development" && String.eqb (DevSignerKey c) EmptyString)
    "development signer requires a private key" ++
  report (String.eqb (SignerMode c) "external" && negb (kmsKeyName (KMSKeyName c)))
    "external signer requires ETH402_KMS_KEY_NAME as projects/…/locations/…/keyRings/…/cryptoKeys/…/cryptoKeyVersions/N")%list.

(** ** Production *)

(** The letters outside ASCII that [strings.ToLower] maps into it: the Kelvin
    sign and the dotted capital I. *)
Fixpoint lower_host (s : string) : string :=
  match s with
  | String "226" (String "132" (String "170" r)) => String "k" (lower_host r)
  | String "196" (String "176" r) => String "i" (lower_host r)
  | String c r => String (lower_ascii c) (lower_host r)
  | EmptyString => EmptyString
  end.

(** [strings.TrimSuffix(s, ".")]. *)
Definition trim_dot (s : string) : string := match cut_last "." s with Some (h, EmptyString) => h | _ => s end.

Definition port_ok (port : string) : bool :=
  String.eqb port EmptyString || match ParseUint10_16 port with Some value => negb (value =? 0) | None => false end.

Definition canonical_host (host : string) : string :=
  match ParseAddr host with Some address => addr_String (Unmap address) | None => host end.

Definition productionRPCHostIdentity (raw : string) : option string :=
  if String.eqb raw EmptyString || has_char "#" raw then None
  else
    match url_Parse raw with
    | None => None
    | Some parsed =>
        if negb (String.eqb (Opaque parsed) EmptyString) || negb (EqualFold (Scheme parsed) "https") ||
           String.eqb (Host parsed) EmptyString || String.eqb (Hostname parsed) EmptyString then None
        else if negb (port_ok (Port parsed)) then None
        else
          let host := trim_dot (lower_host (Hostname parsed)) in
          if negb (all_chars (fun a => code a <=? 127) host) then None
          else
            let host := canonical_host host in
            if String.eqb host EmptyString then None else Some host
    end.

Definition verified_database (raw : string) : bool :=
  match url_Parse raw with
  | Some u => (String.eqb (Scheme u) "postgres" || String.eqb (Scheme u) "postgresql") &&
              String.eqb (query_Get (Query u) "sslmode") "verify-full"
  | None => false
  end.

Definition validate_production (c : Config) : list problem :=
  if String.eqb (Environment c) "production" then
    let primary := productionRPCHostIdentity (EthereumRPCURL c) in
    let fallback := productionRPCHostIdentity (FallbackRPCURL c) in
    (report (negb (String.eqb (PublicBaseURL c) EmptyString) && negb (HasPrefix (PublicBaseURL c) "https://"))
      "production public URL must use HTTPS" ++
    report (match primary with Some _ => false | None => true end) "production primary Ethereum RPC must use HTTPS" ++
    report (String.eqb (FallbackRPCURL c) EmptyString || match fallback with Some _ => false | None => true end)
      "production requires an HTTPS fallback Ethereum RPC" ++
    report (match primary, fallback with Some p, Some f => String.eqb p f | _, _ => false end)
      "production Ethereum RPCs must use distinct host identities" ++
    report (negb (verified_database (DatabaseURL c))) "production database URL must use sslmode=verify-full" ++
    report (negb (String.eqb (EmailBackend c) "smtp")) "production requires the SMTP email backend" ++
    report (negb (String.eqb (SignerMode c) "disabled") && negb (String.eqb (SignerMode c) "policy"))
      "production settlement requires the policy signer or disabled mode" ++
    report (negb (String.eqb (DevSignerKey c) EmptyString) || AllowUnsafeSigner c)
      "raw signer material and unsafe signer overrides are forbidden in production" ++
    report (String.eqb (APIKeyPepper c) DevelopmentPepper) "development API key pepper is forbidden in production" ++
    report (String.eqb (EmailOutboxKey c) DevelopmentOutboxKey)
      "development email outbox key is forbidden in production" ++
    report (negb (String.eqb (OperatorToken c) EmptyString) && short_of 32 (OperatorToken c))
      "production operator token must be at least 32 bytes" ++
    report (negb (MetricsEnabled c)) "production metrics must be enabled")%list
  else [].

Definition Validate `{Mail} (c : Config) : list problem :=
  (validate_identity c ++ validate_limits c ++ validate_durations c ++ validate_secrets c ++ validate_smtp c ++
   validate_fees c ++ validate_domains c ++ validate_signer c ++ validate_production c)%list.

(** The configuration, and the problems found; none of them means success. *)
Definition Load `{Mail} (env : string -> string) : Config * list problem :=
  let '(c, errs) := load_fields env [] in (c, (Validate c ++ errs)%list).

(** ** Derived values *)

Inductive slog_Level := LevelDebug | LevelInfo | LevelWarn | LevelError.

Definition SlogLevel (c : Config) : slog_Level :=
  if String.eqb (LogLevel c) "debug" then LevelDebug
  else if String.eqb (LogLevel c) "warn" then LevelWarn
  else if String.eqb (LogLevel c) "error" then LevelError
  else LevelInfo.

Definition StaleAfter (c : Config) : Z :=
  if 0 <? WorkerStaleAfter c then WorkerStaleAfter c
  else if 0 <? WorkerInterval c then wrap_int64 (4 * WorkerInterval c)
  else Minute.

(** The values logged at start-up, by name. *)
Inductive summary_value := SText (s : string) | SNumber (n : Z) | SFlag (b : bool).

Definition RedactedSummary (c : Config) : list (string * summary_value) :=
  [("environment", SText (Environment c)); ("http_addr", SText (HTTPAddr c)); ("network", SText (Network c));
   ("chain_id", SNumber (ChainID c)); ("usdc_contract", SText (USDCContract c)); ("signer_mode", SText (SignerMode c));
   ("database_configured", SFlag (negb (String.eqb (DatabaseURL c) EmptyString)));
   ("rpc_configured", SFlag (negb (String.eqb (EthereumRPCURL c) EmptyString)));
   ("email_backend", SText (EmailBackend c)); ("metrics_enabled", SFlag (MetricsEnabled c));
   ("trusted_proxies", SNumber (Z.of_nat (length (TrustedProxies c))))].
