(* ===== verification/MerchantSchema.v ===== *)
(** The tables of merchant accounts ([migrations/]): merchants, email tokens
    and their delivery outbox, wallet challenges, API keys, the history of
    recipient addresses, panel sessions, suspensions, audit events and
    fair-use counters, with their checks, unique indexes and foreign keys.

    A statement runs in a transaction [MTx]: an error rolls everything back.
    Identifiers the database draws are the successive values of [m_next]. *)

From Stdlib Require Import ZArith Lia Strings.Byte.
From stdpp Require Import base gmap list strings fin_maps.
From S2P Require Import Prelude GoStd Schema.

Local Open Scope Z_scope.

(** ** Rows *)

Record MerchantRow := {
  mr_name : string;
  mr_email : string;
  mr_domain : string;
  mr_website : option string;
  mr_description : option string;
  mr_recipient : string;
  mr_terms : string;
  mr_terms_at : time;
  mr_email_verified : option time;
  mr_wallet_verified : option time;
  mr_status : MerchantStatus;
  mr_stats : option time;
  mr_public : option time;
  mr_created : time;
  mr_updated : time;
}.

Record TokenRow := {
  tk_merchant : rowid;
  tk_hash : string;
  tk_expires : time;
  tk_consumed : option time;
  tk_sent : option time;
  tk_created : time;
}.

Record OutboxRow := {
  ob_merchant : rowid;
  ob_token : rowid;
  ob_kind : string;
  ob_ciphertext : option (list byte);
  ob_request : option string;
  ob_attempts : Z;
  ob_next : time;
  ob_claimed_until : option time;
  ob_claim : option rowid;
  ob_delivered : option time;
  ob_abandoned : option time;
  ob_created : time;
  ob_updated : time;
}.

Inductive Action := ActVerifyRecipient | ActChangeRecipient | ActAuthenticateAdmin.

Record ChallengeRow := {
  ch_merchant : rowid;
  ch_address : string;
  ch_nonce : string;
  ch_hash : string;
  ch_action : Action;
  ch_issued : time;
  ch_expires : time;
  ch_consumed : option time;
  ch_created : time;
}.

Record KeyRow := {
  k_merchant : rowid;
  k_name : string;
  k_prefix : string;
  k_hash : string;
  k_created : time;
  k_last_used : option time;
  k_revoked : option time;
}.

Record HistoryRow := {
  h_merchant : rowid;
  h_previous : option string;
  h_new : string;
  h_requested : time;
  h_verified : time;
  h_challenge : rowid;
}.

Record SessionRow := {
  s_merchant : rowid;
  s_hash : string;
  s_expires : time;
  s_wallet : option time;
  s_revoked : option time;
  s_created : time;
}.

(** The end of a suspension carries the operator who ended it. *)
Record SuspensionRow := {
  su_merchant : rowid;
  su_reason : string;
  su_operator : string;
  su_suspended : time;
  su_reinstated : option (time * string);
}.

Record EventRow := {
  ev_type : string;
  ev_merchant : rowid;
  ev_actor : string;
  ev_actor_id : option string;
  ev_request : string;
}.

Record mdb := {
  mt_merchants : gmap rowid MerchantRow;
  mt_tokens : gmap rowid TokenRow;
  mt_outbox : gmap rowid OutboxRow;
  mt_challenges : gmap rowid ChallengeRow;
  mt_keys : gmap rowid KeyRow;
  mt_sessions : gmap rowid SessionRow;
  mt_suspensions : gmap rowid SuspensionRow;
  mt_history : list HistoryRow;
  mt_events : list EventRow;
  mt_usage : gmap (rowid * time) Z;
  m_next : rowid;
}.

#[export] Instance Action_eq_dec : EqDecision Action.
Proof. solve_decision. Defined.

(** ** Setters *)

Definition set_mt_merchants (d : mdb) (x : gmap rowid MerchantRow) : mdb :=
  {| mt_merchants := x; mt_tokens := mt_tokens d; mt_outbox := mt_outbox d;
     mt_challenges := mt_challenges d; mt_keys := mt_keys d; mt_sessions := mt_sessions d;
     mt_suspensions := mt_suspensions d; mt_history := mt_history d; mt_events := mt_events d;
     mt_usage := mt_usage d; m_next := m_next d |}.

Definition set_mt_tokens (d : mdb) (x : gmap rowid TokenRow) : mdb :=
  {| mt_merchants := mt_merchants d; mt_tokens := x; mt_outbox := mt_outbox d;
     mt_challenges := mt_challenges d; mt_keys := mt_keys d; mt_sessions := mt_sessions d;
     mt_suspensions := mt_suspensions d; mt_history := mt_history d; mt_events := mt_events d;
     mt_usage := mt_usage d; m_next := m_next d |}.

Definition set_mt_outbox (d : mdb) (x : gmap rowid OutboxRow) : mdb :=
  {| mt_merchants := mt_merchants d; mt_tokens := mt_tokens d; mt_outbox := x;
     mt_challenges := mt_challenges d; mt_keys := mt_keys d; mt_sessions := mt_sessions d;
     mt_suspensions := mt_suspensions d; mt_history := mt_history d; mt_events := mt_events d;
     mt_usage := mt_usage d; m_next := m_next d |}.

Definition set_mt_challenges (d : mdb) (x : gmap rowid ChallengeRow) : mdb :=
  {| mt_merchants := mt_merchants d; mt_tokens := mt_tokens d; mt_outbox := mt_outbox d;
     mt_challenges := x; mt_keys := mt_keys d; mt_sessions := mt_sessions d;
     mt_suspensions := mt_suspensions d; mt_history := mt_history d; mt_events := mt_events d;
     mt_usage := mt_usage d; m_next := m_next d |}.

Definition set_mt_keys (d : mdb) (x : gmap rowid KeyRow) : mdb :=
  {| mt_merchants := mt_merchants d; mt_tokens := mt_tokens d; mt_outbox := mt_outbox d;
     mt_challenges := mt_challenges d; mt_keys := x; mt_sessions := mt_sessions d;
     mt_suspensions := mt_suspensions d; mt_history := mt_history d; mt_events := mt_events d;
     mt_usage := mt_usage d; m_next := m_next d |}.

Definition set_mt_sessions (d : mdb) (x : gmap rowid SessionRow) : mdb :=
  {| mt_merchants := mt_merchants d; mt_tokens := mt_tokens d; mt_outbox := mt_outbox d;
     mt_challenges := mt_challenges d; mt_keys := mt_keys d; mt_sessions := x;
     mt_suspensions := mt_suspensions d; mt_history := mt_history d; mt_events := mt_events d;
     mt_usage := mt_usage d; m_next := m_next d |}.

Definition set_mt_suspensions (d : mdb) (x : gmap rowid SuspensionRow) : mdb :=
  {| mt_merchants := mt_merchants d; mt_tokens := mt_tokens d; mt_outbox := mt_outbox d;
     mt_challenges := mt_challenges d; mt_keys := mt_keys d; mt_sessions := mt_sessions d;
     mt_suspensions := x; mt_history := mt_history d; mt_events := mt_events d;
     mt_usage := mt_usage d; m_next := m_next d |}.

Definition set_mt_history (d : mdb) (x : list HistoryRow) : mdb :=
  {| mt_merchants := mt_merchants d; mt_tokens := mt_tokens d; mt_outbox := mt_outbox d;
     mt_challenges := mt_challenges d; mt_keys := mt_keys d; mt_sessions := mt_sessions d;
     mt_suspensions := mt_suspensions d; mt_history := x; mt_events := mt_events d;
     mt_usage := mt_usage d; m_next := m_next d |}.

Definition set_mt_events (d : mdb) (x : list EventRow) : mdb :=
  {| mt_merchants := mt_merchants d; mt_tokens := mt_tokens d; mt_outbox := mt_outbox d;
     mt_challenges := mt_challenges d; mt_keys := mt_keys d; mt_sessions := mt_sessions d;
     mt_suspensions := mt_suspensions d; mt_history := mt_history d; mt_events := x;
     mt_usage := mt_usage d; m_next := m_next d |}.

Definition set_mt_usage (d : mdb) (x : gmap (rowid * time) Z) : mdb :=
  {| mt_merchants := mt_merchants d; mt_tokens := mt_tokens d; mt_outbox := mt_outbox d;
     mt_challenges := mt_challenges d; mt_keys := mt_keys d; mt_sessions := mt_sessions d;
     mt_suspensions := mt_suspensions d; mt_history := mt_history d; mt_events := mt_events d;
     mt_usage := x; m_next := m_next d |}.

Definition set_m_next (d : mdb) (x : rowid) : mdb :=
  {| mt_merchants := mt_merchants d; mt_tokens := mt_tokens d; mt_outbox := mt_outbox d;
     mt_challenges := mt_challenges d; mt_keys := mt_keys d; mt_sessions := mt_sessions d;
     mt_suspensions := mt_suspensions d; mt_history := mt_history d; mt_events := mt_events d;
     mt_usage := mt_usage d; m_next := x |}.

(** ** Checks, unique indexes and foreign keys *)

Definition not_before (t : time) (o : option time) : bool := opt_check (fun u => t <=? u) o.

Definition merchant_exists (d : mdb) (i : rowid) : bool := bool_decide (is_Some (mt_merchants d !! i)).

(** [(a = b) = false], or nothing is claimed. *)
Definition distinct_if (c : bool) {A} `{EqDecision A} (a b : A) : bool := negb c || bool_decide (a <> b).

Definition merchant_row_ok (m : MerchantRow) : bool :=
  (1 <=? String.length (mr_name m))%nat && (String.length (mr_name m) <=? 200)%nat &&
  String.eqb (mr_email m) (ToLower (mr_email m)) && String.eqb (mr_domain m) (ToLower (mr_domain m)) &&
  char_ok 42 (mr_recipient m) && String.eqb (mr_recipient m) (ToLower (mr_recipient m)).

(** One merchant per business email, rejected ones aside. *)
Definition merchant_compatible (a b : MerchantRow) : bool :=
  distinct_if (negb (bool_decide (mr_status a = MRejected)) && negb (bool_decide (mr_status b = MRejected)))
    (mr_email a) (mr_email b).

Definition token_row_ok (d : mdb) (t : TokenRow) : bool :=
  merchant_exists d (tk_merchant t) && char_ok 64 (tk_hash t) && (tk_created t <? tk_expires t) &&
  not_before (tk_created t) (tk_consumed t).

Definition outbox_row_ok (d : mdb) (o : OutboxRow) : bool :=
  merchant_exists d (ob_merchant o) && bool_decide (is_Some (mt_tokens d !! ob_token o)) &&
  bool_decide (ob_kind o ∈ ["registration"; "admin_login"]) && (0 <=? ob_attempts o) && (ob_attempts o <? 2 ^ 31) &&
  (bool_decide (is_Some (ob_ciphertext o)) || bool_decide (is_Some (ob_delivered o)) ||
   bool_decide (is_Some (ob_abandoned o))) &&
  bool_decide (is_Some (ob_claimed_until o) <-> is_Some (ob_claim o)) &&
  negb (bool_decide (is_Some (ob_delivered o)) && bool_decide (is_Some (ob_abandoned o))) &&
  ((bool_decide (ob_delivered o = None) && bool_decide (ob_abandoned o = None)) ||
   bool_decide (ob_claim o = None)) &&
  not_before (ob_created o) (ob_delivered o) && not_before (ob_created o) (ob_abandoned o).

Definition challenge_row_ok (d : mdb) (c : ChallengeRow) : bool :=
  merchant_exists d (ch_merchant c) && char_ok 42 (ch_address c) &&
  String.eqb (ch_address c) (ToLower (ch_address c)) && char_ok 64 (ch_nonce c) && char_ok 64 (ch_hash c) &&
  (ch_issued c <? ch_expires c) && not_before (ch_issued c) (ch_consumed c).

Definition key_row_ok (d : mdb) (k : KeyRow) : bool :=
  merchant_exists d (k_merchant k) && (1 <=? String.length (k_name k))%nat &&
  (String.length (k_name k) <=? 100)%nat && char_ok 64 (k_hash k) &&
  not_before (k_created k) (k_last_used k) && not_before (k_created k) (k_revoked k).

Definition session_row_ok (d : mdb) (s : SessionRow) : bool :=
  merchant_exists d (s_merchant s) && char_ok 64 (s_hash s) && (s_created s <? s_expires s) &&
  not_before (s_created s) (s_wallet s) && not_before (s_created s) (s_revoked s).

Definition suspension_row_ok (d : mdb) (s : SuspensionRow) : bool :=
  merchant_exists d (su_merchant s) && opt_check (fun r => su_suspended s <=? r.1) (su_reinstated s).

(** At most one open suspension per merchant. *)
Definition suspension_compatible (a b : SuspensionRow) : bool :=
  distinct_if (bool_decide (su_reinstated a = None) && bool_decide (su_reinstated b = None))
    (su_merchant a) (su_merchant b).

Definition history_row_ok (d : mdb) (h : HistoryRow) : bool :=
  merchant_exists d (h_merchant h) && bool_decide (is_Some (mt_challenges d !! h_challenge h)) &&
  char_ok 42 (h_new h) && String.eqb (h_new h) (ToLower (h_new h)) &&
  opt_check (fun p => char_ok 42 p && String.eqb p (ToLower p)) (h_previous h) &&
  (h_requested h <=? h_verified h).

(** ** Tables *)

Class Table (R : Type) := {
  table : mdb -> gmap rowid R;
  set_table : mdb -> gmap rowid R -> mdb;
  row_ok : mdb -> R -> bool;
  row_compatible : R -> R -> bool;
}.

#[export] Instance merchant_table : Table MerchantRow :=
  {| table := mt_merchants; set_table := set_mt_merchants; row_ok := fun _ => merchant_row_ok;
     row_compatible := merchant_compatible |}.
#[export] Instance token_table : Table TokenRow :=
  {| table := mt_tokens; set_table := set_mt_tokens; row_ok := token_row_ok;
     row_compatible := fun a b => bool_decide (tk_hash a <> tk_hash b) |}.
#[export] Instance outbox_table : Table OutboxRow :=
  {| table := mt_outbox; set_table := set_mt_outbox; row_ok := outbox_row_ok;
     row_compatible := fun a b => bool_decide (ob_token a <> ob_token b) |}.
#[export] Instance challenge_table : Table ChallengeRow :=
  {| table := mt_challenges; set_table := set_mt_challenges; row_ok := challenge_row_ok;
     row_compatible := fun a b =>
       bool_decide (ch_nonce a <> ch_nonce b) && bool_decide (ch_hash a <> ch_hash b) |}.
#[export] Instance key_table : Table KeyRow :=
  {| table := mt_keys; set_table := set_mt_keys; row_ok := key_row_ok;
     row_compatible := fun a b =>
       bool_decide (k_prefix a <> k_prefix b) && bool_decide (k_hash a <> k_hash b) |}.
#[export] Instance session_table : Table SessionRow :=
  {| table := mt_sessions; set_table := set_mt_sessions; row_ok := session_row_ok;
     row_compatible := fun a b => bool_decide (s_hash a <> s_hash b) |}.
#[export] Instance suspension_table : Table SuspensionRow :=
  {| table := mt_suspensions; set_table := set_mt_suspensions; row_ok := suspension_row_ok;
     row_compatible := suspension_compatible |}.

(** ** Transactions *)

Definition MTx (A : Type) : Type := mdb -> res (A * mdb).

Definition mret {A} (a : A) : MTx A := fun d => Ok (a, d).
Definition mfail {A} (e : sentinel) : MTx A := fun _ => Err [e].
Definition mget : MTx mdb := fun d => Ok (d, d).
Definition mput (d : mdb) : MTx unit := fun _ => Ok (tt, d).
Definition mlift {A} (r : res A) : MTx A := fun d => match r with Ok a => Ok (a, d) | Err e => Err e end.

Definition mbind {A B} (m : MTx A) (k : A -> MTx B) : MTx B :=
  fun d => match m d with Ok (a, d') => k a d' | Err e => Err e end.

Declare Scope mtx_scope.
Delimit Scope mtx_scope with mtx.
Notation "x <-$ m ;; k" := (mbind m (fun x => k)) (at level 100, m at next level, right associativity) : mtx_scope.
Notation "m ;;$ k" := (mbind m (fun _ => k)) (at level 100, right associativity) : mtx_scope.
Notation "'require$' c 'else' e ;; k" := (if c then k else mfail e)
  (at level 100, c at level 99, e at level 0, k at level 200, right associativity) : mtx_scope.
Local Open Scope mtx_scope.

Definition m_fresh : MTx rowid := fun d => Ok (m_next d, set_m_next d (N.succ (m_next d))).

Section Statements.
  Context {R : Type} `{Table R}.

Definition fits (d : mdb) (i : rowid) (r : R) : bool :=
  bool_decide (map_Forall (fun j q => j = i \/ row_compatible r q = true) (table d)).

(** Write one row, new or not. *)
Definition put_row (i : rowid) (r : R) : MTx unit :=
  fun d =>
    if negb (row_ok d r) then Err [ECheckViolation]
    else if negb (fits d i r) then Err [EUniqueViolation]
    else Ok (tt, set_table d (<[i := r]> (table d))).

(** [INSERT ... RETURNING id]. *)
Definition insert_row (r : R) : MTx rowid := i <-$ m_fresh ;; put_row i r ;;$ mret i.

Definition find_row (d : mdb) (cond : rowid -> R -> bool) : option (rowid * R) :=
  List.find (fun ir => cond ir.1 ir.2) (map_to_list (table d)).

(** [UPDATE ... WHERE cond] where at most one row can match: that row. *)
Definition update_row (cond : rowid -> R -> bool) (f : R -> R) : MTx (option (rowid * R)) :=
  d <-$ mget ;;
  match find_row d cond with
  | Some (i, r) => put_row i (f r) ;;$ mret (Some (i, r))
  | None => mret None
  end.

End Statements.

Definition insert_history (h : HistoryRow) : MTx unit :=
  d <-$ mget ;;
  if history_row_ok d h then mput (set_mt_history d (mt_history d ++ [h])) else mfail ECheckViolation.

Definition insert_event (type : string) (m : rowid) (actor : string) (actorID : option string)
    (request : string) : MTx unit :=
  d <-$ mget ;;
  mput (set_mt_events d (mt_events d ++
    [{| ev_type := type; ev_merchant := m; ev_actor := actor; ev_actor_id := actorID;
        ev_request := request |}])).

(** ** Row updates *)

Definition merchant_with_email (now : time) (m : MerchantRow) : MerchantRow :=
  {| mr_name := mr_name m; mr_email := mr_email m; mr_domain := mr_domain m; mr_website := mr_website m;
     mr_description := mr_description m; mr_recipient := mr_recipient m; mr_terms := mr_terms m;
     mr_terms_at := mr_terms_at m;
     mr_email_verified := match mr_email_verified m with Some t => Some t | None => Some now end;
     mr_wallet_verified := mr_wallet_verified m; mr_status := mr_status m; mr_stats := mr_stats m;
     mr_public := mr_public m; mr_created := mr_created m; mr_updated := now |}.

Definition merchant_with_wallet (recipient : string) (verified : option time) (status : MerchantStatus)
    (now : time) (m : MerchantRow) : MerchantRow :=
  {| mr_name := mr_name m; mr_email := mr_email m; mr_domain := mr_domain m; mr_website := mr_website m;
     mr_description := mr_description m; mr_recipient := recipient; mr_terms := mr_terms m;
     mr_terms_at := mr_terms_at m; mr_email_verified := mr_email_verified m;
     mr_wallet_verified := verified; mr_status := status; mr_stats := mr_stats m;
     mr_public := mr_public m; mr_created := mr_created m; mr_updated := now |}.

Definition merchant_with_status (status : MerchantStatus) (now : time) (m : MerchantRow) : MerchantRow :=
  merchant_with_wallet (mr_recipient m) (mr_wallet_verified m) status now m.

Definition merchant_with_consent (stats public : option time) (now : time) (m : MerchantRow) : MerchantRow :=
  {| mr_name := mr_name m; mr_email := mr_email m; mr_domain := mr_domain m; mr_website := mr_website m;
     mr_description := mr_description m; mr_recipient := mr_recipient m; mr_terms := mr_terms m;
     mr_terms_at := mr_terms_at m; mr_email_verified := mr_email_verified m;
     mr_wallet_verified := mr_wallet_verified m; mr_status := mr_status m; mr_stats := stats;
     mr_public := public; mr_created := mr_created m; mr_updated := now |}.

Definition token_consume (now : time) (t : TokenRow) : TokenRow :=
  {| tk_merchant := tk_merchant t; tk_hash := tk_hash t; tk_expires := tk_expires t;
     tk_consumed := Some now; tk_sent := tk_sent t; tk_created := tk_created t |}.

Definition token_send (now : time) (t : TokenRow) : TokenRow :=
  {| tk_merchant := tk_merchant t; tk_hash := tk_hash t; tk_expires := tk_expires t;
     tk_consumed := tk_consumed t; tk_sent := Some now; tk_created := tk_created t |}.

Definition challenge_consume (now : time) (c : ChallengeRow) : ChallengeRow :=
  {| ch_merchant := ch_merchant c; ch_address := ch_address c; ch_nonce := ch_nonce c;
     ch_hash := ch_hash c; ch_action := ch_action c; ch_issued := ch_issued c;
     ch_expires := ch_expires c; ch_consumed := Some now; ch_created := ch_created c |}.

Definition session_with (wallet revoked : option time) (s : SessionRow) : SessionRow :=
  {| s_merchant := s_merchant s; s_hash := s_hash s; s_expires := s_expires s; s_wallet := wallet;
     s_revoked := revoked; s_created := s_created s |}.

Definition key_with (used revoked : option time) (k : KeyRow) : KeyRow :=
  {| k_merchant := k_merchant k; k_name := k_name k; k_prefix := k_prefix k; k_hash := k_hash k;
     k_created := k_created k; k_last_used := used; k_revoked := revoked |}.

Definition suspension_end (now : time) (operator : string) (s : SuspensionRow) : SuspensionRow :=
  {| su_merchant := su_merchant s; su_reason := su_reason s; su_operator := su_operator s;
     su_suspended := su_suspended s; su_reinstated := Some (now, operator) |}.

Definition empty_mdb : mdb :=
  {| mt_merchants := ∅; mt_tokens := ∅; mt_outbox := ∅; mt_challenges := ∅; mt_keys := ∅;
     mt_sessions := ∅; mt_suspensions := ∅; mt_history := []; mt_events := []; mt_usage := ∅;
     m_next := 1%N |}.
