(* ===== verification/Merchant.v ===== *)
(** [internal/merchant/service.go]: registration, email and wallet
    verification, recipient changes, API keys and suspension.

    Each method is one transaction.  The readings of the service's clock and of
    the database's, and the random bytes drawn, come with the call.  Email
    addresses are parsed by [net/mail] and identifiers by pgx, which are
    parameters.  A statement may also fail because the
    database is unreachable; the transaction then leaves no trace. *)

From Stdlib Require Import ZArith Lia Ascii Strings.Byte.
From stdpp Require Import base gmap list strings sorting.
From S2P Require Import Prelude GoStd GoNet GoUrl Geth WalletProof Secret Calendar Challenge AesGcm Schema.
From S2P Require Import MerchantSchema.

Local Open Scope string_scope.
Local Open Scope Z_scope.
Local Open Scope mtx_scope.

(** ** Parameters *)

Class Net := {
  net_mail :: Mail;
  (** [pgtype.UUID.Scan]: the row a textual identifier names, and the text the
      database returns for a row. *)
  ScanUUID : string -> option rowid;
  uuid_text : rowid -> string;
}.

Record Config := {
  BaseURL : string;
  TermsVersion : string;
  EmailTTL : duration;
  Resend : duration;
  WalletTTL : duration;
  RecipientCooldown : duration;
  AdminSessionTTL : duration;
  EmailDeliveryLease : duration;
  Pepper : list byte;
  EmailOutboxKey : list byte;
  BlockDisposable : bool;
  RestrictFree : bool;
  Allowlist : list string;
  Denylist : list string;
}.

(** What a call reads from its surroundings: [s.now()] (and, in a call that
    reads it twice, the earlier reading), [now()] in the database, and what
    [rand.Read] returns, in the order it is asked. *)
Record menv := {
  me_before : time;
  me_now : time;
  me_db : time;
  me_random : list byte;
  me_random2 : list byte;
}.

Record Registration := {
  rg_Name : string;
  rg_Email : string;
  rg_Recipient : string;
  rg_Website : string;
  rg_Description : string;
  rg_AcceptTerms : bool;
}.

(** [merchant.Challenge]. *)
Record IssuedChallenge := {
  ic_ID : rowid;
  ic_Message : string;
  ic_Address : string;
  ic_Action : string;
  ic_ExpiresAt : time;
}.

Record AdminSession := {
  as_Token : string;
  as_ExpiresAt : time;
}.

Record APIKey := {
  ak_ID : rowid;
  ak_Name : string;
  ak_Prefix : string;
  ak_CreatedAt : time;
  ak_LastUsedAt : option time;
  ak_RevokedAt : option time;
}.

(** The columns of a key the API returns. *)
Definition api_key (i : rowid) (k : KeyRow) : APIKey :=
  {| ak_ID := i; ak_Name := k_name k; ak_Prefix := k_prefix k; ak_CreatedAt := k_created k;
     ak_LastUsedAt := k_last_used k; ak_RevokedAt := k_revoked k |}.

Definition nullif_empty (s : string) : option string := if String.eqb s EmptyString then None else Some s.

Definition newest_first (a b : APIKey) : Prop := ak_CreatedAt b <= ak_CreatedAt a.

#[export] Instance newest_first_dec : RelDecision newest_first.
Proof. intros a b. unfold newest_first. apply _. Defined.

(** ** email_delivery.go: sealed tokens *)

(** [copy(normalized[:], key)]. *)
Definition normalizeEmailOutboxKey (key : list byte) : list byte := take 32 (key ++ replicate 32 x00)%list.

Definition nul : string := String (ascii_of_N 0) EmptyString.

Definition emailTokenAAD (merchantID tokenHash kind : string) : list byte :=
  bytes_of_string ("eth402-email-outbox-v1" +:+ nul +:+ merchantID +:+ nul +:+ tokenHash +:+ nul +:+ kind).

(** [random] is the nonce drawn. *)
Definition sealEmailToken (key random : list byte) (token merchantID tokenHash kind : string) : list byte :=
  (random ++ gcm_Seal key random (bytes_of_string token) (emailTokenAAD merchantID tokenHash kind))%list.

Definition openEmailToken (key ciphertext : list byte) (merchantID tokenHash kind : string) : option string :=
  if (length ciphertext <? gcm_NonceSize)%nat then None
  else
    match gcm_Open key (take gcm_NonceSize ciphertext) (drop gcm_NonceSize ciphertext)
            (emailTokenAAD merchantID tokenHash kind) with
    | Some plain => Some (String.string_of_list_byte plain)
    | None => None
    end.

Section Service.
  Context `{Geth} `{Siwe} `{Net} (cfg : Config).

Definition emailOutboxKey : list byte := normalizeEmailOutboxKey (EmailOutboxKey cfg).

Definition enqueueEmail (merchant : rowid) (tokenHash rawToken kind requestID : string) (now : time)
    (random : list byte) : MTx rowid :=
  tokenID <-$ insert_row {| tk_merchant := merchant; tk_hash := tokenHash; tk_expires := now + EmailTTL cfg;
                            tk_consumed := None; tk_sent := None; tk_created := now |} ;;
  insert_row {| ob_merchant := merchant; ob_token := tokenID; ob_kind := kind;
                ob_ciphertext := Some (sealEmailToken emailOutboxKey random rawToken (uuid_text merchant)
                                         tokenHash kind);
                ob_request := nullif_empty requestID; ob_attempts := 0; ob_next := now;
                ob_claimed_until := None; ob_claim := None; ob_delivered := None; ob_abandoned := None;
                ob_created := now; ob_updated := now |}.

(** ** Registration *)

Definition validateDomain (domain : string) : bool :=
  if existsb (String.eqb domain) (Denylist cfg) then false
  else
    match Allowlist cfg with
    | _ :: _ => existsb (String.eqb domain) (Allowlist cfg)
    | [] =>
        negb (RestrictFree cfg && existsb (String.eqb domain)
          ["gmail.com"; "outlook.com"; "hotmail.com"; "yahoo.com"; "icloud.com"; "proton.me"; "protonmail.com"]) &&
        negb (BlockDisposable cfg && existsb (String.eqb domain)
          ["mailinator.com"; "guerrillamail.com"; "10minutemail.com"; "tempmail.com"])
    end.

(** A bare address with one at sign whose domain is allowed. *)
Definition valid_email (value : string) : bool :=
  match ParseAddress value with
  | Some a => String.eqb (ma_Address a) value && (count_char "@" value =? 1)%nat && validateDomain (after_char "@" value)
  | None => false
  end.

Definition valid_website (website : string) : bool :=
  String.eqb website EmptyString ||
  match ParseRequestURI website with
  | Some u =>
      (String.eqb (Scheme u) "https" || String.eqb (Scheme u) "http") && negb (String.eqb (Host u) EmptyString)
  | None => false
  end.

(** A mail is on its way, or was sent less than the resend delay ago. *)
Definition suppressed (d : mdb) (merchant : rowid) (now : time) : bool :=
  existsb (fun it : rowid * TokenRow =>
    bool_decide (tk_merchant it.2 = merchant) &&
    match tk_sent it.2 with
    | Some sent => now - Resend cfg <? sent
    | None =>
        (now <? tk_expires it.2) &&
        match find_row d (fun _ o => bool_decide (ob_token o = it.1)) with
        | Some (_, o) => bool_decide (ob_delivered o = None) && bool_decide (ob_abandoned o = None)
        | None => true
        end
    end) (map_to_list (mt_tokens d)).

(** The account an address belongs to. *)
Definition merchant_by_email (d : mdb) (email : string) : option (rowid * MerchantRow) :=
  find_row d (fun _ m => String.eqb (mr_email m) email && negb (bool_decide (mr_status m = MRejected))).

Definition new_merchant (inp : Registration) (name email recipient : string) (env : menv) : MerchantRow :=
  {| mr_name := name; mr_email := email; mr_domain := after_char "@" email;
     mr_website := nullif_empty (rg_Website inp); mr_description := nullif_empty (rg_Description inp);
     mr_recipient := recipient; mr_terms := TermsVersion cfg; mr_terms_at := me_now env;
     mr_email_verified := None; mr_wallet_verified := None; mr_status := MPending; mr_stats := None;
     mr_public := None; mr_created := me_db env; mr_updated := me_db env |}.

Definition Register (env : menv) (inp : Registration) (requestID : string) : MTx unit :=
  let name := TrimSpace (rg_Name inp) in
  let email := ToLower (TrimSpace (rg_Email inp)) in
  require$ (1 <=? String.length name)%nat && (String.length name <=? 200)%nat &&
           (String.length email <=? 320)%nat && (String.length (rg_Website inp) <=? 2048)%nat &&
           (String.length (rg_Description inp) <=? 4000)%nat && rg_AcceptTerms inp else EInvalid ;;
  require$ valid_email email else EInvalid ;;
  match NormalizeAddress (TrimSpace (rg_Recipient inp)) with
  | Err _ => mfail EInvalid
  | Ok recipient =>
      require$ valid_website (rg_Website inp) else EInvalid ;;
      token <-$ mlift (NewVerificationToken (me_random env)) ;;
      d <-$ mget ;;
      let enqueue merchant :=
        enqueueEmail merchant token.2 token.1 "registration" requestID (me_now env) (me_random2 env) ;;$
        insert_event "merchant.registration" merchant "anonymous" None requestID ;;$
        insert_event "email.verification_requested" merchant "system" None requestID in
      match merchant_by_email d email with
      | Some (merchant, _) =>
          if suppressed d merchant (me_now env) then mret tt else enqueue merchant
      | None =>
          merchant <-$ insert_row (new_merchant inp name email recipient env) ;; enqueue merchant
      end
  end.

Definition RequestAdminLink (env : menv) (value requestID : string) : MTx unit :=
  let value := ToLower (TrimSpace value) in
  require$ (String.length value <=? 320)%nat else EInvalid ;;
  require$ valid_email value else EInvalid ;;
  token <-$ mlift (NewVerificationToken (me_random env)) ;;
  d <-$ mget ;;
  match merchant_by_email d value with
  | None => mret tt
  | Some (merchant, _) =>
      if suppressed d merchant (me_now env) then mret tt
      else
        enqueueEmail merchant token.2 token.1 "admin_login" requestID (me_now env) (me_random2 env) ;;$
        insert_event "merchant.admin_link_requested" merchant "anonymous" None requestID
  end.

(** ** Email verification *)

Definition adminSessionPrefix : string := "eth402_admin_".

(** [issuedAt] is the clock when the session was made. *)
Definition newAdminSession (issuedAt : time) (random : list byte) : res AdminSession :=
  if AdminSessionTTL cfg <=? 0 then Err [EInvalid]
  else Ok {| as_Token := adminSessionPrefix +:+ RawURLEncoding random;
             as_ExpiresAt := issuedAt + AdminSessionTTL cfg |}.

Definition verifyEmail (env : menv) (token requestID : string) (session : option AdminSession) : MTx rowid :=
  require$ (20 <=? String.length token)%nat else EInvalid ;;
  let now := me_now env in
  consumed <-$ update_row (fun _ t => String.eqb (tk_hash t) (Hash token) && bool_decide (tk_consumed t = None) &&
                             (now <? tk_expires t)) (token_consume now) ;;
  match consumed with
  | None => mfail EInvalid
  | Some (_, t) =>
      let merchant := tk_merchant t in
      update_row (fun i _ => bool_decide (i = merchant)) (merchant_with_email now) ;;$
      match session with
      | Some s =>
          insert_row {| s_merchant := merchant; s_hash := Hash (as_Token s); s_expires := as_ExpiresAt s;
                        s_wallet := None; s_revoked := None; s_created := now |} ;;$ mret tt
      | None => mret tt
      end ;;$
      insert_event "email.verification_completed" merchant "anonymous" None requestID ;;$
      mret merchant
  end.

Definition VerifyEmail (env : menv) (token requestID : string) : MTx rowid :=
  verifyEmail env token requestID None.

Definition VerifyEmailForAdmin (env : menv) (token requestID : string) :
    MTx (rowid * AdminSession) :=
  require$ (20 <=? String.length token)%nat else EInvalid ;;
  session <-$ mlift (newAdminSession (me_before env) (me_random env)) ;;
  merchant <-$ verifyEmail env token requestID (Some session) ;;
  mret (merchant, session).
(** ** Wallet challenges *)

(** [strings.ReplaceAll(action, "_", "-")] of the stored action. *)
Definition action_wire (a : Action) : string :=
  match a with
  | ActVerifyRecipient => "verify-recipient"
  | ActChangeRecipient => "change-recipient"
  | ActAuthenticateAdmin => "authenticate-admin"
  end.

Definition db_action (action : string) : option Action :=
  if String.eqb action "verify-recipient" then Some ActVerifyRecipient
  else if String.eqb action "change-recipient" then Some ActChangeRecipient
  else if String.eqb action "authenticate-admin" then Some ActAuthenticateAdmin
  else None.

Definition persistWalletChallenge (env : menv) (merchant : rowid) (c : Challenge) (action : Action)
    (requestID : string) : MTx rowid :=
  id <-$ insert_row {| ch_merchant := merchant; ch_address := ToLower (c_Address c); ch_nonce := c_Nonce c;
                       ch_hash := Hash (Message c); ch_action := action; ch_issued := c_IssuedAt c;
                       ch_expires := c_ExpiresAt c; ch_consumed := None; ch_created := me_db env |} ;;
  insert_event "wallet.challenge_created" merchant "merchant" None requestID ;;$
  mret id.

(** Make, store and return a challenge. *)
Definition issue_challenge (env : menv) (merchant : rowid) (merchantID address : string) (action : Action)
    (requestID : string) : MTx IssuedChallenge :=
  match NewChallenge merchantID address (action_wire action) (me_now env) (WalletTTL cfg) (me_random env) with
  | Err _ => mfail EInvalid
  | Ok c =>
      id <-$ persistWalletChallenge env merchant c action requestID ;;
      mret {| ic_ID := id; ic_Message := Message c; ic_Address := c_Address c;
              ic_Action := action_wire action; ic_ExpiresAt := c_ExpiresAt c |}
  end.

(** The merchant row is read before the transaction begins: [read] is the
    database at that moment. *)
Definition WalletChallenge (env : menv) (read : mdb) (merchantID address action requestID : string) :
    MTx IssuedChallenge :=
  match ScanUUID merchantID, db_action action with
  | Some merchant, Some act =>
      match mt_merchants read !! merchant with
      | None => mfail ENotFound
      | Some m =>
          require$ bool_decide (is_Some (mr_email_verified m)) && negb (bool_decide (mr_status m = MSuspended)) &&
                   negb (bool_decide (mr_status m = MRejected)) else EForbidden ;;
          if bool_decide (act = ActChangeRecipient)
          then
            require$ negb (EqualFold address (mr_recipient m)) else EConflict ;;
            issue_challenge env merchant merchantID address act requestID
          else issue_challenge env merchant merchantID (mr_recipient m) act requestID
      end
  | _, _ => mfail EInvalid
  end.

(** ** API keys *)

(** The hash in the table against the hash of what was presented. *)
Definition key_matches (k : KeyRow) (value : string) : bool :=
  match hex_DecodeString (k_hash k), hex_DecodeString (KeyedHash (Pepper cfg) value) with
  | Some a, Some b => hmac_Equal a b
  | _, _ => false
  end.

Definition key_shape (value : string) : bool :=
  HasPrefix value keyPrefix && (String.length value <=? 256)%nat.

(** [read] is the database when the key was looked up; the time of last use is
    then written without regard to failure. *)
Definition Authenticate (env : menv) (read : mdb) (value : string) : MTx (res (rowid * MerchantRow)) :=
  if negb (key_shape value) then mret (Err [EUnauthorized])
  else
    match find_row read (fun _ k => String.eqb (k_prefix k) (LookupPrefix value) &&
                           bool_decide (k_revoked k = None)) with
    | None => mret (Err [EUnauthorized])
    | Some (_, k) =>
        match mt_merchants read !! k_merchant k with
        | None => mret (Err [EUnauthorized])
        | Some m =>
            if negb (key_matches k value) then mret (Err [EUnauthorized])
            else if negb (bool_decide (mr_status m = MActive)) then mret (Err [EForbidden])
            else fun d =>
              match update_row (fun _ k => String.eqb (k_prefix k) (LookupPrefix value))
                      (fun k => key_with (Some (me_db env)) (k_revoked k) k) d with
              | Ok (_, d') => Ok (Ok (k_merchant k, m), d')
              | Err _ => Ok (Ok (k_merchant k, m), d)
              end
        end
    end.

Definition lockAuthenticatedAPIKey (merchantID value : string) : MTx rowid :=
  match ScanUUID merchantID with
  | None => mfail EUnauthorized
  | Some merchant =>
      require$ key_shape value else EUnauthorized ;;
      d <-$ mget ;;
      match mt_merchants d !! merchant with
      | None => mfail EUnauthorized
      | Some m =>
          require$ bool_decide (mr_status m = MActive) else EForbidden ;;
          match find_row d (fun _ k => bool_decide (k_merchant k = merchant) &&
                              String.eqb (k_prefix k) (LookupPrefix value) &&
                              bool_decide (k_revoked k = None)) with
          | None => mfail EUnauthorized
          | Some (_, k) => if key_matches k value then mret merchant else mfail EUnauthorized
          end
      end
  end.

Definition AuthenticatedWalletChallenge (env : menv) (merchantID apiKey address action requestID : string) :
    MTx IssuedChallenge :=
  require$ bool_decide (is_Some (ScanUUID merchantID)) && String.eqb action "change-recipient" else EInvalid ;;
  merchant <-$ lockAuthenticatedAPIKey merchantID apiKey ;;
  d <-$ mget ;;
  match mt_merchants d !! merchant with
  | None => mfail ENoRows
  | Some m =>
      require$ bool_decide (mr_status m = MActive) && bool_decide (is_Some (mr_email_verified m)) else EForbidden ;;
      require$ negb (EqualFold address (mr_recipient m)) else EConflict ;;
      issue_challenge env merchant merchantID address ActChangeRecipient requestID
  end.

(** ** admin.go: the panel session *)

Definition session_shape (token : string) : bool :=
  HasPrefix token adminSessionPrefix && (String.length token <=? 128)%nat.

Definition find_session (d : mdb) (merchant : rowid) (token : string) : option (rowid * SessionRow) :=
  find_row d (fun _ s => bool_decide (s_merchant s = merchant) && String.eqb (s_hash s) (Hash token) &&
                bool_decide (s_revoked s = None)).

(** The session's wallet proof is not older than the merchant's. *)
Definition elevated (m : MerchantRow) (s : SessionRow) : bool :=
  match mr_wallet_verified m, s_wallet s with
  | Some m, Some s => m <=? s
  | _, _ => false
  end.

Definition lockWalletAuthenticatedAdmin (now : time) (merchantID token : string) : MTx rowid :=
  match ScanUUID merchantID with
  | None => mfail EUnauthorized
  | Some merchant =>
      require$ session_shape token else EUnauthorized ;;
      d <-$ mget ;;
      match mt_merchants d !! merchant with
      | None => mfail ENotFound
      | Some m =>
          match find_session d merchant token with
          | None => mfail EUnauthorized
          | Some (_, s) =>
              require$ now <? s_expires s else EUnauthorized ;;
              require$ bool_decide (mr_status m = MActive) && elevated m s else EForbidden ;;
              mret merchant
          end
      end
  end.

Definition AdminWalletChallenge (env : menv) (merchantID token address action requestID : string) :
    MTx IssuedChallenge :=
  require$ bool_decide (is_Some (ScanUUID merchantID)) && String.eqb action "change-recipient" else EInvalid ;;
  merchant <-$ lockWalletAuthenticatedAdmin (me_before env) merchantID token ;;
  d <-$ mget ;;
  match mt_merchants d !! merchant with
  | None => mfail ENoRows
  | Some m =>
      require$ negb (EqualFold address (mr_recipient m)) else EConflict ;;
      issue_challenge env merchant merchantID address ActChangeRecipient requestID
  end.

Definition PendingRecipientChallenge (env : menv) (merchantID address requestID : string) :
    MTx IssuedChallenge :=
  match ScanUUID merchantID, NormalizeAddress address with
  | Some merchant, Ok normalized =>
      let now := me_now env in
      d <-$ mget ;;
      match mt_merchants d !! merchant with
      | None => mfail ENotFound
      | Some m =>
          require$ bool_decide (mr_status m = MPending) && bool_decide (is_Some (mr_email_verified m)) &&
                   bool_decide (mr_wallet_verified m = None) else EForbidden ;;
          (if EqualFold (mr_recipient m) normalized then mret tt
           else
             put_row merchant (merchant_with_wallet normalized (mr_wallet_verified m) (mr_status m) now m) ;;$
             insert_event "recipient.pending_changed" merchant "merchant" (Some merchantID) requestID) ;;$
          issue_challenge env merchant merchantID normalized ActVerifyRecipient requestID
      end
  | _, _ => mfail EInvalid
  end.

(** ** Wallet verification *)

(** Shape of what every verification presents. *)
Definition proof_shape (message signature : string) : bool :=
  (1 <=? String.length message)%nat && (String.length message <=? 4096)%nat &&
  (String.length signature =? 132)%nat.

(** [WHERE id = challengeID AND merchant_id = merchant]. *)
Definition find_challenge (d : mdb) (challenge merchant : rowid) : option ChallengeRow :=
  match mt_challenges d !! challenge with
  | Some c => if bool_decide (ch_merchant c = merchant) then Some c else None
  | None => None
  end.

Definition same_message (c : ChallengeRow) (message : string) : bool :=
  hmac_Equal (bytes_of_string (ch_hash c)) (bytes_of_string (Hash message)).

(** [now.Sub(lastChange) < cooldown], with no earlier proof infinitely long ago. *)
Definition cooling_down (d : mdb) (merchant : rowid) (now : time) : bool :=
  existsb (fun h => bool_decide (h_merchant h = merchant) && (now - h_verified h <? RecipientCooldown cfg))
    (mt_history d).

(** [UPDATE wallet_verification_challenges SET consumed_at ... WHERE consumed_at
    IS NULL]; any failure is a conflict. *)
Definition consume_challenge (challenge : rowid) (now : time) : MTx unit :=
  fun d =>
    match update_row (fun i c => bool_decide (i = challenge) && bool_decide (ch_consumed c = None))
            (challenge_consume now) d with
    | Ok (Some _, d') => Ok (tt, d')
    | _ => Err [EConflict]
    end.

(** [UPDATE merchant_admin_sessions SET wallet_verified_at = NULL WHERE merchant_id = ...]. *)
Definition clear_elevations (merchant : rowid) : MTx unit :=
  d <-$ mget ;;
  mput (set_mt_sessions d (fmap (fun s =>
    if bool_decide (s_merchant s = merchant) then session_with None (s_revoked s) s else s) (mt_sessions d))).

(** The writes of a recipient change shared by the two verifications. *)
Definition change_recipient (merchant challenge : rowid) (c : ChallengeRow) (m : MerchantRow) (now : time) :
    MTx unit :=
  put_row merchant (merchant_with_wallet (ToLower (ch_address c)) (Some now) (mr_status m) now m) ;;$
  insert_history {| h_merchant := merchant; h_previous := Some (mr_recipient m);
                    h_new := ToLower (ch_address c); h_requested := ch_created c; h_verified := now;
                    h_challenge := challenge |} ;;$
  clear_elevations merchant.

(** The first verification of a recipient: the merchant becomes active and
    gets its first key. *)
Definition activate (env : menv) (merchant challenge : rowid) (c : ChallengeRow) (m : MerchantRow)
    (g : GeneratedKey) (merchantID requestID : string) : MTx unit :=
  let now := me_now env in
  require$ bool_decide (is_Some (mr_email_verified m)) && bool_decide (mr_wallet_verified m = None) &&
           bool_decide (mr_status m = MPending) && String.eqb (mr_recipient m) (ToLower (ch_address c))
           else EForbidden ;;
  put_row merchant (merchant_with_wallet (mr_recipient m) (Some now) MActive now m) ;;$
  insert_history {| h_merchant := merchant; h_previous := None; h_new := ToLower (ch_address c);
                    h_requested := now; h_verified := now; h_challenge := challenge |} ;;$
  insert_row {| k_merchant := merchant; k_name := "initial"; k_prefix := gk_Prefix g; k_hash := gk_Hash g;
                k_created := me_db env; k_last_used := None; k_revoked := None |} ;;$
  insert_event "api_key.created" merchant "merchant" (Some merchantID) requestID.

(** The checks that depend on the action. *)
Definition action_allowed (d : mdb) (merchant : rowid) (c : ChallengeRow) (m : MerchantRow) (now : time) :
    res unit :=
  match ch_action c with
  | ActVerifyRecipient =>
      if negb (bool_decide (mr_status m = MPending)) || bool_decide (mr_email_verified m = None) ||
         bool_decide (is_Some (mr_wallet_verified m)) || negb (EqualFold (mr_recipient m) (ch_address c))
      then Err [EForbidden] else Ok tt
  | _ =>
      if negb (bool_decide (mr_status m = MActive)) || bool_decide (mr_wallet_verified m = None)
      then Err [EForbidden]
      else if EqualFold (mr_recipient m) (ch_address c) then Err [EConflict]
      else if cooling_down d merchant now then Err [EThrottled] else Ok tt
  end.

Definition verifyWallet (env : menv) (merchantID apiKey challengeID message signature expectedAction
    requestID : string) : MTx string :=
  match ScanUUID merchantID, ScanUUID challengeID with
  | Some merchant, Some challenge =>
      require$ proof_shape message signature else EInvalid ;;
      g <-$ mlift (GenerateAPIKey (Pepper cfg) (me_random env)) ;;
      d <-$ mget ;;
      match find_challenge d challenge merchant with
      | None => mfail ENotFound
      | Some c =>
          require$ bool_decide (ch_consumed c = None) && same_message c message else EInvalid ;;
          require$ String.eqb (action_wire (ch_action c)) expectedAction &&
                   negb (bool_decide (ch_action c = ActAuthenticateAdmin)) else EForbidden ;;
          match mt_merchants d !! merchant with
          | None => mfail ENotFound
          | Some m =>
              (if String.eqb apiKey EmptyString then mret tt
               else if negb (String.eqb expectedAction "change-recipient") then mfail EForbidden
               else lockAuthenticatedAPIKey merchantID apiKey ;;$ mret tt) ;;$
              let now := me_now env in
              require$ now <? ch_expires c else EInvalid ;;
              require$ is_ok (VerifyMessage message signature merchantID (ch_address c)
                                (action_wire (ch_action c)) now) else EInvalid ;;
              mlift (action_allowed d merchant c m now) ;;$
              consume_challenge challenge now ;;$
              (if bool_decide (ch_action c = ActVerifyRecipient) then
                 activate env merchant challenge c m g merchantID requestID ;;$
                 insert_event "wallet.verification_completed" merchant "merchant" (Some merchantID) requestID ;;$
                 mret (FullValue g)
               else
                 change_recipient merchant challenge c m now ;;$
                 insert_event "recipient.changed" merchant "merchant" (Some merchantID) requestID ;;$
                 mret EmptyString)
          end
      end
  | _, _ => mfail EInvalid
  end.

Definition VerifyWallet (env : menv) (merchantID challengeID message signature expectedAction
    requestID : string) : MTx string :=
  verifyWallet env merchantID EmptyString challengeID message signature expectedAction requestID.

Definition VerifyAuthenticatedWallet (env : menv) (merchantID apiKey challengeID message signature
    expectedAction requestID : string) : MTx string :=
  verifyWallet env merchantID apiKey challengeID message signature expectedAction requestID.

(** ** Managing API keys *)

(** Who asks: the panel session if one is presented, otherwise the key. *)
Definition authorize (now : time) (merchantID sessionToken apiKey : string) : MTx unit :=
  if negb (String.eqb sessionToken EmptyString)
  then lockWalletAuthenticatedAdmin now merchantID sessionToken ;;$ mret tt
  else if negb (String.eqb apiKey EmptyString)
  then lockAuthenticatedAPIKey merchantID apiKey ;;$ mret tt
  else mret tt.

Definition createAPIKey (env : menv) (merchantID sessionToken apiKey name requestID : string) :
    MTx (APIKey * string) :=
  let name := TrimSpace name in
  require$ (1 <=? String.length name)%nat && (String.length name <=? 100)%nat else EInvalid ;;
  g <-$ mlift (GenerateAPIKey (Pepper cfg) (me_random env)) ;;
  authorize (me_now env) merchantID sessionToken apiKey ;;$
  match ScanUUID merchantID with
  | None => mfail EOpaque
  | Some merchant =>
      let row := {| k_merchant := merchant; k_name := name; k_prefix := gk_Prefix g; k_hash := gk_Hash g;
                    k_created := me_db env; k_last_used := None; k_revoked := None |} in
      id <-$ insert_row row ;;
      insert_event "api_key.created" merchant "merchant" (Some merchantID) requestID ;;$
      mret (api_key id row, FullValue g)
  end.

(** [ORDER BY created_at DESC]. *)
Definition listAPIKeys (d : mdb) (merchant : rowid) : list APIKey :=
  merge_sort newest_first
    (omap (fun ik : rowid * KeyRow =>
       if bool_decide (k_merchant ik.2 = merchant) then Some (api_key ik.1 ik.2) else None)
     (map_to_list (mt_keys d))).

Definition listProtectedAPIKeys (env : menv) (merchantID sessionToken apiKey : string) : MTx (list APIKey) :=
  (if String.eqb sessionToken EmptyString then mret tt
   else lockWalletAuthenticatedAdmin (me_now env) merchantID sessionToken ;;$ mret tt) ;;$
  (if String.eqb apiKey EmptyString then mret tt
   else lockAuthenticatedAPIKey merchantID apiKey ;;$ mret tt) ;;$
  d <-$ mget ;;
  match ScanUUID merchantID with
  | None => mfail EOpaque
  | Some merchant => mret (listAPIKeys d merchant)
  end.

Definition revokeAPIKey (env : menv) (merchantID sessionToken apiKey keyID requestID : string) : MTx unit :=
  match ScanUUID merchantID, ScanUUID keyID with
  | Some merchant, Some key =>
      authorize (me_now env) merchantID sessionToken apiKey ;;$
      revoked <-$ update_row (fun i k => bool_decide (i = key) && bool_decide (k_merchant k = merchant) &&
                                bool_decide (k_revoked k = None))
                    (fun k => key_with (k_last_used k) (Some (me_db env)) k) ;;
      require$ bool_decide (is_Some revoked) else ENotFound ;;
      insert_event "api_key.revoked" merchant "merchant" (Some merchantID) requestID
  | _, _ => mfail EInvalid
  end.

(** ** Suspension *)

Definition Suspend (env : menv) (merchantID reason operator : string) (reinstate : bool) (requestID : string) :
    MTx unit :=
  match ScanUUID merchantID with
  | None => mfail EInvalid
  | Some merchant =>
      require$ (String.length reason <=? 200)%nat && negb (String.eqb operator EmptyString) else EInvalid ;;
      d <-$ mget ;;
      let now := me_db env in
      if reinstate then
        (fun d =>
           match update_row (fun _ s => bool_decide (su_merchant s = merchant) && bool_decide (su_reinstated s = None))
                   (suspension_end now operator) d with
           | Ok (Some _, d') => Ok (tt, d')
           | _ => Err [ENotFound]
           end) ;;$
        update_row (fun i _ => bool_decide (i = merchant)) (merchant_with_status MActive now) ;;$
        insert_event "merchant.reinstated" merchant "operator" (Some operator) requestID
      else
        require$ negb (String.eqb (TrimSpace reason) EmptyString) else EInvalid ;;
        require$ bool_decide (option_map mr_status (mt_merchants d !! merchant) = Some MActive) else ENotFound ;;
        (fun d =>
           match insert_row {| su_merchant := merchant; su_reason := reason; su_operator := operator;
                               su_suspended := now; su_reinstated := None |} d with
           | Ok (_, d') => Ok (tt, d')
           | Err _ => Err [EConflict]
           end) ;;$
        update_row (fun i _ => bool_decide (i = merchant)) (merchant_with_status MSuspended now) ;;$
        insert_event "merchant.suspended" merchant "operator" (Some operator) requestID
  end.

End Service.
