(* ===== verification/MerchantAdmin.v ===== *)
(** [internal/merchant/admin.go]: the sessions of the merchant panel, their
    elevation by a wallet proof, the recipient change made from the panel, and
    the merchant's consents. *)

From Stdlib Require Import ZArith Lia Ascii Strings.Byte.
From stdpp Require Import base gmap list strings.
From S2P Require Import Prelude GoStd Geth WalletProof Secret Calendar Challenge AesGcm Schema.
From S2P Require Import MerchantSchema Merchant.

Local Open Scope string_scope.
Local Open Scope Z_scope.
Local Open Scope mtx_scope.

Record AdminPrincipal := {
  ap_Merchant : rowid * MerchantRow;
  ap_WalletAuthenticated : bool;
}.

Section Admin.
  Context `{Geth} `{Siwe} `{Net} (cfg : Config).

(** A single read. *)
Definition AuthenticateAdmin (now : time) (token : string) (d : mdb) : res AdminPrincipal :=
  if negb (session_shape token) then Err [EUnauthorized]
  else
    match find_row d (fun _ s => String.eqb (s_hash s) (Hash token) && bool_decide (s_revoked s = None) &&
                        (now <? s_expires s)) with
    | None => Err [EUnauthorized]
    | Some (_, s) =>
        match mt_merchants d !! s_merchant s with
        | None => Err [EUnauthorized]
        | Some m =>
            if bool_decide (mr_status m = MRejected) then Err [EUnauthorized]
            else Ok {| ap_Merchant := (s_merchant s, m); ap_WalletAuthenticated := elevated m s |}
        end
    end.

(** [UPDATE merchant_admin_sessions SET wallet_verified_at = now WHERE ... AND
    revoked_at IS NULL AND expires_at > now]: whether a row matched. *)
Definition elevate_session (merchant : rowid) (token : string) (now : time) : MTx bool :=
  updated <-$ update_row (fun _ s => bool_decide (s_merchant s = merchant) && String.eqb (s_hash s) (Hash token) &&
                            bool_decide (s_revoked s = None) && (now <? s_expires s))
                (fun s => session_with (Some now) (s_revoked s) s) ;;
  mret (bool_decide (is_Some updated)).

(** A failed or empty update is [ErrUnauthorized]. *)
Definition must_elevate (merchant : rowid) (token : string) (now : time) : MTx unit :=
  fun d =>
    match elevate_session merchant token now d with
    | Ok (true, d') => Ok (tt, d')
    | _ => Err [EUnauthorized]
    end.

Definition admin_proof_shape (token message signature : string) : bool :=
  HasPrefix token adminSessionPrefix && proof_shape message signature.

Definition VerifyAdminWallet (env : menv) (merchantID token challengeID message signature requestID : string) :
    MTx unit :=
  match ScanUUID merchantID, ScanUUID challengeID with
  | Some merchant, Some challenge =>
      require$ admin_proof_shape token message signature else EInvalid ;;
      d <-$ mget ;;
      match find_challenge d challenge merchant, mt_merchants d !! merchant with
      | Some c, Some m =>
          require$ bool_decide (mr_status m = MActive) && EqualFold (mr_recipient m) (ch_address c)
                   else EForbidden ;;
          let now := me_now env in
          require$ bool_decide (ch_action c = ActAuthenticateAdmin) && bool_decide (ch_consumed c = None) &&
                   (now <? ch_expires c) && same_message c message else EInvalid ;;
          require$ is_ok (VerifyMessage message signature merchantID (ch_address c) "authenticate-admin" now)
                   else EInvalid ;;
          consume_challenge challenge now ;;$
          must_elevate merchant token now ;;$
          insert_event "merchant.admin_wallet_authenticated" merchant "merchant" (Some merchantID) requestID
      | _, _ => mfail ENotFound
      end
  | _, _ => mfail EInvalid
  end.

Definition VerifyAdminRecipientChange (env : menv) (merchantID token challengeID message signature
    requestID : string) : MTx unit :=
  match ScanUUID merchantID, ScanUUID challengeID with
  | Some merchant, Some challenge =>
      require$ admin_proof_shape token message signature else EInvalid ;;
      d <-$ mget ;;
      match find_challenge d challenge merchant, mt_merchants d !! merchant with
      | Some c, Some m =>
          match find_session d merchant token with
          | None => mfail EUnauthorized
          | Some (_, s) =>
              let now := me_now env in
              require$ now <? s_expires s else EUnauthorized ;;
              require$ bool_decide (ch_action c = ActChangeRecipient) && bool_decide (ch_consumed c = None) &&
                       (now <? ch_expires c) && same_message c message else EInvalid ;;
              require$ is_ok (VerifyMessage message signature merchantID (ch_address c) "change-recipient" now)
                       else EInvalid ;;
              require$ bool_decide (mr_status m = MActive) && elevated m s else EForbidden ;;
              require$ negb (EqualFold (mr_recipient m) (ch_address c)) else EConflict ;;
              require$ negb (cooling_down cfg d merchant now) else EThrottled ;;
              consume_challenge challenge now ;;$
              change_recipient merchant challenge c m now ;;$
              must_elevate merchant token now ;;$
              insert_event "recipient.changed" merchant "merchant" (Some merchantID) requestID
          end
      | _, _ => mfail ENotFound
      end
  | _, _ => mfail EInvalid
  end.

Definition MarkAdminSessionWalletVerified (env : menv) (merchantID token : string) : MTx unit :=
  match ScanUUID merchantID with
  | None => mfail EInvalid
  | Some merchant =>
      require$ HasPrefix token adminSessionPrefix else EInvalid ;;
      elevated <-$ elevate_session merchant token (me_now env) ;;
      require$ elevated else EUnauthorized ;; mret tt
  end.

Definition RevokeAdminSession (env : menv) (token : string) : MTx unit :=
  require$ session_shape token else EUnauthorized ;;
  update_row (fun _ s => String.eqb (s_hash s) (Hash token) && bool_decide (s_revoked s = None))
    (fun s => session_with (s_wallet s) (Some (me_now env)) s) ;;$
  mret tt.

(** ** Consents *)

Definition consent (enabled : bool) (existing : option time) (now : time) : option time :=
  if enabled then match existing with Some t => Some t | None => Some now end else None.

(** The two consents differ in the column and in the events. *)
Definition set_consent (env : menv) (merchantID token : string) (enabled public : bool) (requestID : string) :
    MTx (option time) :=
  match ScanUUID merchantID with
  | None => mfail EInvalid
  | Some merchant =>
      let now := me_before env in
      (if String.eqb token EmptyString then mret tt
       else lockWalletAuthenticatedAdmin (me_now env) merchantID token ;;$ mret tt) ;;$
      d <-$ mget ;;
      match mt_merchants d !! merchant with
      | None => mfail ENotFound
      | Some m =>
          require$ bool_decide (mr_status m = MActive) else EForbidden ;;
          let value := consent enabled (if public then mr_public m else mr_stats m) now in
          put_row merchant
            (if public then merchant_with_consent (mr_stats m) value now m
             else merchant_with_consent value (mr_public m) now m) ;;$
          insert_event ((if public then "merchant.public_profile_opted_" else "merchant.stats_opted_") +:+
                        (if enabled then "in" else "out")) merchant "merchant" (Some merchantID) requestID ;;$
          mret value
      end
  end.

Definition setStatsConsent (env : menv) (merchantID token : string) (enabled : bool) (requestID : string) :
    MTx (option time) := set_consent env merchantID token enabled false requestID.

Definition setPublicProfileConsent (env : menv) (merchantID token : string) (enabled : bool)
    (requestID : string) : MTx (option time) := set_consent env merchantID token enabled true requestID.

End Admin.
