(* ===== verification/EmailDelivery.v ===== *)
(** [internal/merchant/email_delivery.go]: the worker that mails the sealed
    tokens of the outbox.

    A delivery is several transactions with the SMTP exchange between them:
    [others] is what the rest of the system does to the database meanwhile.
    Rows another worker has locked are an argument of the scans. *)

From Stdlib Require Import ZArith Lia Ascii Strings.Byte.
From stdpp Require Import base gmap list strings sorting.
From S2P Require Import Prelude GoStd Geth WalletProof Secret Calendar Challenge AesGcm Schema.
From S2P Require Import MerchantSchema Merchant.

Local Open Scope string_scope.
Local Open Scope Z_scope.
Local Open Scope mtx_scope.

Definition emailRetryMinimum : duration := 5 * second.
Definition emailRetryMaximum : duration := 5 * minute.
Definition emailDeliveryBatch : nat := 25.

(** [for i := 1; i < attempt && delay < emailRetryMaximum; i++]; each turn
    doubles the delay, so the number of turns is at most [attempt - 1]. *)
Fixpoint double_until (turns : nat) (delay : duration) : duration :=
  match turns with
  | O => delay
  | S turns => if delay <? emailRetryMaximum then double_until turns (delay * 2) else delay
  end.

Definition retryDelay (attempt : Z) : duration :=
  if attempt <? 1 then emailRetryMinimum
  else Z.min emailRetryMaximum (double_until (Z.to_nat (attempt - 1)) emailRetryMinimum).

(** ** net/url and strings *)

Definition upper_hex (n : N) : ascii := ascii_of_N (if (n <? 10)%N then 48 + n else 55 + n).

Definition unreserved (c : ascii) : bool :=
  let n := N_of_ascii c in
  ((65 <=? n) && (n <=? 90) || (97 <=? n) && (n <=? 122) || (48 <=? n) && (n <=? 57) ||
   (n =? 45) || (n =? 95) || (n =? 46) || (n =? 126))%N.

Fixpoint QueryEscape (s : string) : string :=
  match s with
  | EmptyString => EmptyString
  | String c s =>
      let n := N_of_ascii c in
      if (n =? 32)%N then String "+" (QueryEscape s)
      else if unreserved c then String c (QueryEscape s)
      else String "%" (String (upper_hex (n / 16)%N) (String (upper_hex (n mod 16)%N) (QueryEscape s)))
  end.

(** [strings.TrimRight(s, "/")]. *)
Fixpoint trim_slashes (s : string) : string :=
  match s with
  | String c r =>
      match trim_slashes r with
      | EmptyString => if Ascii.eqb c "/" then EmptyString else String c EmptyString
      | r => String c r
      end
  | EmptyString => EmptyString
  end.

(** ** The outbox *)

(** A row with its delivery state replaced. *)
Definition outbox_with (ciphertext : option (list byte)) (claim : option (time * rowid)) (attempts : Z)
    (next : time) (delivered abandoned : option time) (now : time) (o : OutboxRow) : OutboxRow :=
  {| ob_merchant := ob_merchant o; ob_token := ob_token o; ob_kind := ob_kind o; ob_ciphertext := ciphertext;
     ob_request := ob_request o; ob_attempts := attempts; ob_next := next;
     ob_claimed_until := option_map fst claim; ob_claim := option_map snd claim;
     ob_delivered := delivered; ob_abandoned := abandoned; ob_created := ob_created o; ob_updated := now |}.

Definition undecided (o : OutboxRow) : bool :=
  bool_decide (ob_delivered o = None) && bool_decide (ob_abandoned o = None).

Definition unclaimed (now : time) (o : OutboxRow) : bool :=
  match ob_claimed_until o with None => true | Some until => until <=? now end.

Definition abandon_row (now : time) (o : OutboxRow) : OutboxRow :=
  outbox_with None None (ob_attempts o) (ob_next o) (ob_delivered o) (Some now) now o.

Definition deliver_row (now : time) (o : OutboxRow) : OutboxRow :=
  outbox_with None None (ob_attempts o) (ob_next o) (Some now) (ob_abandoned o) now o.

Definition by_key (a b : Z * rowid * OutboxRow) : Prop := a.1.1 <= b.1.1.

#[export] Instance by_key_dec : RelDecision by_key.
Proof. intros a b. unfold by_key. apply _. Defined.

(** The rows satisfying a condition on the row and its token, by a key. *)
Definition select_outbox (d : mdb) (cond : rowid -> OutboxRow -> TokenRow -> bool)
    (key : OutboxRow -> TokenRow -> Z) : list (rowid * OutboxRow) :=
  map (fun x => (x.1.2, x.2)) (merge_sort by_key
    (omap (fun io : rowid * OutboxRow =>
       match mt_tokens d !! ob_token io.2 with
       | Some t => if cond io.1 io.2 t then Some (key io.2 t, io.1, io.2) else None
       | None => None
       end) (map_to_list (mt_outbox d)))).

Fixpoint put_rows (l : list (rowid * OutboxRow)) : MTx unit :=
  match l with
  | [] => mret tt
  | (i, o) :: l => put_row i o ;;$ put_rows l
  end.

(** Expired links are never sent: at most a hundred are retired per call. *)
Definition abandon_expired (now : time) (locked : rowid -> bool) : MTx unit :=
  d <-$ mget ;;
  put_rows (map (fun io => (io.1, abandon_row now io.2))
    (take 100 (select_outbox d (fun i o t => undecided o && (tk_expires t <=? now) && unclaimed now o &&
                                  negb (locked i)) (fun _ t => tk_expires t)))).

Record emailDelivery := {
  ed_id : rowid;
  ed_tokenID : rowid;
  ed_tokenHash : string;
  ed_merchant : rowid;
  ed_claimToken : rowid;
  ed_kind : string;
  ed_recipient : string;
  ed_ciphertext : list byte;
  ed_expiresAt : time;
  ed_attempts : Z;
}.

(** The oldest due row is claimed until [until]; [only] restricts the scan to
    one row. *)
Definition claim_next (now until : time) (only : option rowid) (locked : rowid -> bool) :
    MTx (option emailDelivery) :=
  d <-$ mget ;;
  match select_outbox d (fun i o t => undecided o && (ob_next o <=? now) && unclaimed now o &&
                           (now <? tk_expires t) && negb (locked i) &&
                           match only with Some j => bool_decide (i = j) | None => true end)
          (fun o _ => ob_created o) with
  | [] => mret None
  | (i, o) :: _ =>
      match mt_tokens d !! ob_token o, mt_merchants d !! ob_merchant o with
      | Some t, Some m =>
          claim <-$ m_fresh ;;
          put_row i (outbox_with (ob_ciphertext o) (Some (until, claim)) (ob_attempts o + 1) (ob_next o)
                       (ob_delivered o) (ob_abandoned o) now o) ;;$
          mret (Some {| ed_id := i; ed_tokenID := ob_token o; ed_tokenHash := tk_hash t;
                        ed_merchant := ob_merchant o; ed_claimToken := claim; ed_kind := ob_kind o;
                        ed_recipient := mr_email m; ed_ciphertext := default [] (ob_ciphertext o);
                        ed_expiresAt := tk_expires t; ed_attempts := ob_attempts o + 1 |})
      | _, _ => mret None
      end
  end.

(** [WHERE id = item.id AND claim_token = item.claimToken AND delivered_at IS
    NULL AND abandoned_at IS NULL]. *)
Definition owned (item : emailDelivery) (i : rowid) (o : OutboxRow) : bool :=
  bool_decide (i = ed_id item) && bool_decide (ob_claim o = Some (ed_claimToken item)) && undecided o.

Definition abandonCorruptEmail (now : time) (item : emailDelivery) : MTx unit :=
  update_row (owned item) (abandon_row now) ;;$ mret tt.

Definition release_failed (now : time) (item : emailDelivery) : MTx unit :=
  update_row (owned item) (fun o =>
    outbox_with (ob_ciphertext o) None (ob_attempts o) (now + retryDelay (ed_attempts item))
      (ob_delivered o) (ob_abandoned o) now o) ;;$ mret tt.

Definition mark_delivered (now : time) (item : emailDelivery) : MTx unit :=
  updated <-$ update_row (owned item) (deliver_row now) ;;
  match updated with
  | None => mret tt
  | Some _ =>
      update_row (fun i t => bool_decide (i = ed_tokenID item) && bool_decide (tk_sent t = None))
        (token_send now) ;;$ mret tt
  end.

(** [email.Message]. *)
Record Message := {
  em_To : string;
  em_Subject : string;
  em_TextBody : string;
}.

Section Delivery.
  Context `{Net} (cfg : Config).

Definition email_link (rawToken : string) : string :=
  trim_slashes (BaseURL cfg) +:+ "/verify-email?token=" +:+ QueryEscape rawToken.

Definition email_message (item : emailDelivery) (rawToken : string) : Message :=
  if String.eqb (ed_kind item) "admin_login" then
    {| em_To := ed_recipient item; em_Subject := "Sign in to ETH402";
       em_TextBody := "Sign in to your ETH402 merchant panel: " +:+ email_link rawToken |}
  else
    {| em_To := ed_recipient item; em_Subject := "Verify your ETH402 email";
       em_TextBody := "Verify your email: " +:+ email_link rawToken |}.

(** The clock when the delivery starts and when the mail has been handed
    over, the rows others hold, the mail server's verdict and what the rest
    of the system did meanwhile. *)
Record delivery_env := {
  de_start : time;
  de_finish : time;
  de_locked : rowid -> bool;
  de_accepts : Message -> bool;
  de_others : mdb -> mdb;
}.

(** Whether a row was found, the mail handed to the server, the database. *)
Definition deliverNext (env : delivery_env) (only : option rowid) (d : mdb) :
    res bool * list Message * mdb :=
  let lease := if EmailDeliveryLease cfg <=? 0 then minute else EmailDeliveryLease cfg in
  match abandon_expired (de_start env) (de_locked env) d with
  | Err e => (Err e, [], d)
  | Ok (_, d) =>
      match claim_next (de_start env) (de_start env + lease) only (de_locked env) d with
      | Err e => (Err e, [], d)
      | Ok (None, d) => (Ok false, [], d)
      | Ok (Some item, d) =>
          let finish (mail : list Message) (m : MTx unit) (d : mdb) :=
            match m d with Ok (_, d) => (Ok true, mail, d) | Err e => (Err e, mail, d) end in
          match openEmailToken (emailOutboxKey cfg) (ed_ciphertext item) (uuid_text (ed_merchant item))
                  (ed_tokenHash item) (ed_kind item) with
          | None => finish [] (abandonCorruptEmail (de_finish env) item) d
          | Some raw =>
              let mail := email_message item raw in
              finish [mail] (if de_accepts env mail then mark_delivered (de_finish env) item
                             else release_failed (de_finish env) item) (de_others env d)
          end
      end
  end.

(** One batch: until nothing is due, something fails or the batch is full. *)
Fixpoint DeliverPendingEmail (batch : nat) (envs : nat -> delivery_env) (k : nat) (d : mdb) :
    Z * option error * list Message * mdb :=
  match batch with
  | O => (0, None, [], d)
  | S batch =>
      match deliverNext (envs k) None d with
      | (Err e, mail, d) => (0, Some e, mail, d)
      | (Ok false, mail, d) => (0, None, mail, d)
      | (Ok true, mail, d) =>
          let '(processed, e, rest, d) := DeliverPendingEmail batch envs (S k) d in
          (processed + 1, e, (mail ++ rest)%list, d)
      end
  end.

End Delivery.
