(* ===== verification/Smtp.v ===== *)
(** internal/email/smtp.go: message submission over mandatory TLS.

    A session is the sequence of steps taken with the server and their
    outcomes, the latest first; the server decides each outcome from the steps
    before it.  The text of the date in a message comes with the call. *)

From Stdlib Require Import ZArith Lia Ascii.
From stdpp Require Import base strings list.
From S2P Require Import Prelude GoStd GoNet Secret EmailDelivery.

Local Open Scope string_scope.
Local Open Scope Z_scope.

Definition SMTPModeSTARTTLS : string := "starttls".
Definition SMTPModeTLS : string := "tls".

Record SMTPConfig := {
  sc_Address : string;
  sc_Username : string;
  sc_Password : string;
  sc_From : string;
  sc_TLSMode : string;
  sc_Timeout : Z;
}.

Record SMTPSender := {
  sd_address : string;
  sd_host : string;
  sd_username : string;
  sd_password : string;
  sd_from : MailAddress;
  sd_tlsMode : string;
  sd_timeout : Z;
}.

(** ** Sessions *)

Inductive smtp_error :=
  | ReplyCode (code : Z) (text : string)
  | ContextCanceled
  | DeadlineExceeded
  | OtherError (text : string).

Inductive smtp_step :=
  | Dial (address : string)
  | SetDeadline
  | Handshake (host : string)
  | NewClient (host : string)
  | ExtensionSTARTTLS
  | StartTLS (host : string)
  | Auth (username password host : string)
  | MailFrom (address : string)
  | RcptTo (address : string)
  | Data
  | Write (text : string)
  | EndData
  | Noop
  | Quit.

Definition session : Type := list (smtp_step * option smtp_error).

(** What the sender reports: never the text of the server. *)
Inductive send_error :=
  | Failed (text : string)
  | FailedStatus (stage : string) (code : Z).

Definition smtpError (stage : string) (e : smtp_error) : send_error :=
  match e with
  | ReplyCode code _ => FailedStatus stage code
  | ContextCanceled => Failed ("SMTP " +:+ stage +:+ " canceled")
  | DeadlineExceeded => Failed ("SMTP " +:+ stage +:+ " timed out")
  | OtherError _ => Failed ("SMTP " +:+ stage +:+ " failed")
  end.

Definition smtp (A : Type) : Type := session -> (A + send_error) * session.

Definition sret {A} (a : A) : smtp A := fun s => (inl a, s).
Definition sfail {A} (e : send_error) : smtp A := fun s => (inr e, s).

Definition sbind {A B} (m : smtp A) (k : A -> smtp B) : smtp B :=
  fun s => match m s with (inl a, s) => k a s | (inr e, s) => (inr e, s) end.

Declare Scope smtp_scope.
Notation "x <-@ m ;; k" := (sbind m (fun x => k)) (at level 100, m at next level, right associativity) : smtp_scope.
Notation "m ;;@ k" := (sbind m (fun _ => k)) (at level 100, right associativity) : smtp_scope.
Local Open Scope smtp_scope.

Section Sender.
  Context `{Mail} (server : session -> smtp_step -> option smtp_error).

Definition take_step (step : smtp_step) (fail : smtp_error -> send_error) : smtp unit :=
  fun s =>
    let r := server s step in
    (match r with None => inl tt | Some e => inr (fail e) end, (step, r) :: s).

Definition stage (name : string) (step : smtp_step) : smtp unit := take_step step (smtpError name).

(** ** Construction *)

Definition has_line_break (s : string) : bool := negb (all_chars (fun c => negb ((code c =? 13) || (code c =? 10))) s).

Definition parseMailbox (value : string) : option MailAddress :=
  if String.eqb value EmptyString || has_line_break value then None
  else
    match ParseAddress value with
    | Some address => if String.eqb (ma_Address address) EmptyString then None else Some address
    | None => None
    end.

Definition NewSMTPSender (cfg : SMTPConfig) : SMTPSender + string :=
  match SplitHostPort (sc_Address cfg) with
  | None | Some (EmptyString, _) => inr "SMTP address must be host:port"
  | Some (host, _) =>
      if negb (String.eqb (sc_TLSMode cfg) SMTPModeSTARTTLS) && negb (String.eqb (sc_TLSMode cfg) SMTPModeTLS) then
        inr "SMTP TLS mode must be starttls or tls"
      else if sc_Timeout cfg <=? 0 then inr "SMTP timeout must be positive"
      else if negb (Bool.eqb (String.eqb (sc_Username cfg) EmptyString) (String.eqb (sc_Password cfg) EmptyString)) then
        inr "SMTP username and password must be configured together"
      else
        match parseMailbox (sc_From cfg) with
        | None => inr "SMTP from address is invalid"
        | Some from =>
            inl {| sd_address := sc_Address cfg; sd_host := host; sd_username := sc_Username cfg;
                   sd_password := sc_Password cfg; sd_from := from; sd_tlsMode := sc_TLSMode cfg;
                   sd_timeout := sc_Timeout cfg |}
        end
  end.

(** ** Messages *)

Definition crlf : string := String "013" (String "010" EmptyString).

Definition headers (s : SMTPSender) (date : string) (message : Message) (to : MailAddress) : list string :=
  ["Date: " +:+ date; "From: " +:+ address_String (sd_from s); "To: " +:+ address_String to;
   "Subject: " +:+ QEncoding (em_Subject message); "MIME-Version: 1.0"; "Content-Type: text/plain; charset=UTF-8";
   "Content-Transfer-Encoding: quoted-printable"].

Definition encode (s : SMTPSender) (date : string) (message : Message) (to : MailAddress) : string + send_error :=
  if has_line_break (em_Subject message) then inr (Failed "email subject contains a line break")
  else if existsb has_line_break (headers s date message to) then inr (Failed "email header contains a line break")
  else inl (String.concat EmptyString (map (fun h => h +:+ crlf) (headers s date message to)) +:+ crlf +:+
            quotedprintable (em_TextBody message)).

(** ** Delivery *)

(** Whether the connection is encrypted: a handshake completed. *)
Definition is_tls (s : session) : bool :=
  existsb (fun p => match p with (Handshake _, None) | (StartTLS _, None) => true | _ => false end) s.

Definition protected_session : smtp unit :=
  fun s => if is_tls s then (inl tt, s) else (inr (Failed "SMTP session is not protected by TLS"), s).

Definition open_client (s : SMTPSender) : smtp unit :=
  if String.eqb (sd_tlsMode s) SMTPModeTLS then
    stage "TLS handshake" (Handshake (sd_host s)) ;;@
    stage "session setup" (NewClient (sd_host s))
  else if String.eqb (sd_tlsMode s) SMTPModeSTARTTLS then
    stage "session setup" (NewClient (sd_host s)) ;;@
    take_step ExtensionSTARTTLS (fun _ => Failed "SMTP server does not advertise required STARTTLS") ;;@
    stage "session setup" (StartTLS (sd_host s))
  else sfail (Failed "SMTP TLS mode is invalid").

Definition open (s : SMTPSender) : smtp unit :=
  stage "connect" (Dial (sd_address s)) ;;@
  take_step SetDeadline (fun _ => Failed "SMTP deadline setup failed") ;;@
  open_client s ;;@
  protected_session ;;@
  if String.eqb (sd_username s) EmptyString then sret tt
  else stage "authentication" (Auth (sd_username s) (sd_password s) (sd_host s)).

Definition Send (s : SMTPSender) (date : string) (message : Message) : smtp unit :=
  match parseMailbox (em_To message) with
  | None => sfail (Failed "email recipient is invalid")
  | Some to =>
      match encode s date message to with
      | inr e => sfail e
      | inl encoded =>
          open s ;;@
          stage "sender" (MailFrom (ma_Address (sd_from s))) ;;@
          stage "recipient" (RcptTo (ma_Address to)) ;;@
          stage "data" Data ;;@
          stage "body" (Write encoded) ;;@
          stage "delivery" EndData ;;@
          stage "quit" Quit
      end
  end.

Definition Probe (s : SMTPSender) : smtp unit :=
  open s ;;@
  stage "probe" Noop ;;@
  stage "quit" Quit.

End Sender.

(** ** Nothing is submitted in the clear *)

(** The steps that disclose credentials or mail. *)
Definition sensitive (step : smtp_step) : bool :=
  match step with Auth _ _ _ | MailFrom _ | RcptTo _ | Data | Write _ => true | _ => false end.

Definition guarded (s : session) : Prop :=
  forall l1 step r l2, s = (l1 ++ (step, r) :: l2)%list -> sensitive step = true -> is_tls l2 = true.

(** A program that keeps sessions guarded, and leaves a session satisfying [Q]
    when it succeeds. *)
Definition keeps_guarded {A} (P : session -> Prop) (m : smtp A) (Q : session -> Prop) : Prop :=
  forall s, guarded s -> P s -> guarded (snd (m s)) /\ (forall a, fst (m s) = inl a -> Q (snd (m s))).

Lemma guarded_cons s step r : guarded s -> (sensitive step = true -> is_tls s = true) -> guarded ((step, r) :: s).
Proof.
  intros G H [|p l1] st r' l2 E Hs; simplify_list_eq; [by apply H|]. by eapply G.
Qed.

Lemma is_tls_cons p s : is_tls s = true -> is_tls (p :: s) = true.
Proof. unfold is_tls. simpl. intros ->. by rewrite orb_true_r. Qed.

Section Guarded.
  Context `{Mail} (server : session -> smtp_step -> option smtp_error).

Lemma guarded_bind {A B} (P Q R : session -> Prop) (m : smtp A) (k : A -> smtp B) :
  keeps_guarded P m Q -> (forall a, keeps_guarded Q (k a) R) -> keeps_guarded P (sbind m k) R.
Proof.
  intros Hm Hk s G HP. destruct (Hm s G HP) as [G1 H1]. unfold sbind. destruct (m s) as [[a|e] s1]; cbn in *.
  - apply Hk; [done|]. by eapply H1.
  - done.
Qed.

Lemma keeps_step (P : session -> Prop) step f :
  (forall s, P s -> sensitive step = true -> is_tls s = true) ->
  keeps_guarded P (take_step server step f) (fun s => exists s0, s = (step, None) :: s0 /\ P s0).
Proof.
  intros HP s G Hs. unfold take_step. cbn. split; [by apply guarded_cons; auto|].
  destruct (server s step); [done|]. intros _ _. by exists s.
Qed.

Lemma keeps_secure step f : keeps_guarded (fun s => is_tls s = true) (take_step server step f) (fun s => is_tls s = true).
Proof.
  intros s G Hs. destruct (keeps_step (fun s => is_tls s = true) step f) with (s := s) as [G1 H1]; [auto..|].
  split; [done|]. intros a E. destruct (H1 a E) as (s0 & -> & H0). by apply is_tls_cons.
Qed.

Lemma keeps_plain step f : sensitive step = false ->
  keeps_guarded (fun _ => True) (take_step server step f) (fun _ => True).
Proof.
  intros Hs s G _. destruct (keeps_step (fun _ => True) step f) with (s := s) as [G1 _]; [congruence|done..|].
  by split.
Qed.

Lemma keeps_open s : keeps_guarded (fun _ => True) (open server s) (fun s => is_tls s = true).
Proof.
  unfold open, stage. apply guarded_bind with (fun _ => True); [by apply keeps_plain|intros _].
  apply guarded_bind with (fun _ => True); [by apply keeps_plain|intros _].
  apply guarded_bind with (fun _ => True); [|intros _].
  - unfold open_client, stage. destruct (String.eqb _ _); [|destruct (String.eqb _ _)].
    + apply guarded_bind with (fun _ => True); [by apply keeps_plain|intros _]. by apply keeps_plain.
    + apply guarded_bind with (fun _ => True); [by apply keeps_plain|intros _].
      apply guarded_bind with (fun _ => True); [by apply keeps_plain|intros _]. by apply keeps_plain.
    + by intros s' G _.
  - apply guarded_bind with (fun s => is_tls s = true).
    + intros s' G _. unfold protected_session. by destruct (is_tls s') eqn:E.
    + intros _. destruct (String.eqb _ _); [by intros s' G Hs|apply keeps_secure].
Qed.

Lemma keeps_Send s date message : keeps_guarded (fun _ => True) (Send server s date message) (fun s => is_tls s = true).
Proof.
  unfold Send, stage. destruct (parseMailbox _); [|by intros ? ? ?]. destruct (encode _ _ _ _); [|by intros ? ? ?].
  apply guarded_bind with (fun s => is_tls s = true); [apply keeps_open|intros _].
  repeat (apply guarded_bind with (fun s => is_tls s = true); [apply keeps_secure|intros _]). apply keeps_secure.
Qed.

Lemma keeps_Probe s : keeps_guarded (fun _ => True) (Probe server s) (fun s => is_tls s = true).
Proof.
  unfold Probe, stage. apply guarded_bind with (fun s => is_tls s = true); [apply keeps_open|intros _].
  apply guarded_bind with (fun s => is_tls s = true); [apply keeps_secure|intros _]. apply keeps_secure.
Qed.

End Guarded.

(** ** Headers *)

(** The header lines of a message, up to the first empty line. *)
Fixpoint header_lines (line s : string) : list string :=
  match s with
  | String "013" (String "010" r) => if String.eqb line EmptyString then [] else line :: header_lines EmptyString r
  | String c r => header_lines (line +:+ String c EmptyString) r
  | EmptyString => [line]
  end.

Lemma header_lines_cons line c r :
  has_line_break (String c EmptyString) = false -> header_lines line (String c r) = header_lines (line +:+ String c EmptyString) r.
Proof. intros Hc. destruct c as [[] [] [] [] [] [] [] []]; try done; discriminate Hc. Qed.

Lemma str_app_assoc (a b c : string) : (a +:+ b) +:+ c = a +:+ (b +:+ c).
Proof. induction a as [|x a IH]; simpl; [done|by rewrite IH]. Qed.

Lemma has_line_break_cons c s :
  has_line_break (String c s) = has_line_break (String c EmptyString) || has_line_break s.
Proof. unfold has_line_break. simpl. by destruct (_ || _). Qed.

Lemma header_lines_app line h r :
  has_line_break h = false ->
  header_lines line (h +:+ crlf +:+ r) =
    if String.eqb (line +:+ h) EmptyString then [] else (line +:+ h) :: header_lines EmptyString r.
Proof.
  revert line. induction h as [|c h IH]; intros line Hh.
  - assert (line +:+ EmptyString = line) as -> by (induction line as [|x l IHl]; simpl; [done|by rewrite IHl]).
    reflexivity.
  - rewrite has_line_break_cons in Hh. apply orb_false_iff in Hh as [Hc Hh].
    cbn [String.append]. rewrite header_lines_cons by done. rewrite IH by done. by rewrite str_app_assoc.
Qed.

Lemma header_lines_all hs body :
  Forall (fun h => has_line_break h = false /\ h <> EmptyString) hs ->
  header_lines EmptyString (String.concat EmptyString (map (fun h => h +:+ crlf) hs) +:+ crlf +:+ body) = hs.
Proof.
  assert (forall l : list string, String.concat EmptyString l = foldr String.append EmptyString l) as Hc.
  { intros l. induction l as [|x [|y l] IH]; [done|by simpl; induction x as [|a x IHx]; simpl; [|rewrite <- IHx]|].
    change (String.concat EmptyString (x :: y :: l)) with (x +:+ String.concat EmptyString (y :: l)). by rewrite IH. }
  rewrite Hc. induction 1 as [|h hs [Hb Hne] _ IH]; [reflexivity|]. cbn [map foldr].
  rewrite !str_app_assoc, header_lines_app by done.
  change (EmptyString +:+ h) with h.
  destruct (String.eqb_spec h EmptyString); [done|]. by rewrite IH.
Qed.

Section Headers.
  Context `{Mail}.

(** The caller's text cannot add a header. *)
Lemma encode_headers s date message to text :
  encode s date message to = inl text -> header_lines EmptyString text = headers s date message to.
Proof.
  unfold encode. destruct (has_line_break _); [done|]. remember (headers s date message to) as hs eqn:Hhs.
  destruct (existsb _ _) eqn:E; [done|]. intros [= <-]. apply header_lines_all.
  assert (forall h, In h hs -> has_line_break h = false /\ h <> EmptyString) as Hh.
  { intros h Hin. split.
    - destruct (has_line_break h) eqn:Eh; [|done]. rewrite <- E. symmetry. apply existsb_exists. eauto.
    - subst hs. unfold headers in Hin. cbn [In] in Hin. intuition (subst; done). }
  by apply List.Forall_forall.
Qed.

End Headers.
