(* ===== verification/FairUse.v ===== *)
(** Fair use: [internal/store/fairuse.go] counts the authenticated requests of
    a merchant in tumbling windows, [internal/httpapi/fairuse.go] decides on
    the count. *)

From Stdlib Require Import ZArith Lia.
From stdpp Require Import base gmap list strings fin_maps.
From S2P Require Import Prelude GoStd Calendar Schema MerchantSchema.

Local Open Scope Z_scope.
Local Open Scope mtx_scope.

Record FairUse := {
  fu_Limit : Z;
  fu_Used : Z;
  fu_ResetsAt : time;
  fu_Exceeded : bool;
  fu_Remaining : Z;
}.

Definition CountMerchantRequest (merchant : rowid) (limit : Z) (window : duration) (now : time) : MTx FairUse :=
  if (limit <=? 0) || (window <=? 0) then mfail EOpaque
  else
    let start := Truncate now window in
    d <-$ mget ;;
    let used := default 0 (mt_usage d !! (merchant, start)) + 1 in
    require$ merchant_exists d merchant else ECheckViolation ;;
    require$ used <? 2 ^ 63 else EOpaque ;;
    mput (set_mt_usage d (<[(merchant, start) := used]> (mt_usage d))) ;;$
    mret {| fu_Limit := limit; fu_Used := used; fu_ResetsAt := start + window;
            fu_Exceeded := limit <? used; fu_Remaining := Z.max 0 (limit - used) |}.

(** One extra window of history is kept. *)
Definition prune_before (window : duration) (now : time) : time := Truncate (now - 2 * window) window.

Definition PruneMerchantUsage (window : duration) (now : time) : MTx Z :=
  if window <=? 0 then mfail EOpaque
  else
    d <-$ mget ;;
    let kept := filter (fun kv : rowid * time * Z => prune_before window now <= kv.1.2) (mt_usage d) in
    mput (set_mt_usage d kept) ;;$
    mret (Z.of_nat (size (mt_usage d)) - Z.of_nat (size kept)).

(** What the middleware hears of the accounting: the count, or an error of the
    database, before the count was committed or after. *)
Inductive accounting := Answered | Failed (committed : bool).

(** The middleware: whether the request is served.  Without an accountant, and
    when the accounting fails, it is. *)
Definition fairUse (enabled : bool) (how : accounting) (merchant : rowid) (limit : Z) (window : duration) (now : time)
    (d : mdb) : bool * mdb :=
  if negb enabled || (limit <=? 0) || (window <=? 0) then (true, d)
  else
    match CountMerchantRequest merchant limit window now d, how with
    | Ok (usage, d'), Answered => (negb (fu_Exceeded usage), d')
    | Ok (_, d'), Failed true => (true, d')
    | _, _ => (true, d)
    end.

(** ** Histories *)

Inductive usage_op :=
  | Request (merchant : rowid) (now : time) (how : accounting)
  | Prune (now : time).

Definition answered (how : accounting) : bool := if how is Answered then true else false.
Definition failed (how : accounting) : bool := negb (answered how).
Definition lost (how : accounting) : bool := if how is Failed true then true else false.

Section Windows.
  Context (limit : Z) (window : duration).

Definition usage_step (op : usage_op) (d : mdb) : option bool * mdb :=
  match op with
  | Request m now how => let '(served, d') := fairUse true how m limit window now d in (Some served, d')
  | Prune now =>
      (None, match PruneMerchantUsage window now d with Ok (_, d') => d' | Err _ => d end)
  end.

(** The requests of a merchant that were served in the window starting at
    [start]. *)
Fixpoint served_in (m : rowid) (start : time) (ops : list usage_op) (d : mdb) : Z :=
  match ops with
  | [] => 0
  | op :: ops =>
      let '(served, d') := usage_step op d in
      (match op, served with
       | Request m' now _, Some true => if bool_decide (m' = m /\ Truncate now window = start) then 1 else 0
       | _, _ => 0
       end) + served_in m start ops d'
  end.

(** The requests made in the window whose accounting went as [f] says. *)
Fixpoint count_in (f : accounting -> bool) (m : rowid) (start : time) (ops : list usage_op) : Z :=
  match ops with
  | [] => 0
  | Request m' now how :: ops =>
      (if bool_decide (m' = m /\ Truncate now window = start) && f how then 1 else 0) + count_in f m start ops
  | Prune _ :: ops => count_in f m start ops
  end.

(** No request comes with a clock in a window that an earlier pruning counted
    as over for two more windows. *)
Fixpoint clocks_agree (start : time) (ops : list usage_op) : Prop :=
  match ops with
  | [] => True
  | Prune now :: ops =>
      (now < start + 3 * window \/ forall m t how, Request m t how ∈ ops -> Truncate t window <> start) /\
      clocks_agree start ops
  | _ :: ops => clocks_agree start ops
  end.

(** ** Lemmas *)

Context (Hlimit : 0 < limit) (Hwindow : 0 < window).

Lemma Truncate_bounds t d : 0 < d -> Truncate t d <= t < Truncate t d + d.
Proof.
  intros Hd. unfold Truncate. destruct (Z.leb_spec d 0); [lia|].
  pose proof (Z.mod_pos_bound (t - zeroTime) d Hd). lia.
Qed.

Lemma Truncate_multiple t d : 0 < d -> exists k, Truncate t d = zeroTime + k * d.
Proof.
  intros Hd. unfold Truncate. destruct (Z.leb_spec d 0); [lia|]. exists ((t - zeroTime) / d).
  pose proof (Z.div_mod (t - zeroTime) d ltac:(lia)). lia.
Qed.

(** A window still counts when less than three windows have begun since. *)
Lemma kept_window t now :
  now < Truncate t window + 3 * window -> prune_before window now <= Truncate t window.
Proof.
  intros Hn. unfold prune_before. pose proof (Truncate_bounds (now - 2 * window) window Hwindow) as B.
  destruct (Truncate_multiple t window Hwindow) as [k Hk].
  destruct (Truncate_multiple (now - 2 * window) window Hwindow) as [j Hj]. rewrite Hk, Hj in *.
  assert (j * window < (k + 1) * window) by lia. assert (j < k + 1) by nia. nia.
Qed.

Definition uses (d : mdb) (m : rowid) (start : time) : Z := default 0 (mt_usage d !! (m, start)).

Lemma fairUse_request how m now d :
  let u := uses d m (Truncate now window) in
  let n := if answered how || lost how then 1 else 0 in
  merchant_exists d m = true -> u + n < 2 ^ 63 ->
  exists d', fairUse true how m limit window now d = (failed how || (u + 1 <=? limit), d') /\
    mt_merchants d' = mt_merchants d /\ uses d' m (Truncate now window) = u + n.
Proof.
  intros u n Hm Hu. unfold fairUse, CountMerchantRequest, mbind, mget, mput, mret, mfail.
  destruct (Z.leb_spec limit 0); [lia|]. destruct (Z.leb_spec window 0); [lia|]. cbn [negb orb].
  fold (uses d m (Truncate now window)). fold u. rewrite Hm. unfold n in *.
  destruct how as [|[]]; cbn [failed answered lost negb orb] in *.
  3: { exists d. rewrite Z.add_0_r. destruct (_ <? 2 ^ 63); done. }
  all: rewrite (proj2 (Z.ltb_lt _ (2 ^ 63)) Hu); cbn [fu_Exceeded]; rewrite <- ?Z.leb_antisym; eexists;
    (split; [reflexivity|]); (split; [done|]); unfold uses; cbn; by rewrite lookup_insert_eq.
Qed.

Lemma fairUse_other how m now d served d' m0 start :
  fairUse true how m limit window now d = (served, d') -> (m, Truncate now window) <> (m0, start) ->
  mt_merchants d' = mt_merchants d /\ uses d' m0 start = uses d m0 start.
Proof.
  unfold fairUse, CountMerchantRequest, mbind, mget, mput, mret, mfail.
  destruct (Z.leb_spec limit 0); [lia|]. destruct (Z.leb_spec window 0); [lia|]. cbn [negb orb].
  destruct (merchant_exists d m); [|by intros [= <- <-]]. destruct (_ <? 2 ^ 63); [|by intros [= <- <-]].
  destruct how as [|[]]; intros [= <- <-] Hne; (split; [done|]); unfold uses; cbn; by rewrite ?lookup_insert_ne.
Qed.

Lemma prune_kept now d m t :
  now < Truncate t window + 3 * window ->
  uses (usage_step (Prune now) d).2 m (Truncate t window) = uses d m (Truncate t window).
Proof.
  intros Hn. unfold usage_step, PruneMerchantUsage, mbind, mget, mput, mret.
  destruct (Z.leb_spec window 0); [lia|]. cbn [snd]. unfold uses. cbn [mt_usage set_mt_usage].
  destruct (mt_usage d !! (m, Truncate t window)) as [u|] eqn:E.
  - rewrite (map_lookup_filter_Some_2 _ _ _ u); [done | done | by apply kept_window].
  - rewrite map_lookup_filter_None_2; [done | by left].
Qed.

Lemma prune_merchants now d : mt_merchants (usage_step (Prune now) d).2 = mt_merchants d.
Proof. unfold usage_step, PruneMerchantUsage, mbind, mget, mput, mret, mfail. by destruct (window <=? 0). Qed.

Lemma unasked m start ops d :
  (forall m t how, Request m t how ∈ ops -> Truncate t window <> start) ->
  served_in m start ops d = 0 /\ forall f, count_in f m start ops = 0.
Proof.
  revert d. induction ops as [|op ops IH]; intros d Hno; [done|].
  assert (forall m t how, Request m t how ∈ ops -> Truncate t window <> start) as Hno'
    by (intros m' t how Hin; by eapply Hno, elem_of_cons; right).
  cbn [served_in count_in]. destruct op as [m' now how|now]; destruct (usage_step _ _) as [served d'];
    destruct (IH d' Hno') as [-> IHc].
  - assert (Truncate now window <> start) by (eapply Hno, elem_of_cons; by left).
    rewrite bool_decide_eq_false_2 by tauto. split; [by destruct served as [[]|]|]. intros f. by rewrite IHc.
  - done.
Qed.

Lemma count_in_nonneg f m start ops : 0 <= count_in f m start ops.
Proof. induction ops as [|[m' now how|now] ops IH]; cbn [count_in]; [lia | case_match; lia | lia]. Qed.

(** With [u] requests already counted. *)
Lemma served_from m t ops d u :
  let start := Truncate t window in
  merchant_exists d m = true -> clocks_agree start ops -> uses d m start = u -> 0 <= u ->
  u + count_in answered m start ops + count_in lost m start ops < 2 ^ 63 ->
  Z.max 0 (Z.min (limit - u - count_in lost m start ops) (count_in answered m start ops)) <=
    served_in m start ops d - count_in failed m start ops <=
    Z.max 0 (Z.min (limit - u) (count_in answered m start ops)).
Proof.
  intros start. revert d u. induction ops as [|op ops IH]; intros d u Hm Hclocks Hu H0 Hb; [cbn; lia|].
  cbn [served_in count_in] in *. pose proof (count_in_nonneg answered m start ops) as Ha.
  pose proof (count_in_nonneg lost m start ops) as Hl.
  destruct op as [m' now how|now].
  - cbn [usage_step]. destruct (decide (m' = m /\ Truncate now window = start)) as [[-> Hs]|Hne].
    + rewrite bool_decide_eq_true_2 in Hb |- * by done. cbn [andb] in *.
      destruct (fairUse_request how m now d Hm) as (d' & -> & Hmer & Hus);
        [rewrite Hs, Hu; destruct how as [|[]]; cbn [answered lost orb] in *; lia|].
      rewrite Hs, Hu in *. specialize (IH d' _ ltac:(unfold merchant_exists; by rewrite Hmer) Hclocks Hus).
      destruct how as [|[]]; cbn [answered lost failed negb orb] in *; [destruct (Z.leb_spec (u + 1) limit)| |]; lia.
    + rewrite bool_decide_eq_false_2 in Hb |- * by done. cbn [andb] in *.
      destruct (fairUse _ _ _ _ _ _ d) as [served d'] eqn:E.
      apply fairUse_other with (m0 := m) (start := start) in E as [Hmer Hus]; [|intros [= -> Hw]; by apply Hne].
      specialize (IH d' u ltac:(unfold merchant_exists; by rewrite Hmer) Hclocks ltac:(congruence) H0 Hb).
      destruct served; lia.
  - destruct Hclocks as [[Hn|Hno] Hclocks].
    + pose proof (prune_kept now d m t Hn) as Hus. pose proof (prune_merchants now d) as Hmer.
      destruct (usage_step (Prune now) d) as [served d']. cbn [snd] in *.
      apply (IH d' u); [unfold merchant_exists; by rewrite Hmer|done|exact (eq_trans Hus Hu)|done|done].
    + destruct (usage_step (Prune now) d) as [served d'].
      destruct (unasked m start ops d' Hno) as [-> Hc]. rewrite !Hc. lia.
Qed.

(** C40. Fair use counts: of the requests a merchant makes in a window,
    interleaved with those of others, with pruning and with failures of the
    accounting, every request whose accounting failed is served (the
    middleware fails open), and of the others those up to the limit, less at
    most one for each failure that was counted all the same; so exactly the
    limit of them when no such count was lost.  Assumed of the clocks: no
    request is stamped in a window that an earlier pruning found three windows
    past its start, since pruning forgets such a window's count. *)
Theorem fair_use_exact m t ops d :
  let start := Truncate t window in
  merchant_exists d m = true -> mt_usage d !! (m, start) = None ->
  count_in answered m start ops + count_in lost m start ops < 2 ^ 63 ->
  clocks_agree start ops ->
  count_in failed m start ops + Z.min (limit - count_in lost m start ops) (count_in answered m start ops) <=
    served_in m start ops d <=
    count_in failed m start ops + Z.min limit (count_in answered m start ops) /\
  (count_in lost m start ops = 0 ->
   served_in m start ops d = count_in failed m start ops + Z.min limit (count_in answered m start ops)).
Proof.
  intros start Hm Hnone Hbound Hclocks. pose proof (count_in_nonneg answered m start ops).
  destruct (served_from m t ops d 0 Hm Hclocks) as [? ?]; [unfold uses; fold start; by rewrite Hnone|done|done|].
  unfold start in *. lia.
Qed.

End Windows.

(** ** A busy merchant beside a quiet one *)

Definition demo_merchant : MerchantRow :=
  {| mr_name := "shop"; mr_email := "a@b.c"; mr_domain := "b.c"; mr_website := None; mr_description := None;
     mr_recipient := "0x" +:+ Repeat "1" 40; mr_terms := "1"; mr_terms_at := 0; mr_email_verified := None;
     mr_wallet_verified := None; mr_status := MPending; mr_stats := None; mr_public := None;
     mr_created := 0; mr_updated := 0 |}.

Definition demo_mdb : mdb := set_mt_merchants empty_mdb {[ 1%N := demo_merchant; 2%N := demo_merchant ]}.

Definition demo_requests : list usage_op :=
  [Request 1 5 Answered; Request 2 6 Answered; Prune 7; Request 1 8 (Failed false); Request 1 9 Answered;
   Request 1 10 Answered; Request 1 (minute + 5) Answered].

Lemma fair_use_exact_witness :
  served_in 2 minute 1 (Truncate 5 minute) demo_requests demo_mdb = 3.
Proof.
  destruct (fair_use_exact 2 minute ltac:(lia) eq_refl 1%N 5 demo_requests demo_mdb) as [_ E].
  - vm_compute. reflexivity.
  - vm_compute. reflexivity.
  - vm_compute. reflexivity.
  - cbn [clocks_agree demo_requests]. split; [left; vm_compute; reflexivity | exact I].
  - rewrite E; vm_compute; reflexivity.
Defined.
