(* ===== verification/MerchantRetention.v ===== *)
(** [internal/store/retention.go], the part that deletes from the tables of
    merchant accounts: expired email tokens with their outbox rows, expired
    wallet challenges no recipient change refers to, ended panel sessions and
    revoked API keys, each in a bounded batch. *)

From Stdlib Require Import ZArith Lia.
From stdpp Require Import base gmap list strings sorting fin_maps.
From S2P Require Import Prelude GoStd Schema Store MerchantSchema.

Local Open Scope Z_scope.
Local Open Scope mtx_scope.

Definition by_cutoff (a b : Z * rowid) : Prop := a.1 <= b.1.

#[export] Instance by_cutoff_dec : RelDecision by_cutoff.
Proof. intros a b. unfold by_cutoff. apply _. Defined.

(** [DELETE ... WHERE ctid IN (SELECT ... ORDER BY key FOR UPDATE SKIP LOCKED
    LIMIT n)]: the number of rows deleted. *)
Definition deleteBatch {R} `{Table R} (cond : mdb -> rowid -> R -> bool) (key : R -> Z) (locked : rowid -> bool)
    (batchSize : Z) : MTx Z :=
  d <-$ mget ;;
  let candidates := omap (fun ir : rowid * R =>
    if cond d ir.1 ir.2 && negb (locked ir.1) then Some (key ir.2, ir.1) else None) (map_to_list (table d)) in
  let chosen := map snd (take (Z.to_nat batchSize) (merge_sort by_cutoff candidates)) in
  mput (set_table d (foldr delete (table d) chosen)) ;;$
  mret (Z.of_nat (length chosen)).

(** [ON DELETE CASCADE] from a token to its outbox row. *)
Definition cascade_tokens : MTx unit :=
  d <-$ mget ;;
  mput (set_mt_outbox d (filter (fun io : rowid * OutboxRow => is_Some (mt_tokens d !! ob_token io.2)) (mt_outbox d))).

Record RetentionResult := {
  rs_EmailTokens : Z;
  rs_WalletChallenges : Z;
  rs_AdminSessions : Z;
  rs_RevokedAPIKeys : Z;
}.

Definition prune_merchant_data (request : RetentionRequest) (locked : rowid -> bool) : MTx RetentionResult :=
  match RetentionRequest_Validate request with
  | _ :: _ as e => fun _ => Err e
  | [] =>
      let cutoff := rr_Now request - rr_EphemeralAfter request in
      let keyCutoff := rr_Now request - rr_RevokedKeyAfter request in
      let n := rr_BatchSize request in
      tokens <-$ deleteBatch (fun _ _ t => tk_expires t <? cutoff) tk_expires locked n ;;
      cascade_tokens ;;$
      challenges <-$ deleteBatch (fun d i c => (ch_expires c <? cutoff) &&
                       negb (existsb (fun h => bool_decide (h_challenge h = i)) (mt_history d)))
                       ch_expires locked n ;;
      sessions <-$ deleteBatch (fun _ _ s => (s_expires s <? cutoff) ||
                       match s_revoked s with Some t => t <? cutoff | None => false end) s_expires locked n ;;
      keys <-$ deleteBatch (fun _ _ k => match k_revoked k with Some t => t <? keyCutoff | None => false end)
                 (fun k => default 0 (k_revoked k)) locked n ;;
      mret {| rs_EmailTokens := tokens; rs_WalletChallenges := challenges; rs_AdminSessions := sessions;
              rs_RevokedAPIKeys := keys |}
  end.
