(* ===== verification/MerchantSystem.v ===== *)
(** The merchant accounts as a system: the operations of the services, the
    email worker, retention and fair use on one database, and its runs.

    A run lists the operations that committed, the latest first.  An operation
    that fails leaves the database as it was, so it does not appear. *)

From Stdlib Require Import ZArith Lia Strings.Byte.
From stdpp Require Import base gmap list strings.
From S2P Require Import Prelude GoStd Geth WalletProof Secret Calendar Challenge Schema Store.
From S2P Require Import MerchantSchema Merchant MerchantAdmin EmailDelivery FairUse MerchantRetention.

Local Open Scope string_scope.
Local Open Scope Z_scope.
Local Open Scope mtx_scope.

Inductive mop :=
  | MRegister (env : menv) (inp : Registration) (request : string)
  | MAdminLink (env : menv) (email request : string)
  | MVerifyEmail (env : menv) (token request : string)
  | MVerifyEmailForAdmin (env : menv) (token request : string)
  | MWalletChallenge (env : menv) (read : mdb) (merchant address action request : string)
  | MAuthenticatedChallenge (env : menv) (merchant key address action request : string)
  | MAdminChallenge (env : menv) (merchant token address action request : string)
  | MPendingChallenge (env : menv) (merchant address request : string)
  | MVerifyWallet (env : menv) (merchant key challenge message signature action request : string)
  | MVerifyAdminWallet (env : menv) (merchant token challenge message signature request : string)
  | MVerifyAdminRecipientChange (env : menv) (merchant token challenge message signature request : string)
  | MMarkSession (env : menv) (merchant token : string) (proof : string * string * time)
  | MRevokeSession (env : menv) (token : string)
  | MStatsConsent (env : menv) (merchant token : string) (enabled : bool) (request : string)
  | MPublicConsent (env : menv) (merchant token : string) (enabled : bool) (request : string)
  | MAuthenticate (env : menv) (read : mdb) (value : string)
  | MCreateKey (env : menv) (merchant token key name request : string)
  | MRevokeKey (env : menv) (merchant token key id request : string)
  | MSuspend (env : menv) (merchant reason operator : string) (reinstate : bool) (request : string)
  | MAbandonExpired (now : time) (locked : rowid -> bool)
  | MClaim (now until : time) (only : option rowid) (locked : rowid -> bool)
  | MAbandonCorrupt (now : time) (item : emailDelivery)
  | MRelease (now : time) (item : emailDelivery)
  | MDelivered (now : time) (item : emailDelivery)
  | MCount (merchant : rowid) (limit : Z) (window : duration) (now : time)
  | MPrune (window : duration) (now : time)
  | MRetention (request : RetentionRequest) (locked : rowid -> bool).

Section System.
  Context `{Geth} `{Siwe} `{Net} (cfg : Config).

Definition silent {A} (m : MTx A) : MTx unit := m ;;$ mret tt.

Definition mexec (op : mop) : MTx unit :=
  match op with
  | MRegister env inp r => Register cfg env inp r
  | MAdminLink env email r => RequestAdminLink cfg env email r
  | MVerifyEmail env token r => silent (VerifyEmail env token r)
  | MVerifyEmailForAdmin env token r => silent (VerifyEmailForAdmin cfg env token r)
  | MWalletChallenge env read m a action r => silent (WalletChallenge cfg env read m a action r)
  | MAuthenticatedChallenge env m k a action r => silent (AuthenticatedWalletChallenge cfg env m k a action r)
  | MAdminChallenge env m t a action r => silent (AdminWalletChallenge cfg env m t a action r)
  | MPendingChallenge env m a r => silent (PendingRecipientChallenge cfg env m a r)
  | MVerifyWallet env m k c msg sig action r => silent (verifyWallet cfg env m k c msg sig action r)
  | MVerifyAdminWallet env m t c msg sig r => VerifyAdminWallet env m t c msg sig r
  | MVerifyAdminRecipientChange env m t c msg sig r => VerifyAdminRecipientChange cfg env m t c msg sig r
  | MMarkSession env m t _ => MarkAdminSessionWalletVerified env m t
  | MRevokeSession env t => RevokeAdminSession env t
  | MStatsConsent env m t e r => silent (setStatsConsent env m t e r)
  | MPublicConsent env m t e r => silent (setPublicProfileConsent env m t e r)
  | MAuthenticate env read v => silent (Authenticate cfg env read v)
  | MCreateKey env m t k name r => silent (createAPIKey cfg env m t k name r)
  | MRevokeKey env m t k id r => revokeAPIKey cfg env m t k id r
  | MSuspend env m reason operator reinstate r => Suspend env m reason operator reinstate r
  | MAbandonExpired now locked => abandon_expired now locked
  | MClaim now until only locked => silent (claim_next now until only locked)
  | MAbandonCorrupt now item => abandonCorruptEmail now item
  | MRelease now item => release_failed now item
  | MDelivered now item => mark_delivered now item
  | MCount m limit window now => silent (CountMerchantRequest m limit window now)
  | MPrune window now => silent (PruneMerchantUsage window now)
  | MRetention request locked => silent (prune_merchant_data request locked)
  end.

(** Runs in which every operation is admissible in the sense of [ok] where it
    happens. *)
Inductive mrun (ok : list mop -> mdb -> mop -> Prop) : list mop -> mdb -> Prop :=
  | mrun_nil : mrun ok [] empty_mdb
  | mrun_cons tr d op d' :
      mrun ok tr d -> ok tr d op -> mexec op d = Ok (tt, d') -> mrun ok (op :: tr) d'.

Definition anything (tr : list mop) (d : mdb) (op : mop) : Prop := True.

(** ** What an operation presented *)

(** The wallet proof of an operation: the merchant's identifier, the message,
    the signature and the clock it was checked with. *)
Definition wallet_proof (op : mop) : option (string * string * string * time) :=
  match op with
  | MVerifyWallet env m _ _ msg sig _ _ | MVerifyAdminWallet env m _ _ msg sig _
  | MVerifyAdminRecipientChange env m _ _ msg sig _ => Some (m, msg, sig, me_now env)
  | _ => None
  end.

(** The panel session an operation elevates, and the wallet proof it does so
    on.  The panel marks a session after [VerifyWallet] in a transaction of its
    own: the operation carries the message, the signature and the clock of
    that verification. *)
Definition session_proof (op : mop) : option (string * (string * string * string * time)) :=
  match op with
  | MVerifyAdminWallet env m t _ msg sig _ | MVerifyAdminRecipientChange env m t _ msg sig _ =>
      Some (t, (m, msg, sig, me_now env))
  | MMarkSession _ m t (msg, sig, checked) => Some (t, (m, msg, sig, checked))
  | _ => None
  end.

(** The proof is a signature by wallet [a] of a message naming merchant [m]. *)
Definition proves (proof : string * string * string * time) (m : rowid) (a : string) : Prop :=
  let '(merchantID, message, signature, now) := proof in
  ScanUUID merchantID = Some m /\
  exists action, VerifyMessage message signature merchantID a action now = Ok tt.

(** The service checked such a proof in the run. *)
Definition attested (tr : list mop) (m : rowid) (a : string) : Prop :=
  exists op proof, op ∈ tr /\ wallet_proof op = Some proof /\ proves proof m a.

(** The key an operation hands out, and to whom. *)
Definition issues (op : mop) : option (rowid * string) :=
  let issue merchantID env :=
    match ScanUUID merchantID, GenerateAPIKey (Pepper cfg) (me_random env) with
    | Some m, Ok g => Some (m, FullValue g)
    | _, _ => None
    end in
  match op with
  | MVerifyWallet env m _ _ _ _ action _ => if String.eqb action "verify-recipient" then issue m env else None
  | MCreateKey env m _ _ _ _ => issue m env
  | _ => None
  end.

Lemma attested_cons op tr m a : attested tr m a -> attested (op :: tr) m a.
Proof. intros (op' & p & Hin & Ha). exists op', p. split; [by apply elem_of_cons; right | done]. Qed.

End System.
