(* ===== verification/MerchantLogic.v ===== *)
(** A program logic for the transactions of merchant accounts: postconditions
    of committed runs, a tactic that executes an operation symbolically, and
    the laws of the tables. *)

From Stdlib Require Import ZArith Lia Strings.Byte.
From stdpp Require Import base gmap list strings fin_maps sorting.
From S2P Require Import Prelude GoStd Geth WalletProof Secret Calendar Challenge Schema Store.
From S2P Require Import MerchantSchema Merchant MerchantAdmin EmailDelivery FairUse MerchantRetention MerchantSystem.

Local Open Scope Z_scope.
Local Open Scope mtx_scope.

(** [Q] holds of the result and the database if the transaction commits. *)
Definition mpost {A} (m : MTx A) (d : mdb) (Q : A -> mdb -> Prop) : Prop :=
  match m d with Ok (a, d') => Q a d' | Err _ => True end.

Lemma mpost_ok {A} (m : MTx A) d Q a d' : mpost m d Q -> m d = Ok (a, d') -> Q a d'.
Proof. unfold mpost. intros HQ E. by rewrite E in HQ. Qed.

Lemma mpost_mono {A} (m : MTx A) d (P Q : A -> mdb -> Prop) :
  mpost m d P -> (forall a d', P a d' -> Q a d') -> mpost m d Q.
Proof. unfold mpost. destruct (m d) as [[a d']|]; auto. Qed.

Section Rules.
  Context {A B : Type}.
  Implicit Types (d : mdb).

Lemma mpost_bind (m : MTx A) (k : A -> MTx B) d Q :
  mpost m d (fun a d' => mpost (k a) d' Q) -> mpost (mbind m k) d Q.
Proof. unfold mpost, mbind. by destruct (m d) as [[a d']|]. Qed.

Lemma mpost_ret (a : A) d (Q : A -> mdb -> Prop) : Q a d -> mpost (mret a) d Q.
Proof. done. Qed.

Lemma mpost_get d Q : Q d d -> mpost mget d Q.
Proof. done. Qed.

Lemma mpost_put d d' (Q : unit -> mdb -> Prop) : Q tt d' -> mpost (mput d') d Q.
Proof. done. Qed.

Lemma mpost_lift (r : res A) d (Q : A -> mdb -> Prop) : (forall a, r = Ok a -> Q a d) -> mpost (mlift r) d Q.
Proof. unfold mpost, mlift. destruct r; auto. Qed.

Lemma mpost_require (c : bool) (k : MTx A) e d Q : (c = true -> mpost k d Q) -> mpost (if c then k else mfail e) d Q.
Proof. destruct c; [auto | done]. Qed.

(** Failures replaced by another error, without or with a row expected. *)
Lemma mpost_any (m : MTx A) e d (Q : unit -> mdb -> Prop) :
  mpost m d (fun _ d' => Q tt d') ->
  mpost (fun d => match m d with Ok (_, d') => Ok (tt, d') | Err _ => Err e end) d Q.
Proof. unfold mpost. by destruct (m d) as [[a d']|]. Qed.

Lemma mpost_some (m : MTx (option A)) e d (Q : unit -> mdb -> Prop) :
  mpost m d (fun o d' => match o with Some _ => Q tt d' | None => True end) ->
  mpost (fun d => match m d with Ok (Some _, d') => Ok (tt, d') | _ => Err e end) d Q.
Proof. unfold mpost. by destruct (m d) as [[[a|] d']|]. Qed.

End Rules.

Lemma find_some {R} `{Table R} d (cond : rowid -> R -> bool) i r :
  find_row d cond = Some (i, r) -> table d !! i = Some r /\ cond i r = true.
Proof.
  intros Hf. destruct (List.find_some _ _ Hf) as [Hin Hc]. split; [|done].
  by apply elem_of_map_to_list, list_elem_of_In.
Qed.

Lemma find_none {R} `{Table R} d (cond : rowid -> R -> bool) :
  find_row d cond = None -> forall i r, table d !! i = Some r -> cond i r = false.
Proof.
  intros Hf i r Hr. apply (List.find_none _ _ Hf (i, r)).
  by apply list_elem_of_In, elem_of_map_to_list.
Qed.

Section Statements.
  Context {R : Type} `{Table R}.

Lemma mpost_put_row i (r : R) d (Q : unit -> mdb -> Prop) :
  (row_ok d r = true -> fits d i r = true -> Q tt (set_table d (<[i := r]> (table d)))) ->
  mpost (put_row i r) d Q.
Proof. unfold mpost, put_row. destruct (row_ok d r); [|done]. destruct (fits d i r); simpl; auto. Qed.

Lemma mpost_insert_row (r : R) d (Q : rowid -> mdb -> Prop) :
  (row_ok (set_m_next d (N.succ (m_next d))) r = true ->
   fits (set_m_next d (N.succ (m_next d))) (m_next d) r = true ->
   Q (m_next d) (set_table (set_m_next d (N.succ (m_next d)))
     (<[m_next d := r]> (table (set_m_next d (N.succ (m_next d))))))) ->
  mpost (insert_row r) d Q.
Proof. intros HQ. apply mpost_bind. cbn. apply mpost_bind, mpost_put_row. exact HQ. Qed.

Lemma mpost_update_row (cond : rowid -> R -> bool) f d (Q : option (rowid * R) -> mdb -> Prop) :
  (forall i r, table d !! i = Some r -> cond i r = true -> row_ok d (f r) = true -> fits d i (f r) = true ->
     Q (Some (i, r)) (set_table d (<[i := f r]> (table d)))) ->
  ((forall i r, table d !! i = Some r -> cond i r = false) -> Q None d) ->
  mpost (update_row cond f) d Q.
Proof.
  intros HS HN. apply mpost_bind. cbn. destruct (find_row d cond) as [[i r]|] eqn:E.
  - apply mpost_bind, mpost_put_row. apply find_some in E as [? ?]. intros. by apply HS.
  - apply HN. by apply find_none.
Qed.

End Statements.

Lemma mpost_event type m actor actorID request d (Q : unit -> mdb -> Prop) :
  (forall e, Q tt (set_mt_events d (mt_events d ++ [e]))) -> mpost (insert_event type m actor actorID request) d Q.
Proof. intros HQ. exact (HQ _). Qed.

Lemma mpost_history h d (Q : unit -> mdb -> Prop) :
  (history_row_ok d h = true -> Q tt (set_mt_history d (mt_history d ++ [h]))) -> mpost (insert_history h) d Q.
Proof.
  intros HQ. apply mpost_bind. cbn. unfold mpost. destruct (history_row_ok d h); [by apply HQ | done].
Qed.

(** One step of symbolic execution; the branches a transaction fails on are
    discharged. *)
Ltac mstep :=
  cbv beta zeta;
  lazymatch goal with
  | |- mpost (mbind _ _) _ _ => apply mpost_bind
  | |- mpost (mret _) _ _ => apply mpost_ret
  | |- mpost (mfail _) _ _ => exact I
  | |- mpost mget _ _ => apply mpost_get
  | |- mpost (mput _) _ _ => apply mpost_put
  | |- mpost (mlift _) _ _ => apply mpost_lift; intros ? ?
  | |- mpost (put_row _ _) _ _ => apply mpost_put_row; intros ? ?
  | |- mpost (insert_row _) _ _ => apply mpost_insert_row; intros ? ?
  | |- mpost (update_row _ _) _ _ => apply mpost_update_row; [intros ? ? ? ? ? ?|intros ?]
  | |- mpost (insert_event _ _ _ _ _) _ _ => apply mpost_event; intros ?
  | |- mpost (insert_history _) _ _ => apply mpost_history; intros ?
  | |- mpost (if _ then _ else mfail _) _ _ => apply mpost_require; intros ?
  | |- mpost (match ?x with _ => _ end) _ _ => destruct x eqn:?
  end.

(** ** Authorizations, which only read *)

Section Locks.
  Context `{Geth} `{Siwe} `{Net} (cfg : Config).

Lemma mpost_lockKey merchantID value d (Q : rowid -> mdb -> Prop) :
  (forall m row i k, ScanUUID merchantID = Some m -> mt_merchants d !! m = Some row -> mr_status row = MActive ->
     key_shape value = true -> mt_keys d !! i = Some k -> k_merchant k = m -> k_prefix k = LookupPrefix value ->
     k_revoked k = None -> key_matches cfg k value = true -> Q m d) ->
  mpost (lockAuthenticatedAPIKey cfg merchantID value) d Q.
Proof.
  intros HQ. unfold lockAuthenticatedAPIKey. repeat mstep; try exact I.
  apply find_some in Heqo1 as [Hk Hc]. apply andb_prop in Hc as [Hc Hr%bool_decide_eq_true].
  apply andb_prop in Hc as [Hm%bool_decide_eq_true Hp%String.eqb_eq].
  eapply HQ; eauto. by eapply bool_decide_eq_true_1.
Qed.

Lemma mpost_lockAdmin now merchantID token d (Q : rowid -> mdb -> Prop) :
  (forall m row i s, ScanUUID merchantID = Some m -> mt_merchants d !! m = Some row -> mr_status row = MActive ->
     mt_sessions d !! i = Some s -> s_merchant s = m -> s_hash s = Hash token -> s_revoked s = None ->
     now < s_expires s -> elevated row s = true -> Q m d) ->
  mpost (lockWalletAuthenticatedAdmin now merchantID token) d Q.
Proof.
  intros HQ. unfold lockWalletAuthenticatedAdmin. repeat mstep; try exact I.
  match goal with E : find_session _ _ _ = Some _ |- _ => apply find_some in E as [Hk Hc] end.
  apply andb_prop in Hc as [Hc Hr%bool_decide_eq_true].
  apply andb_prop in Hc as [Hm%bool_decide_eq_true Hp%String.eqb_eq].
  match goal with E : _ && _ = true |- _ => apply andb_prop in E as [Ha%bool_decide_eq_true He] end.
  eapply HQ; eauto. by apply Z.ltb_lt.
Qed.

Lemma mpost_authorize now merchantID session key d (Q : unit -> mdb -> Prop) :
  Q tt d -> mpost (authorize cfg now merchantID session key) d Q.
Proof.
  intros HQ. unfold authorize. repeat mstep; try done; apply mpost_lockAdmin || apply mpost_lockKey; intros; by repeat mstep.
Qed.

Lemma mpost_consume challenge now d (Q : unit -> mdb -> Prop) :
  (forall c, mt_challenges d !! challenge = Some c -> ch_consumed c = None ->
     row_ok d (challenge_consume now c) = true -> fits d challenge (challenge_consume now c) = true ->
     Q tt (set_mt_challenges d (<[challenge := challenge_consume now c]> (mt_challenges d)))) ->
  mpost (consume_challenge challenge now) d Q.
Proof.
  intros HQ. unfold consume_challenge. apply mpost_some. mstep; [|done]. intros.
  match goal with E : _ && _ = true |- _ =>
    apply andb_prop in E as [->%bool_decide_eq_true ?%bool_decide_eq_true] end. by apply HQ.
Qed.

Lemma mpost_elevate merchant token now d (Q : bool -> mdb -> Prop) :
  (forall i s, mt_sessions d !! i = Some s -> s_merchant s = merchant -> s_hash s = Hash token ->
     s_revoked s = None -> now < s_expires s ->
     row_ok d (session_with (Some now) (s_revoked s) s) = true ->
     fits d i (session_with (Some now) (s_revoked s) s) = true ->
     Q true (set_mt_sessions d (<[i := session_with (Some now) (s_revoked s) s]> (mt_sessions d)))) ->
  Q false d -> mpost (elevate_session merchant token now) d Q.
Proof.
  intros HS HN. unfold elevate_session. repeat mstep; [|done]. repeat match goal with
    E : _ && _ = true |- _ => apply andb_prop in E as [E ?] end.
  cbn. eapply HS; eauto; [by eapply bool_decide_eq_true_1|by apply String.eqb_eq|by eapply bool_decide_eq_true_1|by apply Z.ltb_lt].
Qed.

Lemma mpost_must_elevate merchant token now d (Q : unit -> mdb -> Prop) :
  (forall i s, mt_sessions d !! i = Some s -> s_merchant s = merchant -> s_hash s = Hash token ->
     s_revoked s = None -> now < s_expires s ->
     row_ok d (session_with (Some now) (s_revoked s) s) = true ->
     fits d i (session_with (Some now) (s_revoked s) s) = true ->
     Q tt (set_mt_sessions d (<[i := session_with (Some now) (s_revoked s) s]> (mt_sessions d)))) ->
  mpost (must_elevate merchant token now) d Q.
Proof.
  intros HQ. assert (mpost (elevate_session merchant token now) d
    (fun o d' => if o then Q tt d' else True)) as HP by by apply mpost_elevate.
  revert HP. unfold mpost, must_elevate. by destruct (elevate_session _ _ _ d) as [[[|] ?]|].
Qed.

(** Authentication reads [read] and then writes a time of use, at best. *)
Lemma mpost_authenticate env read value d (Q : res (rowid * MerchantRow) -> mdb -> Prop) :
  (forall o, Q o d) ->
  (forall o i k, mt_keys d !! i = Some k -> k_prefix k = LookupPrefix value ->
     row_ok d (key_with (Some (me_db env)) (k_revoked k) k) = true ->
     fits d i (key_with (Some (me_db env)) (k_revoked k) k) = true ->
     Q o (set_mt_keys d (<[i := key_with (Some (me_db env)) (k_revoked k) k]> (mt_keys d)))) ->
  mpost (Authenticate cfg env read value) d Q.
Proof.
  intros HN HS. unfold Authenticate.
  destruct (negb _); [apply HN|]. destruct (find_row read _) as [[i k]|]; [|apply HN].
  destruct (mt_merchants read !! _) as [m|]; [|apply HN]. destruct (negb _); [apply HN|]. destruct (negb _); [apply HN|].
  assert (mpost (update_row (fun _ k => String.eqb (k_prefix k) (LookupPrefix value))
      (fun k => key_with (Some (me_db env)) (k_revoked k) k)) d (fun _ d' => forall o, Q o d')) as HP.
  { apply mpost_update_row; [|intros _ o; apply HN]. intros j q Hq Hp%String.eqb_eq ? ? o. by apply HS. }
  revert HP. unfold mpost. destruct (update_row _ _ d) as [[o d']|]; intros; auto.
Qed.

End Locks.

(** ** Scans *)

Lemma mpost_fresh d (Q : rowid -> mdb -> Prop) :
  Q (m_next d) (set_m_next d (N.succ (m_next d))) -> mpost m_fresh d Q.
Proof. done. Qed.

Lemma selected d cond key i o :
  (i, o) ∈ select_outbox d cond key ->
  mt_outbox d !! i = Some o /\ exists t, mt_tokens d !! ob_token o = Some t /\ cond i o t = true.
Proof.
  intros ([[k i'] o'] & [= -> ->] & Hin)%list_elem_of_fmap.
  rewrite merge_sort_Permutation in Hin. apply list_elem_of_omap in Hin as ([j q] & Hq%elem_of_map_to_list & E).
  cbn in E. destruct (mt_tokens d !! ob_token q) as [t|] eqn:Ht; [|done].
  destruct (cond j q t) eqn:Hc; [|done]. injection E as <- <- <-. eauto.
Qed.

(** The delivery a claim returns. *)
Definition claimed (i claim : rowid) (o : OutboxRow) (t : TokenRow) (m : MerchantRow) : emailDelivery :=
  {| ed_id := i; ed_tokenID := ob_token o; ed_tokenHash := tk_hash t; ed_merchant := ob_merchant o;
     ed_claimToken := claim; ed_kind := ob_kind o; ed_recipient := mr_email m;
     ed_ciphertext := default [] (ob_ciphertext o); ed_expiresAt := tk_expires t;
     ed_attempts := ob_attempts o + 1 |}.

Lemma mpost_claim now until only locked d (Q : option emailDelivery -> mdb -> Prop) :
  Q None d ->
  (forall i o t m, mt_outbox d !! i = Some o -> mt_tokens d !! ob_token o = Some t ->
     mt_merchants d !! ob_merchant o = Some m -> undecided o = true -> unclaimed now o = true -> now < tk_expires t ->
     let d1 := set_m_next d (N.succ (m_next d)) in
     let o' := outbox_with (ob_ciphertext o) (Some (until, m_next d)) (ob_attempts o + 1) (ob_next o)
                 (ob_delivered o) (ob_abandoned o) now o in
     row_ok d1 o' = true -> fits d1 i o' = true ->
     Q (Some (claimed i (m_next d) o t m)) (set_table d1 (<[i := o']> (table d1)))) ->
  mpost (claim_next now until only locked) d Q.
Proof.
  intros HN HS. unfold claim_next. apply mpost_bind, mpost_get.
  destruct (select_outbox d _ _) as [|[i o] l] eqn:E; [exact HN|].
  assert ((i, o) ∈ (i, o) :: l) as Hin by constructor. rewrite <- E in Hin.
  apply selected in Hin as (Ho & t & Ht & Hc).
  repeat match type of Hc with _ && _ = true => apply andb_prop in Hc as [Hc ?] end.
  rewrite Ht. destruct (mt_merchants d !! ob_merchant o) as [m|] eqn:Hm; [|exact HN].
  apply mpost_bind, mpost_fresh, mpost_bind, mpost_put_row. intros. apply mpost_ret.
  apply (HS i o t m); try done. by apply Z.ltb_lt.
Qed.

Lemma deleted_batch {R} `{Table R} (cond : mdb -> rowid -> R -> bool) key locked n d (Q : Z -> mdb -> Prop) :
  (forall k (t' : gmap rowid R), t' ⊆ table d ->
     (forall i r, table d !! i = Some r -> t' !! i = None -> cond d i r = true) -> Q k (set_table d t')) ->
  mpost (deleteBatch cond key locked n) d Q.
Proof.
  intros HQ. unfold deleteBatch. repeat mstep. apply HQ.
  - generalize (map snd (take (Z.to_nat n) (merge_sort by_cutoff
      (omap (fun ir : rowid * R => if cond d ir.1 ir.2 && negb (locked ir.1) then Some (key ir.2, ir.1) else None)
         (map_to_list (table d)))))). intros l. induction l as [|i l IH]; [done|]. cbn.
    etrans; [apply delete_subseteq | exact IH].
  - intros i r Hr Hd.
    assert (forall l, foldr delete (table d) l !! i = None -> i ∈ l) as G.
    { intros l. induction l as [|j l IH]; cbn; [by rewrite Hr|]. destruct (decide (i = j)) as [->|Hne]; [by left|].
      rewrite lookup_delete_ne by done. intros Hl. right. by apply IH. }
    apply G in Hd. apply list_elem_of_fmap in Hd as ([k j] & -> & Hin). cbn in *.
    apply elem_of_take in Hin as (x & Hx & _). apply list_elem_of_lookup_2 in Hx.
    rewrite merge_sort_Permutation in Hx. apply list_elem_of_omap in Hx as ([j' q] & Hq%elem_of_map_to_list & E).
    cbn in E. destruct (cond d j' q) eqn:Hc; [|done]. destruct (locked j'); [done|]. injection E as <- ->.
    by simplify_eq.
Qed.

(** Retention: what is deleted, and what the deletion spares. *)
Lemma mpost_prune request locked d (Q : RetentionResult -> mdb -> Prop) :
  (forall r tokens challenges sessions keys,
     tokens ⊆ mt_tokens d -> challenges ⊆ mt_challenges d -> sessions ⊆ mt_sessions d -> keys ⊆ mt_keys d ->
     (forall i c, mt_challenges d !! i = Some c -> challenges !! i = None ->
        forall h, h ∈ mt_history d -> h_challenge h <> i) ->
     (forall i k, mt_keys d !! i = Some k -> keys !! i = None -> is_Some (k_revoked k)) ->
     Q r (set_mt_keys (set_mt_sessions (set_mt_challenges
           (set_mt_outbox (set_mt_tokens d tokens)
             (filter (fun io : rowid * OutboxRow => is_Some (tokens !! ob_token io.2)) (mt_outbox d)))
           challenges) sessions) keys)) ->
  mpost (prune_merchant_data request locked) d Q.
Proof.
  intros HQ. unfold prune_merchant_data. destruct (RetentionRequest_Validate request); [|exact I]. cbv zeta.
  apply mpost_bind, deleted_batch. intros n1 tokens Ht _. unfold cascade_tokens. repeat mstep.
  apply deleted_batch. intros n2 challenges Hc Hc'.
  apply mpost_bind, deleted_batch. intros n3 sessions Hs _.
  apply mpost_bind, deleted_batch. intros n4 keys Hk Hk'. apply mpost_ret. apply HQ; try done.
  - intros i c Hi Hn h Hh <-. specialize (Hc' _ c Hi Hn). apply andb_prop in Hc' as [_ Hc'].
    apply negb_true_iff in Hc'. apply not_true_iff_false in Hc'. apply Hc'. apply existsb_exists.
    exists h. split; [by apply list_elem_of_In | by apply bool_decide_eq_true].
  - intros i k Hi Hn. specialize (Hk' i k Hi Hn). by destruct (k_revoked k).
Qed.

Lemma put_rows_map f l d (Q : unit -> mdb -> Prop) :
  Forall (fun io : rowid * OutboxRow => mt_outbox d !! io.1 = Some io.2) l ->
  (forall t', (forall i, t' !! i = mt_outbox d !! i \/
                 exists o, mt_outbox d !! i = Some o /\ t' !! i = Some (f o)) -> Q tt (set_mt_outbox d t')) ->
  mpost (put_rows (map (fun io => (io.1, f io.2)) l)) d Q.
Proof.
  intros Hl HQ.
  assert (forall t, (forall i, t !! i = mt_outbox d !! i \/ exists o, mt_outbox d !! i = Some o /\ t !! i = Some (f o)) ->
    mpost (put_rows (map (fun io => (io.1, f io.2)) l)) (set_mt_outbox d t) Q) as G.
  { induction Hl as [|[i o] l Hi Hl IH]; intros t Ht; cbn [map put_rows]; mstep; [by apply HQ|].
    mstep. apply IH. cbn. intros j. destruct (decide (j = i)) as [->|Hne].
    - right. exists o. by rewrite lookup_insert_eq.
    - by rewrite lookup_insert_ne by done. }
  specialize (G (mt_outbox d)). destruct d. apply G. auto.
Qed.

Lemma mpost_abandon now locked d (Q : unit -> mdb -> Prop) :
  (forall t', (forall i, t' !! i = mt_outbox d !! i \/
                 exists o, mt_outbox d !! i = Some o /\ t' !! i = Some (abandon_row now o)) -> Q tt (set_mt_outbox d t')) ->
  mpost (abandon_expired now locked) d Q.
Proof.
  intros HQ. unfold abandon_expired. apply mpost_bind, mpost_get, put_rows_map; [|done].
  apply Forall_forall. intros [i o] Hin. apply elem_of_take in Hin as (k & Hk & _).
  apply list_elem_of_lookup_2, selected in Hk as [Ho _]. exact Ho.
Qed.

(** Read the tables of a database after some writes, and nothing else. *)
Ltac mproj_in E :=
  cbn [table set_table merchant_table token_table outbox_table challenge_table key_table session_table suspension_table
       set_mt_merchants set_mt_tokens set_mt_outbox set_mt_challenges set_mt_keys set_mt_sessions set_mt_suspensions
       set_mt_history set_mt_events set_mt_usage set_m_next
       mt_merchants mt_tokens mt_outbox mt_challenges mt_keys mt_sessions mt_suspensions mt_history mt_events mt_usage m_next]
    in E.
Ltac mproj :=
  cbn [table set_table merchant_table token_table outbox_table challenge_table key_table session_table suspension_table
       set_mt_merchants set_mt_tokens set_mt_outbox set_mt_challenges set_mt_keys set_mt_sessions set_mt_suspensions
       set_mt_history set_mt_events set_mt_usage set_m_next
       mt_merchants mt_tokens mt_outbox mt_challenges mt_keys mt_sessions mt_suspensions mt_history mt_events mt_usage m_next].

(** Symbolic execution of a whole operation of the system. *)
Ltac mrun :=
  repeat first
    [ mstep
    | apply mpost_lockKey; intros
    | apply mpost_lockAdmin; intros
    | apply mpost_authorize
    | apply mpost_consume; intros
    | apply mpost_must_elevate; intros
    | apply mpost_elevate; intros
    | apply mpost_authenticate; intros
    | apply mpost_claim; cbv zeta; intros
    | apply mpost_prune; intros
    | apply mpost_abandon; intros ? ?
    | apply mpost_some
    | apply mpost_any
    | lazymatch goal with |- True => exact I end ].

Ltac munfold :=
  unfold silent, Register, RequestAdminLink, enqueueEmail, VerifyEmail, VerifyEmailForAdmin, verifyEmail,
    WalletChallenge, AuthenticatedWalletChallenge, AdminWalletChallenge, PendingRecipientChallenge, issue_challenge,
    persistWalletChallenge, verifyWallet, activate, VerifyAdminWallet, VerifyAdminRecipientChange,
    MarkAdminSessionWalletVerified, RevokeAdminSession, setStatsConsent, setPublicProfileConsent, set_consent,
    createAPIKey, revokeAPIKey, Suspend, abandonCorruptEmail, release_failed, mark_delivered, CountMerchantRequest,
    PruneMerchantUsage, change_recipient, clear_elevations.

(** ** Laws of the tables *)

(** Rows that are referred to do not disappear. *)
Definition refs_kept (d d' : mdb) : Prop :=
  (forall i, is_Some (mt_merchants d !! i) -> is_Some (mt_merchants d' !! i)) /\
  (forall i, is_Some (mt_tokens d !! i) -> is_Some (mt_tokens d' !! i)) /\
  (forall i, is_Some (mt_challenges d !! i) -> is_Some (mt_challenges d' !! i)).

Class LawfulTable (R : Type) `{Table R} := {
  table_set d (x : gmap rowid R) : table (set_table d x) = x;
  row_ok_kept d d' (r : R) : refs_kept d d' -> row_ok d r = true -> row_ok d' r = true;
  compatible_sym (r q : R) : row_compatible r q = row_compatible q r;
}.

Lemma merchant_exists_kept d d' m : refs_kept d d' -> merchant_exists d m = true -> merchant_exists d' m = true.
Proof. intros [HM _] E%bool_decide_eq_true. apply bool_decide_eq_true. by apply HM. Qed.

Lemma bool_decide_ne_sym {A} `{EqDecision A} (a b : A) : bool_decide (a <> b) = bool_decide (b <> a).
Proof. apply bool_decide_ext. naive_solver. Qed.

Lemma distinct_if_sym c c' {A} `{EqDecision A} (a b : A) : c = c' -> distinct_if c a b = distinct_if c' b a.
Proof. intros ->. unfold distinct_if. by rewrite bool_decide_ne_sym. Qed.

Ltac kept_ok :=
  intros Hk Hr; repeat (apply andb_prop in Hr as [Hr ?]);
  repeat (apply andb_true_intro; split); eauto using merchant_exists_kept.

#[export] Instance merchant_lawful : LawfulTable MerchantRow.
Proof.
  split; [done|done|]. intros r q. apply distinct_if_sym, andb_comm.
Qed.

#[export] Instance token_lawful : LawfulTable TokenRow.
Proof.
  split; [done| |intros r q; apply bool_decide_ne_sym].
  intros d d' r. cbn. unfold token_row_ok. kept_ok.
Qed.

#[export] Instance outbox_lawful : LawfulTable OutboxRow.
Proof.
  split; [done| |intros r q; apply bool_decide_ne_sym].
  intros d d' r. cbn. unfold outbox_row_ok. kept_ok.
  apply bool_decide_eq_true. destruct Hk as (_ & HT & _). apply HT. by eapply bool_decide_eq_true_1.
Qed.

#[export] Instance challenge_lawful : LawfulTable ChallengeRow.
Proof.
  split; [done| |intros r q; cbn; by rewrite (bool_decide_ne_sym (ch_nonce r)), (bool_decide_ne_sym (ch_hash r))].
  intros d d' r. cbn. unfold challenge_row_ok. kept_ok.
Qed.

#[export] Instance key_lawful : LawfulTable KeyRow.
Proof.
  split; [done| |intros r q; cbn; by rewrite (bool_decide_ne_sym (k_prefix r)), (bool_decide_ne_sym (k_hash r))].
  intros d d' r. cbn. unfold key_row_ok. kept_ok.
Qed.

#[export] Instance session_lawful : LawfulTable SessionRow.
Proof.
  split; [done| |intros r q; apply bool_decide_ne_sym].
  intros d d' r. cbn. unfold session_row_ok. kept_ok.
Qed.

#[export] Instance suspension_lawful : LawfulTable SuspensionRow.
Proof.
  split; [done| |intros r q; apply distinct_if_sym, andb_comm].
  intros d d' r. cbn. unfold suspension_row_ok. kept_ok.
Qed.

(** ** The schema as an invariant *)

(** Every row satisfies the checks and foreign keys, no two rows clash on a
    unique index, and identifiers were drawn. *)
Definition table_wf (R : Type) `{Table R} (d : mdb) : Prop :=
  (forall i (r : R), table d !! i = Some r -> (i < m_next d)%N /\ row_ok d r = true) /\
  (forall i j (r q : R), table d !! i = Some r -> table d !! j = Some q -> i = j \/ row_compatible r q = true).

Section Wf.
  Context {R : Type} `{LawfulTable R}.

Lemma fits_compatible d i (r : R) : fits d i r = true -> forall j q, table d !! j = Some q -> j = i \/ row_compatible r q = true.
Proof. intros Hf%bool_decide_eq_true j q Hq. exact (Hf j q Hq). Qed.

Lemma wf_own d d' i (r : R) :
  table_wf R d -> row_ok d r = true -> fits d i r = true -> (i < m_next d')%N -> (m_next d <= m_next d')%N ->
  table d' = <[i := r]> (table d) -> refs_kept d d' -> table_wf R d'.
Proof.
  intros [Hrow Hpair] Hok Hf Hi Hn Ht Hk. pose proof (fits_compatible _ _ _ Hf) as Hc. unfold table_wf. rewrite Ht. split.
  - intros j q Hq. destruct (decide (j = i)) as [->|Hne].
    + rewrite lookup_insert_eq in Hq. injection Hq as <-. split; [lia|]. by eapply row_ok_kept.
    + rewrite lookup_insert_ne in Hq; [|done]. destruct (Hrow j q Hq). split; [lia|]. by eapply row_ok_kept.
  - intros j k q p Hq Hp.
    apply lookup_insert_Some in Hq as [[<- <-]|[Hj Hq]], Hp as [[<- <-]|[Hk' Hp]]; [by left|..].
    + destruct (Hc k p); auto.
    + destruct (Hc j q); [done|by left|]. right. by rewrite compatible_sym.
    + eauto.
Qed.

Lemma wf_sub d d' :
  table_wf R d -> table d' ⊆ (table d : gmap rowid R) -> (m_next d <= m_next d')%N ->
  (forall r : R, row_ok d r = true -> row_ok d' r = true) -> table_wf R d'.
Proof.
  intros [Hrow Hpair] Hs Hn Hk. split.
  - intros i r Hr. destruct (Hrow i r) as [Hi Ho]; [by eapply lookup_weaken|]. split; [lia | auto].
  - intros i j r q Hr Hq. eapply Hpair; by eapply lookup_weaken.
Qed.

Lemma wf_other d d' :
  table_wf R d -> table d' = (table d : gmap rowid R) -> (m_next d <= m_next d')%N -> refs_kept d d' -> table_wf R d'.
Proof.
  intros Hwf Ht Hn Hk. eapply wf_sub; [exact Hwf|by rewrite Ht|done|]. intros r. by apply row_ok_kept.
Qed.

End Wf.

Definition history_wf (d : mdb) : Prop := Forall (fun h => history_row_ok d h = true) (mt_history d).

Record mwf (d : mdb) : Prop := {
  wf_merchants : table_wf MerchantRow d;
  wf_tokens : table_wf TokenRow d;
  wf_outbox : table_wf OutboxRow d;
  wf_challenges : table_wf ChallengeRow d;
  wf_keys : table_wf KeyRow d;
  wf_sessions : table_wf SessionRow d;
  wf_suspensions : table_wf SuspensionRow d;
  wf_history : history_wf d;
}.

Lemma history_ok_kept d d' h : refs_kept d d' -> history_row_ok d h = true -> history_row_ok d' h = true.
Proof.
  unfold history_row_ok. kept_ok.
  apply bool_decide_eq_true. destruct Hk as (_ & _ & HC). apply HC. by eapply bool_decide_eq_true_1.
Qed.

Lemma history_wf_kept d d' : history_wf d -> mt_history d' = mt_history d -> refs_kept d d' -> history_wf d'.
Proof.
  intros Hh He Hk. unfold history_wf. rewrite He. eapply Forall_impl; [exact Hh|]. intros h. by apply history_ok_kept.
Qed.
