(* ===== verification/MerchantWf.v ===== *)
(** The schema of merchant accounts holds in every reachable database. *)

From Stdlib Require Import ZArith Lia Strings.Byte.
From stdpp Require Import base gmap list strings fin_maps sorting.
From S2P Require Import Prelude GoStd Geth WalletProof Secret Calendar Challenge Schema Store.
From S2P Require Import MerchantSchema Merchant MerchantAdmin EmailDelivery FairUse MerchantRetention MerchantSystem.
From S2P Require Import MerchantLogic.

Local Open Scope Z_scope.
Local Open Scope mtx_scope.

Create HintDb mwf discriminated.

(** ** Single writes *)

#[export] Hint Resolve is_Some_insert : mwf.

Ltac kept := unfold refs_kept; cbn; auto with mwf.

(** A row written to its own table leaves the schema intact. *)
Class WfTable (R : Type) `{Table R} :=
  wf_put : forall d i (r : R), mwf d -> row_ok d r = true -> fits d i r = true -> (i < m_next d)%N ->
    mwf (set_table d (<[i := r]> (table d))).

Ltac wf_put_tac :=
  intros d i r [] Hok Hf Hi;
  split;
  first [eapply wf_own; [eassumption|eassumption|eassumption|exact Hi|cbn; lia|reflexivity|kept]
        |eapply wf_other; [eassumption|reflexivity|cbn; lia|kept]
        |eapply history_wf_kept; [eassumption|reflexivity|kept]].

#[export] Instance merchant_wf : WfTable MerchantRow.
Proof. wf_put_tac. Qed.
#[export] Instance token_wf : WfTable TokenRow.
Proof. wf_put_tac. Qed.
#[export] Instance outbox_wf : WfTable OutboxRow.
Proof. wf_put_tac. Qed.
#[export] Instance challenge_wf : WfTable ChallengeRow.
Proof. wf_put_tac. Qed.
#[export] Instance key_wf : WfTable KeyRow.
Proof. wf_put_tac. Qed.
#[export] Instance session_wf : WfTable SessionRow.
Proof. wf_put_tac. Qed.
#[export] Instance suspension_wf : WfTable SuspensionRow.
Proof. wf_put_tac. Qed.

Lemma wf_put_challenge d i c :
  mwf d -> challenge_row_ok d c = true -> fits d i c = true -> (i < m_next d)%N ->
  mwf (set_mt_challenges d (<[i := c]> (mt_challenges d))).
Proof. exact (wf_put (R := ChallengeRow) d i _). Qed.

Lemma wf_put_key d i k :
  mwf d -> key_row_ok d k = true -> fits d i k = true -> (i < m_next d)%N ->
  mwf (set_mt_keys d (<[i := k]> (mt_keys d))).
Proof. exact (wf_put (R := KeyRow) d i _). Qed.

Lemma wf_put_session d i s :
  mwf d -> session_row_ok d s = true -> fits d i s = true -> (i < m_next d)%N ->
  mwf (set_mt_sessions d (<[i := s]> (mt_sessions d))).
Proof. exact (wf_put (R := SessionRow) d i _). Qed.

Ltac wf_same_tac :=
  intros []; split;
  first [eapply wf_other; [eassumption|reflexivity|cbn; lia|kept]
        |eapply history_wf_kept; [eassumption|reflexivity|kept]].

Lemma wf_next d n : (m_next d <= n)%N -> mwf d -> mwf (set_m_next d n).
Proof. intros Hn. wf_same_tac. Qed.

Lemma wf_events d x : mwf d -> mwf (set_mt_events d x).
Proof. wf_same_tac. Qed.

Lemma wf_usage d x : mwf d -> mwf (set_mt_usage d x).
Proof. wf_same_tac. Qed.

Lemma wf_append d h : mwf d -> history_row_ok d h = true -> mwf (set_mt_history d (mt_history d ++ [h])).
Proof.
  intros [] Hh. split; try (eapply wf_other; [eassumption|reflexivity|cbn; lia|kept]).
  apply Forall_app. split; [|by repeat constructor]. done.
Qed.

Lemma wf_fresh {R} `{WfTable R} d (r : R) :
  let d1 := set_m_next d (N.succ (m_next d)) in
  mwf d -> row_ok d1 r = true -> fits d1 (m_next d) r = true ->
  mwf (set_table d1 (<[m_next d := r]> (table d1))).
Proof.
  intros d1 Hwf Hok Hf. apply wf_put; [|done|done|cbn; lia]. apply wf_next; [lia|done].
Qed.

(** The rows of a table may be rewritten without touching what is checked. *)
Lemma wf_sessions_map d f :
  mwf d -> (forall s, session_row_ok d s = true -> session_row_ok d (f s) = true) ->
  (forall s, s_hash (f s) = s_hash s) -> mwf (set_mt_sessions d (f <$> mt_sessions d)).
Proof.
  intros [? ? ? ? ? Hs ? ?] Hf Hh. split; try (eapply wf_other; [eassumption|reflexivity|cbn; lia|kept]);
    try (eapply history_wf_kept; [eassumption|reflexivity|kept]).
  destruct Hs as [Hrow Hpair]. split; cbn.
  - intros i r (s & <- & E)%lookup_fmap_Some. destruct (Hrow i s E). split; [done|]. by apply Hf.
  - intros i j r q (s & <- & E)%lookup_fmap_Some (s' & <- & E2)%lookup_fmap_Some. rewrite !Hh.
    by eapply Hpair.
Qed.

Lemma drawn {R} `{Table R} d i (r : R) : table_wf R d -> table d !! i = Some r -> (i < m_next d)%N.
Proof. intros [Hrow _] Hr. by destruct (Hrow i r Hr). Qed.

Lemma merchant_drawn d i m : mwf d -> mt_merchants d !! i = Some m -> (i < m_next d)%N.
Proof. intros Hwf. exact (drawn (R := MerchantRow) d i _ (wf_merchants _ Hwf)). Qed.

Lemma challenge_drawn d i c : mwf d -> mt_challenges d !! i = Some c -> (i < m_next d)%N.
Proof. intros Hwf. exact (drawn (R := ChallengeRow) d i _ (wf_challenges _ Hwf)). Qed.

Lemma session_drawn d i s : mwf d -> mt_sessions d !! i = Some s -> (i < m_next d)%N.
Proof. intros Hwf. exact (drawn (R := SessionRow) d i _ (wf_sessions _ Hwf)). Qed.

Lemma key_drawn d i k : mwf d -> mt_keys d !! i = Some k -> (i < m_next d)%N.
Proof. intros Hwf. exact (drawn (R := KeyRow) d i _ (wf_keys _ Hwf)). Qed.

#[export] Hint Resolve merchant_drawn challenge_drawn session_drawn key_drawn : mwf.
#[export] Hint Resolve wf_merchants wf_tokens wf_outbox wf_challenges wf_keys wf_sessions wf_suspensions : mwf.

Lemma wf_clear d merchant :
  mwf d -> mwf (set_mt_sessions d ((fun s =>
    if bool_decide (s_merchant s = merchant) then session_with None (s_revoked s) s else s) <$> mt_sessions d)).
Proof.
  intros Hwf. apply wf_sessions_map; [done| |]; intros s; destruct (bool_decide _); try done.
  unfold session_row_ok. cbn. rewrite !andb_true_iff. tauto.
Qed.

(** Close a well-formedness goal from the outermost write inwards. *)
Ltac wf_done :=
  repeat first
    [ eassumption
    | apply wf_events
    | apply wf_usage
    | apply wf_clear
    | apply wf_fresh
    | apply wf_append
    | apply wf_put
    | apply wf_put_challenge
    | apply wf_put_key
    | apply wf_put_session
    | match goal with E : table ?d !! ?i = Some _ |- (?i < m_next ?d)%N => refine (drawn _ _ _ _ E) end
    | match goal with E : mt_sessions ?d !! ?i = Some _ |- (?i < m_next ?d)%N => refine (session_drawn _ _ _ _ E) end
    | progress (cbn; solve [eauto with mwf]) ].

Section Preservation.
  Context `{Geth} `{Siwe} `{Net} (cfg : Config).

Lemma wf_account_ops op d :
  match op with
  | MAbandonExpired _ _ | MClaim _ _ _ _ | MRetention _ _ => False
  | _ => True
  end ->
  mwf d -> mpost (mexec cfg op) d (fun _ d' => mwf d').
Proof.
  intros Hop Hwf. destruct op; try done; cbn [mexec]; clear Hop;
  munfold; mrun; wf_done.
Qed.

Lemma wf_put_rows l d :
  mwf d -> Forall (fun io => (io.1 < m_next d)%N) l -> mpost (put_rows l) d (fun _ d' => mwf d').
Proof.
  revert d. induction l as [|[i o] l IH]; intros d Hwf Hl; cbn [put_rows]; mrun; [done|].
  inversion_clear Hl as [|? ? Hi Hl']. apply IH; [wf_done|done].
Qed.

Lemma wf_abandon_expired now locked d : mwf d -> mpost (abandon_expired now locked) d (fun _ d' => mwf d').
Proof.
  intros Hwf. unfold abandon_expired. apply mpost_bind, mpost_get, wf_put_rows; [done|].
  apply Forall_map, Forall_forall. intros [i o] Hin. cbn.
  apply elem_of_take in Hin as (k & Hk & _). apply list_elem_of_lookup_2, selected in Hk as [Ho _].
  exact (drawn (R := OutboxRow) d i o (wf_outbox _ Hwf) Ho).
Qed.

Lemma wf_claim now until only locked d : mwf d -> mpost (claim_next now until only locked) d (fun _ d' => mwf d').
Proof.
  intros Hwf. apply mpost_claim; [done|]. intros. apply wf_put; [|done|done|].
  - apply wf_next; [lia | done].
  - cbn. pose proof (drawn (R := OutboxRow) d _ _ (wf_outbox _ Hwf) ltac:(eassumption)). lia.
Qed.

Lemma wf_prune request locked d : mwf d -> mpost (prune_merchant_data request locked) d (fun _ d' => mwf d').
Proof.
  intros [Hm Ht Ho Hc Hk Hs Hu Hh]. apply mpost_prune. intros _ tokens challenges sessions keys St Sc Ss Sk Hspare _. split.
  - by eapply wf_sub; [exact Hm|reflexivity|reflexivity|].
  - by eapply wf_sub; [exact Ht|exact St|reflexivity|].
  - destruct Ho as [Hrow Hpair]. split; cbn.
    + intros i o [Hi Ho]%map_lookup_filter_Some. destruct (Hrow i o Hi) as [? Hok]. split; [done|].
      cbn in Hok. unfold outbox_row_ok in *. repeat (apply andb_prop in Hok as [Hok ?]).
      repeat (apply andb_true_intro; split); try done. by apply bool_decide_eq_true.
    + intros i j o q [Hi _]%map_lookup_filter_Some [Hj _]%map_lookup_filter_Some. by eapply Hpair.
  - by eapply wf_sub; [exact Hc|exact Sc|reflexivity|].
  - by eapply wf_sub; [exact Hk|exact Sk|reflexivity|].
  - by eapply wf_sub; [exact Hs|exact Ss|reflexivity|].
  - by eapply wf_sub; [exact Hu|reflexivity|reflexivity|].
  - unfold history_wf in *. rewrite Forall_forall in *. intros h Hin. specialize (Hh h Hin).
    unfold history_row_ok in *. repeat (apply andb_prop in Hh as [Hh ?]).
    repeat (apply andb_true_intro; split); try done. apply bool_decide_eq_true. cbn.
    destruct (challenges !! h_challenge h) eqn:E; [by eexists|exfalso].
    match goal with E : bool_decide (is_Some (mt_challenges _ !! _)) = true |- _ =>
      apply bool_decide_eq_true in E as [c Hch] end. by eapply Hspare.
Qed.

Lemma wf_mexec op d : mwf d -> mpost (mexec cfg op) d (fun _ d' => mwf d').
Proof.
  intros Hwf. destruct op; try (by apply wf_account_ops); cbn [mexec]; [by apply wf_abandon_expired|..];
    unfold silent; apply mpost_bind; [eapply mpost_mono; [by apply wf_claim|done]|eapply mpost_mono; [by apply wf_prune|done]].
Qed.

Lemma wf_empty : mwf empty_mdb.
Proof. by split; [split; intros *; cbn; rewrite ?lookup_empty ..|constructor]. Qed.

Lemma wf_run ok tr d : mrun cfg ok tr d -> mwf d.
Proof.
  intros R. induction R as [|tr d op d' R IH Hok E]; [apply wf_empty|]. exact (mpost_ok _ _ _ _ _ (wf_mexec op d IH) E).
Qed.

End Preservation.
