(* ===== verification/MerchantAccounts.v ===== *)
(** What each operation does to an account: its row and the history of its
    recipients. *)

From Stdlib Require Import ZArith Lia Strings.Byte.
From stdpp Require Import base gmap list strings fin_maps.
From S2P Require Import Prelude GoStd Geth WalletProof Secret Calendar Challenge Schema Store.
From S2P Require Import MerchantSchema Merchant MerchantAdmin EmailDelivery FairUse MerchantRetention MerchantSystem.
From S2P Require Import MerchantLogic MerchantWf.

Local Open Scope string_scope.
Local Open Scope Z_scope.

Definition account : Type := option MerchantRow * list HistoryRow.

Definition account_of (d : mdb) (m : rowid) : account :=
  (mt_merchants d !! m, filter (fun h => h_merchant h = m) (mt_history d)).

(** The columns a wallet proof and an operator decide. *)
Definition standing (r : MerchantRow) : string * option time * MerchantStatus :=
  (mr_recipient r, mr_wallet_verified r, mr_status r).

Section Proofs.
  Context `{Geth} `{Siwe} `{Net}.

(** The operation proved wallet [a] for merchant [m]. *)
Definition proved_by (op : mop) (m : rowid) (a : string) : Prop :=
  exists proof, wallet_proof op = Some proof /\ proves proof m a.

Lemma challenge_lower d i c : mwf d -> mt_challenges d !! i = Some c -> ToLower (ch_address c) = ch_address c.
Proof.
  intros Hwf Hc. destruct (wf_challenges _ Hwf) as [Hrow _]. destruct (Hrow i c Hc) as [_ Hok].
  cbn in Hok. unfold challenge_row_ok in Hok. repeat (apply andb_prop in Hok as [Hok ?]).
  symmetry. by apply String.eqb_eq.
Qed.

Lemma proof_account op env merchant challenge c m n (d : mdb) message signature action :
  mwf d -> ScanUUID merchant = Some n -> find_challenge d challenge n = Some c -> mt_merchants d !! n = Some m ->
  wallet_proof op = Some (merchant, message, signature, me_now env) ->
  is_ok (VerifyMessage message signature merchant (ch_address c) action (me_now env)) = true ->
  mt_challenges d !! challenge = Some c /\ ToLower (ch_address c) = ch_address c /\ proved_by op n (ch_address c).
Proof.
  intros Hwf Hs Hc Hm Hp Hv. unfold find_challenge in Hc. destruct (mt_challenges d !! challenge) as [c'|] eqn:E; [|done].
  destruct (bool_decide (ch_merchant c' = n)); [|done]. injection Hc as ->.
  split; [done|]. split; [by eapply challenge_lower|]. eexists. split; [exact Hp|]. split; [done|]. exists action.
  by destruct (VerifyMessage _ _ _ _ _ _) as [[]|].
Qed.

End Proofs.

(** The checks of a wallet proof, from the hypotheses of an execution. *)
Ltac proof_facts op :=
  lazymatch goal with
  | Hwf : mwf ?d, Hs : ScanUUID _ = Some ?n, Hf : find_challenge ?d _ ?n = Some ?c,
    Hm : mt_merchants ?d !! ?n = Some ?m, V : is_ok (VerifyMessage _ _ _ (ch_address ?c) _ _) = true |- _ =>
      destruct (proof_account op _ _ _ _ _ _ _ _ _ _ Hwf Hs Hf Hm eq_refl V) as (Hc & Hl & Hp)
  end.

Section Accounts.
  Context `{Geth} `{Siwe} `{Net} (cfg : Config).

Inductive account_step (op : mop) (m : rowid) : account -> account -> Prop :=
  | step_same x : account_step op m x x
  | step_registered r hs :
      standing r = (mr_recipient r, None, MPending) -> account_step op m (None, hs) (Some r, hs)
  | step_details r r' hs : standing r' = standing r -> account_step op m (Some r, hs) (Some r', hs)
  | step_repointed r r' hs :
      mr_status r = MPending -> mr_wallet_verified r = None -> standing r' = (mr_recipient r', None, MPending) ->
      account_step op m (Some r, hs) (Some r', hs)
  | step_activated r r' h hs :
      mr_status r = MPending -> mr_wallet_verified r = None ->
      standing r' = (mr_recipient r, Some (h_verified h), MActive) ->
      h_merchant h = m -> h_previous h = None -> h_new h = mr_recipient r' -> proved_by op m (mr_recipient r') ->
      account_step op m (Some r, hs) (Some r', (hs ++ [h])%list)
  | step_changed r r' h hs :
      mr_status r = MActive -> is_Some (mr_wallet_verified r) ->
      standing r' = (h_new h, Some (h_verified h), MActive) ->
      h_merchant h = m -> h_previous h = Some (mr_recipient r) -> h_new h <> mr_recipient r ->
      Forall (fun h' => h_verified h' + RecipientCooldown cfg <= h_verified h) hs ->
      proved_by op m (mr_recipient r') ->
      account_step op m (Some r, hs) (Some r', (hs ++ [h])%list)
  | step_suspended env mid reason operator request r r' hs :
      op = MSuspend env mid reason operator false request -> ScanUUID mid = Some m -> mr_status r = MActive -> standing r' = (mr_recipient r, mr_wallet_verified r, MSuspended) ->
      account_step op m (Some r, hs) (Some r', hs)
  | step_reinstated env mid reason operator request r r' hs :
      op = MSuspend env mid reason operator true request -> ScanUUID mid = Some m ->
      standing r' = (mr_recipient r, mr_wallet_verified r, MActive) ->
      account_step op m (Some r, hs) (Some r', hs).

Lemma account_other op m n d d' r :
  m <> n -> mt_history d' = mt_history d -> mt_merchants d' = <[n := r]> (mt_merchants d) ->
  account_step op m (account_of d m) (account_of d' m).
Proof. intros Hne Hh Hm. unfold account_of. rewrite Hh, Hm, lookup_insert_ne by done. apply step_same. Qed.

Lemma account_insert op n d d' r :
  mt_history d' = mt_history d -> mt_merchants d' = <[n := r]> (mt_merchants d) ->
  account_step op n (account_of d n) (Some r, filter (fun h => h_merchant h = n) (mt_history d)) ->
  forall m, account_step op m (account_of d m) (account_of d' m).
Proof.
  intros Hh Hm Hs m. destruct (decide (m = n)) as [->|Hne]; [|by eapply account_other].
  unfold account_of at 2. by rewrite Hh, Hm, lookup_insert_eq.
Qed.

Lemma account_proved op n d d' r h :
  mt_history d' = (mt_history d ++ [h])%list -> mt_merchants d' = <[n := r]> (mt_merchants d) -> h_merchant h = n ->
  account_step op n (account_of d n) (Some r, (filter (fun h => h_merchant h = n) (mt_history d) ++ [h])%list) ->
  forall m, account_step op m (account_of d m) (account_of d' m).
Proof.
  intros Hh Hm Hn Hs m. unfold account_of at 2. rewrite Hh, Hm, filter_app.
  destruct (decide (m = n)) as [->|Hne].
  - rewrite lookup_insert_eq, filter_cons_True by done. exact Hs.
  - rewrite lookup_insert_ne, filter_cons_False by congruence. rewrite app_nil_r. apply step_same.
Qed.

Lemma merchant_fresh d : mwf d -> mt_merchants d !! m_next d = None.
Proof.
  intros Hwf. destruct (mt_merchants d !! m_next d) as [r|] eqn:E; [|done].
  pose proof (merchant_drawn d _ r Hwf E). lia.
Qed.

Definition account_sound (op : mop) (d : mdb) : Prop :=
  mpost (mexec cfg op) d (fun _ d' => forall m, account_step op m (account_of d m) (account_of d' m)).

(** The write of one account row that was read as [E]. *)
Ltac account_write E :=
  eapply account_insert; [reflexivity|reflexivity|]; unfold account_of; cbn in E; rewrite E.

Lemma Register_account env inp request d : mwf d -> account_sound (MRegister env inp request) d.
Proof.
  intros Hwf. unfold account_sound. cbn [mexec]. munfold. mrun; try exact (fun m => step_same _ _ _).
  pose proof (merchant_fresh d Hwf) as E. account_write E. by apply step_registered.
Qed.

Lemma verifyEmail_account op env token request session d (Q : rowid -> mdb -> Prop) :
  mwf d ->
  (forall a d', (forall m, account_step op m (account_of d m) (account_of d' m)) -> Q a d') ->
  mpost (verifyEmail env token request session) d Q.
Proof.
  intros Hwf HQ. unfold verifyEmail. mrun; apply HQ; try exact (fun m => step_same _ _ _);
    match goal with E : table (set_table d _) !! _ = Some _ |- _ => account_write E end; by apply step_details.
Qed.

Lemma Pending_account env merchant address request d : mwf d -> account_sound (MPendingChallenge env merchant address request) d.
Proof.
  intros Hwf. unfold account_sound. cbn [mexec]. munfold. mrun; try exact (fun m => step_same _ _ _).
  account_write Heqo0. repeat match goal with E : _ && _ = true |- _ => apply andb_prop in E as [E ?%bool_decide_eq_true] end.
  match goal with E : bool_decide _ = true |- _ => apply bool_decide_eq_true in E end.
  apply step_repointed; try done. unfold standing. cbn. congruence.
Qed.

Lemma consent_account op env merchant token enabled public request d (Q : option time -> mdb -> Prop) :
  mwf d ->
  (forall a d', (forall m, account_step op m (account_of d m) (account_of d' m)) -> Q a d') ->
  mpost (set_consent env merchant token enabled public request) d Q.
Proof.
  intros Hwf HQ. unfold set_consent. mrun; apply HQ; try exact (fun m => step_same _ _ _); account_write Heqo0;
    by destruct public; apply step_details.
Qed.

Lemma Suspend_account env merchant reason operator reinstate request d :
  mwf d -> account_sound (MSuspend env merchant reason operator reinstate request) d.
Proof.
  intros Hwf. unfold account_sound. cbn [mexec]. unfold Suspend. mrun; try exact (fun m => step_same _ _ _); try exact I;
    repeat match goal with E : bool_decide _ = true |- _ => apply bool_decide_eq_true in E end;
    match goal with E : table _ !! ?i = Some _, Hi : ?i = _ |- _ => subst i; pose proof E as E'; account_write E' end.
  - subst reinstate. by eapply step_reinstated.
  - subst reinstate. match goal with E : table _ !! n = Some ?r, Ha : option_map _ _ = _ |- _ => cbn in E; rewrite E in Ha;
      injection Ha as Ha end. by eapply step_suspended.
Qed.

Lemma cooled d n now :
  cooling_down cfg d n now = false ->
  Forall (fun h => h_verified h + RecipientCooldown cfg <= now) (filter (fun h => h_merchant h = n) (mt_history d)).
Proof.
  intros Hc. apply Forall_forall. intros h [Hn Hin]%list_elem_of_filter.
  apply not_true_iff_false in Hc. destruct (Z.leb_spec (h_verified h + RecipientCooldown cfg) now); [done|].
  destruct Hc. apply existsb_exists. exists h. split; [by apply list_elem_of_In|].
  apply andb_true_intro. split; [by apply bool_decide_eq_true | apply Z.ltb_lt; lia].
Qed.

Lemma activation_step op n d m c now :
  mt_merchants d !! n = Some m -> mr_status m = MPending -> mr_wallet_verified m = None ->
  mr_recipient m = ToLower (ch_address c) -> proved_by op n (mr_recipient m) ->
  forall challenge,
  account_step op n (account_of d n)
    (Some (merchant_with_wallet (mr_recipient m) (Some now) MActive now m),
     (filter (fun h => h_merchant h = n) (mt_history d) ++
      [{| h_merchant := n; h_previous := None; h_new := ToLower (ch_address c); h_requested := now;
          h_verified := now; h_challenge := challenge |}])%list).
Proof.
  intros E Hs Hw Hr Hp challenge. unfold account_of. rewrite E.
  apply step_activated; done || (cbn; by rewrite Hr).
Qed.

Lemma change_step op n d m c now :
  mt_merchants d !! n = Some m -> mr_status m = MActive -> is_Some (mr_wallet_verified m) ->
  EqualFold (mr_recipient m) (ch_address c) = false -> cooling_down cfg d n now = false ->
  ToLower (ch_address c) = ch_address c -> proved_by op n (ch_address c) ->
  forall challenge,
  account_step op n (account_of d n)
    (Some (merchant_with_wallet (ToLower (ch_address c)) (Some now) (mr_status m) now m),
     (filter (fun h => h_merchant h = n) (mt_history d) ++
      [{| h_merchant := n; h_previous := Some (mr_recipient m); h_new := ToLower (ch_address c);
          h_requested := ch_created c; h_verified := now; h_challenge := challenge |}])%list).
Proof.
  intros E Hs Hw Hr Hc Hl Hp challenge. unfold account_of. rewrite E, !Hl.
  apply step_changed; try done; cbn.
  - unfold standing. cbn. by rewrite Hs.
  - intros Heq. apply not_true_iff_false in Hr. destruct Hr. apply EqualFold_spec. by rewrite Heq.
  - by apply cooled.
Qed.

Lemma allowed_change d n c m now a :
  action_allowed cfg d n c m now = Ok a -> ch_action c <> ActVerifyRecipient ->
  mr_status m = MActive /\ is_Some (mr_wallet_verified m) /\ EqualFold (mr_recipient m) (ch_address c) = false /\
  cooling_down cfg d n now = false.
Proof.
  unfold action_allowed. intros Ha Hne. destruct (ch_action c); try done;
    destruct (bool_decide_reflect (mr_status m = MActive)), (mr_wallet_verified m) eqn:Ew; cbn in Ha; try done;
    destruct (EqualFold _ _), (cooling_down _ _ _ _); try done; by eauto.
Qed.

Lemma VerifyWallet_account env merchant key challenge message signature action request d :
  mwf d -> account_sound (MVerifyWallet env merchant key challenge message signature action request) d.
Proof.
  intros Hwf. unfold account_sound. cbn [mexec]. munfold. mrun;
    proof_facts (MVerifyWallet env merchant key challenge message signature action request);
    (eapply account_proved; [reflexivity|reflexivity|reflexivity|]).
  all: first
    [ repeat match goal with E : _ && _ = true |- _ => apply andb_prop in E as [E ?] end;
      repeat match goal with E : bool_decide _ = true |- _ => apply bool_decide_eq_true in E end;
      match goal with E : String.eqb (mr_recipient _) _ = true |- _ => apply String.eqb_eq in E as Hr end;
      apply activation_step; [done..|]; by rewrite Hr, Hl
    | match goal with Ha : action_allowed _ _ _ _ _ _ = _, E : bool_decide _ = false |- _ =>
        destruct (allowed_change _ _ _ _ _ _ Ha) as (? & ? & ? & ?); [by eapply bool_decide_eq_false|] end;
      by apply change_step ].
Qed.

Lemma AdminChange_account env merchant token challenge message signature request d :
  mwf d -> account_sound (MVerifyAdminRecipientChange env merchant token challenge message signature request) d.
Proof.
  intros Hwf. unfold account_sound. cbn [mexec]. munfold. mrun.
  proof_facts (MVerifyAdminRecipientChange env merchant token challenge message signature request).
  eapply account_proved; [reflexivity|reflexivity|reflexivity|].
  repeat match goal with E : negb _ = true |- _ => apply negb_true_iff in E end.
  match goal with E : _ && elevated _ _ = true |- _ => apply andb_prop in E as [Ha%bool_decide_eq_true He] end.
  apply change_step; try done. unfold elevated in He. by destruct (mr_wallet_verified m).
Qed.

Lemma account_effect op d d' : mwf d -> mexec cfg op d = Ok (tt, d') ->
  forall m, account_step op m (account_of d m) (account_of d' m).
Proof.
  intros Hwf E. cut (account_sound op d). { intros HS. exact (mpost_ok _ _ _ _ _ HS E). } clear E.
  destruct op; eauto using Register_account, Pending_account, VerifyWallet_account, AdminChange_account, Suspend_account;
    unfold account_sound; cbn [mexec]; unfold silent;
    try (munfold; mrun; exact (fun m => step_same _ _ _)).
  - apply mpost_bind. eapply verifyEmail_account; [done|]. intros a d1 HS. exact HS.
  - unfold VerifyEmailForAdmin. mrun. eapply verifyEmail_account; [done|]. intros ? d1 HS. exact HS.
  - apply mpost_bind. eapply consent_account; [done|]. intros a d1 HS. exact HS.
  - apply mpost_bind. eapply consent_account; [done|]. intros a d1 HS. exact HS.
Qed.

End Accounts.
