(* ===== verification/MerchantStanding.v ===== *)
(** Recipients are only ever wallets that signed for the account, and a
    suspended account stays as it is until it is reinstated. *)

From Stdlib Require Import ZArith Lia Strings.Byte Sorting.Sorted.
From stdpp Require Import base gmap list strings fin_maps.
From S2P Require Import Prelude GoStd Geth WalletProof Secret Calendar Challenge Schema Store.
From S2P Require Import MerchantSchema Merchant MerchantAdmin EmailDelivery FairUse MerchantRetention MerchantSystem.
From S2P Require Import MerchantLogic MerchantWf MerchantAccounts.

Local Open Scope string_scope.
Local Open Scope Z_scope.

(** The operator reinstates merchant [m]. *)
Definition reinstates `{Net} (op : mop) (m : rowid) : Prop :=
  exists env mid reason operator request,
    op = MSuspend env mid reason operator true request /\ ScanUUID mid = Some m.

Section Standing.
  Context `{Geth} `{Siwe} `{Net} (cfg : Config).

(** ** Recipients *)

(** Each entry names the recipient before it. *)
Fixpoint linked (previous : option string) (hs : list HistoryRow) : Prop :=
  match hs with
  | [] => True
  | h :: hs => h_previous h = previous /\ linked (Some (h_new h)) hs
  end.

Definition cooled_down (h h' : HistoryRow) : Prop := h_verified h + RecipientCooldown cfg <= h_verified h'.

Definition account_inv (tr : list mop) (m : rowid) (x : account) : Prop :=
  let '(row, hs) := x in
  Forall (fun h => attested tr m (h_new h)) hs /\ linked None hs /\ StronglySorted cooled_down hs /\
  match row with
  | None => hs = []
  | Some r =>
      (mr_status r = MPending <-> mr_wallet_verified r = None) /\
      option_map h_verified (last hs) = mr_wallet_verified r /\
      (forall h, last hs = Some h -> h_new h = mr_recipient r)
  end.

Lemma linked_snoc previous hs h :
  linked previous hs -> h_previous h = match last hs with Some l => Some (h_new l) | None => previous end ->
  linked previous (hs ++ [h])%list.
Proof.
  revert previous. induction hs as [|x hs IH]; intros previous Hl Hp; [done|].
  destruct Hl as [Hx Hl]. split; [done|]. apply IH; [done|]. rewrite last_cons in Hp. by destruct (last hs).
Qed.

Lemma sorted_snoc hs h :
  StronglySorted cooled_down hs -> Forall (fun h' => cooled_down h' h) hs -> StronglySorted cooled_down (hs ++ [h])%list.
Proof.
  intros HS HF. induction HS as [|x hs HS IH Hx]; [by repeat constructor|]. inversion_clear HF.
  constructor; [by apply IH|]. apply Forall_app. split; [done|]. by repeat constructor.
Qed.

Lemma proved_attested op tr m a : proved_by op m a -> attested (op :: tr) m a.
Proof. intros (proof & Hw & Hp). exists op, proof. split; [by left|done]. Qed.

Lemma attested_all op tr m hs :
  Forall (fun h => attested tr m (h_new h)) hs -> Forall (fun h => attested (op :: tr) m (h_new h)) hs.
Proof. intros Ha. eapply Forall_impl; [exact Ha|]. intros h. apply attested_cons. Qed.

(** A proof of wallet [h_new h] extends the record. *)
Lemma account_inv_snoc op tr m r r' h hs :
  account_inv tr m (Some r, hs) -> proved_by op m (h_new h) ->
  h_previous h = match last hs with Some l => Some (h_new l) | None => None end ->
  Forall (fun h' => cooled_down h' h) hs ->
  standing r' = (h_new h, Some (h_verified h), MActive) ->
  account_inv (op :: tr) m (Some r', (hs ++ [h])%list).
Proof.
  intros (Ha & Hl & Hs & _) Hp Hprev Hc [= Er Ew Es]. split_and!.
  - apply Forall_app. split; [by apply attested_all|]. constructor; [|done]. by apply proved_attested.
  - by apply linked_snoc.
  - by apply sorted_snoc.
  - by rewrite Es, Ew.
  - by rewrite last_snoc, Ew.
  - intros h' [= <-]%(eq_trans (eq_sym (last_snoc _ _))). by rewrite Er.
Qed.

Lemma account_inv_keep op tr m r r' hs :
  account_inv tr m (Some r, hs) -> mr_recipient r' = mr_recipient r -> mr_wallet_verified r' = mr_wallet_verified r ->
  (mr_status r' = MPending <-> mr_status r = MPending) -> account_inv (op :: tr) m (Some r', hs).
Proof.
  intros (Ha & Hl & Hs & Hpd & Hv & Hn) Er Ew Es. split_and!; [by apply attested_all|done|done| |by rewrite Ew|by rewrite Er].
  rewrite Es, Ew. exact Hpd.
Qed.

Lemma account_inv_pending op tr m r r' hs :
  account_inv tr m (Some r, hs) -> mr_wallet_verified r = None -> standing r' = (mr_recipient r', None, MPending) ->
  account_inv (op :: tr) m (Some r', hs).
Proof.
  intros (Ha & Hl & Hs & Hpd & Hv & Hn) Hw [= Ew Es]. rewrite Hw in Hv.
  destruct (last hs) as [h|] eqn:E; [done|]. apply last_None in E as ->.
  split_and!; [done|done|done| | |]; cbn; by rewrite ?Es, ?Ew.
Qed.

Lemma account_inv_step op tr m x y :
  account_inv tr m x -> (forall r, reinstates op m -> x.1 = Some r -> mr_status r = MSuspended) ->
  account_step cfg op m x y -> account_inv (op :: tr) m y.
Proof.
  intros Hinv Hre Hst. destruct Hst as [[row hs]|r hs Es|r r' hs Es|r r' hs Hpd Hw Es|r r' h hs Hpd Hw Es Hm Hprev Hn Hby
    |r r' h hs Hac Hw Es Hm Hprev Hne Hcool Hby|? ? ? ? ? r r' hs Eo Em Hac Es|? ? ? ? ? r r' hs Eo Em Es].
  - destruct Hinv as (Ha & Hrest). split; [by apply attested_all|done].
  - destruct Hinv as (_ & _ & _ & ->). injection Es as Ew Es. split_and!; [done|done|constructor| | |]; cbn; by rewrite ?Es, ?Ew.
  - injection Es as Er Ew Es. eapply account_inv_keep; [exact Hinv|done|done|by rewrite Es].
  - by eapply account_inv_pending.
  - assert (last hs = None) as Hlast.
    { destruct Hinv as (_ & _ & _ & _ & Hv & _). rewrite Hw in Hv. by destruct (last hs). }
    apply last_None in Hlast as ->. injection Es as Er Ew Es.
    eapply account_inv_snoc; [exact Hinv|by rewrite Hn|done|constructor|]. unfold standing. by rewrite Ew, Es, Hn.
  - assert (exists l, last hs = Some l /\ h_new l = mr_recipient r) as (l & Hlast & Hl).
    { destruct Hinv as (_ & _ & _ & _ & Hv & Hrec). destruct Hw as [t Ht]. rewrite Ht in Hv.
      destruct (last hs) as [l|]; [|done]. eauto. }
    injection Es as Er Ew Es. eapply account_inv_snoc; [exact Hinv|by rewrite <- Er| |exact Hcool|].
    + by rewrite Hlast, Hl.
    + unfold standing. by rewrite Er, Ew, Es.
  - injection Es as Er Ew Es. eapply account_inv_keep; [exact Hinv|done|done|]. by rewrite Es, Hac.
  - injection Es as Er Ew Es. eapply account_inv_keep; [exact Hinv|done|done|].
    rewrite Es, (Hre r); [done| |done]. by eexists _, _, _, _, _.
Qed.

(** ** Suspensions *)

Definition opened (d : mdb) (m : rowid) : Prop :=
  exists i s, mt_suspensions d !! i = Some s /\ su_merchant s = m /\ su_reinstated s = None.

Lemma opened_insert d d' i s m :
  mt_suspensions d' = <[i := s]> (mt_suspensions d) -> m <> su_merchant s ->
  (forall s0, mt_suspensions d !! i = Some s0 -> su_merchant s0 = su_merchant s) -> opened d' m <-> opened d m.
Proof.
  intros Hd Hm Hi. unfold opened. rewrite Hd. split; intros (j & q & Hq & Hqm & Hqr).
  - apply lookup_insert_Some in Hq as [[-> ->]|[Hne Hq]]; [done|]. eauto.
  - exists j, q. split; [|done]. rewrite lookup_insert_ne; [done|]. intros ->. apply Hm. by rewrite <- Hqm, (Hi q).
Qed.

Lemma closed_insert d d' i s s' :
  mwf d -> mt_suspensions d !! i = Some s -> su_reinstated s = None ->
  mt_suspensions d' = <[i := s']> (mt_suspensions d) -> is_Some (su_reinstated s') -> ~ opened d' (su_merchant s).
Proof.
  intros Hwf Hs Hr Hd [x Hx] (j & q & Hq & Hqm & Hqr). rewrite Hd in Hq.
  apply lookup_insert_Some in Hq as [[-> ->]|[Hne Hq]]; [congruence|].
  destruct (wf_suspensions _ Hwf) as [_ Hpair]. destruct (Hpair i j s q Hs Hq) as [|Hc]; [done|].
  cbn in Hc. unfold suspension_compatible, distinct_if in Hc. rewrite Hr, Hqr, !bool_decide_true in Hc by done.
  apply bool_decide_eq_true in Hc. congruence.
Qed.

Lemma suspended_merchant d i s : mwf d -> mt_suspensions d !! i = Some s -> is_Some (mt_merchants d !! su_merchant s).
Proof.
  intros Hwf Hs. destruct (wf_suspensions _ Hwf) as [Hrow _]. destruct (Hrow i s Hs) as [_ Hok].
  cbn in Hok. unfold suspension_row_ok in Hok. apply andb_prop in Hok as [Hok _]. by apply bool_decide_eq_true in Hok.
Qed.

Lemma suspension_fresh d : mwf d -> mt_suspensions d !! m_next d = None.
Proof.
  intros Hwf. destruct (mt_suspensions d !! m_next d) as [s|] eqn:E; [|done].
  pose proof (drawn (R := SuspensionRow) d _ s (wf_suspensions _ Hwf) E). lia.
Qed.

Definition suspended_to (d : mdb) (n : rowid) (reinstate : bool) (d' : mdb) : Prop :=
  (forall m, m <> n -> opened d' m <-> opened d m) /\
  (opened d' n <-> reinstate = false) /\ (reinstate = true -> opened d n) /\
  (forall r', mt_merchants d' !! n = Some r' -> mr_status r' = if reinstate then MActive else MSuspended).

Lemma reinstated_to d d' i s now operator r :
  mwf d -> mt_suspensions d !! i = Some s -> su_reinstated s = None ->
  mt_suspensions d' = <[i := suspension_end now operator s]> (mt_suspensions d) ->
  mt_merchants d' = <[su_merchant s := merchant_with_status MActive now r]> (mt_merchants d) ->
  suspended_to d (su_merchant s) true d'.
Proof.
  intros Hwf Hs Hr Hd Hm. split_and!.
  - intros m Hne. eapply opened_insert; [exact Hd|done|]. intros s0 Hs0. by simplify_eq.
  - split; [|done]. intros Ho. by destruct (closed_insert d d' i s _ Hwf Hs Hr Hd ltac:(eexists; reflexivity)).
  - intros _. by exists i, s.
  - intros r'. rewrite Hm, lookup_insert_eq. by intros [= <-].
Qed.

Lemma suspended_at d d' n now reason operator r :
  mwf d ->
  mt_suspensions d' = <[m_next d := {| su_merchant := n; su_reason := reason; su_operator := operator;
                                       su_suspended := now; su_reinstated := None |}]> (mt_suspensions d) ->
  mt_merchants d' = <[n := merchant_with_status MSuspended now r]> (mt_merchants d) -> suspended_to d n false d'.
Proof.
  intros Hwf Hd Hm. split_and!; [| |done|].
  - intros m Hne. eapply opened_insert; [exact Hd|done|]. by rewrite suspension_fresh.
  - split; [done|]. intros _. eexists _, _. rewrite Hd, lookup_insert_eq. done.
  - intros r'. rewrite Hm, lookup_insert_eq. by intros [= <-].
Qed.

Lemma Suspend_opened env mid reason operator reinstate request d :
  mwf d ->
  mpost (mexec cfg (MSuspend env mid reason operator reinstate request)) d
    (fun _ d' => exists n, ScanUUID mid = Some n /\ suspended_to d n reinstate d').
Proof.
  intros Hwf. cbn [mexec]. unfold Suspend. mrun; try exact I; exists n; (split; [done|]);
    repeat match goal with E : _ && _ = true |- _ => apply andb_prop in E as [E ?] end;
    repeat match goal with E : bool_decide _ = true |- _ => apply bool_decide_eq_true in E end; subst.
  - by eapply reinstated_to.
  - exfalso. destruct (suspended_merchant d _ _ Hwf ltac:(eassumption)) as [r0 Hr0].
    match goal with E : forall i r, table _ !! i = Some r -> _ |- _ => specialize (E _ _ Hr0); cbn in E;
      by rewrite bool_decide_true in E end.
  - by eapply suspended_at.
  - exfalso. destruct (mt_merchants d !! n) as [r0|] eqn:Hr0; [|done].
    match goal with E : forall i r, table _ !! i = Some r -> _ |- _ => specialize (E n r0 Hr0); cbn in E;
      by rewrite bool_decide_true in E end.
Qed.

Lemma suspensions_effect op d d' :
  mexec cfg op d = Ok (tt, d') ->
  (exists env mid reason operator reinstate request, op = MSuspend env mid reason operator reinstate request) \/
  (forall env mid reason operator reinstate request, op <> MSuspend env mid reason operator reinstate request) /\
  mt_suspensions d' = mt_suspensions d.
Proof.
  intros E. destruct op; try (left; by eexists _, _, _, _, _, _); (right; split; [done|]); revert E;
    refine (mpost_ok _ _ (fun _ d' => mt_suspensions d' = mt_suspensions d) _ _ _); cbn [mexec]; munfold; mrun; reflexivity.
Qed.

(** ** The invariant *)

Definition standing_inv (tr : list mop) (d : mdb) : Prop :=
  forall m, account_inv tr m (account_of d m) /\
    forall r, mt_merchants d !! m = Some r -> mr_status r = MSuspended <-> opened d m.

Lemma opened_exists d m : mwf d -> opened d m -> is_Some (mt_merchants d !! m).
Proof. intros Hwf (i & s & Hs & <- & _). by eapply suspended_merchant. Qed.

(** Only the operator moves an account to or from suspension. *)
Lemma step_status op m x y r' :
  account_step cfg op m x y -> y.1 = Some r' ->
  (forall env mid reason operator reinstate request,
     op = MSuspend env mid reason operator reinstate request -> ScanUUID mid <> Some m) ->
  match x.1 with
  | Some r => mr_status r' = MSuspended <-> mr_status r = MSuspended
  | None => mr_status r' <> MSuspended
  end.
Proof.
  intros Hst Hy Hop. destruct Hst as [[row hs]|r hs Es|r r1 hs Es|r r1 hs Hpd Hw Es|r r1 h hs Hpd Hw Es|
    r r1 h hs Hac Hw Es|? ? ? ? ? r r1 hs Eo|? ? ? ? ? r r1 hs Eo]; cbn in *; try (by rewrite Hy);
    try (by destruct (Hop _ _ _ _ _ _ Eo)); injection Hy as ->; unfold standing in Es; simplify_eq; naive_solver congruence.
Qed.

Lemma standing_step op tr d d' : mwf d -> standing_inv tr d -> mexec cfg op d = Ok (tt, d') -> standing_inv (op :: tr) d'.
Proof.
  intros Hwf Hinv E m. destruct (Hinv m) as [Hacc Hsus]. pose proof (account_effect cfg op d d' Hwf E m) as Hst. split.
  - eapply account_inv_step; [exact Hacc| |exact Hst]. intros r (env & mid & reason & operator & request & -> & Hm) Hr.
    destruct (mpost_ok _ _ _ _ _ (Suspend_opened env mid reason operator true request d Hwf) E) as (n & Hn & _ & _ & Ho & _).
    simplify_eq. apply Hsus; [done|]. by apply Ho.
  - intros r' Hr'. 
    assert ((forall env mid reason operator reinstate request,
       op = MSuspend env mid reason operator reinstate request -> ScanUUID mid <> Some m) ->
      (opened d' m <-> opened d m) -> mr_status r' = MSuspended <-> opened d' m) as Hkeep.
    { intros Hop ->. pose proof (step_status op m _ _ r' Hst Hr' Hop) as Hs. cbn in Hs.
      destruct (mt_merchants d !! m) as [r|] eqn:Er; [by rewrite Hs; apply Hsus|].
      split; [done|]. intros [? ?]%(opened_exists d m Hwf). congruence. }
    destruct (suspensions_effect op d d' E) as [(env & mid & reason & operator & re & request & ->)|[Hno He]].
    + destruct (mpost_ok _ _ _ _ _ (Suspend_opened env mid reason operator re request d Hwf) E) as (n & Hn & Hother & Ho & _ & Hs).
      destruct (decide (m = n)) as [->|Hne].
      * rewrite (Hs r' Hr'), Ho. by destruct re.
      * apply Hkeep; [|by apply Hother]. intros ? ? ? ? ? ? [= -> -> -> -> -> ->]. congruence.
    + apply Hkeep; [|unfold opened; by rewrite He]. intros ? ? ? ? ? ? Eo. by destruct (Hno _ _ _ _ _ _ Eo).
Qed.

Lemma standing_run ok tr d : mrun cfg ok tr d -> standing_inv tr d.
Proof.
  intros R. induction R as [|tr d op d' R IH Hok E].
  - intros m. split; [|intros r; cbn; by rewrite lookup_empty]. cbn. rewrite lookup_empty. by repeat constructor.
  - by eapply standing_step; [eapply wf_run|..].
Qed.

End Standing.
