(* ===== verification/MerchantSessions.v ===== *)
(** Panel sessions: which wallet proof a session's elevation rests on. *)

From Stdlib Require Import ZArith Lia Strings.Byte.
From stdpp Require Import base gmap list strings fin_maps.
From S2P Require Import Prelude GoStd Geth WalletProof Secret Calendar Challenge Schema Store.
From S2P Require Import MerchantSchema Merchant MerchantAdmin EmailDelivery FairUse MerchantRetention MerchantSystem.
From S2P Require Import MerchantLogic MerchantWf MerchantAccounts MerchantStanding.

Local Open Scope string_scope.
Local Open Scope Z_scope.

Definition recipient_of (d : mdb) (m : rowid) : option string := option_map mr_recipient (mt_merchants d !! m).

Definition unverified (d : mdb) (m : rowid) : Prop :=
  exists r, mt_merchants d !! m = Some r /\ mr_wallet_verified r = None.

Section Sessions.
  Context `{Geth} `{Siwe} `{Net} (cfg : Config).

(** The proof is of the wallet the account now pays. *)
Definition proves_current (proof : string * string * string * time) (d : mdb) (m : rowid) : Prop :=
  exists r, mt_merchants d !! m = Some r /\ is_Some (mr_wallet_verified r) /\ proves proof m (mr_recipient r).

Definition marks (op : mop) (m : rowid) (d d' : mdb) : Prop :=
  mt_merchants d' = mt_merchants d /\
  exists env mid token proof, op = MMarkSession env mid token proof /\ ScanUUID mid = Some m.

(** Where the elevation of a session comes from: there is none, it was there
    and the account's recipient has not changed, or the operation made it. *)
Inductive elevation (op : mop) (d d' : mdb) (i : rowid) (s' : SessionRow) : Prop :=
  | elevation_none : s_wallet s' = None -> elevation op d d' i s'
  | elevation_kept s :
      mt_sessions d !! i = Some s -> s_wallet s' = s_wallet s -> s_hash s' = s_hash s -> s_merchant s' = s_merchant s ->
      recipient_of d' (s_merchant s) = recipient_of d (s_merchant s) \/ unverified d (s_merchant s) ->
      elevation op d d' i s'
  | elevation_made token proof :
      session_proof op = Some (token, proof) -> s_hash s' = Hash token ->
      proves_current proof d' (s_merchant s') \/ marks op (s_merchant s') d d' -> elevation op d d' i s'.

(** Every operation that does not change the recipient of an active account. *)
Definition ordinary_session (op : mop) : Prop :=
  match op with
  | MVerifyWallet _ _ _ _ _ _ _ _ | MVerifyAdminWallet _ _ _ _ _ _ _ | MVerifyAdminRecipientChange _ _ _ _ _ _ _
  | MMarkSession _ _ _ _ => False
  | _ => True
  end.

Lemma sessions_kept op d : mwf d -> ordinary_session op ->
  mpost (mexec cfg op) d (fun _ d' => forall i s', mt_sessions d' !! i = Some s' ->
    s_wallet s' = None \/
    exists s, mt_sessions d !! i = Some s /\ s_wallet s' = s_wallet s /\ s_hash s' = s_hash s /\ s_merchant s' = s_merchant s).
Proof.
  intros Hwf Hop. destruct op; try done; cbn [mexec]; munfold; mrun;
    try (intros ? s' Hs'; right; by exists s').
  all: intros j s' Hs'; cbn in Hs'.
  1,2: apply lookup_insert_Some in Hs' as [[_ <-]|[_ Hs']]; [by left|right; by exists s'].
  - apply lookup_insert_Some in Hs' as [[<- <-]|[_ Hs']]; right; [by exists r|by exists s'].
  - right. exists s'. split; [by eapply lookup_weaken|done].
Qed.

Lemma recipient_kept op d d' i s :
  mwf d -> mt_sessions d !! i = Some s -> account_step cfg op (s_merchant s) (account_of d (s_merchant s)) (account_of d' (s_merchant s)) ->
  wallet_proof op = None ->
  recipient_of d' (s_merchant s) = recipient_of d (s_merchant s) \/ unverified d (s_merchant s).
Proof.
  intros Hwf Hs Hst Hw. unfold recipient_of, unverified.
  assert (is_Some (mt_merchants d !! s_merchant s)) as [r0 Hr0].
  { destruct (wf_sessions _ Hwf) as [Hrow _]. destruct (Hrow i s Hs) as [_ Hok]. cbn in Hok.
    unfold session_row_ok in Hok. repeat (apply andb_prop in Hok as [Hok ?]). by apply bool_decide_eq_true in Hok. }
  unfold account_of in Hst. rewrite Hr0 in *.
  inversion Hst as [x Ex Ey| |r r' hs Es Ex Ey|r r' hs Hpd Hw0 Es Ex Ey|r r' h hs Hpd Hw0 Es Hm Hprev Hn Hby Ex Ey
    |r r' h hs Hac Hw0 Es Hm Hprev Hne Hcool Hby Ex Ey|? ? ? ? ? r r' hs Eo Em Hac Es Ex Ey|? ? ? ? ? r r' hs Eo Em Es Ex Ey];
    unfold standing in *; simplify_eq; try (right; by eauto); try (destruct Hby as (? & ? & ?); congruence); left; cbn; congruence.
Qed.

Lemma session_ordinary op d d' i s' :
  mwf d -> ordinary_session op -> mexec cfg op d = Ok (tt, d') -> mt_sessions d' !! i = Some s' -> elevation op d d' i s'.
Proof.
  intros Hwf Hop E Hs'. destruct (mpost_ok _ _ _ _ _ (sessions_kept op d Hwf Hop) E i s' Hs') as [Hn|(s & Hs & Hw & Hh & Hm)].
  - by apply elevation_none.
  - eapply elevation_kept; eauto. eapply recipient_kept; eauto using account_effect. by destruct op.
Qed.

Lemma session_mark env mid token proof d d' i s' :
  mwf d -> mexec cfg (MMarkSession env mid token proof) d = Ok (tt, d') -> mt_sessions d' !! i = Some s' ->
  elevation (MMarkSession env mid token proof) d d' i s'.
Proof.
  intros Hwf E. revert d' E i s'.
  cut (mpost (mexec cfg (MMarkSession env mid token proof)) d (fun _ d' => forall i s', mt_sessions d' !! i = Some s' ->
    elevation (MMarkSession env mid token proof) d d' i s')).
  { intros HP d' E. exact (mpost_ok _ _ _ _ _ HP E). }
  cbn [mexec]. munfold. mrun. intros j s' Hs'. cbn in Hs'.
  apply lookup_insert_Some in Hs' as [[<- <-]|[_ Hs']].
  - destruct proof as [[msg sig] checked]. eapply elevation_made; [reflexivity|done|]. right. split; [done|].
    eexists _, _, _, _. split; [done|]. cbn. congruence.
  - eapply elevation_kept; eauto.
Qed.

Lemma recipient_lower d m r : mwf d -> mt_merchants d !! m = Some r -> ToLower (mr_recipient r) = mr_recipient r.
Proof.
  intros Hwf Hr. destruct (wf_merchants _ Hwf) as [Hrow _]. destruct (Hrow m r Hr) as [_ Hok].
  cbn in Hok. unfold merchant_row_ok in Hok. repeat (apply andb_prop in Hok as [Hok ?]).
  symmetry. by apply String.eqb_eq.
Qed.

Lemma session_admin env merchant token challenge message signature request d d' i s' :
  let op := MVerifyAdminWallet env merchant token challenge message signature request in
  mwf d -> (forall m r, mt_merchants d !! m = Some r -> mr_status r = MActive -> is_Some (mr_wallet_verified r)) ->
  mexec cfg op d = Ok (tt, d') -> mt_sessions d' !! i = Some s' -> elevation op d d' i s'.
Proof.
  intros op Hwf Hver E. revert d' E i s'.
  cut (mpost (mexec cfg op) d (fun _ d' => forall i s', mt_sessions d' !! i = Some s' -> elevation op d d' i s')).
  { intros HP d' E. exact (mpost_ok _ _ _ _ _ HP E). }
  subst op. cbn [mexec]. munfold. mrun.
  proof_facts (MVerifyAdminWallet env merchant token challenge message signature request).
  intros j s' Hs'. cbn in Hs'. apply lookup_insert_Some in Hs' as [[<- <-]|[_ Hs']].
  - eapply elevation_made; [reflexivity|done|]. left. exists m.
    match goal with E : bool_decide _ && EqualFold _ _ = true |- _ =>
      apply andb_prop in E as [Ha%bool_decide_eq_true Hf%EqualFold_spec] end.
    rewrite (recipient_lower d n m) in Hf by done. rewrite Hl in Hf. destruct Hp as (pf & Hpf & Hpr). injection Hpf as <-.
    cbn [session_with s_merchant]. subst n. split; [done|]. split; [by eapply Hver|]. by rewrite Hf.
  - eapply elevation_kept; eauto.
Qed.

(** After a change of recipient no elevation of that account remains. *)
Lemma cleared_lookup (t : gmap rowid SessionRow) n i s' :
  ((fun s => if bool_decide (s_merchant s = n) then session_with None (s_revoked s) s else s) <$> t) !! i = Some s' ->
  s_wallet s' = None \/ t !! i = Some s' /\ s_merchant s' <> n.
Proof.
  intros (s & <- & Hs)%lookup_fmap_Some. destruct (bool_decide_reflect (s_merchant s = n)); [by left|by right].
Qed.

Lemma recipient_elsewhere d d' n m r : mt_merchants d' = <[n := r]> (mt_merchants d) -> m <> n -> recipient_of d' m = recipient_of d m.
Proof. intros Hd Hne. unfold recipient_of. by rewrite Hd, lookup_insert_ne. Qed.

Lemma session_change env merchant token challenge message signature request d d' i s' :
  let op := MVerifyAdminRecipientChange env merchant token challenge message signature request in
  mwf d -> mexec cfg op d = Ok (tt, d') -> mt_sessions d' !! i = Some s' -> elevation op d d' i s'.
Proof.
  intros op Hwf E. revert d' E i s'.
  cut (mpost (mexec cfg op) d (fun _ d' => forall i s', mt_sessions d' !! i = Some s' -> elevation op d d' i s')).
  { intros HP d' E. exact (mpost_ok _ _ _ _ _ HP E). }
  subst op. cbn [mexec]. munfold. mrun.
  proof_facts (MVerifyAdminRecipientChange env merchant token challenge message signature request).
  intros j s' Hs'. cbn in Hs'. apply lookup_insert_Some in Hs' as [[<- <-]|[_ Hs']].
  - eapply elevation_made; [reflexivity|done|]. left. destruct Hp as (pf & Hpf & Hpr). injection Hpf as <-.
    eexists. cbn. subst n. rewrite lookup_insert_eq. split; [done|]. split; [by eexists|]. cbn. by rewrite Hl.
  - apply cleared_lookup in Hs' as [Hn|[Hs' Hne]]; [by apply elevation_none|].
    eapply elevation_kept; eauto. left. by eapply recipient_elsewhere.
Qed.

Lemma recipient_same d d' n r0 r m :
  mt_merchants d' = <[n := r]> (mt_merchants d) -> mt_merchants d !! n = Some r0 -> mr_recipient r = mr_recipient r0 ->
  recipient_of d' m = recipient_of d m.
Proof.
  intros Hd Hr Hrec. destruct (decide (m = n)) as [->|Hne]; [|by eapply recipient_elsewhere].
  unfold recipient_of. rewrite Hd, lookup_insert_eq, Hr. cbn. by rewrite Hrec.
Qed.

Lemma session_wallet env merchant key challenge message signature action request d d' i s' :
  let op := MVerifyWallet env merchant key challenge message signature action request in
  mwf d -> mexec cfg op d = Ok (tt, d') -> mt_sessions d' !! i = Some s' -> elevation op d d' i s'.
Proof.
  intros op Hwf E. revert d' E i s'.
  cut (mpost (mexec cfg op) d (fun _ d' => forall i s', mt_sessions d' !! i = Some s' -> elevation op d d' i s')).
  { intros HP d' E. exact (mpost_ok _ _ _ _ _ HP E). }
  subst op. cbn [mexec]. munfold. mrun; intros j s' Hs'; cbn in Hs'.
  all: first
    [ apply cleared_lookup in Hs' as [Hn|[Hs' Hne]]; [by apply elevation_none|];
      eapply elevation_kept; eauto; left; by eapply recipient_elsewhere
    | eapply elevation_kept; eauto; left; by eapply recipient_same ].
Qed.

Lemma session_effect op d d' i s' :
  mwf d -> (forall m r, mt_merchants d !! m = Some r -> mr_status r = MActive -> is_Some (mr_wallet_verified r)) ->
  mexec cfg op d = Ok (tt, d') -> mt_sessions d' !! i = Some s' -> elevation op d d' i s'.
Proof.
  intros Hwf Hver E Hs'. destruct op;
    eauto using session_wallet, session_admin, session_change, session_mark; by apply session_ordinary.
Qed.

(** ** The invariant *)

(** The panel marks a session after it verified the recipient of a pending
    account ... *)
Definition handled (tr : list mop) (d : mdb) (op : mop) : Prop :=
  match op with
  | MMarkSession _ mid _ (message, signature, checked) =>
      exists env challenge request, me_now env = checked /\
        MVerifyWallet env mid EmptyString challenge message signature "verify-recipient" request ∈ tr
  | _ => True
  end.

(** ... and, as far as it can tell, before that recipient changes again. *)
Definition prompt (tr : list mop) (d : mdb) (op : mop) : Prop :=
  handled tr d op /\
  match op with
  | MMarkSession _ mid _ (message, signature, checked) =>
      forall m, ScanUUID mid = Some m -> proves_current (mid, message, signature, checked) d m
  | _ => True
  end.

(** In the run, the session presented a proof of the wallet the account pays. *)
Definition session_backed (tr : list mop) (d : mdb) (m : rowid) (hash : string) : Prop :=
  exists op token proof, op ∈ tr /\ session_proof op = Some (token, proof) /\ hash = Hash token /\ proves_current proof d m.

Definition session_inv (tr : list mop) (d : mdb) : Prop :=
  forall i s, mt_sessions d !! i = Some s -> is_Some (s_wallet s) -> session_backed tr d (s_merchant s) (s_hash s).

Lemma verified_kept op m x y r :
  account_step cfg op m x y -> x.1 = Some r -> is_Some (mr_wallet_verified r) ->
  exists r', y.1 = Some r' /\ is_Some (mr_wallet_verified r').
Proof.
  intros Hst Hx Hv. destruct Hst as [[row hs]|r0 hs Es|r0 r' hs Es|r0 r' hs Hpd Hw Es|r0 r' h hs Hpd Hw Es
    |r0 r' h hs Hac Hw Es|? ? ? ? ? r0 r' hs Eo Em Hac Es|? ? ? ? ? r0 r' hs Eo Em Es]; cbn in *; unfold standing in *;
    try (by eauto); injection Hx as ->; try (rewrite Hw in Hv; by destruct Hv); eexists; (split; [reflexivity|]);
    pose proof (f_equal (fun x => x.1.2) Es) as Ew; cbn in Ew; rewrite Ew; by eauto.
Qed.

Lemma current_kept op proof d d' m :
  account_step cfg op m (account_of d m) (account_of d' m) -> proves_current proof d m ->
  recipient_of d' m = recipient_of d m \/ unverified d m -> proves_current proof d' m.
Proof.
  intros Hst (r & Hr & Hv & Hp) [Hrec|(r0 & Hr0 & Hn)]; [|exfalso; simplify_eq; rewrite Hn in Hv; by destruct Hv].
  destruct (verified_kept op m _ _ r Hst Hr Hv) as (r' & Hr' & Hv'). cbn in Hr'. exists r'. split; [done|]. split; [done|].
  unfold recipient_of in Hrec. rewrite Hr, Hr' in Hrec. cbn in Hrec. injection Hrec as ->. done.
Qed.

Lemma session_step op tr d d' :
  mwf d -> standing_inv cfg tr d -> session_inv tr d -> prompt tr d op -> mexec cfg op d = Ok (tt, d') ->
  session_inv (op :: tr) d'.
Proof.
  intros Hwf Hst Hinv [_ Hok] E i s' Hs' Hw.
  assert (forall m r, mt_merchants d !! m = Some r -> mr_status r = MActive -> is_Some (mr_wallet_verified r)) as Hver.
  { intros m r Hr Ha. destruct (Hst m) as [(_ & _ & _ & Hrow) _]. rewrite Hr in Hrow. destruct Hrow as [Hpd _].
    destruct (mr_wallet_verified r); [by eexists|]. assert (mr_status r = MPending) by by apply Hpd. congruence. }
  destruct (session_effect op d d' i s' Hwf Hver E Hs') as [Hn|s Hs Ew Eh Em Hrec|token proof Hp Hh Hcur].
  - rewrite Hn in Hw. by destruct Hw.
  - rewrite Ew in Hw. destruct (Hinv i s Hs Hw) as (op0 & token & proof & Hin & Hp & Hh & Hcur).
    exists op0, token, proof. split; [by right|]. split; [done|]. split; [congruence|]. rewrite Em.
    eapply current_kept; [by apply account_effect|done|done].
  - exists op, token, proof. split; [by left|]. split; [done|]. split; [done|].
    destruct Hcur as [|(Hd & env & mid & token0 & proof0 & -> & Hm)]; [done|].
    destruct proof0 as [[msg sig] checked]. cbn in Hp. injection Hp as <- <-.
    destruct (Hok _ Hm) as (r & Hr & Hrest). exists r. by rewrite Hd.
Qed.

Lemma session_run tr d : mrun cfg prompt tr d -> session_inv tr d.
Proof.
  intros R. induction R as [|tr d op d' R IH Hok E]; [intros i s; cbn; by rewrite lookup_empty|].
  eapply session_step; eauto using wf_run, standing_run.
Qed.

End Sessions.
