(* ===== verification/MerchantCredentials.v ===== *)
(** What is presented once is spent: wallet challenges, email links; and the
    API keys a merchant holds. *)

From Stdlib Require Import ZArith Lia Strings.Byte.
From stdpp Require Import base gmap list strings fin_maps.
From S2P Require Import Prelude GoStd Secret Calendar Geth WalletProof Challenge Schema Store.
From S2P Require Import MerchantSchema Merchant MerchantAdmin EmailDelivery FairUse MerchantRetention MerchantSystem.
From S2P Require Import MerchantLogic MerchantWf MerchantAccounts MerchantStanding.

Local Open Scope string_scope.
Local Open Scope Z_scope.

Section Credentials.
  Context `{Geth} `{Siwe} `{Net} (cfg : Config).

(** ** Wallet challenges *)

(** The challenge an operation answers. *)
Definition challenge_of (op : mop) : option rowid :=
  match op with
  | MVerifyWallet _ _ _ c _ _ _ _ | MVerifyAdminWallet _ _ _ c _ _ _ | MVerifyAdminRecipientChange _ _ _ c _ _ _ =>
      ScanUUID c
  | _ => None
  end.

Lemma next_grows op d : mpost (mexec cfg op) d (fun _ d' => (m_next d <= m_next d')%N).
Proof. destruct op; cbn [mexec]; munfold; mrun; mproj; lia. Qed.

(** A challenge still open was open before or is new, and one that was
    answered is no longer. *)
Lemma challenge_effect op d : mwf d ->
  mpost (mexec cfg op) d (fun _ d' =>
    (forall i c', mt_challenges d' !! i = Some c' -> ch_consumed c' = None ->
       mt_challenges d !! i = Some c' \/ (m_next d <= i)%N) /\
    (forall i, challenge_of op = Some i ->
       (exists c, mt_challenges d !! i = Some c /\ ch_consumed c = None) /\
       (forall c', mt_challenges d' !! i = Some c' -> is_Some (ch_consumed c')))).
Proof.
  intros Hwf. destruct op; cbn [mexec challenge_of]; munfold; mrun;
    try (split; [intros ? ? ? ?; by left|done]).
  all: first
    [ split; [|done]; intros i' c' Hc' Hn; mproj_in Hc';
      first [ apply lookup_insert_Some in Hc' as [[<- <-]|[_ Hc']]; [right; mproj; lia|by left]
            | left; by eapply lookup_weaken ]
    | split; [intros i' c' Hc' Hn; mproj_in Hc'; apply lookup_insert_Some in Hc' as [[<- <-]|[_ Hc']]; [done|by left]|];
      intros i' Hi'; simplify_eq; (split; [by eauto|]); mproj; rewrite lookup_insert_eq; intros c' [= <-]; by eexists ].
Qed.

(** Challenges that were answered stay answered. *)
Definition spent (tr : list mop) (d : mdb) : Prop :=
  forall op i, op ∈ tr -> challenge_of op = Some i ->
    (i < m_next d)%N /\ forall c, mt_challenges d !! i = Some c -> is_Some (ch_consumed c).

Lemma spent_run ok tr d : mrun cfg ok tr d -> spent tr d /\ NoDup (omap challenge_of tr).
Proof.
  intros R. induction R as [|tr d op d' R [IH ND] Hok E].
  { split; [|constructor]. intros op i Hin. by apply elem_of_nil in Hin. }
  pose proof (wf_run cfg _ _ _ R) as Hwf.
  destruct (mpost_ok _ _ _ _ _ (challenge_effect op d Hwf) E) as [Hopen Hans].
  pose proof (mpost_ok _ _ _ _ _ (next_grows op d) E) as Hnext. cbv beta in Hnext. split.
  - intros op0 i [->|Hin]%elem_of_cons Hc.
    + destruct (Hans i Hc) as [(c & Hd & _) Hd']. split; [|done]. pose proof (challenge_drawn _ _ _ Hwf Hd). lia.
    + destruct (IH op0 i Hin Hc) as [Hi Hsp]. split; [lia|]. intros c' Hc'.
      destruct (ch_consumed c') eqn:Ec; [by eexists|]. destruct (Hopen i c' Hc' Ec) as [Hd|Hge]; [|lia].
      destruct (Hsp c' Hd). congruence.
  - cbn. destruct (challenge_of op) as [i|] eqn:Ec; [|done]. constructor; [|done].
    intros (op0 & Hin & Hc)%list_elem_of_omap. destruct (IH op0 i Hin Hc) as [_ Hsp].
    destruct (Hans i eq_refl) as [(c & Hd & Hn) _]. destruct (Hsp c Hd). congruence.
Qed.

(** ** Email links *)

(** The token of the link an operation followed, and the one it drew. *)
Definition link_of (op : mop) : option string :=
  match op with
  | MVerifyEmail _ t _ | MVerifyEmailForAdmin _ t _ => Some t
  | _ => None
  end.

Definition draws (op : mop) : option string :=
  match op with
  | MRegister env _ _ | MAdminLink env _ _ =>
      match NewVerificationToken (me_random env) with Ok (raw, _) => Some raw | Err _ => None end
  | _ => None
  end.

Lemma draws_hash random a : NewVerificationToken random = Ok a -> a.2 = Hash a.1.
Proof. unfold NewVerificationToken. destruct (Token 32 random); [|done]. by intros [= <-]. Qed.

Lemma token_effect op d : mwf d ->
  mpost (mexec cfg op) d (fun _ d' =>
    (forall i t', mt_tokens d' !! i = Some t' ->
       (exists t, mt_tokens d !! i = Some t /\ tk_hash t' = tk_hash t /\ (tk_consumed t' = None -> tk_consumed t = None)) \/
       (exists raw, draws op = Some raw /\ tk_hash t' = Hash raw)) /\
    (forall raw, link_of op = Some raw ->
       (exists i t, mt_tokens d !! i = Some t /\ tk_hash t = Hash raw /\ tk_consumed t = None /\
          exists t', mt_tokens d' !! i = Some t' /\ is_Some (tk_consumed t')))).
Proof.
  intros Hwf. destruct op; cbn [mexec link_of]; munfold; mrun.
  all: try (split; [intros ? tk' Htk'; left; exists tk'; by split_and!|done]).
  all: first
    [ (* a link is drawn *)
      match goal with E : NewVerificationToken _ = Ok ?a |- _ =>
        split; [|done]; intros i' t' Ht'; mproj_in Ht'; apply lookup_insert_Some in Ht' as [[_ <-]|[_ Ht']];
        [right; exists a.1; split; [unfold draws; rewrite E; by destruct a|exact (draws_hash _ _ E)]
        |left; exists t'; by split_and!]
      end
    | (* rows are deleted *)
      split; [|done]; intros i' t' Ht'; left; exists t'; (split; [by eapply lookup_weaken|done])
    | (* a mail was sent *)
      split; [|done]; intros i' t' Ht'; mproj_in Ht'; left;
      apply lookup_insert_Some in Ht' as [[<- <-]|[_ Ht']]; eexists; (split; [first [exact Ht' | match goal with E : table _ !! _ = Some _ |- _ => exact E end]|]); done
    | (* a link is followed *)
      match goal with Hwf0 : mwf ?d0, E : table ?d0 !! ?j = Some ?r, C : _ && _ = true |- _ =>
        apply andb_prop in C as [C _]; apply andb_prop in C as [Ch%String.eqb_eq Cn%bool_decide_eq_true];
        split;
        [ intros i' t' Ht'; mproj_in Ht'; left;
          apply lookup_insert_Some in Ht' as [[<- <-]|[_ Ht']]; eexists; (split; [first [exact Ht' | match goal with E : table _ !! _ = Some _ |- _ => exact E end]|]); done
        | intros raw [= <-]; exists j, r; split_and!; [exact E|exact Ch|exact Cn|];
          mproj; rewrite lookup_insert_eq; eexists; (split; [reflexivity|]); by eexists ]
      end ].
Qed.

(** No token drawn has the hash of an earlier one. *)
Definition unrepeated (tr : list mop) (d : mdb) (op : mop) : Prop :=
  forall raw, draws op = Some raw -> Hash raw ∉ map Hash (omap draws tr).

Definition links_spent (tr : list mop) (d : mdb) : Prop :=
  (forall i t, mt_tokens d !! i = Some t -> tk_hash t ∈ map Hash (omap draws tr)) /\
  (forall op raw, op ∈ tr -> link_of op = Some raw ->
     Hash raw ∈ map Hash (omap draws tr) /\
     forall i t, mt_tokens d !! i = Some t -> tk_hash t = Hash raw -> is_Some (tk_consumed t)).

Lemma drawn_cons op tr h :
  h ∈ map Hash (omap draws (op :: tr)) <-> (exists raw, draws op = Some raw /\ h = Hash raw) \/ h ∈ map Hash (omap draws tr).
Proof.
  cbn [omap list_omap]. destruct (draws op) as [raw|]; cbn [map]; [rewrite elem_of_cons|]; split; try (by right).
  - intros [->|]; [left; by eexists|by right].
  - intros [(? & [= <-] & ->)|]; [by left|by right].
  - by intros [(? & ? & _)|].
Qed.

Lemma links_step op tr d d' :
  mwf d -> links_spent tr d -> unrepeated tr d op -> mexec cfg op d = Ok (tt, d') -> links_spent (op :: tr) d'.
Proof.
  intros Hwf [Hdrawn Hspent] Hun E. destruct (mpost_ok _ _ _ _ _ (token_effect op d Hwf) E) as [Hold Hlink].
  split.
  - intros i t' Ht'. apply drawn_cons. destruct (Hold i t' Ht') as [(t & Ht & -> & _)|(raw & Hr & ->)]; eauto.
  - intros op0 raw Hin Hl. 
    assert (Hash raw ∈ map Hash (omap draws tr) /\
      forall i t, mt_tokens d !! i = Some t -> tk_hash t = Hash raw ->
        is_Some (tk_consumed t) \/ exists t', mt_tokens d' !! i = Some t' /\ is_Some (tk_consumed t')) as [Hd Hc].
    { apply elem_of_cons in Hin as [->|Hin].
      - destruct (Hlink raw Hl) as (i & t & Ht & Hh & _ & t' & Ht' & Hc'). split; [rewrite <- Hh; eauto|].
        intros j q Hq Hhq. right. destruct (wf_tokens _ Hwf) as [_ Hpair].
        destruct (Hpair i j t q Ht Hq) as [<-|Hne]; [eauto|]. apply bool_decide_eq_true in Hne. congruence.
      - destruct (Hspent op0 raw Hin Hl) as [Hd Hc]. split; [done|]. intros i t Ht Hh. left. eauto. }
    split; [apply drawn_cons; by right|]. intros i t' Ht' Hh.
    destruct (Hold i t' Ht') as [(t & Ht & Hh' & Hcon)|(raw' & Hr' & Hh')].
    + destruct (Hc i t Ht) as [Hs|(t1 & Ht1 & Hs)]; [congruence| |].
      * destruct (tk_consumed t'); [by eexists|]. rewrite (Hcon eq_refl) in Hs. by destruct Hs.
      * by simplify_eq.
    + destruct (Hun raw' Hr'). by rewrite <- Hh', Hh.
Qed.

Lemma links_run tr d : mrun cfg unrepeated tr d -> links_spent tr d /\ NoDup (map Hash (omap link_of tr)).
Proof.
  intros R. induction R as [|tr d op d' R [IH ND] Hok E].
  { split; [|constructor]. split; [intros i t; cbn; by rewrite lookup_empty|]. intros op raw Hin. by apply elem_of_nil in Hin. }
  pose proof (wf_run cfg _ _ _ R) as Hwf. split; [by eapply links_step|].
  cbn [omap list_omap]. destruct (link_of op) as [raw|] eqn:El; [|done]. cbn [map]. constructor; [|done].
  intros (raw0 & Heq & (op0 & Hin & Hl)%list_elem_of_omap)%list_elem_of_fmap.
  destruct (mpost_ok _ _ _ _ _ (token_effect op d Hwf) E) as [_ Hlink].
  destruct (Hlink raw El) as (i & t & Ht & Hh & Hn & _). destruct IH as [_ Hspent].
  destruct (Hspent op0 raw0 Hin Hl) as [_ Hc]. destruct (Hc i t Ht); congruence.
Qed.

End Credentials.

(** API keys: every stored key was issued, and an issued key works until it is
    revoked. *)

Local Open Scope string_scope.
Local Open Scope Z_scope.

Section Keys.
  Context `{Geth} `{Siwe} `{Net} (cfg : Config).

(** The row is that of key [value] of merchant [m]. *)
Definition key_of (k : KeyRow) (m : rowid) (value : string) : Prop :=
  k_merchant k = m /\ k_prefix k = LookupPrefix value /\ k_hash k = KeyedHash (Pepper cfg) value.

Definition same_key (k k' : KeyRow) : Prop :=
  k_merchant k' = k_merchant k /\ k_prefix k' = k_prefix k /\ k_hash k' = k_hash k.

(** Merchant [m] revokes one of its keys. *)
Definition revokes (op : mop) (m : rowid) : Prop :=
  exists env mid token key id request, op = MRevokeKey env mid token key id request /\ ScanUUID mid = Some m.

Lemma generated random g :
  GenerateAPIKey (Pepper cfg) random = Ok g ->
  gk_Prefix g = LookupPrefix (FullValue g) /\ gk_Hash g = KeyedHash (Pepper cfg) (FullValue g).
Proof.
  unfold GenerateAPIKey. destruct (_ <? _)%nat; [done|]. destruct (Token 32 random); [|done]. by intros [= <-].
Qed.

Lemma wire_verify a : String.eqb (action_wire a) "verify-recipient" = bool_decide (a = ActVerifyRecipient).
Proof. by destruct a. Qed.

(** Stored keys: kept, or just issued. *)
Definition key_source (op : mop) (d d' : mdb) : Prop :=
  (forall i k', mt_keys d' !! i = Some k' ->
     (exists k, mt_keys d !! i = Some k /\ same_key k k') \/ (exists m value, issues cfg op = Some (m, value) /\ key_of k' m value)) /\
  (forall i k, mt_keys d !! i = Some k -> k_revoked k = None ->
     (exists k', mt_keys d' !! i = Some k' /\ same_key k k' /\ k_revoked k' = None) \/ revokes op (k_merchant k)) /\
  (forall m value, issues cfg op = Some (m, value) ->
     exists i k', mt_keys d' !! i = Some k' /\ key_of k' m value /\ k_revoked k' = None).

Lemma key_unchanged op d d' : mt_keys d' = mt_keys d -> issues cfg op = None -> key_source op d d'.
Proof.
  intros Hk Hi. unfold key_source. rewrite Hk, Hi. split_and!; [..|done].
  - intros i k' Hk'. left. exists k'. by repeat split.
  - intros i k Hk' Hr. left. exists k. by repeat split.
Qed.

Lemma key_fresh d : mwf d -> mt_keys d !! m_next d = None.
Proof.
  intros Hwf. destruct (mt_keys d !! m_next d) as [k|] eqn:E; [|done]. pose proof (key_drawn _ _ _ Hwf E). lia.
Qed.

Lemma key_issued op d d' i k m value :
  mt_keys d' = <[i := k]> (mt_keys d) -> mt_keys d !! i = None -> issues cfg op = Some (m, value) -> key_of k m value ->
  k_revoked k = None -> key_source op d d'.
Proof.
  intros Hd Hn Hi Hk Hr. unfold key_source. rewrite Hd, Hi. split_and!.
  - intros j k' [[<- <-]|[_ Hk']]%lookup_insert_Some; [right; by eauto|left]. exists k'. by repeat split.
  - intros j k' Hk' Hr'. left. exists k'. rewrite lookup_insert_ne by congruence. by repeat split.
  - intros m0 v0 [= <- <-]. exists i, k. by rewrite lookup_insert_eq.
Qed.

Lemma key_replaced op d d' i k k' :
  mt_keys d' = <[i := k']> (mt_keys d) -> mt_keys d !! i = Some k -> same_key k k' -> issues cfg op = None ->
  k_revoked k' = k_revoked k \/ revokes op (k_merchant k) -> key_source op d d'.
Proof.
  intros Hd Hk Hs Hi Hr. unfold key_source. rewrite Hd, Hi. split_and!; [..|done].
  - intros j q [[<- <-]|[_ Hq]]%lookup_insert_Some; left; [by eauto|]. exists q. by repeat split.
  - intros j q Hq Hrq. destruct (decide (j = i)) as [->|Hne].
    + simplify_eq. destruct Hr as [Hr|]; [left|by right]. exists k'. rewrite lookup_insert_eq. split_and!; [done|done|congruence].
    + left. exists q. rewrite lookup_insert_ne by done. by repeat split.
Qed.

Lemma key_row n name g created random :
  GenerateAPIKey (Pepper cfg) random = Ok g ->
  key_of {| k_merchant := n; k_name := name; k_prefix := gk_Prefix g; k_hash := gk_Hash g; k_created := created;
            k_last_used := None; k_revoked := None |} n (FullValue g).
Proof. intros [Hp Hh]%generated. by repeat split. Qed.

Lemma key_effect_wallet env merchant key challenge message signature action request d :
  mwf d ->
  let op := MVerifyWallet env merchant key challenge message signature action request in
  mpost (mexec cfg op) d (fun _ d' => key_source op d d').
Proof.
  intros Hwf op. subst op. cbn [mexec]. munfold. mrun;
    match goal with E : String.eqb (action_wire _) ?x && _ = true |- _ =>
      apply andb_prop in E as [Hact%String.eqb_eq _]; subst x end;
    match goal with E : ScanUUID merchant = Some _, G : GenerateAPIKey _ _ = Ok _, B : bool_decide (ch_action _ = _) = _ |- _ =>
      first
        [ eapply key_issued; [reflexivity|exact (key_fresh _ Hwf)| |by eapply key_row|reflexivity]; unfold issues;
          rewrite wire_verify, B, E, G; reflexivity
        | apply key_unchanged; [reflexivity|]; unfold issues; rewrite wire_verify, B; reflexivity ] end.
Qed.

Lemma key_effect op d : mwf d -> mpost (mexec cfg op) d (fun _ d' => key_source op d d').
Proof.
  intros Hwf. destruct op; try (by apply key_effect_wallet); cbn [mexec]; munfold; mrun; try (by apply key_unchanged).
  - eapply key_replaced; [reflexivity|eassumption|by repeat split|done|by left].
  - match goal with E : ScanUUID merchant = Some _, G : GenerateAPIKey _ _ = Ok _ |- _ =>
      eapply key_issued; [reflexivity|exact (key_fresh _ Hwf)|unfold issues; rewrite E, G; reflexivity|by eapply key_row|reflexivity] end.
  - match goal with E : table d !! _ = Some _, C : _ && _ = true |- _ =>
      apply andb_prop in C as [C _]; apply andb_prop in C as [_ Cm%bool_decide_eq_true];
      eapply key_replaced; [reflexivity|exact E|by repeat split|done|] end.
    right. subst. by eexists _, _, _, _, _, _.
  - split_and!; [..|done].
    + intros i k' Hk'. left. exists k'. split; [by eapply lookup_weaken|by repeat split].
    + intros i k Hk Hr. left. match goal with Hd : forall i k, mt_keys d !! i = Some k -> _ |- _ =>
        specialize (Hd i k Hk) end. mproj. destruct (keys !! i) as [k'|] eqn:Ek.
      * exists k'. assert (mt_keys d !! i = Some k') by by eapply lookup_weaken. simplify_eq. by repeat split.
      * rewrite Hr in *. naive_solver.
Qed.

(** ** The invariant *)

Definition keys_issued (tr : list mop) (d : mdb) : Prop :=
  forall i k, mt_keys d !! i = Some k ->
    exists op m value, op ∈ tr /\ issues cfg op = Some (m, value) /\ key_of k m value.

Lemma same_key_of k k' m value : same_key k k' -> key_of k m value -> key_of k' m value.
Proof. intros (? & ? & ?) (? & ? & ?). split_and!; congruence. Qed.

Lemma keys_run ok tr d : mrun cfg ok tr d -> keys_issued tr d.
Proof.
  intros R. induction R as [|tr d op d' R IH Hok E]; [intros i k; cbn; by rewrite lookup_empty|].
  destruct (mpost_ok _ _ _ _ _ (key_effect op d (wf_run cfg _ _ _ R)) E) as (Hsrc & _ & _).
  intros i k' Hk'. destruct (Hsrc i k' Hk') as [(k & Hk & Hs)|(m & value & Hi & Hof)].
  - destruct (IH i k Hk) as (op0 & m & value & Hin & Hi & Hof). exists op0, m, value. split; [by right|].
    split; [done|]. by eapply same_key_of.
  - exists op, m, value. split; [by left|done].
Qed.

(** An issued key stays in the table, unless its merchant revokes a key. *)
Lemma key_stays ok later op tr d m value :
  mrun cfg ok (later ++ op :: tr) d -> issues cfg op = Some (m, value) -> (forall op', op' ∈ later -> ~ revokes op' m) ->
  exists i k, mt_keys d !! i = Some k /\ key_of k m value /\ k_revoked k = None.
Proof.
  intros R Hi. revert d R. induction later as [|op1 later IH]; intros d R Hno; inversion_clear R as [|tr0 d0 op0 d' R0 Hok E].
  - destruct (mpost_ok _ _ _ _ _ (key_effect op d0 (wf_run cfg _ _ _ R0)) E) as (_ & _ & Hnew). by apply Hnew.
  - destruct (IH d0 R0) as (i & k & Hk & Hof & Hr); [intros op' Hin; apply Hno; by right|].
    destruct (mpost_ok _ _ _ _ _ (key_effect op1 d0 (wf_run cfg _ _ _ R0)) E) as (_ & Hkeep & _).
    destruct (Hkeep i k Hk Hr) as [(k' & Hk' & Hs & Hr')|Hrev].
    + exists i, k'. split; [done|]. split; [by eapply same_key_of|done].
    + destruct Hof as (<- & _). destruct (Hno op1); [by left|done].
Qed.

(** ** Authentication *)

Lemma key_matches_iff k m value v :
  key_of k m value -> key_matches cfg k v = true <-> KeyedHash (Pepper cfg) v = KeyedHash (Pepper cfg) value.
Proof.
  intros (_ & _ & Hh). unfold key_matches. rewrite Hh, !KeyedHash_decode, hmac_Equal_eq. unfold KeyedHash.
  split; [by intros ->|]. intros He. apply (f_equal hex_DecodeString) in He.
  rewrite !hex_roundtrip in He. by injection He.
Qed.

Lemma authenticated env d value m row d' :
  Authenticate cfg env d value d = Ok (Ok (m, row), d') ->
  exists i k, mt_keys d !! i = Some k /\ k_merchant k = m /\ k_revoked k = None /\ key_matches cfg k value = true /\
    k_prefix k = LookupPrefix value /\ mt_merchants d !! m = Some row /\ mr_status row = MActive.
Proof.
  unfold Authenticate. destruct (negb (key_shape value)); [done|].
  destruct (find_row d _) as [[i k]|] eqn:Ef; [|done]. apply find_some in Ef as [Hk Hc].
  apply andb_prop in Hc as [Hp%String.eqb_eq Hr%bool_decide_eq_true].
  destruct (mt_merchants d !! k_merchant k) as [r|] eqn:Em; [|done].
  destruct (key_matches cfg k value) eqn:Ek; [|done]. destruct (bool_decide_reflect (mr_status r = MActive)); [|done].
  cbn [negb]. intros E. exists i, k. destruct (update_row _ _ d) as [[? ?]|]; simplify_eq; by split_and!.
Qed.

Lemma authenticates env d value m i k row :
  mwf d -> key_shape value = true -> mt_keys d !! i = Some k -> key_of k m value -> k_revoked k = None ->
  mt_merchants d !! m = Some row -> mr_status row = MActive ->
  exists d', Authenticate cfg env d value d = Ok (Ok (m, row), d').
Proof.
  intros Hwf Hshape Hk Hof Hr Hm Hs. unfold Authenticate. rewrite Hshape. cbn [negb].
  destruct (find_row d _) as [[j q]|] eqn:Ef.
  - apply find_some in Ef as [Hq Hc]. apply andb_prop in Hc as [Hp%String.eqb_eq _].
    assert (i = j) as <-.
    { destruct (wf_keys _ Hwf) as [_ Hpair]. destruct (Hpair i j k q Hk Hq) as [|Hc]; [done|].
      apply andb_prop in Hc as [Hne%bool_decide_eq_true _]. destruct Hof as (_ & Hpk & _). congruence. }
    assert (q = k) as -> by (mproj_in Hq; congruence). destruct Hof as [Hmk Hof']. rewrite Hmk, Hm.
    assert (key_matches cfg k value = true) as -> by by eapply key_matches_iff.
    rewrite bool_decide_true by done. cbn [negb].
    destruct (update_row _ _ d) as [[? ?]|]; eauto.
  - pose proof (find_none _ _ Ef i k Hk) as Hc. cbv beta in Hc. destruct Hof as (_ & Hp & _).
    rewrite Hp, Hr, String.eqb_refl in Hc. by rewrite bool_decide_true in Hc.
Qed.

End Keys.
