(* ===== verification/MerchantMail.v ===== *)
(** The email outbox: what is sealed in it is the token whose hash is stored,
    so a mail that goes out carries a link that works. *)

From Stdlib Require Import ZArith Lia Strings.Byte.
From stdpp Require Import base gmap list strings fin_maps.
From S2P Require Import Prelude GoStd Geth WalletProof Secret Calendar Challenge AesGcm Schema Store.
From S2P Require Import MerchantSchema Merchant MerchantAdmin EmailDelivery FairUse MerchantRetention MerchantSystem.
From S2P Require Import MerchantLogic MerchantWf MerchantAccounts MerchantStanding.

Local Open Scope string_scope.
Local Open Scope Z_scope.

Section Mail.
  Context `{Geth} `{Siwe} `{Net} (cfg : Config).

(** [rand.Read] fills what it is given: tokens are 32 bytes, nonces 12. *)
Definition sized (tr : list mop) (d : mdb) (op : mop) : Prop :=
  match op with
  | MRegister env _ _ | MAdminLink env _ _ => length (me_random env) = 32%nat /\ length (me_random2 env) = 12%nat
  | MVerifyWallet env _ _ _ _ _ _ _ | MCreateKey env _ _ _ _ _ => length (me_random env) = 32%nat
  | _ => True
  end.

(** [ct] seals, for this row, the raw token whose hash its token row has. *)
Definition seals (ct : list byte) (o : OutboxRow) (t : TokenRow) : Prop :=
  exists raw nonce, tk_hash t = Hash raw /\ (20 <= String.length raw)%nat /\ length nonce = 12%nat /\
    ct = sealEmailToken (emailOutboxKey cfg) nonce raw (uuid_text (ob_merchant o)) (tk_hash t) (ob_kind o).

Definition sealed (d : mdb) : Prop :=
  forall i o ct, mt_outbox d !! i = Some o -> ob_ciphertext o = Some ct ->
    exists t, mt_tokens d !! ob_token o = Some t /\ tk_merchant t = ob_merchant o /\ seals ct o t.

Definition same_mail (o o' : OutboxRow) : Prop :=
  ob_merchant o' = ob_merchant o /\ ob_token o' = ob_token o /\ ob_kind o' = ob_kind o.

Definition stable (d d' : mdb) : Prop :=
  forall j t t', mt_tokens d !! j = Some t -> mt_tokens d' !! j = Some t' ->
    tk_merchant t' = tk_merchant t /\ tk_hash t' = tk_hash t.

(** Rows of the outbox: kept, emptied, or new and sealed. *)
Definition outbox_source (d d' : mdb) : Prop :=
  stable d d' /\
  forall i o' ct, mt_outbox d' !! i = Some o' -> ob_ciphertext o' = Some ct ->
    (exists o, mt_outbox d !! i = Some o /\ same_mail o o' /\ ob_ciphertext o = Some ct) \/
    (exists t, mt_tokens d' !! ob_token o' = Some t /\ tk_merchant t = ob_merchant o' /\ seals ct o' t).

Lemma stable_sub d d' : mt_tokens d' ⊆ mt_tokens d -> stable d d'.
Proof. intros Ht j t t' Hj Hj'. pose proof (lookup_weaken _ _ _ _ Hj' Ht). by simplify_eq. Qed.

Lemma stable_same d d' : mt_tokens d' = mt_tokens d -> stable d d'.
Proof. intros Ht. apply stable_sub. by rewrite Ht. Qed.

Lemma stable_put d d' j t :
  mt_tokens d' = <[j := t]> (mt_tokens d) ->
  (forall t0, mt_tokens d !! j = Some t0 -> tk_merchant t = tk_merchant t0 /\ tk_hash t = tk_hash t0) -> stable d d'.
Proof.
  intros Ht Hj k q q' Hq Hq'. rewrite Ht in Hq'. apply lookup_insert_Some in Hq' as [[<- <-]|[_ Hq']]; [by apply Hj|].
  by simplify_eq.
Qed.

Lemma outbox_same d d' : mt_outbox d' = mt_outbox d -> stable d d' -> outbox_source d d'.
Proof.
  intros Ho Ht. split; [done|]. intros i o ct Hi Hc. left. exists o. rewrite Ho in Hi. by repeat split.
Qed.

(** One row of the outbox rewritten. *)
Lemma outbox_replaced d d' i o o' :
  mt_outbox d' = <[i := o']> (mt_outbox d) -> stable d d' -> mt_outbox d !! i = Some o -> same_mail o o' ->
  ob_ciphertext o' = None \/ ob_ciphertext o' = ob_ciphertext o -> outbox_source d d'.
Proof.
  intros Ho Ht Hi Hs Hc. split; [done|].
  intros j q ct Hq Hct. rewrite Ho in Hq. left. apply lookup_insert_Some in Hq as [[<- <-]|[_ Hq]].
  - exists o. split_and!; [done|done|]. destruct Hc; congruence.
  - exists q. by repeat split.
Qed.

Lemma token_fresh d j : mwf d -> (m_next d <= j)%N -> mt_tokens d !! j = None.
Proof.
  intros Hwf Hj. destruct (mt_tokens d !! j) as [t|] eqn:E; [|done].
  pose proof (drawn (R := TokenRow) d _ t (wf_tokens _ Hwf) E). lia.
Qed.

Lemma outbox_enqueued d d' i j o t ct :
  mt_outbox d' = <[i := o]> (mt_outbox d) -> mt_tokens d' = <[j := t]> (mt_tokens d) -> mt_tokens d !! j = None ->
  ob_ciphertext o = Some ct -> ob_token o = j -> tk_merchant t = ob_merchant o -> seals ct o t -> outbox_source d d'.
Proof.
  intros Ho Ht Hn Hc Hj Hm Hs. split; [eapply stable_put; [exact Ht|]; by rewrite Hn|].
  intros k q ct' Hq Hct. rewrite Ho in Hq. apply lookup_insert_Some in Hq as [[<- <-]|[_ Hq]].
  - right. exists t. rewrite Ht, Hj, lookup_insert_eq. split_and!; [done|done|congruence].
  - left. exists q. by repeat split.
Qed.

Lemma drawn_token random a : NewVerificationToken random = Ok a -> length random = 32%nat -> (20 <= String.length a.1)%nat.
Proof.
  unfold NewVerificationToken, Token. change (32 <? 16) with false. cbn [res_bind].
  pose proof (RawURLEncoding_length random) as Hl. intros E Hr. rewrite Hr in Hl.
  revert E. generalize dependent (RawURLEncoding random). intros raw Hl [= <-]. cbn [fst].
  change ((4 * Z.of_nat 32 + 2) / 3) with 43 in Hl. lia.
Qed.

Lemma drawn_seals random nonce a o t :
  NewVerificationToken random = Ok a -> length random = 32%nat -> length nonce = 12%nat -> tk_hash t = a.2 ->
  seals (sealEmailToken (emailOutboxKey cfg) nonce a.1 (uuid_text (ob_merchant o)) a.2 (ob_kind o)) o t.
Proof.
  intros E Hr Hn Ht. exists a.1, nonce. split; [|split; [by eapply drawn_token|split; [done|by rewrite Ht]]].
  rewrite Ht. revert E. unfold NewVerificationToken. destruct (Token 32 random); [|done]. by intros [= <-].
Qed.

Ltac enqueued Hs :=
  match goal with E : NewVerificationToken _ = Ok _ |- outbox_source ?d _ =>
    destruct Hs; eapply outbox_enqueued;
    [reflexivity|reflexivity|apply token_fresh; [assumption|mproj; lia]|reflexivity|reflexivity|reflexivity
    |by eapply (drawn_seals _ _ _ (Build_OutboxRow _ _ _ _ _ _ _ _ _ _ _ _ _))] end.

Lemma outbox_effect op tr d : mwf d -> sized tr d op -> mpost (mexec cfg op) d (fun _ d' => outbox_source d d').
Proof.
  intros Hwf Hs. destruct op; cbn [mexec]; munfold; mrun; try (apply outbox_same; [reflexivity|by apply stable_same]);
    try (enqueued Hs).
  1-4: apply outbox_same; [reflexivity|]; eapply stable_put; [reflexivity|]; intros t0 Et;
    match goal with E : table ?d !! ?i = Some ?r, E' : mt_tokens ?d !! ?i = Some ?t |- _ =>
      assert (t = r) as -> by (mproj_in E; congruence) end; done.
  - split; [by apply stable_same|]. intros i o' ct Hi Hct. mproj_in Hi. left.
    match goal with Hall : forall i, t' !! i = _ \/ _ |- _ => destruct (Hall i) as [Eq|(o & Ho & Eq)] end; rewrite Eq in Hi.
    + exists o'. by repeat split.
    + by injection Hi as <-.
  - eapply outbox_replaced; [reflexivity|by apply stable_same|eassumption|by repeat split|by right].
  - eapply outbox_replaced; [reflexivity|by apply stable_same|eassumption|by repeat split|by left].
  - eapply outbox_replaced; [reflexivity|by apply stable_same|eassumption|by repeat split|by right].
  - match goal with E : table (set_table d _) !! ?j = Some ?t |- _ => eapply outbox_replaced;
      [reflexivity|eapply (stable_put _ _ j (token_send now t)); [reflexivity|]|eassumption|by repeat split|by left];
      intros t0 Et; mproj_in E; assert (t0 = t) as -> by congruence; done end.
  - eapply outbox_replaced; [reflexivity|by apply stable_same|eassumption|by repeat split|by left].
  - split; [by apply stable_sub|]. intros i o' ct [Hi _]%map_lookup_filter_Some Hct. left. exists o'. by repeat split.
Qed.

Lemma sealed_step op tr d d' :
  mwf d -> sized tr d op -> sealed d -> mexec cfg op d = Ok (tt, d') -> sealed d'.
Proof.
  intros Hwf Hs Hinv E. destruct (mpost_ok _ _ _ _ _ (outbox_effect op tr d Hwf Hs) E) as [Hst Hsrc].
  pose proof (mpost_ok _ _ _ _ _ (wf_mexec cfg op d Hwf) E) as Hwf'. cbv beta in Hwf'.
  intros i o' ct Hi Hct. destruct (Hsrc i o' ct Hi Hct) as [(o & Ho & (Em & Et & Ek) & Hc)|]; [|done].
  destruct (Hinv i o ct Ho Hc) as (t & Ht & Hm & raw & nonce & Hh & Hl & Hn & ->).
  assert (is_Some (mt_tokens d' !! ob_token o')) as [t' Ht'].
  { destruct (wf_outbox _ Hwf') as [Hrow _]. destruct (Hrow i o' Hi) as [_ Hok]. cbn in Hok. unfold outbox_row_ok in Hok.
    repeat (apply andb_prop in Hok as [Hok ?]). by eapply bool_decide_eq_true_1. }
  rewrite Et in *. destruct (Hst _ t t' Ht Ht') as [Em' Eh']. exists t'. split; [done|]. split; [congruence|].
  exists raw, nonce. rewrite Eh', Em, Ek. by rewrite <- Hh.
Qed.

Lemma sealed_run tr d : mrun cfg sized tr d -> sealed d.
Proof.
  intros R. induction R as [|tr d op d' R IH Hok E]; [intros i o ct; cbn; by rewrite lookup_empty|].
  eapply sealed_step; eauto using wf_run.
Qed.

(** A key drawn so has the shape authentication expects. *)
Lemma issued_shape op tr d m value : issues cfg op = Some (m, value) -> sized tr d op -> key_shape value = true.
Proof.
  intros Hi Hs.
  assert (exists random g, GenerateAPIKey (Pepper cfg) random = Ok g /\ length random = 32%nat /\ value = FullValue g)
    as (random & g & Hg & Hr & ->).
  { unfold issues in Hi. destruct op; try done;
      [destruct (String.eqb _ _); [|done]|]; destruct (ScanUUID _); try done;
      destruct (GenerateAPIKey _ _) as [g|] eqn:E; try done; injection Hi as _ <-; by eauto. }
  destruct (generated_key _ _ _ Hg Hr) as (Hp & Hl & _). unfold key_shape. by rewrite Hp, Hl.
Qed.

(** ** Opening *)

Lemma outbox_key_length : length (emailOutboxKey cfg) = 32%nat.
Proof.
  unfold emailOutboxKey, normalizeEmailOutboxKey. rewrite length_take, length_app, length_replicate. lia.
Qed.

Lemma opens nonce raw merchantID hash kind :
  length nonce = 12%nat ->
  openEmailToken (emailOutboxKey cfg) (sealEmailToken (emailOutboxKey cfg) nonce raw merchantID hash kind) merchantID hash kind =
  Some raw.
Proof.
  intros Hn. unfold openEmailToken, sealEmailToken. rewrite length_app, Hn.
  change gcm_NonceSize with 12%nat. destruct (Nat.ltb_spec (12 + length (gcm_Seal (emailOutboxKey cfg) nonce
    (bytes_of_string raw) (emailTokenAAD merchantID hash kind))) 12); [lia|].
  rewrite take_app_length', drop_app_length' by done. rewrite gcm_roundtrip by (done || apply outbox_key_length).
  f_equal. apply String.string_of_list_byte_of_string.
Qed.

(** ** Following the link *)

(** A row of a sound table may be replaced by one that clashes with no more. *)
Lemma put_row_ok {R} `{Table R} d i (r r' : R) :
  table_wf R d -> table d !! i = Some r -> row_ok d r' = true ->
  (forall q, row_compatible r q = true -> row_compatible r' q = true) ->
  put_row i r' d = Ok (tt, set_table d (<[i := r']> (table d))).
Proof.
  intros [_ Hpair] Hr Hok Hc. unfold put_row. rewrite Hok. cbn [negb].
  assert (fits d i r' = true) as ->; [|done]. apply bool_decide_eq_true. intros j q Hq.
  destruct (Hpair i j r q Hr Hq) as [->|]; [by left|right; auto].
Qed.

Lemma update_row_ok {R} `{Table R} d i (r : R) cond f :
  table_wf R d -> table d !! i = Some r -> cond i r = true ->
  (forall j q, table d !! j = Some q -> cond j q = true -> j = i) -> row_ok d (f r) = true ->
  (forall q, row_compatible r q = true -> row_compatible (f r) q = true) ->
  update_row cond f d = Ok (Some (i, r), set_table d (<[i := f r]> (table d))).
Proof.
  intros Hwf Hr Hc Hun Hok Hcomp. unfold update_row, mbind, mget. cbn.
  destruct (find_row d cond) as [[j q]|] eqn:E.
  - apply find_some in E as [Hq Hcq]. pose proof (Hun j q Hq Hcq) as ->. assert (q = r) as -> by congruence.
    by rewrite (put_row_ok d i r (f r) Hwf Hr Hok Hcomp).
  - pose proof (find_none _ _ E i r Hr). congruence.
Qed.

Lemma consume_works d i t now raw :
  mwf d -> mt_tokens d !! i = Some t -> tk_hash t = Hash raw -> tk_consumed t = None ->
  tk_created t <= now < tk_expires t ->
  update_row (fun _ t => String.eqb (tk_hash t) (Hash raw) && bool_decide (tk_consumed t = None) && (now <? tk_expires t))
    (token_consume now) d = Ok (Some (i, t), set_mt_tokens d (<[i := token_consume now t]> (mt_tokens d))).
Proof.
  intros Hwf Ht Hh Hn Hw. pose proof (wf_tokens _ Hwf) as Hwt. destruct Hwt as [Hrow Hpair] eqn:E. clear E.
  destruct (Hrow i t Ht) as [_ Hok]. refine (update_row_ok (R := TokenRow) d i t _ _ Hwt Ht _ _ _ _); [| | |done].
  - rewrite Hh, Hn, String.eqb_refl, bool_decide_true by done. apply Z.ltb_lt. lia.
  - intros j q Hq Hc. apply andb_prop in Hc as [Hc _]. apply andb_prop in Hc as [Hc%String.eqb_eq _].
    destruct (Hpair j i q t Hq Ht) as [|Hne]; [done|]. apply bool_decide_eq_true in Hne. congruence.
  - cbn in *. unfold token_row_ok in *. cbn. repeat (apply andb_prop in Hok as [Hok ?]).
    repeat (apply andb_true_intro; split); try done. apply Z.leb_le. lia.
Qed.

Lemma email_works d m r now :
  mwf d -> mt_merchants d !! m = Some r ->
  update_row (fun i _ => bool_decide (i = m)) (merchant_with_email now) d =
  Ok (Some (m, r), set_mt_merchants d (<[m := merchant_with_email now r]> (mt_merchants d))).
Proof.
  intros Hwf Hr. pose proof (wf_merchants _ Hwf) as [Hrow _]. destruct (Hrow m r Hr) as [_ Hok].
  refine (update_row_ok (R := MerchantRow) d m r _ _ (wf_merchants _ Hwf) Hr _ _ _ _); [by apply bool_decide_eq_true| |done|done].
  intros j q _ Hj. by apply bool_decide_eq_true in Hj.
Qed.

Lemma verifyEmail_works d i t env raw request :
  mwf d -> mt_tokens d !! i = Some t -> tk_hash t = Hash raw -> tk_consumed t = None -> (20 <= String.length raw)%nat ->
  tk_created t <= me_now env < tk_expires t ->
  exists d', verifyEmail env raw request None d = Ok (tk_merchant t, d').
Proof.
  intros Hwf Ht Hh Hn Hl Hw. unfold verifyEmail. rewrite (proj2 (Nat.leb_le 20 _) Hl). unfold mbind at 1.
  pose proof (consume_works d i t (me_now env) raw Hwf Ht Hh Hn Hw) as Hc. rewrite Hc.
  destruct (wf_tokens _ Hwf) as [Hrow _]. destruct (Hrow i t Ht) as [_ Hok].
  assert (is_Some (mt_merchants d !! tk_merchant t)) as [r Hr].
  { cbn in Hok. unfold token_row_ok in Hok. repeat (apply andb_prop in Hok as [Hok ?]). by apply bool_decide_eq_true in Hok. }
  assert (mwf (set_mt_tokens d (<[i := token_consume (me_now env) t]> (mt_tokens d)))) as Hwf'.
  { assert (mpost (update_row (fun _ t => String.eqb (tk_hash t) (Hash raw) && bool_decide (tk_consumed t = None) &&
      (me_now env <? tk_expires t)) (token_consume (me_now env))) d (fun _ d' => mwf d')) as HP by (mrun; wf_done).
    unfold mpost in HP. by rewrite Hc in HP. }
  unfold mbind at 1. rewrite (email_works _ (tk_merchant t) r (me_now env) Hwf' Hr). eexists. reflexivity.
Qed.

(** ** A delivery *)

(** A mail to merchant [m] whose link carries the token of row [i]. *)
Definition link_mail (d : mdb) (i m : rowid) (raw : string) (msg : Message) : Prop :=
  exists t row kind, mt_tokens d !! i = Some t /\ tk_merchant t = m /\ tk_hash t = Hash raw /\
    (20 <= String.length raw)%nat /\ mt_merchants d !! m = Some row /\
    em_To msg = mr_email row /\ em_TextBody msg = kind +:+ email_link cfg raw.

Lemma claimed_mail d d1 now until only locked item d2 :
  mwf d -> sealed d -> mt_tokens d1 = mt_tokens d -> mt_merchants d1 = mt_merchants d -> mwf d1 -> sealed d1 ->
  claim_next now until only locked d1 = Ok (Some item, d2) ->
  exists i m raw, openEmailToken (emailOutboxKey cfg) (ed_ciphertext item) (uuid_text (ed_merchant item))
      (ed_tokenHash item) (ed_kind item) = Some raw /\ link_mail d i m raw (email_message cfg item raw).
Proof.
  intros Hwf Hse Et Em Hwf1 Hse1 E. revert item d2 E.
  cut (mpost (claim_next now until only locked) d1 (fun o _ => forall item, o = Some item ->
    exists i m raw, openEmailToken (emailOutboxKey cfg) (ed_ciphertext item) (uuid_text (ed_merchant item))
      (ed_tokenHash item) (ed_kind item) = Some raw /\ link_mail d i m raw (email_message cfg item raw))).
  { intros HP item d2 E. by apply (mpost_ok _ _ _ _ _ HP E). }
  apply mpost_claim; [done|]. intros i o t m Ho Ht Hm Hund _ _ d3 o' _ _ item [= <-].
  assert (exists ct, ob_ciphertext o = Some ct) as [ct Hct].
  { destruct (wf_outbox _ Hwf1) as [Hrow _]. destruct (Hrow i o Ho) as [_ Hok]. cbn in Hok. unfold outbox_row_ok in Hok.
    repeat (apply andb_prop in Hok as [Hok ?]). unfold undecided in Hund.
    apply andb_prop in Hund as [Hd%bool_decide_eq_true Ha%bool_decide_eq_true]. rewrite Hd, Ha in *.
    destruct (ob_ciphertext o); [by eexists|]. done. }
  destruct (Hse1 i o ct Ho Hct) as (t' & Ht' & Hmt & raw & nonce & Hh & Hl & Hn & ->). simplify_eq.
  exists (ob_token o), (ob_merchant o), raw. unfold claimed. cbn [ed_ciphertext ed_merchant ed_tokenHash ed_kind].
  rewrite Hct. cbn [default]. split; [by apply opens|]. rewrite Et in Ht. rewrite Em in Hm.
  unfold email_message. cbn [ed_kind ed_recipient]. destruct (String.eqb _ _); by eexists t, m, _.
Qed.

End Mail.
