(* ===== verification/MerchantDemo.v ===== *)
(** A concrete history of an account, for the witnesses: a registration, the
    link followed, the wallet proved, the recipient changed. *)

From Stdlib Require Import ZArith Lia Strings.Byte.
From stdpp Require Import base gmap list strings fin_maps.
From S2P Require Import Prelude GoStd GoNet Geth WalletProof Secret Calendar Challenge Schema Store.
From S2P Require Import MerchantSchema Merchant MerchantAdmin EmailDelivery FairUse MerchantRetention MerchantSystem.

Local Open Scope string_scope.
Local Open Scope Z_scope.

Definition DemoNet : Net :=
  {| net_mail :=
       {| ParseAddress s := Some {| ma_Name := EmptyString; ma_Address := s |}; address_String := ma_Address;
          QEncoding s := s; quotedprintable s := s |};
     ScanUUID s := option_map Z.to_N (SetString10 s);
     uuid_text n := FormatInt (Z.of_N n) |}.

Definition demo_config (cooldown : duration) : Config :=
  {| BaseURL := "https://eth402.org/"; TermsVersion := "1"; EmailTTL := 3600 * second; Resend := 60 * second;
     WalletTTL := 300 * second; RecipientCooldown := cooldown; AdminSessionTTL := 864000 * second;
     EmailDeliveryLease := 60 * second; Pepper := replicate 32 x70; EmailOutboxKey := replicate 32 x6b;
     BlockDisposable := true; RestrictFree := false; Allowlist := []; Denylist := [] |}.

Definition demo_epoch : time := 1700000000 * second.

(** The clock [s] seconds in, and the byte its random sequences repeat. *)
Definition demo_env (s : Z) (b : byte) : menv :=
  let t := demo_epoch + s * second in
  {| me_before := t; me_now := t; me_db := t; me_random := replicate 32 b; me_random2 := replicate 12 b |}.

Definition demo_wallet2 : string := "0x" +:+ Repeat "2" 40.

(** The challenge issued [s] seconds in. *)
Definition demo_issued (address action : string) (s : Z) (b : byte) : Challenge :=
  match NewChallenge (H := DemoGeth []) "1" address action (demo_epoch + s * second) (300 * second) (replicate 32 b) with
  | Ok c => c
  | Err _ => demo_challenge
  end.

Definition demo_prove : Challenge := demo_issued demo_wallet "verify-recipient" 20 x03.
Definition demo_change : Challenge := demo_issued demo_wallet2 "change-recipient" 100000 x06.
Definition demo_prove_late : Challenge := demo_issued demo_wallet "verify-recipient" 7900 x0d.
Definition demo_login : Challenge := demo_issued demo_wallet "authenticate-admin" 7951 x0a.
Definition demo_change_soon : Challenge := demo_issued demo_wallet2 "change-recipient" 7953 x0b.

(** A parser that knows these messages; a wallet's signature repeats its
    address. *)
Definition demo_signature (address : string) : string := address +:+ address +:+ address +:+ "000000".

Definition MerchantSiwe : Siwe :=
  {| ParseMessage m :=
       option_map siwe_fields
         (List.find (fun c => String.eqb (Challenge.Message c) m) [demo_prove; demo_change; demo_prove_late; demo_login; demo_change_soon]);
     VerifyEIP191 m s := String.eqb (ToLower s) (ToLower (demo_signature (sm_Address m))) |}.

Definition demo_registration : Registration :=
  {| rg_Name := "Shop"; rg_Email := "Shop@example.com"; rg_Recipient := demo_wallet; rg_Website := EmptyString;
     rg_Description := EmptyString; rg_AcceptTerms := true |}.

Definition demo_link (b : byte) : string := RawURLEncoding (replicate 32 b).
Definition demo_session (b : byte) : string := adminSessionPrefix +:+ RawURLEncoding (replicate 32 b).

Definition demo_signed_up : list mop :=
  [ MMarkSession (demo_env 31 x05) "1" (demo_session x02)
      (Challenge.Message demo_prove, demo_signature demo_wallet, demo_epoch + 30 * second);
    MVerifyWallet (demo_env 30 x04) "1" EmptyString "5" (Challenge.Message demo_prove) (demo_signature demo_wallet)
      "verify-recipient" "r";
    MPendingChallenge (demo_env 20 x03) "1" demo_wallet "r";
    MVerifyEmailForAdmin (demo_env 10 x02) (demo_link x01) "r";
    MRegister (demo_env 0 x01) demo_registration "r" ].

Definition demo_moved : list mop :=
  MVerifyAdminRecipientChange (demo_env 100100 x07) "1" (demo_session x02) "7" (Challenge.Message demo_change)
    (demo_signature demo_wallet2) "r" ::
  MAdminChallenge (demo_env 100000 x06) "1" (demo_session x02) demo_wallet2 "change-recipient" "r" :: demo_signed_up.

Definition demo_suspended : list mop :=
  MSuspend (demo_env 100200 x08) "1" "abuse" "operator" false "r" :: demo_moved.

(** The database after a list of operations, the latest first. *)
Fixpoint demo_after (cfg : Config) (tr : list mop) : res mdb :=
  match tr with
  | [] => Ok empty_mdb
  | op :: tr =>
      match demo_after cfg tr with
      | Ok d =>
          match mexec (H := DemoGeth []) (H0 := MerchantSiwe) (H1 := DemoNet) cfg op d with
          | Ok (_, d') => Ok d'
          | Err e => Err e
          end
      | Err e => Err e
      end
  end.

Definition demo_db (cfg : Config) (tr : list mop) : mdb :=
  match demo_after cfg tr with Ok d => d | Err _ => empty_mdb end.


Lemma demo_mrun ok cfg tr :
  is_ok (demo_after cfg tr) = true ->
  (fix admissible tr := match tr with [] => True | op :: tr => ok tr (demo_db cfg tr) op /\ admissible tr end) tr ->
  mrun (H := DemoGeth []) (H0 := MerchantSiwe) (H1 := DemoNet) cfg ok tr (demo_db cfg tr).
Proof.
  unfold demo_db. induction tr as [|op tr IH]; intros Hok Had; [constructor|]. destruct Had as [Hop Had].
  cbn [demo_after] in *. destruct (demo_after cfg tr) as [d|]; [|done].
  destruct (mexec cfg op d) as [[[] d']|] eqn:E; [|done]. by econstructor; [apply IH|..].
Qed.

(** ** Two sessions *)

(** The first session's user proves the wallet of the pending account; before
    the panel marks that session, the second one's moves the account to
    another wallet. *)
Definition demo_raced_config : Config := demo_config 0.

Definition demo_activated : list mop :=
  [ MVerifyWallet (demo_env 7950 x04) "1" EmptyString "8" (Challenge.Message demo_prove_late) (demo_signature demo_wallet)
      "verify-recipient" "r";
    MPendingChallenge (demo_env 7900 x0d) "1" demo_wallet "r";
    MVerifyEmailForAdmin (demo_env 4010 x0c) (demo_link x09) "r";
    MAdminLink (demo_env 4000 x09) "shop@example.com" "r";
    MVerifyEmailForAdmin (demo_env 10 x02) (demo_link x01) "r";
    MRegister (demo_env 0 x01) demo_registration "r" ].

Definition demo_mark : mop :=
  MMarkSession (demo_env 7955 x0f) "1" (demo_session x02)
    (Challenge.Message demo_prove_late, demo_signature demo_wallet, demo_epoch + 7950 * second).

Definition demo_raced : list mop :=
  [ demo_mark;
    MVerifyAdminRecipientChange (demo_env 7954 x0e) "1" (demo_session x0c) "11" (Challenge.Message demo_change_soon)
      (demo_signature demo_wallet2) "r";
    MAdminChallenge (demo_env 7953 x0b) "1" (demo_session x0c) demo_wallet2 "change-recipient" "r";
    MVerifyAdminWallet (demo_env 7952 x0f) "1" (demo_session x0c) "10" (Challenge.Message demo_login)
      (demo_signature demo_wallet) "r";
    MWalletChallenge (demo_env 7951 x0a) (demo_db demo_raced_config demo_activated) "1" EmptyString
      "authenticate-admin" "r" ] ++ demo_activated.
