(* ===== verification/MerchantProps.v ===== *)
(** The properties of merchant accounts: proved recipients, proofs used once,
    elevated sessions, suspensions, API keys and mailed links. *)

From Stdlib Require Import ZArith Lia Strings.Byte Sorting.Sorted.
From stdpp Require Import base gmap list strings fin_maps sorting.
From S2P Require Import Prelude GoStd Secret AesGcm Calendar State Geth WalletProof Challenge.
From S2P Require Import Verification Schema Hoare Store StoreInv StorePaid StoreDemo MerchantSchema Merchant.
From S2P Require Import MerchantAdmin EmailDelivery FairUse MerchantRetention MerchantSystem MerchantLogic MerchantWf.
From S2P Require Import MerchantAccounts MerchantStanding MerchantSessions MerchantCredentials MerchantMail.
From S2P Require Import MerchantDemo.

(** The account tables and the settlement tables together: the settlement
    store reads the merchants the account services write, so a payment is
    attributed to a merchant only if the wallet it pays was proved for it. *)

Local Open Scope Z_scope.

(** The columns of [merchants] settlement reads. *)
Definition accounts (d : mdb) : gmap rowid Merchant :=
  (fun r => {| m_recipient := mr_recipient r; m_status := mr_status r; m_created_at := mr_created r |}) <$> mt_merchants d.

(** ** Attribution *)

(** Every payment attributed to a merchant pays an address [A] allows. *)
Definition attributed (A : rowid -> string -> Prop) (t : gmap N Payment) : Prop :=
  forall i p m a, t !! i = Some p -> p_merchant p = Some m -> p_recipient p = Some a -> A m a.

#[export] Instance attributed_admin A : Administrable (attributed A).
Proof.
  intros t i p p' HA Hp (_ & Hm & _ & _ & _ & Hr) j q m a [[<- <-]|[_ Hq]]%lookup_insert_Some Hqm Hqr; [|by eapply HA].
  destruct Hm as [Hm|Hm]; [|congruence]. destruct Hr as [Hr|Hr]; [|congruence]. eapply HA; [exact Hp|congruence..].
Qed.

Lemma oldest_active_inv d a m :
  oldest_active d a = Some m -> exists row, merchants d !! m = Some row /\ m_recipient row = a /\ m_status row = MActive.
Proof.
  unfold oldest_active. destruct (merge_sort _ _) as [|[i row] l] eqn:E; [done|]. cbn. intros [= <-].
  assert ((i, row) ∈ (i, row) :: l) as Hin by constructor. rewrite <- E, merge_sort_Permutation in Hin.
  apply list_elem_of_In, filter_In in Hin as [Hin Hc]. apply list_elem_of_In, elem_of_map_to_list in Hin.
  apply andb_prop in Hc as [Hr%String.eqb_eq Hs%bool_decide_eq_true]. by exists row.
Qed.

(** The accounts that are active may be paid. *)
Definition payable (A : rowid -> string -> Prop) (d : db) : Prop :=
  forall m row, merchants d !! m = Some row -> m_status row = MActive -> A m (m_recipient row).

Lemma attributed_record A v now d i d' :
  wf d -> payable A d -> attributed A (payments d) -> record_payment v now d = Ok (i, d') -> attributed A (payments d').
Proof.
  intros Hwf Hpay HA E. destruct (record_payment_Ok _ _ _ _ _ Hwf E) as [[-> _]|(_ & amount & _ & ->)]; [done|].
  cbn [payments set_log set_payments].
  intros j q m a [[<- <-]|[_ Hq]]%lookup_insert_Some Hm Ha; [|by eapply HA]. cbn in Hm, Ha.
  injection Ha as <-. destruct (oldest_active_inv _ _ _ Hm) as (row & Hrow & <- & Hs). by apply Hpay.
Qed.

Lemma attributed_recordVerification A u att now d r d' :
  wf d -> payable A d -> attributed A (payments d) -> recordVerification u att now d = Ok (r, d') -> attributed A (payments d').
Proof.
  intros Hwf Hpay HA. assert (forall (x : AttemptRow) (r : res unit),
    preserves (paid (attributed A)) (insert_verification_attempt x ;;! ret r)%db) as Hthen by walk.
  unfold recordVerification. destruct (String.eqb _ _); [|intros E; by eapply (Hthen _ _ d)].
  destruct (va_Payment att) as [v|]; [|done].
  destruct (record_payment v now d) as [[i d1]|e] eqn:E.
  - intros E'. eapply (Hthen _ _ d1); [|exact E']. by eapply attributed_record.
  - destruct (errors_Is e EUniqueViolation); [|done]. intros E'. by eapply (Hthen _ _ d).
Qed.

Lemma attributed_exec A op d d' :
  wf d -> payable A d -> attributed A (payments d) -> exec op d = Ok (tt, d') -> attributed A (payments d').
Proof.
  intros Hwf Hpay HA E.
  destruct op; try (revert E; apply (paid_exec_admin (attributed A)); done); cbn [exec] in E.
  - unfold discard, bind in E. destruct (recordVerification _ _ _ d) as [[r d1]|] eqn:E1; [|done].
    injection E as <-. by eapply attributed_recordVerification.
  - revert E. refine ((_ : preserves (paid (attributed A)) _) d tt d' HA).
    unfold discard, CreateSettlementIntent, duplicate_intent, admission, rejectSettlement, admit_intent. walk.
    apply paid_update_payment. intros t q HJ Hq _ j q' o x [[<- <-]|[_ Hq']]%lookup_insert_Some Ho Ha; by eapply HJ.
Qed.

(** ** Joint runs *)

Section Joint.
  Context `{Geth} `{Siwe} `{Net} (cfg : Config).

(** Account operations and calls of the settlement store interleave; a call
    sees the merchants as they are. *)
Inductive jrun : list mop -> mdb -> db -> Prop :=
  | jrun_nil : jrun [] empty_mdb empty_db
  | jrun_account tr d s op d' : jrun tr d s -> mexec cfg op d = Ok (tt, d') -> jrun (op :: tr) d' s
  | jrun_store tr d s op s' :
      jrun tr d s -> (forall m, op <> OpMerchants m) -> exec op (set_merchants s (accounts d)) = Ok (tt, s') ->
      jrun tr d s'.

Lemma jrun_parts tr d s : jrun tr d s -> mrun cfg anything tr d /\ reachable s.
Proof.
  intros R. induction R as [|tr d s op d' R [Ha Hs] E|tr d s op s' R [Ha Hs] Hop E].
  - split; [constructor|by exists []].
  - split; [by econstructor|done].
  - split; [done|]. eapply reachable_step; [|exact E]. by eapply (reachable_step (OpMerchants (accounts d)) s).
Qed.

Lemma active_attested tr d s : mrun cfg anything tr d -> payable (attested tr) (set_merchants s (accounts d)).
Proof.
  intros R m row Hrow Hs. cbn in Hrow. apply lookup_fmap_Some in Hrow as (r & <- & Hr). cbn in *.
  destruct (standing_run cfg _ _ _ R m) as [(Ha & _ & _ & Hst) _]. rewrite Hr in Hst. destruct Hst as (Hpd & Hv & Hn).
  rewrite Forall_forall in Ha. destruct (last _) as [h|] eqn:El.
  - rewrite <- (Hn h eq_refl). apply Ha. by eapply last_Some_elem_of.
  - cbn in Hv. symmetry in Hv. apply Hpd in Hv. congruence.
Qed.

Lemma attributed_mono (A B : rowid -> string -> Prop) t :
  (forall m a, A m a -> B m a) -> attributed A t -> attributed B t.
Proof. intros HAB HA i p m a Hp Hm Hr. by eapply HAB, HA. Qed.

Lemma jrun_attributed tr d s : jrun tr d s -> attributed (attested tr) (payments s).
Proof.
  intros R. induction R as [|tr d s op d' R IH E|tr d s op s' R IH Hop E].
  - intros i p m a Hp. cbn in Hp. by rewrite lookup_empty in Hp.
  - eapply attributed_mono; [|exact IH]. intros m a. apply attested_cons.
  - destruct (jrun_parts tr d s R) as [Ha Hs]. eapply (attributed_exec _ op (set_merchants s (accounts d))); [| |exact IH|exact E].
    + apply reachable_wf. by eapply (reachable_step (OpMerchants (accounts d)) s).
    + by apply active_attested.
Qed.

(** Account operations alone. *)
Lemma jrun_accounts ok tr d : mrun cfg ok tr d -> jrun tr d empty_db.
Proof. intros R. induction R; by econstructor. Qed.

End Joint.
Local Open Scope string_scope.
Local Open Scope Z_scope.

Section Properties.
  Context `{Geth} `{Siwe} `{Net} (cfg : Config).

(** C13. The recipient of an account is a wallet that signed for it.  In every
    run, the history of an account links each recipient to the one before it,
    entries are at least the cooldown apart, and each entry's wallet signed a
    message naming the account that the service checked; an account is
    verified exactly when it is past pending, and then its recipient and the
    time of its verification are the last entry's. *)
Theorem recipients_proved ok tr d m r :
  mrun cfg ok tr d -> mt_merchants d !! m = Some r ->
  let hs := filter (fun h => h_merchant h = m) (mt_history d) in
  Forall (fun h => attested tr m (h_new h)) hs /\ linked None hs /\ StronglySorted (cooled_down cfg) hs /\
  (mr_status r = MPending <-> mr_wallet_verified r = None) /\
  option_map h_verified (last hs) = mr_wallet_verified r /\
  (forall h, last hs = Some h -> h_new h = mr_recipient r).
Proof.
  intros R Hr hs. destruct (standing_run cfg ok tr d R m) as [(Ha & Hl & Hs & Hrow) _]. rewrite Hr in Hrow.
  subst hs. destruct Hrow as (Hpd & Hv & Hn). by split_and!.
Qed.

(** C14. A payment attributed to a merchant pays a wallet that signed for it.
    Account operations and calls of the settlement store interleave; at any
    point the recipient of an attributed payment, unless retention cleared it,
    is an address whose holder signed a message naming the account, which the
    service checked. *)
Theorem paid_recipients_proved tr d s i p m a :
  jrun cfg tr d s -> payments s !! i = Some p -> p_merchant p = Some m -> p_recipient p = Some a -> attested tr m a.
Proof. intros R Hp Hm Ha. by eapply jrun_attributed. Qed.


(** C17. What is presented is spent: in every run no wallet challenge is
    answered twice, and, as long as no two tokens drawn have the same hash,
    no email link is followed twice. *)
Theorem proofs_single_use tr d :
  mrun cfg unrepeated tr d -> NoDup (omap challenge_of tr) /\ NoDup (map Hash (omap link_of tr)).
Proof. intros R. split; [by apply (spent_run cfg _ _ _ R)|by apply (links_run cfg _ _ R)]. Qed.

(** C16. An elevated session proved the wallet the account pays.  If the panel
    marks sessions before the recipient they proved changes, then whenever a
    session passes the panel's authorization, the run contains a proof, by
    the account's present recipient, presented for that session. *)
Theorem elevation_current tr d now mid token m d' :
  mrun cfg prompt tr d -> lockWalletAuthenticatedAdmin now mid token d = Ok (m, d') ->
  exists op token' proof, op ∈ tr /\ session_proof op = Some (token', proof) /\ Hash token' = Hash token /\
    proves_current proof d m.
Proof.
  intros R E. refine (mpost_ok _ _ (fun m _ => exists op token' proof, op ∈ tr /\ session_proof op = Some (token', proof) /\
    Hash token' = Hash token /\ proves_current proof d m) _ _ _ E).
  apply mpost_lockAdmin. intros n row i s _ _ _ Hs <- Hh _ _ He.
  destruct (session_run cfg tr d R i s Hs) as (op & token' & proof & Hin & Hp & Hh' & Hcur).
  - unfold elevated in He. by destruct (mr_wallet_verified row), (s_wallet s).
  - exists op, token', proof. split_and!; [done|done|congruence|done].
Qed.

(** C18. A request that authenticates is the holder's of a key issued to that
    merchant: the run contains an operation that issued the merchant a key
    with the presented key's lookup prefix and keyed hash, the key is not
    revoked and the merchant is active. *)
Theorem api_key_attributed ok tr d env value m row d' :
  mrun cfg ok tr d -> Authenticate cfg env d value d = Ok (Ok (m, row), d') ->
  mr_status row = MActive /\ mt_merchants d !! m = Some row /\
  exists op key, op ∈ tr /\ issues cfg op = Some (m, key) /\ LookupPrefix key = LookupPrefix value /\
    KeyedHash (Pepper cfg) key = KeyedHash (Pepper cfg) value.
Proof.
  intros R (i & k & Hk & <- & _ & Hm & Hp & Hrow & Ha)%authenticated. split; [done|]. split; [done|].
  destruct (keys_run cfg ok tr d R i k Hk) as (op & n & key & Hin & Hi & Hof).
  exists op, key. pose proof Hof as (-> & Hpk & _). split_and!; [done|done|congruence|].
  symmetry. by apply (key_matches_iff cfg k n key value Hof).
Qed.

(** C19. A key that was handed out works: from the moment it is issued, as long
    as its merchant revokes no key and is active, it authenticates as that
    merchant. *)
Theorem issued_key_works later op tr d m value row env :
  mrun cfg sized (later ++ op :: tr) d -> issues cfg op = Some (m, value) ->
  (forall op', op' ∈ later -> ~ revokes op' m) -> mt_merchants d !! m = Some row -> mr_status row = MActive ->
  exists d', Authenticate cfg env d value d = Ok (Ok (m, row), d').
Proof.
  intros R Hi Hno Hm Ha. destruct (key_stays cfg _ later op tr d m value R Hi Hno) as (i & k & Hk & Hof & Hr).
  eapply authenticates; eauto using wf_run.
  assert (exists d0, sized tr d0 op) as [d0 Hsz].
  { clear -R. revert d R. induction later as [|x later IH]; intros d R; inversion_clear R; by eauto. }
  eapply issued_shape; eauto.
Qed.

(** C20. A mail that goes out carries a link that works.  Whatever a delivery
    claims it can open; the mail is addressed to the merchant the token
    belongs to, and in every reachable database in which the token is still
    unused, following the link before it expires verifies that merchant's
    email. *)
Theorem mailed_links_work tr d env only r mail d' :
  mrun cfg sized tr d -> deliverNext cfg env only d = (r, mail, d') ->
  (r = Ok true -> mail <> []) /\
  Forall (fun msg => exists i m raw, link_mail cfg d i m raw msg /\
    forall tr2 d2 t env2 request, mrun cfg sized tr2 d2 -> mt_tokens d2 !! i = Some t -> tk_hash t = Hash raw ->
      tk_merchant t = m -> tk_consumed t = None -> tk_created t <= me_now env2 < tk_expires t ->
      exists d3, verifyEmail env2 raw request None d2 = Ok (m, d3)) mail.
Proof.
  intros R. pose proof (wf_run cfg _ _ _ R) as Hwf. pose proof (sealed_run cfg _ _ R) as Hse. unfold deliverNext.
  destruct (abandon_expired _ _ d) as [[[] d1]|] eqn:E1; [|by intros [= <- <- _]].
  assert (mwf d1 /\ sealed cfg d1 /\ mt_tokens d1 = mt_tokens d /\ mt_merchants d1 = mt_merchants d) as (Hwf1 & Hse1 & Ht & Hm).
  { split; [exact (mpost_ok _ _ _ _ _ (wf_mexec cfg (MAbandonExpired _ _) d Hwf) E1)|].
    split; [exact (sealed_step cfg (MAbandonExpired _ _) tr d d1 Hwf I Hse E1)|].
    refine (mpost_ok _ _ (fun _ d1 => mt_tokens d1 = mt_tokens d /\ mt_merchants d1 = mt_merchants d) _ _ _ E1).
    by apply mpost_abandon. }
  destruct (claim_next _ _ _ _ d1) as [[[item|] d2]|] eqn:E2; [|by intros [= <- <- _]..].
  destruct (claimed_mail cfg d d1 _ _ _ _ item d2 Hwf Hse Ht Hm Hwf1 Hse1 E2) as (i & m & raw & -> & Hlink).
  intros E. assert (mail = [email_message cfg item raw]) as ->.
  { destruct (if de_accepts _ _ then _ else _) as [[? ?]|]; by injection E as <- <- _. }
  split; [done|]. constructor; [|done]. exists i, m, raw. split; [done|].
  intros tr2 d3 t env2 request R2 Ht2 Hh <- Hn Hw. destruct Hlink as (_ & _ & _ & _ & _ & _ & Hl & _).
  eapply verifyEmail_works; eauto using wf_run.
Qed.

End Properties.

(** ** Concrete runs *)

Definition demo_day : Config := demo_config (86400 * second).

Lemma demo_run tr : is_ok (demo_after demo_day tr) = true ->
  mrun (H := DemoGeth []) (H0 := MerchantSiwe) (H1 := DemoNet) demo_day anything tr (demo_db demo_day tr).
Proof. intros Hok. apply demo_mrun; [exact Hok|]. clear Hok. induction tr; [exact I|]. by split. Qed.

Lemma recipients_proved_witness :
  Forall (fun h => attested (H0 := MerchantSiwe) (H1 := DemoNet) demo_moved 1%N (h_new h))
    (filter (fun h => h_merchant h = 1%N) (mt_history (demo_db demo_day demo_moved))) /\
  map h_new (filter (fun h => h_merchant h = 1%N) (mt_history (demo_db demo_day demo_moved))) = [demo_wallet; demo_wallet2].
Proof.
  split; [|vm_compute; reflexivity].
  assert (is_Some (mt_merchants (demo_db demo_day demo_moved) !! 1%N)) as [r E] by (eexists; vm_compute; reflexivity).
  destruct (recipients_proved (H := DemoGeth []) (H0 := MerchantSiwe) (H1 := DemoNet) demo_day anything demo_moved
    (demo_db demo_day demo_moved) 1%N r) as [HF _]; [apply demo_run; vm_compute; reflexivity|exact E|exact HF].
Defined.

Lemma paid_recipients_proved_witness : attested (H0 := MerchantSiwe) (H1 := DemoNet) demo_moved 1%N demo_wallet2.
Proof.
  assert (exists s p, exec (OpVerification "used" demo_attempt 1)
    (set_merchants empty_db (accounts (demo_db demo_day demo_moved))) = Ok (tt, s) /\
    payments s !! 1%N = Some p /\ p_merchant p = Some 1%N /\ p_recipient p = Some demo_wallet2)
    as (s & p & E & Hp & Hm & Ha) by (eexists _, _; split_and!; vm_compute; reflexivity).
  refine (paid_recipients_proved (H := DemoGeth []) (H0 := MerchantSiwe) (H1 := DemoNet) demo_day demo_moved
    (demo_db demo_day demo_moved) s 1%N p 1%N demo_wallet2 _ Hp Hm Ha).
  refine (jrun_store _ _ _ _ _ _ _ _ E); [eapply jrun_accounts, demo_run; vm_compute; reflexivity|intros ? ?; discriminate].
Defined.


Lemma proofs_single_use_witness :
  NoDup (omap (challenge_of (H1 := DemoNet)) demo_moved) /\ NoDup (map Hash (omap link_of demo_moved)).
Proof.
  apply (proofs_single_use (H := DemoGeth []) (H0 := MerchantSiwe) (H1 := DemoNet) demo_day demo_moved
    (demo_db demo_day demo_moved)). apply demo_mrun; [vm_compute; reflexivity|].
  repeat split; intros raw Hraw; try discriminate Hraw. intros Hin. by apply elem_of_nil in Hin.
Defined.

Lemma elevation_current_witness :
  exists op token' proof, op ∈ demo_signed_up /\ session_proof op = Some (token', proof) /\
    Hash token' = Hash (demo_session x02) /\
    proves_current (H0 := MerchantSiwe) (H1 := DemoNet) proof (demo_db demo_day demo_signed_up) 1%N.
Proof.
  apply (elevation_current (H := DemoGeth []) (H0 := MerchantSiwe) (H1 := DemoNet) demo_day demo_signed_up
    (demo_db demo_day demo_signed_up) (demo_epoch + 40 * second) "1" (demo_session x02) 1%N (demo_db demo_day demo_signed_up));
    [|vm_compute; reflexivity].
  apply demo_mrun; [vm_compute; reflexivity|]. repeat split.
  - exists (demo_env 30 x04), "5", "r". split; [reflexivity|left].
  - intros m Hm. vm_compute in Hm. injection Hm as <-.
    eexists. split; [vm_compute; reflexivity|]. split; [eexists; reflexivity|]. split; [reflexivity|].
    exists "verify-recipient". vm_compute. reflexivity.
Defined.

Definition demo_key : string :=
  match GenerateAPIKey (Pepper demo_day) (replicate 32 x04) with Ok g => FullValue g | Err _ => EmptyString end.

Lemma api_key_attributed_witness :
  match Authenticate demo_day (demo_env 50 x10) (demo_db demo_day demo_signed_up) demo_key
          (demo_db demo_day demo_signed_up) with
  | Ok (Ok (m, row), _) => exists op key, op ∈ demo_signed_up /\ issues (H1 := DemoNet) demo_day op = Some (m, key)
  | _ => False
  end.
Proof.
  assert (match Authenticate demo_day (demo_env 50 x10) (demo_db demo_day demo_signed_up) demo_key
      (demo_db demo_day demo_signed_up) with Ok (Ok _, _) => True | _ => False end) as Hok by (vm_compute; exact I).
  destruct (Authenticate demo_day _ _ demo_key _) as [[[[m row]|e] d']|e] eqn:E; [clear Hok|destruct Hok..].
  destruct (api_key_attributed (H := DemoGeth []) (H0 := MerchantSiwe) (H1 := DemoNet) demo_day anything demo_signed_up
    _ _ _ _ _ _ (demo_run demo_signed_up ltac:(vm_compute; reflexivity)) E) as (_ & _ & op & key & Hin & Hi & _).
  exists op, key. exact (conj Hin Hi).
Defined.

Lemma issued_key_works_witness :
  exists row d', Authenticate demo_day (demo_env 50 x10) (demo_db demo_day demo_signed_up) demo_key
    (demo_db demo_day demo_signed_up) = Ok (Ok (1%N, row), d').
Proof.
  eexists. eapply (issued_key_works (H := DemoGeth []) (H0 := MerchantSiwe) (H1 := DemoNet) demo_day
    (take 1 demo_signed_up)).
  - apply (demo_mrun sized demo_day demo_signed_up); [vm_compute; reflexivity|]. by repeat split.
  - vm_compute. reflexivity.
  - intros op' Hin. apply list_elem_of_singleton in Hin as ->. intros (? & ? & ? & ? & ? & ? & Eq & _). discriminate Eq.
  - vm_compute. reflexivity.
  - reflexivity.
Defined.

Definition demo_delivery : delivery_env :=
  {| de_start := demo_epoch + 5 * second; de_finish := demo_epoch + 6 * second; de_locked := fun _ => false;
     de_accepts := fun _ => true; de_others := fun d => d |}.

Lemma mailed_links_work_witness :
  let registered := [MRegister (demo_env 0 x01) demo_registration "r"] in
  exists msg d' i m raw,
    deliverNext (H := DemoNet) demo_day demo_delivery None (demo_db demo_day registered) = (Ok true, [msg], d') /\
    link_mail demo_day (demo_db demo_day registered) i m raw msg.
Proof.
  intros registered.
  assert (exists d' msg, deliverNext (H := DemoNet) demo_day demo_delivery None (demo_db demo_day registered) =
    (Ok true, [msg], d')) as (d' & msg & E) by (eexists _, _; vm_compute; reflexivity).
  destruct (mailed_links_work (H := DemoGeth []) (H0 := MerchantSiwe) (H1 := DemoNet) demo_day registered
    (demo_db demo_day registered) demo_delivery None (Ok true) [msg] d') as [_ HF].
  - apply demo_mrun; [vm_compute; reflexivity|]. repeat split.
  - exact E.
  - inversion_clear HF as [|? ? (i & m & raw & Hl & _) _]. exists msg, d', i, m, raw. exact (conj E Hl).
Defined.

(** ** A session marked late *)

Definition demo_proof : string * string * string * time :=
  ("1", Challenge.Message demo_prove_late, demo_signature demo_wallet, demo_epoch + 7950 * second).

(** C38. The panel marks a session in a transaction of its own after
    [VerifyWallet]: with no cooldown another session can change the recipient
    in between, and the marked session then passes the panel's authorization
    although no proof presented for it is of the wallet the account pays. *)
Theorem elevation_race :
  let d := demo_db demo_raced_config demo_raced in
  mrun (H := DemoGeth []) (H0 := MerchantSiwe) (H1 := DemoNet) demo_raced_config handled demo_raced d /\
  lockWalletAuthenticatedAdmin (H1 := DemoNet) (demo_epoch + 7956 * second) "1" (demo_session x02) d = Ok (1%N, d) /\
  (forall op token proof, op ∈ demo_raced -> session_proof op = Some (token, proof) ->
     Hash token = Hash (demo_session x02) -> ~ proves_current (H0 := MerchantSiwe) (H1 := DemoNet) proof d 1%N).
Proof.
  intros d. split_and!.
  - apply demo_mrun; [vm_compute; reflexivity|]. repeat split.
    exists (demo_env 7950 x04), "8", "r". split; [reflexivity|]. do 4 right. left.
  - vm_compute. reflexivity.
  - assert (Forall (fun op => match session_proof op with
        | Some (token, proof) => String.eqb (Hash token) (Hash (demo_session x02)) = true -> proof = demo_proof
        | None => True end) demo_raced) as HF.
    { repeat (apply Forall_cons; split); [vm_compute; first [exact I|done]..|constructor]. }
    rewrite Forall_forall in HF. intros op token proof Hin Hp Hh. specialize (HF op Hin). rewrite Hp in HF.
    rewrite HF by by apply String.eqb_eq.
    intros (r & Hr & _ & _ & action & (parsed & Hparsed & Ha & _)%VerifyMessage_inv).
    assert (option_map mr_recipient (mt_merchants d !! 1%N) = Some demo_wallet2) as Hw by (vm_compute; reflexivity).
    rewrite Hr in Hw. injection Hw as Hw. rewrite Hw in Ha.
    assert (ParseMessage (Siwe := MerchantSiwe) (Challenge.Message demo_prove_late) = Some (siwe_fields demo_prove_late))
      as Hm by (vm_compute; reflexivity).
    rewrite Hm in Hparsed. apply (inj Some) in Hparsed as <-. revert Ha. vm_compute. discriminate.
Qed.
