(* ===== verification/GoJsonText.v ===== *)
(** JSON texts in the Go standard library: [unicode/utf8], the lexical grammar
    of [encoding/json], its token decoder, and the values texts denote.

    Strings are byte strings.  A decoder is what is left of the text, and the
    state by which [Decoder.Token] knows which tokens may follow. *)

From Stdlib Require Import ZArith Lia Ascii.
From stdpp Require Import base strings list.
From S2P Require Import Prelude GoStd GoJson GoNet.

Local Open Scope string_scope.
Local Open Scope Z_scope.

(** ** UTF-8 *)

Definition between (lo hi : Z) (c : ascii) : bool := (lo <=? code c) && (code c <=? hi).

Definition continuation : ascii -> bool := between 128 191.

(** [utf8.Valid]. *)
Fixpoint utf8_Valid (s : string) : bool :=
  match s with
  | EmptyString => true
  | String a r =>
      if code a <? 128 then utf8_Valid r
      else
        match r with
        | EmptyString => false
        | String b r =>
            if between 194 223 a then continuation b && utf8_Valid r
            else
              match r with
              | EmptyString => false
              | String c r =>
                  let second :=
                    if code a =? 224 then between 160 191
                    else if code a =? 237 then between 128 159
                    else if code a =? 240 then between 144 191
                    else if code a =? 244 then between 128 143
                    else continuation in
                  if between 224 239 a then second b && continuation c && utf8_Valid r
                  else
                    match r with
                    | EmptyString => false
                    | String d r => between 240 244 a && second b && continuation c && continuation d && utf8_Valid r
                    end
              end
        end
  end.

Definition byte_char (z : Z) : ascii := ascii_of_N (Z.to_N z).

(** The bytes of a code point, before [tail]. *)
Definition utf8_encode (rune : Z) (tail : string) : string :=
  if rune <? 128 then String (byte_char rune) tail
  else if rune <? 2048 then String (byte_char (192 + rune / 64)) (String (byte_char (128 + rune mod 64)) tail)
  else if rune <? 65536 then
    String (byte_char (224 + rune / 4096))
      (String (byte_char (128 + rune / 64 mod 64)) (String (byte_char (128 + rune mod 64)) tail))
  else
    String (byte_char (240 + rune / 262144))
      (String (byte_char (128 + rune / 4096 mod 64))
         (String (byte_char (128 + rune / 64 mod 64)) (String (byte_char (128 + rune mod 64)) tail))).

(** ** Lexical grammar *)

Definition json_space (c : ascii) : bool := (code c =? 32) || (code c =? 9) || (code c =? 13) || (code c =? 10).

Fixpoint skip_space (s : string) : string :=
  match s with
  | String c r => if json_space c then skip_space r else s
  | EmptyString => EmptyString
  end.

Definition hex4 (a b c d : ascii) : option Z :=
  match hex_value a, hex_value b, hex_value c, hex_value d with
  | Some a, Some b, Some c, Some d => Some (Z.of_N (((a * 16 + b) * 16 + c) * 16 + d))
  | _, _, _, _ => None
  end.

Definition ReplacementChar : Z := 65533.
Definition high_surrogate (u : Z) : bool := (55296 <=? u) && (u <? 56320).
Definition low_surrogate (u : Z) : bool := (56320 <=? u) && (u <? 57344).

(** The character an escape stands for. *)
Definition escaped (c : ascii) : option Z :=
  if Ascii.eqb c "b" then Some 8
  else if Ascii.eqb c "f" then Some 12
  else if Ascii.eqb c "n" then Some 10
  else if Ascii.eqb c "r" then Some 13
  else if Ascii.eqb c "t" then Some 9
  else if Ascii.eqb c "\" || Ascii.eqb c "/" || (code c =? 34) then Some (code c)
  else None.

Definition quote : ascii := "034".
Definition backslash : ascii := "\".

(** What follows an opening quote: the string it denotes and the rest.  A
    surrogate without its partner stands for the replacement character. *)
Fixpoint lex_string (s : string) : option (string * string) :=
  match s with
  | EmptyString => None
  | String c r =>
      if Ascii.eqb c quote then Some (EmptyString, r)
      else if code c <? 32 then None
      else if negb (Ascii.eqb c backslash) then
        match lex_string r with Some (x, t) => Some (String c x, t) | None => None end
      else
        match r with
        | EmptyString => None
        | String e r =>
            if Ascii.eqb e "u" then
              match r with
              | String a (String b (String c (String d r))) =>
                  match hex4 a b c d with
                  | None => None
                  | Some u =>
                      let alone rune := match lex_string r with Some (x, t) => Some (utf8_encode rune x, t) | None => None end in
                      if high_surrogate u then
                        match r with
                        | String e (String f (String a (String b (String c (String d r))))) =>
                            match hex4 a b c d with
                            | Some v =>
                                if Ascii.eqb e backslash && Ascii.eqb f "u" && low_surrogate v then
                                  match lex_string r with
                                  | Some (x, t) => Some (utf8_encode (65536 + (u - 55296) * 1024 + (v - 56320)) x, t)
                                  | None => None
                                  end
                                else alone ReplacementChar
                            | None => alone ReplacementChar
                            end
                        | _ => alone ReplacementChar
                        end
                      else alone (if low_surrogate u then ReplacementChar else u)
                  end
              | _ => None
              end
            else
              match escaped e, lex_string r with
              | Some rune, Some (x, t) => Some (utf8_encode rune x, t)
              | _, _ => None
              end
        end
  end.

(** One digit or more. *)
Definition lex_digits (s : string) : option (string * string) :=
  match span_str is_digit s with
  | (EmptyString, _) => None
  | p => Some p
  end.

Definition lex_integer (s : string) : option (string * string) :=
  match s with
  | String c r => if Ascii.eqb c "0" then Some ("0", r) else lex_digits s
  | EmptyString => None
  end.

Definition lex_fraction (s : string) : option (string * string) :=
  match s with
  | String c r =>
      if Ascii.eqb c "." then match lex_digits r with Some (x, t) => Some (String c x, t) | None => None end
      else Some (EmptyString, s)
  | EmptyString => Some (EmptyString, s)
  end.

Definition lex_exponent (s : string) : option (string * string) :=
  match s with
  | String e r =>
      if Ascii.eqb e "e" || Ascii.eqb e "E" then
        match r with
        | String sign r' =>
            if Ascii.eqb sign "+" || Ascii.eqb sign "-" then
              match lex_digits r' with Some (x, t) => Some (String e (String sign x), t) | None => None end
            else match lex_digits r with Some (x, t) => Some (String e x, t) | None => None end
        | EmptyString => None
        end
      else Some (EmptyString, s)
  | EmptyString => Some (EmptyString, s)
  end.

Definition lex_number (s : string) : option (any * string) :=
  let '(sign, s) :=
    match s with
    | String c r => if Ascii.eqb c "-" then ("-", r) else (EmptyString, s)
    | EmptyString => (EmptyString, s)
    end in
  match lex_integer s with
  | None => None
  | Some (i, s) =>
      match lex_fraction s with
      | None => None
      | Some (f, s) =>
          match lex_exponent s with
          | None => None
          | Some (e, s) => Some (AnyNumber (sign +:+ i +:+ f +:+ e), s)
          end
      end
  end.

Definition lex_literal (text : string) (v : any) (s : string) : option (any * string) :=
  if HasPrefix s text then Some (v, drop_str (String.length text) s) else None.

(** A value that is neither an object nor an array. *)
Definition lex_scalar (s : string) : option (any * string) :=
  match s with
  | EmptyString => None
  | String c r =>
      if Ascii.eqb c quote then match lex_string r with Some (x, t) => Some (AnyString x, t) | None => None end
      else if Ascii.eqb c "t" then lex_literal "true" (AnyBool true) s
      else if Ascii.eqb c "f" then lex_literal "false" (AnyBool false) s
      else if Ascii.eqb c "n" then lex_literal "null" AnyNil s
      else if Ascii.eqb c "-" || is_digit c then lex_number s
      else None
  end.

(** ** Token decoder *)

Inductive tokenState :=
  | tokenTopValue
  | tokenArrayStart | tokenArrayValue | tokenArrayComma
  | tokenObjectStart | tokenObjectKey | tokenObjectColon | tokenObjectValue | tokenObjectComma.

Record Decoder := { dc_state : tokenState; dc_stack : list tokenState; dc_rest : string }.

Definition NewDecoder (s : string) : Decoder := {| dc_state := tokenTopValue; dc_stack := []; dc_rest := s |}.

Inductive token := Delim (c : ascii) | Scalar (v : any).

(** The end of the input is told apart from a malformed token. *)
Inductive token_result := TokenEOF | TokenError | TokenOk (t : token) (d : Decoder).

Definition tokenValueAllowed (st : tokenState) : bool :=
  match st with tokenTopValue | tokenArrayStart | tokenArrayValue | tokenObjectValue => true | _ => false end.

(** [tokenValueEnd]: the state after a value. *)
Definition value_end (st : tokenState) : tokenState :=
  match st with
  | tokenArrayStart | tokenArrayValue => tokenArrayComma
  | tokenObjectValue => tokenObjectComma
  | st => st
  end.

Definition open_delim (st : tokenState) (c : ascii) (r : string) (d : Decoder) : token_result :=
  if tokenValueAllowed (dc_state d) then
    TokenOk (Delim c) {| dc_state := st; dc_stack := dc_state d :: dc_stack d; dc_rest := r |}
  else TokenError.

Definition close_delim (c : ascii) (r : string) (d : Decoder) : token_result :=
  match dc_stack d with
  | st :: stack => TokenOk (Delim c) {| dc_state := value_end st; dc_stack := stack; dc_rest := r |}
  | [] => TokenError
  end.

(** The token at the front, past a comma or a colon. *)
Definition token_at (d : Decoder) : token_result :=
  match skip_space (dc_rest d) with
  | EmptyString => TokenEOF
  | String c r as s =>
      if Ascii.eqb c "[" then open_delim tokenArrayStart c r d
      else if Ascii.eqb c "]" then
        match dc_state d with tokenArrayStart | tokenArrayComma => close_delim c r d | _ => TokenError end
      else if Ascii.eqb c "{" then open_delim tokenObjectStart c r d
      else if Ascii.eqb c "}" then
        match dc_state d with tokenObjectStart | tokenObjectComma => close_delim c r d | _ => TokenError end
      else if Ascii.eqb c ":" || Ascii.eqb c "," then TokenError
      else
        match dc_state d with
        | tokenObjectStart | tokenObjectKey =>
            if Ascii.eqb c quote then
              match lex_scalar s with
              | Some (v, r) => TokenOk (Scalar v) {| dc_state := tokenObjectColon; dc_stack := dc_stack d; dc_rest := r |}
              | None => TokenError
              end
            else TokenError
        | st =>
            if tokenValueAllowed st then
              match lex_scalar s with
              | Some (v, r) => TokenOk (Scalar v) {| dc_state := value_end st; dc_stack := dc_stack d; dc_rest := r |}
              | None => TokenError
              end
            else TokenError
        end
  end.

Definition with_state (st : tokenState) (r : string) (d : Decoder) : Decoder :=
  {| dc_state := st; dc_stack := dc_stack d; dc_rest := r |}.

Definition Token (d : Decoder) : token_result :=
  match skip_space (dc_rest d) with
  | EmptyString => TokenEOF
  | String c r =>
      match dc_state d with
      | tokenObjectColon => if Ascii.eqb c ":" then token_at (with_state tokenObjectValue r d) else token_at d
      | tokenArrayComma => if Ascii.eqb c "," then token_at (with_state tokenArrayValue r d) else token_at d
      | tokenObjectComma => if Ascii.eqb c "," then token_at (with_state tokenObjectKey r d) else token_at d
      | _ => token_at d
      end
  end.

Definition More (d : Decoder) : bool :=
  match skip_space (dc_rest d) with
  | EmptyString => false
  | String c _ => negb (Ascii.eqb c "]") && negb (Ascii.eqb c "}")
  end.

(** ** The value a text denotes *)

(** A value with the rest of the text; the elements of an array and the members
    of an object up to its end, [first] where none was read yet.  A call uses one
    unit of fuel. *)
Fixpoint parse_value (fuel : nat) (s : string) : option (any * string) :=
  match fuel with
  | O => None
  | S fuel =>
      match skip_space s with
      | EmptyString => None
      | String c r as s =>
          if Ascii.eqb c "{" then match parse_members fuel true r with Some (m, t) => Some (AnyMap m, t) | None => None end
          else if Ascii.eqb c "[" then
            match parse_elements fuel true r with Some (l, t) => Some (AnyList l, t) | None => None end
          else lex_scalar s
      end
  end
with parse_elements (fuel : nat) (first : bool) (s : string) : option (list any * string) :=
  match fuel with
  | O => None
  | S fuel =>
      let element s :=
        match parse_value fuel s with
        | Some (v, t) => match parse_elements fuel false t with Some (l, t) => Some (v :: l, t) | None => None end
        | None => None
        end in
      match skip_space s with
      | EmptyString => None
      | String c r =>
          if Ascii.eqb c "]" then Some ([], r)
          else if first then element s
          else if Ascii.eqb c "," then element r
          else None
      end
  end
with parse_members (fuel : nat) (first : bool) (s : string) : option (list (string * any) * string) :=
  match fuel with
  | O => None
  | S fuel =>
      let member s :=
        match skip_space s with
        | EmptyString => None
        | String c r =>
            if Ascii.eqb c quote then
              match lex_string r with
              | Some (key, t) =>
                  match skip_space t with
                  | EmptyString => None
                  | String c r =>
                      if Ascii.eqb c ":" then
                        match parse_value fuel r with
                        | Some (v, t) =>
                            match parse_members fuel false t with Some (m, t) => Some ((key, v) :: m, t) | None => None end
                        | None => None
                        end
                      else None
                  end
              | None => None
              end
            else None
        end in
      match skip_space s with
      | EmptyString => None
      | String c r =>
          if Ascii.eqb c "}" then Some ([], r)
          else if first then member s
          else if Ascii.eqb c "," then member r
          else None
      end
  end.

(** A text that holds exactly one value. *)
Definition parse_document (s : string) : option any :=
  match parse_value (S (String.length s)) s with
  | Some (v, t) => match skip_space t with EmptyString => Some v | _ => None end
  | None => None
  end.

(** ** The fuel is enough *)

Lemma skip_space_length s : (String.length (skip_space s) <= String.length s)%nat.
Proof. induction s as [|c s IH]; [done|]. cbn. destruct (json_space c); cbn; lia. Qed.

(** What is left of a text a parser read from its front. *)
Definition shorter {A} (r : option (A * string)) (s : string) : Prop :=
  match r with Some (_, t) => (String.length t < String.length s)%nat | None => True end.

Lemma shorter_cons {A} (r : option (A * string)) c s : shorter r s -> shorter r (String c s).
Proof. destruct r as [[a t]|]; cbn; lia. Qed.

Lemma shorter_map {A B} (f : A -> B) (r : option (A * string)) s :
  shorter r s -> shorter match r with Some (x, t) => Some (f x, t) | None => None end s.
Proof. by destruct r as [[a t]|]. Qed.

Lemma lex_string_shorter s : shorter (lex_string s) s.
Proof.
  induction s as [s IH] using (induction_ltof1 _ String.length). unfold ltof in IH.
  destruct s as [|c s]; [done|]. cbn [lex_string].
  destruct (Ascii.eqb c quote); [cbn; lia|]. destruct (code c <? 32); [done|]. destruct (negb _).
  { apply shorter_cons, shorter_map, IH. cbn; lia. }
  destruct s as [|e s]; [done|]. destruct (Ascii.eqb e "u").
  2: { destruct (escaped e); [|done]. do 2 apply shorter_cons. apply shorter_map, IH. cbn; lia. }
  destruct s as [|h1 [|h2 [|h3 [|h4 s]]]]; try done. destruct (hex4 h1 h2 h3 h4) as [u|]; [|done].
  do 6 apply shorter_cons.
  assert (forall rune, shorter match lex_string s with Some (x, t) => Some (utf8_encode rune x, t) | None => None end s) as HA.
  { intros rune. apply shorter_map, IH. cbn; lia. }
  cbn zeta. destruct (high_surrogate u); [|apply HA].
  destruct s as [|k1 [|k2 [|k3 [|k4 [|k5 [|k6 s]]]]]]; try apply HA.
  destruct (hex4 k3 k4 k5 k6) as [v|]; [|apply HA]. destruct (_ && _); [|apply HA].
  do 6 apply shorter_cons. apply shorter_map, IH. cbn; lia.
Qed.

Lemma span_str_length p s x t : span_str p s = (x, t) -> (String.length x + String.length t = String.length s)%nat.
Proof.
  revert x t. induction s as [|c s IH]; cbn; intros x t H; [by injection H as <- <-|].
  destruct (p c); [|by injection H as <- <-]. destruct (span_str p s) as [a b] eqn:E. injection H as <- <-.
  cbn. by rewrite (IH _ _ eq_refl).
Qed.

Lemma lex_digits_shorter s : shorter (lex_digits s) s.
Proof.
  unfold lex_digits. destruct (span_str is_digit s) as [x t] eqn:E. apply span_str_length in E. destruct x; cbn in *; [done|lia].
Qed.

Lemma lex_integer_shorter s : shorter (lex_integer s) s.
Proof. destruct s as [|c r]; [done|]. unfold lex_integer. destruct (Ascii.eqb c "0"); [cbn; lia|apply lex_digits_shorter]. Qed.

Lemma lex_fraction_length s x t : lex_fraction s = Some (x, t) -> (String.length t <= String.length s)%nat.
Proof.
  destruct s as [|c r]; cbn; [by intros [= <- <-]|]. destruct (Ascii.eqb c "."); [|by intros [= <- <-]].
  pose proof (lex_digits_shorter r) as HD. destruct (lex_digits r) as [[y u]|]; [|done]. intros [= <- <-]. cbn in HD. lia.
Qed.

Lemma lex_exponent_length s x t : lex_exponent s = Some (x, t) -> (String.length t <= String.length s)%nat.
Proof.
  destruct s as [|c r]; cbn; [by intros [= <- <-]|]. destruct (_ || _); [|by intros [= <- <-]]. destruct r as [|g r]; [done|].
  pose proof (lex_digits_shorter r) as HD. pose proof (lex_digits_shorter (String g r)) as HD'.
  destruct (_ || _); [destruct (lex_digits r) as [[y u]|]|destruct (lex_digits (String g r)) as [[y u]|]];
    try done; intros [= <- <-]; cbn in *; lia.
Qed.

Lemma lex_number_shorter s : shorter (lex_number s) s.
Proof.
  unfold lex_number.
  assert (exists sign r, match s with
    | String c r => if Ascii.eqb c "-" then ("-", r) else (EmptyString, s)
    | EmptyString => (EmptyString, s)
    end = (sign, r) /\ (String.length r <= String.length s)%nat) as (sign & r & -> & Hr).
  { destruct s as [|c r]; [by repeat econstructor|]. destruct (Ascii.eqb c "-"); do 2 eexists; split; eauto; cbn; lia. }
  pose proof (lex_integer_shorter r) as HI. destruct (lex_integer r) as [[i s1]|]; [|done].
  destruct (lex_fraction s1) as [[f s2]|] eqn:EF; [|done]. apply lex_fraction_length in EF.
  destruct (lex_exponent s2) as [[e s3]|] eqn:EE; [|done]. apply lex_exponent_length in EE. cbn in *. lia.
Qed.

Lemma lex_literal_shorter text v s : text <> EmptyString -> s <> EmptyString -> shorter (lex_literal text v s) s.
Proof.
  unfold lex_literal. intros Ht Hs. destruct (HasPrefix s text); [|done]. cbn. rewrite drop_str_length.
  destruct text; [done|]. destruct s; [done|]. cbn. lia.
Qed.

Lemma lex_scalar_shorter s : shorter (lex_scalar s) s.
Proof.
  destruct s as [|c r]; [done|]. unfold lex_scalar. destruct (Ascii.eqb c quote).
  { apply shorter_cons, (shorter_map AnyString), lex_string_shorter. }
  do 3 (destruct (Ascii.eqb c _); [by apply lex_literal_shorter|]). destruct (_ || _); [apply lex_number_shorter|done].
Qed.

(** The value of a member, behind its colon. *)
Definition parse_colon_value (n : nat) (t : string) : option (any * string) :=
  match skip_space t with
  | EmptyString => None
  | String c r => if Ascii.eqb c ":" then parse_value n r else None
  end.

(** A key and its value, with the members that follow. *)
Definition parse_member (n : nat) (s : string) : option (list (string * any) * string) :=
  match skip_space s with
  | EmptyString => None
  | String c r =>
      if Ascii.eqb c quote then
        match lex_string r with
        | Some (key, t) =>
            match parse_colon_value n t with
            | Some (v, t) =>
                match parse_members n false t with Some (m, t) => Some ((key, v) :: m, t) | None => None end
            | None => None
            end
        | None => None
        end
      else None
  end.

Lemma parse_members_step n first s :
  parse_members (S n) first s =
  match skip_space s with
  | EmptyString => None
  | String c r =>
      if Ascii.eqb c "}" then Some ([], r)
      else if first then parse_member n s
      else if Ascii.eqb c "," then parse_member n r
      else None
  end.
Proof.
  cbn [parse_members]. destruct (skip_space s) as [|c r] eqn:Es; [done|]. destruct (Ascii.eqb c "}"); [done|].
  assert (forall s, parse_member n s =
    match skip_space s with
    | EmptyString => None
    | String c r =>
        if Ascii.eqb c quote then
          match lex_string r with
          | Some (key, t) =>
              match skip_space t with
              | EmptyString => None
              | String c r =>
                  if Ascii.eqb c ":" then
                    match parse_value n r with
                    | Some (v, t) =>
                        match parse_members n false t with Some (m, t) => Some ((key, v) :: m, t) | None => None end
                    | None => None
                    end
                  else None
              end
          | None => None
          end
        else None
    end) as HM.
  { intros s'. unfold parse_member, parse_colon_value. repeat case_match; simplify_eq; done. }
  rewrite !HM, Es. done.
Qed.

(** A result reached with some fuel is reached with as much fuel as there are
    characters read. *)
Definition fuel_settled {A} (p : nat -> option (A * string)) (n : nat) (s : string) : Prop :=
  forall a t, p n = Some (a, t) ->
  (String.length t < String.length s)%nat /\
  forall m, (String.length s <= m + String.length t)%nat -> p m = Some (a, t).

Definition settled_value (n : nat) : Prop := forall s, fuel_settled (fun n => parse_value n s) n s.
Definition settled_elements (n : nat) : Prop := forall first s, fuel_settled (fun n => parse_elements n first s) n s.
Definition settled_members (n : nat) : Prop := forall first s, fuel_settled (fun n => parse_members n first s) n s.

Ltac spend_fuel m := destruct m as [|m]; [exfalso; cbn in *; lia|].

Lemma settled_value_step n : settled_elements n -> settled_members n -> settled_value (S n).
Proof.
  intros HE HM s a t H. cbn [parse_value] in H. pose proof (skip_space_length s) as HL.
  destruct (skip_space s) as [|c r] eqn:Es; [done|]. cbn in HL.
  destruct (Ascii.eqb c "{") eqn:E1; [|destruct (Ascii.eqb c "[") eqn:E2].
  - destruct (parse_members n true r) as [[m u]|] eqn:E; [|done]. injection H as <- <-.
    destruct (HM true r m u E) as [HL' HF]. split; [lia|]. intros k Hk. spend_fuel k. cbn [parse_value]. rewrite Es, E1, HF by lia. done.
  - destruct (parse_elements n true r) as [[m u]|] eqn:E; [|done]. injection H as <- <-.
    destruct (HE true r m u E) as [HL' HF]. split; [lia|]. intros k Hk. spend_fuel k. cbn [parse_value]. rewrite Es, E1, E2, HF by lia. done.
  - pose proof (lex_scalar_shorter (String c r)) as HS. rewrite H in HS. cbn in HS. split; [lia|].
    intros k Hk. spend_fuel k. cbn [parse_value]. by rewrite Es, E1, E2.
Qed.

Definition parse_element (n : nat) (s : string) : option (list any * string) :=
  match parse_value n s with
  | Some (v, t) => match parse_elements n false t with Some (l, t) => Some (v :: l, t) | None => None end
  | None => None
  end.

(** An element or a member takes at least two characters. *)
Definition settled_next {A} (p : nat -> option (A * string)) (n : nat) (s : string) : Prop :=
  forall a t, p n = Some (a, t) ->
  (String.length t < String.length s)%nat /\
  forall m, (String.length s <= S m + String.length t)%nat -> p m = Some (a, t).

Lemma settled_element n s : settled_value n -> settled_elements n -> settled_next (fun n => parse_element n s) n s.
Proof.
  intros HV HE a t. unfold parse_element. destruct (parse_value n s) as [[v u]|] eqn:EV; [|done].
  destruct (parse_elements n false u) as [[l w]|] eqn:EE; [|done]. intros [= <- <-].
  destruct (HV s v u EV) as [H1 F1], (HE false u l w EE) as [H2 F2]. split; [lia|]. intros m Hm.
  rewrite F1, F2 by lia. done.
Qed.

Lemma settled_member n s : settled_value n -> settled_members n -> settled_next (fun n => parse_member n s) n s.
Proof.
  intros HV HM a t. unfold parse_member, parse_colon_value. pose proof (skip_space_length s) as HL.
  destruct (skip_space s) as [|c r]; [done|]. cbn in HL. destruct (Ascii.eqb c quote); [|done].
  pose proof (lex_string_shorter r) as HS. destruct (lex_string r) as [[key u]|]; [|done]. cbn in HS.
  pose proof (skip_space_length u) as HL2. destruct (skip_space u) as [|c2 r2]; [done|]. cbn in HL2.
  destruct (Ascii.eqb c2 ":"); [|done]. destruct (parse_value n r2) as [[v w]|] eqn:EV; [|done].
  destruct (parse_members n false w) as [[l z]|] eqn:EM; [|done]. intros [= <- <-].
  destruct (HV r2 v w EV) as [H1 F1], (HM false w l z EM) as [H2 F2]. split; [lia|]. intros m Hm.
  rewrite F1, F2 by lia. done.
Qed.

Lemma settled_elements_step n : settled_value n -> settled_elements n -> settled_elements (S n).
Proof.
  intros HV HE first s a t H. pose proof (skip_space_length s) as HL. cbn [parse_elements] in *.
  fold (parse_element n s) in H.
  destruct (skip_space s) as [|c r] eqn:Es; [done|]. cbn in HL. fold (parse_element n r) in H.
  destruct (Ascii.eqb c "]") eqn:E1; [|destruct first; [|destruct (Ascii.eqb c ",") eqn:E2; [|done]]].
  - injection H as <- <-. split; [lia|]. intros k Hk. spend_fuel k. cbn [parse_elements]. by rewrite Es, E1.
  - destruct (settled_element n s HV HE a t H) as [H1 F1]. split; [lia|]. intros k Hk. spend_fuel k. cbn [parse_elements].
    rewrite Es, E1. apply F1. lia.
  - destruct (settled_element n r HV HE a t H) as [H1 F1]. split; [lia|]. intros k Hk. spend_fuel k. cbn [parse_elements].
    rewrite Es, E1, E2. apply F1. lia.
Qed.

Lemma settled_members_step n : settled_value n -> settled_members n -> settled_members (S n).
Proof.
  intros HV HM first s a t H. rewrite parse_members_step in H. pose proof (skip_space_length s) as HL.
  destruct (skip_space s) as [|c r] eqn:Es; [done|]. cbn in HL.
  destruct (Ascii.eqb c "}") eqn:E1; [|destruct first; [|destruct (Ascii.eqb c ",") eqn:E2; [|done]]].
  - injection H as <- <-. split; [lia|]. intros k Hk. spend_fuel k. by rewrite parse_members_step, Es, E1.
  - destruct (settled_member n s HV HM a t H) as [H1 F1]. split; [lia|]. intros k Hk. spend_fuel k.
    rewrite parse_members_step, Es, E1. apply F1. lia.
  - destruct (settled_member n r HV HM a t H) as [H1 F1]. split; [lia|]. intros k Hk. spend_fuel k.
    rewrite parse_members_step, Es, E1, E2. apply F1. lia.
Qed.

Lemma settled_all n : settled_value n /\ settled_elements n /\ settled_members n.
Proof.
  induction n as [|n (HV & HE & HM)]; [split_and!; by repeat intros ?|].
  split_and!; [by apply settled_value_step | by apply settled_elements_step | by apply settled_members_step].
Qed.

(** A text that denotes a value with any fuel does so with one unit for each
    character. *)
Lemma parse_value_fuel n s v t : parse_value n s = Some (v, t) -> parse_value (S (String.length s)) s = Some (v, t).
Proof. intros H. apply (proj1 (settled_all n) s v t H). lia. Qed.

Lemma parse_document_complete n s v t :
  parse_value n s = Some (v, t) -> skip_space t = EmptyString -> parse_document s = Some v.
Proof. intros H Ht. unfold parse_document. by rewrite (parse_value_fuel n s v t H), Ht. Qed.
