(* ===== verification/StrictJson.v ===== *)
(** Strict JSON requests of [internal/httpapi/server.go]: one value, no
    duplicate keys, no unknown fields. *)

From Stdlib Require Import ZArith Lia Ascii.
From stdpp Require Import base strings list.
From S2P Require Import Prelude GoStd GoJson GoNet GoJsonText.
Local Open Scope string_scope.
Local Open Scope Z_scope.

Definition maxRequestBody : Z := 2 ^ 20.

(** ** Unique keys *)

Definition consumeClosingDelimiter (d : Decoder) (expected : ascii) : option Decoder :=
  match Token d with
  | TokenOk (Delim c) d => if Ascii.eqb c expected then Some d else None
  | _ => None
  end.

(** A value, the members of an object and the elements of an array; a call
    uses one unit of fuel. *)
Fixpoint consumeUniqueJSONValue (fuel : nat) (d : Decoder) : option Decoder :=
  match fuel with
  | O => None
  | S fuel =>
      match Token d with
      | TokenOk (Scalar _) d => Some d
      | TokenOk (Delim c) d =>
          if Ascii.eqb c "{" then consume_members fuel [] d
          else if Ascii.eqb c "[" then consume_elements fuel d
          else None
      | _ => None
      end
  end
with consume_members (fuel : nat) (keys : list string) (d : Decoder) : option Decoder :=
  match fuel with
  | O => None
  | S fuel =>
      if More d then
        match Token d with
        | TokenOk (Scalar (AnyString key)) d =>
            if existsb (String.eqb key) keys then None
            else
              match consumeUniqueJSONValue fuel d with
              | Some d => consume_members fuel (key :: keys) d
              | None => None
              end
        | _ => None
        end
      else consumeClosingDelimiter d "}"
  end
with consume_elements (fuel : nat) (d : Decoder) : option Decoder :=
  match fuel with
  | O => None
  | S fuel =>
      if More d then
        match consumeUniqueJSONValue fuel d with
        | Some d => consume_elements fuel d
        | None => None
        end
      else consumeClosingDelimiter d "]"
  end.

Definition validateUniqueJSONKeys (body : string) : bool :=
  match consumeUniqueJSONValue (S (String.length body)) (NewDecoder body) with
  | Some d => match Token d with TokenEOF => true | _ => false end
  | None => false
  end.

(** ** Decoding *)

(** How deep the scanner of [encoding/json] lets values nest. *)
Definition maxNestingDepth : Z := 10000.

Fixpoint nesting (v : any) : nat :=
  match v with
  | AnyList l => S ((fix deepest l := match l with [] => O | v :: l => Nat.max (nesting v) (deepest l) end) l)
  | AnyMap m => S ((fix deepest m := match m with [] => O | (_, v) :: m => Nat.max (nesting v) (deepest m) end) m)
  | _ => O
  end.

(** Field names are compared up to case; the Kelvin sign and the long s fold
    to ASCII letters. *)
Fixpoint fold_name (s : string) : string :=
  match s with
  | String "226" (String "132" (String "170" r)) => String "k" (fold_name r)
  | String "197" (String "191" r) => String "s" (fold_name r)
  | String c r => String (lower_ascii c) (fold_name r)
  | EmptyString => EmptyString
  end.

(** The fields of a target struct, by name, and the members in order: each
    must belong to a field, and the last one of a field wins.  A null leaves
    the field as it was. *)
Definition field_members (name : string) (m : object) : list any :=
  map snd (List.filter (fun p => String.eqb (fold_name (fst p)) name) m).

Definition known_fields (names : list string) (m : object) : bool :=
  forallb (fun p => existsb (String.eqb (fold_name (fst p))) names) m.

Fixpoint text_field (old : string) (values : list any) : option string :=
  match values with
  | [] => Some old
  | AnyString s :: values => text_field s values
  | AnyNil :: values => text_field old values
  | _ => None
  end.

Fixpoint bool_field (old : bool) (values : list any) : option bool :=
  match values with
  | [] => Some old
  | AnyBool b :: values => bool_field b values
  | AnyNil :: values => bool_field old values
  | _ => None
  end.

(** A pointer to a boolean: null resets it. *)
Fixpoint bool_ptr_field (old : option bool) (values : list any) : option (option bool) :=
  match values with
  | [] => Some old
  | AnyBool b :: values => bool_ptr_field (Some b) values
  | AnyNil :: values => bool_ptr_field None values
  | _ => None
  end.

(** The one value of a request body, or [None] for any error before it is
    assigned to the target. *)
Definition strict_value (body : string) : option any :=
  if maxRequestBody <? Z.of_nat (String.length body) then None
  else if negb (utf8_Valid body) then None
  else if negb (validateUniqueJSONKeys body) then None
  else
    match parse_document body with
    | Some v => if maxNestingDepth <? Z.of_nat (nesting v) then None else Some v
    | None => None
    end.

(** The members to assign to a struct with fields [names].  A null body leaves
    every field zero. *)
Definition strict_object (names : list string) (body : string) : option object :=
  match strict_value body with
  | Some (AnyMap m) => if known_fields names m then Some m else None
  | Some AnyNil => Some []
  | _ => None
  end.

(** [DecodeStrict] into a struct of text fields. *)
Fixpoint DecodeStrict_texts (names : list string) (m : object) : option (list string) :=
  match names with
  | [] => Some []
  | name :: names =>
      match text_field EmptyString (field_members name m), DecodeStrict_texts names m with
      | Some v, Some vs => Some (v :: vs)
      | _, _ => None
      end
  end.

Definition DecodeStrict (names : list string) (body : string) : option (list string) :=
  match strict_object names body with
  | Some m => DecodeStrict_texts names m
  | None => None
  end.

(** ** What the token loop accepts *)

(** No object in the value has two members of one name. *)
Fixpoint distinct_keys (v : any) : bool :=
  match v with
  | AnyList l => (fix all l := match l with [] => true | v :: l => distinct_keys v && all l end) l
  | AnyMap m =>
      (fix all keys m :=
         match m with
         | [] => true
         | (k, v) :: m => negb (existsb (String.eqb k) keys) && distinct_keys v && all (k :: keys) m
         end) [] m
  | _ => true
  end.

Fixpoint distinct_members (keys : list string) (m : list (string * any)) : bool :=
  match m with
  | [] => true
  | (k, v) :: m => negb (existsb (String.eqb k) keys) && distinct_keys v && distinct_members (k :: keys) m
  end.

Lemma distinct_keys_map m : distinct_keys (AnyMap m) = distinct_members [] m.
Proof. reflexivity. Qed.

Lemma distinct_keys_list l : distinct_keys (AnyList l) = forallb distinct_keys l.
Proof. reflexivity. Qed.

(** Keys are distinct in the usual sense. *)
Lemma distinct_members_spec keys m :
  distinct_members keys m = true <->
  NoDup (map fst m) /\ Forall (fun k => k ∉ keys) (map fst m) /\ Forall (fun p => distinct_keys p.2 = true) m.
Proof.
  revert keys. induction m as [|[k v] m IH]; intros keys; cbn [distinct_members map fst].
  { split; [|done]. intros _. split_and!; constructor. }
  rewrite !andb_true_iff, IH, NoDup_cons, !Forall_cons, negb_true_iff. cbn [snd].
  assert (existsb (String.eqb k) keys = false <-> k ∉ keys) as ->.
  { rewrite <- not_true_iff_false, existsb_exists. split.
    - intros Hn Hin. apply Hn. exists k. rewrite String.eqb_refl. split; [by apply list_elem_of_In|done].
    - intros Hn (k' & Hin & ->%String.eqb_eq). by apply Hn, list_elem_of_In. }
  assert (Forall (fun k' => k' ∉ (k :: keys)) (map fst m) <-> (k ∉ map fst m) /\ Forall (fun k' => k' ∉ keys) (map fst m)) as ->.
  { rewrite !Forall_forall. split.
    - intros HF. split; [intros Hin; apply (HF _ Hin); by left|]. intros x Hx Hk. apply (HF _ Hx). by right.
    - intros [Hk HF] x Hx [->|Hk']%elem_of_cons; [done|by apply (HF x)]. }
  tauto.
Qed.

Definition accept {A} (ok : A -> bool) (st : tokenState) (stack : list tokenState) (r : option (A * string)) : option Decoder :=
  match r with
  | Some (a, t) => if ok a then Some {| dc_state := st; dc_stack := stack; dc_rest := t |} else None
  | None => None
  end.

(** A value where one may stand. *)
Definition consumes_value (n : nat) : Prop := forall d st stack s,
  tokenValueAllowed st = true -> Token d = token_at {| dc_state := st; dc_stack := stack; dc_rest := s |} ->
  consumeUniqueJSONValue n d = accept distinct_keys (value_end st) stack (parse_value n s).

Definition consumes_elements (n : nat) : Prop := forall (first : bool) st stack s,
  consume_elements n {| dc_state := if first then tokenArrayStart else tokenArrayComma; dc_stack := st :: stack; dc_rest := s |} =
  accept (forallb distinct_keys) (value_end st) stack (parse_elements n first s).

Definition consumes_members (n : nat) : Prop := forall (first : bool) keys st stack s,
  consume_members n keys {| dc_state := if first then tokenObjectStart else tokenObjectComma; dc_stack := st :: stack; dc_rest := s |} =
  accept (distinct_members keys) (value_end st) stack (parse_members n first s).

(** The characters with a meaning of their own start no scalar. *)
Lemma lex_scalar_plain c r : c ∈ ["["; "]"; "{"; "}"; ":"; ","]%char -> lex_scalar (String c r) = None.
Proof. rewrite !elem_of_cons, elem_of_nil. intros [->|[->|[->|[->|[->|[->|[]]]]]]]; reflexivity. Qed.

Lemma lex_scalar_distinct s v t : lex_scalar s = Some (v, t) -> distinct_keys v = true.
Proof.
  unfold lex_scalar, lex_literal, lex_number. destruct s as [|c r]; [done|].
  repeat case_match; intros; by simplify_eq.
Qed.

Ltac char_case c x := destruct (Ascii.eqb_spec c x) as [->|].

Lemma consume_value_step n : consumes_elements n -> consumes_members n -> consumes_value (S n).
Proof.
  intros HE HM d st stack s Hst HT. cbn [consumeUniqueJSONValue parse_value]. rewrite HT. unfold token_at, open_delim.
  cbn [dc_rest dc_state dc_stack]. rewrite Hst. destruct (skip_space s) as [|c r] eqn:Es; [done|].
  char_case c "["%char.
  { cbn. rewrite (HE true). destruct (parse_elements n true r) as [[l t]|]; [|done]. cbn [accept]. by rewrite distinct_keys_list. }
  char_case c "]"%char; [by destruct st; cbn; try destruct stack|].
  char_case c "{"%char.
  { cbn. rewrite (HM true). destruct (parse_members n true r) as [[m t]|]; [|done]. cbn [accept]. by rewrite distinct_keys_map. }
  char_case c "}"%char; [by destruct st; cbn; try destruct stack|]. char_case c ":"%char; [done|]. char_case c ","%char; [done|]. cbn [orb].
  assert (forall v t, lex_scalar (String c r) = Some (v, t) -> distinct_keys v = true) as HS.
  { intros v t. apply lex_scalar_distinct. }
  destruct st; try discriminate Hst; cbn [tokenValueAllowed]; destruct (lex_scalar (String c r)) as [[v t]|] eqn:EL; try done;
    cbn [accept]; by rewrite (HS v t eq_refl).
Qed.

(** Where no value may stand, none is consumed. *)
Lemma consume_refused n d : (forall t d', Token d <> TokenOk t d') -> consumeUniqueJSONValue n d = None.
Proof. destruct n as [|n]; [done|]. cbn. intros HT. destruct (Token d) as [| |t d']; [done..|]. by destruct (HT t d'). Qed.

Lemma token_at_refused st stack s : tokenValueAllowed st = false ->
  st = tokenArrayComma \/ st = tokenObjectColon ->
  match skip_space s with String c _ => c <> "]"%char | EmptyString => True end ->
  forall t d', token_at {| dc_state := st; dc_stack := stack; dc_rest := s |} <> TokenOk t d'.
Proof.
  intros Hst Hor Hc t d'. unfold token_at, open_delim. cbn [dc_rest dc_state]. rewrite Hst.
  destruct (skip_space s) as [|c r]; [done|]. char_case c "["%char; [done|]. char_case c "]"%char; [done|].
  char_case c "{"%char; [done|]. destruct Hor as [->| ->]; cbn; by repeat case_match.
Qed.

Lemma parse_value_close n s c r : skip_space s = String c r -> c = "]"%char \/ c = "}"%char -> parse_value n s = None.
Proof. intros Hs [->| ->]; (destruct n as [|n]; [done|]); cbn; by rewrite Hs. Qed.

Lemma consume_elements_step n : consumes_value n -> consumes_elements n -> consumes_elements (S n).
Proof.
  intros HV HE first st stack s. cbn [consume_elements parse_elements]. unfold More, consumeClosingDelimiter. cbn [dc_rest].
  destruct (skip_space s) as [|c r] eqn:Es.
  { unfold Token. cbn [dc_rest]. by rewrite Es. }
  char_case c "]"%char; cbn [andb negb].
  { unfold Token. cbn [dc_rest]. rewrite Es. destruct first; cbn [dc_state]; unfold token_at; cbn [dc_rest]; rewrite Es; reflexivity. }
  char_case c "}"%char; cbn [andb negb].
  { assert (parse_value n s = None) as HP by (apply (parse_value_close n s _ _ Es); auto).
    unfold Token. cbn [dc_rest]. rewrite Es. destruct first; cbn [dc_state]; unfold token_at; cbn [dc_rest]; rewrite Es; cbn; by rewrite ?HP. }
  set (d := {| dc_state := if first then _ else _ |}).
  assert (forall st' s', Token d = token_at {| dc_state := st'; dc_stack := st :: stack; dc_rest := s' |} ->
    (st' = tokenArrayStart \/ st' = tokenArrayValue) ->
    match consumeUniqueJSONValue n d with Some d => consume_elements n d | None => None end =
    accept (forallb distinct_keys) (value_end st) stack
      match parse_value n s' with
      | Some (v, t) => match parse_elements n false t with Some (l, t) => Some (v :: l, t) | None => None end
      | None => None
      end) as Helem.
  { intros st' s' HT Hst'. rewrite (HV d st' (st :: stack) s'); [|by destruct Hst' as [->| ->]|done].
    destruct (parse_value n s') as [[v t]|]; [|done]. cbn [accept].
    assert (value_end st' = tokenArrayComma) as -> by (by destruct Hst' as [->| ->]).
    pose proof (HE false st stack t) as HE'. cbn in HE'. destruct (distinct_keys v) eqn:Ev.
    - rewrite HE'. destruct (parse_elements n false t) as [[l t']|]; [|done]. cbn. by rewrite Ev.
    - destruct (parse_elements n false t) as [[l t']|]; [|done]. cbn. by rewrite Ev. }
  destruct first.
  - apply (Helem tokenArrayStart); [|by left]. unfold Token. cbn [dc_rest d]. by rewrite Es.
  - char_case c ","%char.
    + apply (Helem tokenArrayValue); [|by right]. unfold Token. cbn [dc_rest d]. rewrite Es. reflexivity.
    + rewrite consume_refused; [done|]. unfold Token. cbn [dc_rest d dc_state]. rewrite Es.
      destruct (Ascii.eqb_spec c ","); [done|]. apply token_at_refused; [done|by left|by rewrite Es].
Qed.

Lemma consume_colon_value n stack t : consumes_value n ->
  consumeUniqueJSONValue n {| dc_state := tokenObjectColon; dc_stack := stack; dc_rest := t |} =
  accept distinct_keys tokenObjectComma stack (parse_colon_value n t).
Proof.
  intros HV. unfold parse_colon_value. destruct (skip_space t) as [|c r] eqn:Et.
  { apply consume_refused. unfold Token. cbn [dc_rest]. by rewrite Et. }
  char_case c ":"%char.
  - apply (HV _ tokenObjectValue stack r); [done|]. unfold Token. cbn [dc_rest dc_state]. by rewrite Et.
  - apply consume_refused. unfold Token. cbn [dc_rest dc_state]. rewrite Et.
    destruct (Ascii.eqb_spec c ":"); [done|]. intros tk d'. unfold token_at, open_delim. cbn [dc_rest dc_state]. rewrite Et.
    cbn [tokenValueAllowed]. by repeat case_match.
Qed.

(** What follows the token of a key. *)
Definition after_key (n : nat) (keys : list string) (r : token_result) : option Decoder :=
  match r with
  | TokenOk (Scalar (AnyString key)) d =>
      if existsb (String.eqb key) keys then None
      else match consumeUniqueJSONValue n d with Some d => consume_members n (key :: keys) d | None => None end
  | _ => None
  end.

(** Where a key may stand, only a string is read. *)
Lemma token_key st stack s : st = tokenObjectStart \/ st = tokenObjectKey ->
  (st = tokenObjectStart -> match skip_space s with String c _ => c <> "}"%char | EmptyString => True end) ->
  forall n keys, after_key n keys (token_at {| dc_state := st; dc_stack := stack; dc_rest := s |}) =
  match skip_space s with
  | EmptyString => None
  | String c r =>
      if Ascii.eqb c quote then
        match lex_string r with
        | Some (key, t) =>
            after_key n keys (TokenOk (Scalar (AnyString key)) {| dc_state := tokenObjectColon; dc_stack := stack; dc_rest := t |})
        | None => None
        end
      else None
  end.
Proof.
  intros Hst Hc n keys. unfold token_at, open_delim. cbn [dc_rest dc_state dc_stack].
  destruct (skip_space s) as [|c r]; [done|].
  assert (tokenValueAllowed st = false) as -> by (by destruct Hst as [->| ->]).
  char_case c "["%char; [done|]. char_case c "]"%char; [by destruct Hst as [->| ->]|].
  char_case c "{"%char; [done|]. char_case c "}"%char; [destruct Hst as [->| ->]; [by destruct (Hc eq_refl)|done]|].
  char_case c ":"%char; [done|]. char_case c ","%char; [done|]. cbn [orb].
  char_case c quote; [|by destruct Hst as [->| ->]]. cbn [lex_scalar]. rewrite Ascii.eqb_refl.
  by destruct Hst as [->| ->]; destruct (lex_string r) as [[key t]|].
Qed.

Lemma consume_member n keys st stack st' s : consumes_value n -> consumes_members n ->
  st' = tokenObjectStart \/ st' = tokenObjectKey ->
  (st' = tokenObjectStart -> match skip_space s with String c _ => c <> "}"%char | EmptyString => True end) ->
  after_key n keys (token_at {| dc_state := st'; dc_stack := st :: stack; dc_rest := s |}) =
  accept (distinct_members keys) (value_end st) stack (parse_member n s).
Proof.
  intros HV HM Hst' Hc. rewrite token_key by done. unfold parse_member. destruct (skip_space s) as [|c r]; [done|].
  destruct (Ascii.eqb c quote); [|done]. destruct (lex_string r) as [[key t]|]; [|done]. cbn [after_key].
  rewrite (consume_colon_value n (st :: stack) t HV).
  destruct (parse_colon_value n t) as [[v t']|]; [|by destruct (existsb _ _)]. cbn [accept].
  pose proof (HM false (key :: keys) st stack t') as HM'. cbn in HM'.
  destruct (existsb (String.eqb key) keys) eqn:Ek.
  { destruct (parse_members n false t') as [[m t'']|]; [|done]. cbn. by rewrite Ek. }
  destruct (distinct_keys v) eqn:Ev.
  - rewrite HM'. destruct (parse_members n false t') as [[m t'']|]; [|done]. cbn. by rewrite Ek, Ev.
  - destruct (parse_members n false t') as [[m t'']|]; [|done]. cbn. by rewrite Ek, Ev.
Qed.

Lemma consume_members_step n : consumes_value n -> consumes_members n -> consumes_members (S n).
Proof.
  intros HV HM first keys st stack s. rewrite parse_members_step. cbn [consume_members]. unfold More, consumeClosingDelimiter.
  set (d := {| dc_state := if first then _ else _ |}). fold (after_key n keys (Token d)).
  unfold Token. subst d. cbn [dc_rest]. destruct (skip_space s) as [|c r] eqn:Es; [done|].
  char_case c "]"%char; cbn [andb negb].
  { destruct first; cbn [dc_state]; unfold token_at; cbn [dc_rest]; rewrite Es; cbn; [|done]. unfold parse_member. by rewrite Es. }
  char_case c "}"%char; cbn [andb negb].
  { destruct first; cbn [dc_state]; unfold token_at; cbn [dc_rest]; rewrite Es; reflexivity. }
  destruct first; cbn [dc_state].
  - apply consume_member; [done|done|by left|]. by rewrite Es.
  - char_case c ","%char; [apply consume_member; [done|done|by right|done]|].
    unfold token_at, open_delim. cbn [dc_rest dc_state tokenValueAllowed]. rewrite Es.
    char_case c "["%char; [done|]. char_case c "]"%char; [done|]. char_case c "{"%char; [done|].
    char_case c "}"%char; [done|]. by destruct (_ || _).
Qed.

Lemma consume_all n : consumes_value n /\ consumes_elements n /\ consumes_members n.
Proof.
  induction n as [|n (HV & HE & HM)]; [split_and!; by repeat intros ?|].
  split_and!; [by apply consume_value_step | by apply consume_elements_step | by apply consume_members_step].
Qed.

(** The text is one value and white space, whatever fuel it takes to read it. *)
Definition denotes (body : string) (v : any) : Prop :=
  exists n t, parse_value n body = Some (v, t) /\ skip_space t = EmptyString.

Lemma denotes_document body v : denotes body v <-> parse_document body = Some v.
Proof.
  split; [intros (n & t & H & Ht); by apply (parse_document_complete n body v t)|]. unfold parse_document.
  destruct (parse_value _ body) as [[v' t]|] eqn:E; [|done]. destruct (skip_space t) eqn:Et; [|done].
  intros [= <-]. by exists (S (String.length body)), t.
Qed.

Lemma Token_end st stack s :
  match Token {| dc_state := st; dc_stack := stack; dc_rest := s |} with TokenEOF => true | _ => false end =
  match skip_space s with EmptyString => true | _ => false end \/ st <> tokenTopValue.
Proof.
  destruct st; try by right. left. unfold Token. cbn [dc_rest dc_state]. destruct (skip_space s) as [|c r] eqn:Es; [done|].
  unfold token_at, open_delim, close_delim. cbn [dc_rest dc_state dc_stack]. rewrite Es. by repeat case_match.
Qed.

Lemma validate_document body :
  validateUniqueJSONKeys body = match parse_document body with Some v => distinct_keys v | None => false end.
Proof.
  unfold validateUniqueJSONKeys, parse_document.
  rewrite (proj1 (consume_all _) (NewDecoder body) tokenTopValue [] body eq_refl).
  2: { unfold NewDecoder, Token, token_at. cbn [dc_rest dc_state]. by destruct (skip_space body). }
  destruct (parse_value _ body) as [[v t]|]; [|done]. cbn [accept value_end].
  destruct (Token_end tokenTopValue [] t) as [HT|]; [|done].
  destruct (distinct_keys v) eqn:Ev; [rewrite HT|]; by destruct (skip_space t).
Qed.

(** C30. The token loop that guards every strict request body accepts exactly the
    texts that denote one JSON value (no trailing content) in which no object, at
    any nesting, has two members of one name; the value is unique, and the fuel of
    the loop never decides the answer.  A body that decodes has no more than
    [maxRequestBody] bytes, is valid UTF-8, and is null or an object whose keys are
    distinct and each name a field. *)
Theorem strict_json_exact (body : string) :
  (validateUniqueJSONKeys body = true <-> exists v, denotes body v /\ distinct_keys v = true) /\
  (forall v w, denotes body v -> denotes body w -> v = w) /\
  (forall m, distinct_keys (AnyMap m) = true <->
     NoDup (map fst m) /\ Forall (fun p => distinct_keys p.2 = true) m) /\
  (forall names m, strict_object names body = Some m ->
     Z.of_nat (String.length body) <= maxRequestBody /\ utf8_Valid body = true /\
     (denotes body (AnyMap m) /\ NoDup (map fst m) \/ denotes body AnyNil /\ m = []) /\
     Forall (fun p => fold_name p.1 ∈ names) m).
Proof.
  assert (forall m, distinct_keys (AnyMap m) = true <->
    NoDup (map fst m) /\ Forall (fun p => distinct_keys p.2 = true) m) as HM.
  { intros m. rewrite distinct_keys_map, distinct_members_spec. split; [tauto|]. intros [H1 H2]. split_and!; [done| |done].
    apply Forall_forall. intros k _. apply not_elem_of_nil. }
  split_and!; [| |exact HM|].
  - rewrite validate_document. setoid_rewrite denotes_document. split.
    + destruct (parse_document body) as [v|]; [|done]. eauto.
    + by intros (v & -> & ?).
  - intros v w. rewrite !denotes_document. congruence.
  - intros names m. unfold strict_object, strict_value. rewrite validate_document. destruct (Z.ltb_spec maxRequestBody (Z.of_nat (String.length body))); [done|].
    destruct (utf8_Valid body); [|done]. cbn [negb]. setoid_rewrite denotes_document.
    destruct (parse_document body) as [v|]; [|done]. destruct (distinct_keys v) eqn:Ev; [|done]. cbn [negb].
    destruct (_ <? _); [done|]. destruct v as [| | | |l|m']; try done.
    + intros [= <-]. split_and!; [done|done|by right|constructor].
    + destruct (known_fields names m') eqn:EK; [|done]. intros [= ->]. split_and!; [done|done|left; split; [done|by apply HM]|].
      apply Forall_forall. intros p Hp. unfold known_fields in EK. rewrite forallb_forall in EK.
      pose proof (EK p (proj1 (list_elem_of_In _ _) Hp)) as HE. apply existsb_exists in HE as (x & Hx & ->%String.eqb_eq).
      by apply list_elem_of_In.
Qed.

(** A text written with apostrophes for quotes. *)
Fixpoint quoted (s : string) : string :=
  match s with
  | String c r => String (if Ascii.eqb c "'" then quote else c) (quoted r)
  | EmptyString => EmptyString
  end.

Lemma strict_json_exact_witness :
  let body := quoted " {'name': 'shop', 'email': 'a@b.c'} " in
  (exists m, strict_object ["name"; "email"] body = Some m /\ NoDup (map fst m) /\ length m = 2%nat) /\
  validateUniqueJSONKeys (quoted "{'a': [{'b': 1, 'b': 2}]}") = false /\
  ~ exists v, denotes (quoted "{'a': [{'b': 1, 'b': 2}]}") v /\ distinct_keys v = true.
Proof.
  cbv zeta. split; [|split; [vm_compute; reflexivity|]].
  - destruct (strict_json_exact (quoted " {'name': 'shop', 'email': 'a@b.c'} ")) as (_ & _ & _ & H).
    eexists. split; [vm_compute; reflexivity|]. split; [|reflexivity].
    destruct (H ["name"; "email"] _ eq_refl) as (_ & _ & [[_ HN]|[_ HN]] & _); [exact HN|discriminate HN].
  - intros HV. apply (strict_json_exact _) in HV. vm_compute in HV. discriminate HV.
Defined.

(** Two members whose names differ in case only are distinct to the token loop
    and one field to the decoder: the last one wins. *)
Lemma case_variant_accepted :
  DecodeStrict ["name"] (quoted "{'name': 'a', 'NAME': 'b'}") = Some ["b"] /\
  DecodeStrict ["name"] (quoted "{'name': 'a', 'name': 'b'}") = None.
Proof. vm_compute. split; reflexivity. Qed.
