(* ===== verification/ClientAddress.v ===== *)
(** Whose request it is: the key under which [internal/httpapi/server.go]
    counts the requests of a client, behind trusted reverse proxies or not. *)

From Stdlib Require Import ZArith Lia Ascii String.
From stdpp Require Import base strings list.
From S2P Require Import Prelude GoStd GoJson GoNet.
Local Open Scope string_scope.
Local Open Scope Z_scope.

(** The parts of an [http.Request] the limiter reads. *)
Record origin := {
  og_RemoteAddr : string;
  og_ForwardedFor : list string;
}.

(** IPv6 clients are grouped by /64. *)
Definition bucketKey (address : Addr) : string :=
  let address := without_zone (Unmap address) in
  if Is6 address then prefix_String (Masked {| pfx_addr := address; pfx_bits := 64 |}) else addr_String address.

(** Every X-Forwarded-For entry, the rightmost first. *)
Definition forwardedFor (r : origin) : list string :=
  reverse (concat (map (fun header => map TrimSpace (Split "," header)) (og_ForwardedFor r))).

Definition isTrusted (trusted : list Prefix) (address : Addr) : bool :=
  let candidate := Unmap address in existsb (fun prefix => prefix_Contains prefix candidate) trusted.

(** The first entry that is not a trusted proxy. *)
Fixpoint first_untrusted (trusted : list Prefix) (entries : list string) : option Addr :=
  match entries with
  | [] => None
  | entry :: entries =>
      match ParseAddr entry with
      | None => None
      | Some address => if isTrusted trusted address then first_untrusted trusted entries else Some address
      end
  end.

(** The host of the direct peer. *)
Definition peer_host (remote : string) : string :=
  match SplitHostPort remote with Some (host, _) => host | None => remote end.

Definition clientAddress (trusted : list Prefix) (r : origin) : string :=
  let peer := peer_host (og_RemoteAddr r) in
  match ParseAddr (TrimSpace peer) with
  | None => peer
  | Some peerAddress =>
      if negb (isTrusted trusted peerAddress) then bucketKey peerAddress
      else bucketKey (default peerAddress (first_untrusted trusted (forwardedFor r)))
  end.


(** ** Forged headers *)

(** A proxy appends what it observed to the header it received. *)
Fixpoint proxy_append (values : list string) (entry : string) : list string :=
  match values with
  | [] => [entry]
  | [value] => [value +:+ ", " +:+ entry]
  | value :: values => value :: proxy_append values entry
  end.

(** The text of an entry names an address. *)
Definition names (entry : string) (address : Addr) : Prop :=
  has_char "," entry = false /\ ParseAddr (TrimSpace entry) = Some address.

Lemma TrimSpace_space s : TrimSpace (String " " s) = TrimSpace s.
Proof. reflexivity. Qed.

Lemma forwardedFor_append remote values entry :
  has_char "," entry = false ->
  forwardedFor {| og_RemoteAddr := remote; og_ForwardedFor := proxy_append values entry |} =
  TrimSpace entry :: forwardedFor {| og_RemoteAddr := remote; og_ForwardedFor := values |}.
Proof.
  intros He. unfold forwardedFor. cbn [og_ForwardedFor]. rewrite <- reverse_snoc. f_equal.
  induction values as [|v values IH]; [by cbn; rewrite Split_one|].
  destruct values as [|v' values]; cbn [proxy_append map concat].
  - change (", " +:+ entry) with (String "," (String " " entry)). rewrite Split_app.
    rewrite (Split_one "," (String " " entry)); [|by unfold has_char in *; cbn; destruct (cut_first "," entry) as [[]|]].
    by rewrite map_app, !app_nil_r.
  - cbn [proxy_append map concat] in IH. by rewrite IH, !app_assoc.
Qed.

Lemma first_untrusted_hops trusted remote forged client entry hops :
  names entry client -> isTrusted trusted client = false ->
  Forall (fun hop => exists a, names hop a /\ isTrusted trusted a = true) hops ->
  first_untrusted trusted (forwardedFor {| og_RemoteAddr := remote;
    og_ForwardedFor := fold_left proxy_append (entry :: hops) forged |}) = Some client.
Proof.
  intros [Hc Hp] Hu Hh. induction hops as [|hop hops IH] using rev_ind; cbn [fold_left].
  - rewrite forwardedFor_append by done. cbn. by rewrite Hp, Hu.
  - apply Forall_app in Hh as [Hh [(a & [Hc' Hp'] & Ha) _]%Forall_cons]. rewrite fold_left_app. cbn [fold_left].
    rewrite forwardedFor_append by done. cbn. rewrite Hp', Ha. by apply IH.
Qed.

(** ** Distinct subscribers *)

Definition addr_ok (a : Addr) : Prop :=
  match a with Addr4 n => 0 <= n < 2 ^ 32 | Addr6 n _ => 0 <= n < 2 ^ 128 end.

(** The same IPv4 address, or IPv6 addresses of one /64. *)
Definition same_subscriber (a b : Addr) : Prop :=
  match Unmap a, Unmap b with
  | Addr4 m, Addr4 n => m = n
  | Addr6 m _, Addr6 n _ => m / 2 ^ 64 = n / 2 ^ 64
  | _, _ => False
  end.

(** *** IPv4 *)

Definition octets (n : Z) : list Z := [n / 2 ^ 24 mod 256; n / 2 ^ 16 mod 256; n / 2 ^ 8 mod 256; n mod 256].

Lemma string4_concat n : string4 n = String.concat "." (map FormatInt (octets n)).
Proof. reflexivity. Qed.

Lemma octets_digits n c : is_digit c = false -> Forall (fun s => has_char c s = false) (map FormatInt (octets n)).
Proof.
  intros Hc. apply Forall_forall. intros s (x & -> & Hx)%list_elem_of_fmap.
  apply (all_chars_not_char is_digit); [done|]. apply digits_FormatInt.
  unfold octets in Hx. rewrite !elem_of_cons in Hx.
  destruct Hx as [->|[->|[->|[->|Hx]]]]; [apply Z.mod_pos_bound; lia..|]. by apply elem_of_nil in Hx.
Qed.

Lemma string4_inj m n : 0 <= m < 2 ^ 32 -> 0 <= n < 2 ^ 32 -> string4 m = string4 n -> m = n.
Proof.
  intros Hm Hn E. rewrite !string4_concat in E. apply (f_equal (Split ".")) in E.
  rewrite !Split_concat in E by (done || by apply octets_digits). unfold octets in E. cbn [map] in E.
  injection E as E1%FormatInt_inj E2%FormatInt_inj E3%FormatInt_inj E4%FormatInt_inj.
  Z.to_euclidean_division_equations. lia.
Qed.

(** *** IPv6 *)

Definition upper_groups (h : Z) : list Z := [h / 2 ^ 48 mod 2 ^ 16; h / 2 ^ 32 mod 2 ^ 16; h / 2 ^ 16 mod 2 ^ 16; h mod 2 ^ 16].

Lemma groups_of_list x :
  groups_of x = [x / 2 ^ 112 mod 2 ^ 16; x / 2 ^ 96 mod 2 ^ 16; x / 2 ^ 80 mod 2 ^ 16; x / 2 ^ 64 mod 2 ^ 16;
    x / 2 ^ 48 mod 2 ^ 16; x / 2 ^ 32 mod 2 ^ 16; x / 2 ^ 16 mod 2 ^ 16; x / 2 ^ 0 mod 2 ^ 16].
Proof. reflexivity. Qed.

Lemma shift_div h k j m : 0 <= k -> 0 <= j -> m = k + j -> h * 2 ^ m / 2 ^ k = h * 2 ^ j.
Proof. intros Hk Hj ->. rewrite Z.pow_add_r, (Z.mul_comm (2 ^ k)), Z.mul_assoc by done. apply Z.div_mul. lia. Qed.

Lemma shift_div_more h k j m : 0 <= k -> 0 <= j -> m = j + k -> h * 2 ^ k / 2 ^ m = h / 2 ^ j.
Proof. intros Hk Hj ->. rewrite Z.pow_add_r by done. apply Z.div_mul_cancel_r; lia. Qed.

Lemma low_group h j : 16 <= j -> h * 2 ^ j mod 2 ^ 16 = 0.
Proof.
  intros Hj. replace j with (j - 16 + 16) by lia. rewrite Z.pow_add_r, Z.mul_assoc by lia. apply Z.mod_mul. lia.
Qed.

Lemma groups_of_upper h : groups_of (h * 2 ^ 64) = (upper_groups h ++ [0; 0; 0; 0])%list.
Proof.
  rewrite groups_of_list. unfold upper_groups. cbn [app].
  rewrite (shift_div_more h 64 48 112), (shift_div_more h 64 32 96), (shift_div_more h 64 16 80),
    (shift_div_more h 64 0 64), (shift_div h 48 16 64), (shift_div h 32 32 64), (shift_div h 16 48 64),
    (shift_div h 0 64 64), !low_group, Z.div_1_r by lia.
  reflexivity.
Qed.

Lemma upper_groups_inj h k : 0 <= h < 2 ^ 64 -> 0 <= k < 2 ^ 64 -> upper_groups h = upper_groups k -> h = k.
Proof. unfold upper_groups. intros Hh Hk [= E1 E2 E3 E4]. Z.to_euclidean_division_equations. lia. Qed.

(** The trailing zeros are the run that is left out. *)
Lemma string6_upper h : exists core,
  string6 (h * 2 ^ 64) = joined core +:+ "::" /\ upper_groups h = (core ++ replicate (4 - length core) 0)%list.
Proof.
  unfold string6. rewrite groups_of_upper. unfold upper_groups.
  generalize (h / 2 ^ 48 mod 2 ^ 16) (h / 2 ^ 32 mod 2 ^ 16) (h / 2 ^ 16 mod 2 ^ 16) (h mod 2 ^ 16). intros a b c d.
  cbn [app longest_zeros zeros].
  destruct (Z.eqb_spec d 0) as [->|]; [destruct (Z.eqb_spec c 0) as [->|];
    [destruct (Z.eqb_spec b 0) as [->|]; [destruct (Z.eqb_spec a 0) as [->|]|]|]|].
  - exists []. split; reflexivity.
  - exists [a]. split; reflexivity.
  - exists [a; b]. destruct (a =? 0); split; reflexivity.
  - exists [a; b; c]. destruct (a =? 0), (b =? 0); split; reflexivity.
  - exists [a; b; c; d]. destruct (a =? 0), (b =? 0), (c =? 0); split; reflexivity.
Qed.

Lemma joined_inj k l : Forall (fun g => 0 <= g < 2 ^ 16) k -> Forall (fun g => 0 <= g < 2 ^ 16) l ->
  joined k = joined l -> k = l.
Proof.
  assert (forall g, 0 <= g < 2 ^ 16 -> ParseUint16 (FormatUint16 g) = Some g) as HP.
  { intros g Hg. apply ParseUint16_print. unfold is_u64, two64. apply andb_true_iff. split; [apply Z.leb_le|apply Z.ltb_lt]; lia. }
  assert (forall l, l <> [] -> Split ":" (joined l) = map FormatUint16 l) as HS.
  { intros x Hx. apply Split_concat; [by destruct x|]. apply Forall_forall. intros s (g & -> & _)%list_elem_of_fmap.
    apply (all_chars_not_char is_hex); [done|]. by apply hex_print_hex. }
  assert (forall l, l <> [] -> joined l <> EmptyString) as HN.
  { intros x Hx E. specialize (HS x Hx). rewrite E in HS. destruct x as [|g [|? ?]]; [done| |done]. cbn [Split map] in HS.
    assert (FormatUint16 g = EmptyString) as Hg by congruence. by apply hex_print_nonempty in Hg; [|lia]. }
  intros Hk Hl E. destruct (decide (k = [])) as [->|Hk0], (decide (l = [])) as [->|Hl0]; [done|destruct (HN l Hl0 (eq_sym E))|destruct (HN k Hk0 E)|].
  apply (f_equal (Split ":")) in E. rewrite !HS in E by done.
  revert l Hl Hl0 E. clear HS HN Hk0. induction Hk as [|x k Hx Hk IH]; intros [|y l] Hl Hl0 E; try done.
  injection E as E1 E2. apply Forall_cons in Hl as [Hy Hl]. apply (f_equal ParseUint16) in E1. rewrite !HP in E1 by done.
  injection E1 as ->. f_equal. destruct l as [|z l]; [by destruct k|]. by apply IH.
Qed.

Lemma upper_groups_range h : Forall (fun g => 0 <= g < 2 ^ 16) (upper_groups h).
Proof. repeat constructor; apply Z.mod_pos_bound; lia. Qed.

Lemma string6_inj h k : 0 <= h < 2 ^ 64 -> 0 <= k < 2 ^ 64 -> string6 (h * 2 ^ 64) = string6 (k * 2 ^ 64) -> h = k.
Proof.
  intros Hh Hk E. destruct (string6_upper h) as (x & Ex & Hx), (string6_upper k) as (y & Ey & Hy).
  rewrite Ex, Ey in E. apply str_app_inv_tail in E. apply upper_groups_inj; [done..|]. rewrite Hx, Hy.
  pose proof (upper_groups_range h) as Rx. pose proof (upper_groups_range k) as Ry. rewrite Hx in Rx. rewrite Hy in Ry.
  apply Forall_app in Rx as [Rx _], Ry as [Ry _]. by rewrite (joined_inj x y Rx Ry E).
Qed.

Lemma bucketKey6 n zone : 0 <= n < 2 ^ 128 -> (n / 2 ^ 32 =? 65535) = false ->
  bucketKey (Addr6 n zone) = string6 (n / 2 ^ 64 * 2 ^ 64) +:+ "/64".
Proof.
  intros Hn Hm. unfold bucketKey. cbn [Unmap]. rewrite Hm. cbn [without_zone Is6]. unfold prefix_String, Masked, mask_number.
  cbn [pfx_addr pfx_bits addr_String]. rewrite Z.shiftr_div_pow2, Z.shiftl_mul_pow2 by lia. change (128 - 64) with 64.
  assert ((n / 2 ^ 64 * 2 ^ 64 / 2 ^ 32 =? 65535) = false) as ->.
  { apply Z.eqb_neq. rewrite (shift_div (n / 2 ^ 64) 32 32 64) by lia. intros E.
    apply (f_equal (fun z => z mod 2 ^ 32)) in E. rewrite Z.mod_mul in E by lia. discriminate E. }
  by rewrite str_app_nil_r.
Qed.

Lemma bucketKey4 n : bucketKey (Addr4 n) = string4 n.
Proof. reflexivity. Qed.

(** A key is that of the unmapped address, of either family. *)
Lemma bucketKey_cases a : addr_ok a ->
  (exists n, Unmap a = Addr4 n /\ 0 <= n < 2 ^ 32 /\ bucketKey a = string4 n) \/
  (exists n zone, Unmap a = Addr6 n zone /\ 0 <= n < 2 ^ 128 /\
     bucketKey a = string6 (n / 2 ^ 64 * 2 ^ 64) +:+ "/64").
Proof.
  destruct a as [n|n zone]; cbn [addr_ok]; intros Ha; [left; by exists n|]. cbn [Unmap].
  destruct (n / 2 ^ 32 =? 65535) eqn:E; [left|right].
  - exists (n mod 2 ^ 32). split; [done|]. split; [apply Z.mod_pos_bound; lia|].
    unfold bucketKey. cbn [Unmap]. by rewrite E.
  - exists n, zone. split; [done|]. split; [done|]. by apply bucketKey6.
Qed.

Lemma families_differ m n : string4 m <> string6 n +:+ "/64".
Proof.
  intros E. assert (has_char "/" (string4 m) = false) as H4.
  { rewrite string4_concat. pose proof (octets_digits m "/" eq_refl) as HF. unfold octets in HF. cbn [map] in HF.
    rewrite !Forall_cons in HF. destruct HF as (H1 & H2 & H3 & H5 & _).
    assert (forall a b, has_char "/" a = false -> has_char "/" b = false -> has_char "/" (a +:+ String "." b) = false) as HA.
    { intros a b Ha Hb. apply (all_chars_not_char (fun c => negb (Ascii.eqb c "/"))); [done|].
      assert (forall s, has_char "/" s = false -> all_chars (fun c => negb (Ascii.eqb c "/")) s = true) as HC.
      { clear. intros s. unfold has_char. induction s as [|x s IH]; [done|]. cbn. destruct (Ascii.eqb x "/"); [done|].
        destruct (cut_first "/" s) as [[]|]; [done|]. intros _. by rewrite IH. }
      rewrite all_chars_app. cbn. by rewrite !HC. }
    unfold octets. cbn [map String.concat]. change ("." +:+ ?x) with (String "." x). by repeat apply HA. }
  rewrite E in H4. unfold has_char in H4. clear E. induction (string6 n) as [|x s IH]; [done|]. cbn in H4.
  destruct (Ascii.eqb x "/"); [done|]. by destruct (cut_first "/" (s +:+ "/64")) as [[]|]; [|apply IH].
Qed.

Lemma bucketKey_same a b : addr_ok a -> addr_ok b -> (bucketKey a = bucketKey b <-> same_subscriber a b).
Proof.
  intros Ha Hb. unfold same_subscriber.
  destruct (bucketKey_cases a Ha) as [(m & -> & Hm & ->)|(m & zm & -> & Hm & ->)],
    (bucketKey_cases b Hb) as [(n & -> & Hn & ->)|(n & zn & -> & Hn & ->)].
  - split; [by apply string4_inj|by intros ->].
  - split; [intros E; by apply families_differ in E|done].
  - split; [intros E; by symmetry in E; apply families_differ in E|done].
  - split; [|by intros ->]. intros E%str_app_inv_tail. apply string6_inj; [..|done];
      (split; [apply Z.div_pos; lia|apply Z.div_lt_upper_bound; lia]).
Qed.

(** C31. The key a request is counted under is the client's own.  The header of
    an untrusted peer is ignored.  Behind trusted proxies, whatever header the
    client sent, the key is that of the address the outermost proxy observed.
    And two addresses have one key exactly when they are the same IPv4 address
    or lie in one IPv6 /64. *)
Theorem client_key_sound trusted remote peer forged entry client hops :
  ParseAddr (TrimSpace (peer_host remote)) = Some peer ->
  (isTrusted trusted peer = false ->
   clientAddress trusted {| og_RemoteAddr := remote; og_ForwardedFor := forged |} = bucketKey peer) /\
  (isTrusted trusted peer = true -> names entry client -> isTrusted trusted client = false ->
   Forall (fun hop => exists a, names hop a /\ isTrusted trusted a = true) hops ->
   clientAddress trusted {| og_RemoteAddr := remote; og_ForwardedFor := fold_left proxy_append (entry :: hops) forged |} =
   bucketKey client) /\
  (forall a b, addr_ok a -> addr_ok b -> (bucketKey a = bucketKey b <-> same_subscriber a b)).
Proof.
  intros Hp. unfold clientAddress. cbn [og_RemoteAddr]. rewrite Hp. split_and!.
  - by intros ->.
  - intros -> He Hu Hh. cbn [negb]. by rewrite (first_untrusted_hops trusted remote forged client).
  - apply bucketKey_same.
Qed.

(** Trusted proxies 10.0.0.0/8; the client at 192.0.2.7 sends a header that
    names another client, and its request passes two proxies. *)
Definition demo_proxies : list Prefix := [{| pfx_addr := Addr4 (10 * 2 ^ 24); pfx_bits := 8 |}].

Definition demo_forwarded : origin :=
  {| og_RemoteAddr := "10.0.0.1:4711";
     og_ForwardedFor := fold_left proxy_append ["192.0.2.7"; "10.1.1.1"] ["198.51.100.1"] |}.

Lemma demo_hops : Forall (fun hop => exists a, names hop a /\ isTrusted demo_proxies a = true) ["10.1.1.1"].
Proof. constructor; [|constructor]. exists (Addr4 167837953). split; [split|]; vm_compute; reflexivity. Qed.

Lemma client_key_sound_witness :
  clientAddress demo_proxies demo_forwarded = bucketKey (Addr4 3221225991) /\ bucketKey (Addr4 3221225991) = "192.0.2.7".
Proof.
  assert (ParseAddr (TrimSpace (peer_host "10.0.0.1:4711")) = Some (Addr4 167772161)) as Hp by (vm_compute; reflexivity).
  assert (isTrusted demo_proxies (Addr4 167772161) = true) as Ht by (vm_compute; reflexivity).
  assert (names "192.0.2.7" (Addr4 3221225991)) as Hn by (split; vm_compute; reflexivity).
  assert (isTrusted demo_proxies (Addr4 3221225991) = false) as Hu by (vm_compute; reflexivity).
  destruct (client_key_sound demo_proxies "10.0.0.1:4711" (Addr4 167772161) ["198.51.100.1"] "192.0.2.7" (Addr4 3221225991)
    ["10.1.1.1"] Hp) as (_ & HC & _).
  split; [exact (HC Ht Hn Hu demo_hops) | vm_compute; reflexivity].
Defined.

(** A proxy configured by an IPv4-mapped address is never recognised: the
    address of the peer is unmapped before it is compared. *)
Lemma mapped_proxy_ignored n : 0 <= n < 2 ^ 32 ->
  isTrusted [PrefixFrom (Addr6 (65535 * 2 ^ 32 + n) EmptyString) 128] (Addr6 (65535 * 2 ^ 32 + n) EmptyString) = false /\
  isTrusted [PrefixFrom (Addr6 (65535 * 2 ^ 32 + n) EmptyString) 128] (Addr4 n) = false.
Proof.
  intros Hn. unfold isTrusted. cbn [Unmap].
  assert (((65535 * 2 ^ 32 + n) / 2 ^ 32 =? 65535) = true) as ->; [|done].
  apply Z.eqb_eq. Z.to_euclidean_division_equations. lia.
Qed.
