(* ===== verification/RateLimit.v ===== *)
(** The per-client request limiter of [internal/httpapi/server.go]: fixed
    windows of a minute, keyed by the address a request comes from.

    Clock readings count nanoseconds.  The order in which Go iterates over the
    map of clients comes with the call. *)

From Stdlib Require Import ZArith Lia Ascii.
From stdpp Require Import base gmap strings list fin_maps.
From S2P Require Import Prelude GoStd GoJson GoNet GoDuration ClientAddress.

Local Open Scope string_scope.
Local Open Scope Z_scope.

(** ** Windows *)

Record rateWindow := { rw_started : Z; rw_count : Z }.

Record rateLimiter := {
  rl_limit : Z;
  rl_trusted : list Prefix;
  rl_clients : gmap string rateWindow;
  rl_lastSweep : option Z;
}.

Definition maxTrackedClients : Z := 100000.
Definition evictionSample : Z := 8.

Definition newRateLimiter (limit : Z) (trusted : list Prefix) : rateLimiter :=
  {| rl_limit := limit; rl_trusted := trusted; rl_clients := ∅; rl_lastSweep := None |}.

Definition expired (now : Z) (w : rateWindow) : bool := Minute <=? now - rw_started w.

(** The key that eviction deletes: the first expired window met, or else the
    oldest of the sample.  The empty key stands for none yet. *)
Fixpoint evict_scan (now : Z) (order : list (string * rateWindow)) (oldestKey : string) (oldestStart sampled : Z) :
    option string :=
  let chosen k := if String.eqb k EmptyString then None else Some k in
  match order with
  | [] => chosen oldestKey
  | (key, window) :: order =>
      if expired now window then Some key
      else
        let '(oldestKey, oldestStart) :=
          if String.eqb oldestKey EmptyString || (rw_started window <? oldestStart) then (key, rw_started window)
          else (oldestKey, oldestStart) in
        if evictionSample <=? sampled + 1 then chosen oldestKey
        else evict_scan now order oldestKey oldestStart (sampled + 1)
  end.

Definition evictLocked (now : Z) (order : list (string * rateWindow)) (clients : gmap string rateWindow) :
    gmap string rateWindow :=
  match evict_scan now order EmptyString 0 0 with
  | Some key => delete key clients
  | None => clients
  end.

(** The sweep of expired windows, at most once a minute. *)
Definition sweep_due (now : Z) (l : rateLimiter) : bool :=
  match rl_lastSweep l with None => true | Some t => Minute <=? now - t end.

Definition swept (now : Z) (l : rateLimiter) : gmap string rateWindow :=
  if sweep_due now l then filter (fun p => expired now p.2 = false) (rl_clients l) else rl_clients l.

(** One request of [host] at [now]: the limiter after it, and whether it is
    let through. *)
Definition admit_request (order : list (string * rateWindow)) (host : string) (now : Z) (l : rateLimiter) :
    rateLimiter * bool :=
  let clients := swept now l in
  let lastSweep := if sweep_due now l then Some now else rl_lastSweep l in
  let window := clients !! host in
  let clients :=
    match window with
    | None => if maxTrackedClients <=? Z.of_nat (size clients) then evictLocked now order clients else clients
    | Some _ => clients
    end in
  let window :=
    match window with
    | Some w => if expired now w then {| rw_started := now; rw_count := 0 |} else w
    | None => {| rw_started := now; rw_count := 0 |}
    end in
  let window := {| rw_started := rw_started window; rw_count := wrap_int64 (rw_count window + 1) |} in
  ({| rl_limit := rl_limit l; rl_trusted := rl_trusted l; rl_clients := <[host := window]> clients;
      rl_lastSweep := lastSweep |},
   rw_count window <=? rl_limit l).

(** The middleware: whether the request goes on to the next handler. *)
Definition rate_middleware (order : list (string * rateWindow)) (path : string) (r : origin) (now : Z)
    (l : rateLimiter) : rateLimiter * bool :=
  if (rl_limit l <=? 0) || String.eqb path "/health/live" || String.eqb path "/health/ready" then (l, true)
  else admit_request order (clientAddress (rl_trusted l) r) now l.

(** ** Runs *)

Record arrival := { ar_host : string; ar_now : Z; ar_served : bool }.

(** The requests so far, the latest first, in the order in which they took the
    lock, and the limiter after them.  Eviction sees the map in some order.  The
    clock is read just before the lock is taken; that the readings come in the
    order of the lock is assumed. *)
Inductive limiter_run (limit : Z) (trusted : list Prefix) : list arrival -> rateLimiter -> Prop :=
  | run_new : limiter_run limit trusted [] (newRateLimiter limit trusted)
  | run_request past l order host now l' served :
      limiter_run limit trusted past l -> Forall (fun r => ar_now r <= now) past ->
      order ≡ₚ map_to_list (swept now l) -> admit_request order host now l = (l', served) ->
      limiter_run limit trusted ({| ar_host := host; ar_now := now; ar_served := served |} :: past) l'.

(** The requests of [host] not before [from]. *)
Definition sent_since (host : string) (from : Z) (r : arrival) : Prop := ar_host r = host /\ from <= ar_now r.

(** Those of them served within the minute from [from]. *)
Definition served_minute (host : string) (from : Z) (r : arrival) : Prop :=
  sent_since host from r /\ ar_now r < from + Minute /\ ar_served r = true.

#[export] Instance sent_since_dec host from r : Decision (sent_since host from r).
Proof. unfold sent_since. apply _. Defined.

#[export] Instance served_minute_dec host from r : Decision (served_minute host from r).
Proof. unfold served_minute. apply _. Defined.

Definition count_if (P : arrival -> Prop) `{!forall r, Decision (P r)} (past : list arrival) : Z :=
  Z.of_nat (length (filter P past)).

(** Short enough for the 64-bit counters. *)
Definition countable (past : list arrival) : Prop := Z.of_nat (length past) < 2 ^ 63.

Lemma count_if_cons (P : arrival -> Prop) `{!forall r, Decision (P r)} r past :
  count_if P (r :: past) = (if decide (P r) then 1 else 0) + count_if P past.
Proof. unfold count_if. rewrite filter_cons. destruct (decide (P r)); simpl; lia. Qed.

Lemma count_if_bound (P : arrival -> Prop) `{!forall r, Decision (P r)} past : 0 <= count_if P past <= Z.of_nat (length past).
Proof. unfold count_if. pose proof (length_filter P past). lia. Qed.

Lemma count_if_mono (P Q : arrival -> Prop) `{!forall r, Decision (P r)} `{!forall r, Decision (Q r)} past :
  (forall r, P r -> Q r) -> count_if P past <= count_if Q past.
Proof.
  intros HPQ. induction past as [|r past IH]; [done|]. rewrite !count_if_cons.
  destruct (decide (P r)) as [p|]; [rewrite decide_True by auto; lia|]. destruct (decide (Q r)); lia.
Qed.

Lemma wrap_small n : 0 <= n < 2 ^ 63 -> wrap_int64 n = n.
Proof. intros ?. unfold wrap_int64. rewrite Z.mod_small; lia. Qed.

Lemma swept_subseteq now l : swept now l ⊆ rl_clients l.
Proof. unfold swept. destruct (sweep_due now l); [apply map_filter_subseteq | done]. Qed.

Lemma evictLocked_subseteq now order clients : evictLocked now order clients ⊆ clients.
Proof. unfold evictLocked. destruct (evict_scan _ _ _ _ _); [apply delete_subseteq | done]. Qed.

(** A request continues the client's window, or opens one after room was made
    for it. *)
Lemma admit_cases order host now l l' served :
  admit_request order host now l = (l', served) ->
  let cl := swept now l in
  rl_limit l' = rl_limit l /\
  ((exists w, cl !! host = Some w /\ expired now w = false /\ served = (wrap_int64 (rw_count w + 1) <=? rl_limit l) /\
      rl_clients l' = <[host := {| rw_started := rw_started w; rw_count := wrap_int64 (rw_count w + 1) |}]> cl) \/
   (exists cl', served = (1 <=? rl_limit l) /\ rl_clients l' = <[host := {| rw_started := now; rw_count := 1 |}]> cl' /\
      ((exists w, cl !! host = Some w /\ expired now w = true /\ cl' = cl) \/
       (cl !! host = None /\
        cl' = if maxTrackedClients <=? Z.of_nat (size cl) then evictLocked now order cl else cl)))).
Proof.
  unfold admit_request. intros [= <- <-]. cbn [rl_limit rl_clients]. split; [done|].
  destruct (swept now l !! host) as [w|] eqn:E.
  - destruct (expired now w) eqn:Ex; [right | left].
    + exists (swept now l). split; [done|]. split; [done|]. left. by exists w.
    + by exists w.
  - right. eexists. split; [done|]. split; [done|]. by right.
Qed.

Section Runs.
  Context (limit : Z) (trusted : list Prefix).

(** ** Refusals are earned *)

Definition window_earned (past : list arrival) (host : string) (w : rateWindow) : Prop :=
  0 <= rw_count w <= count_if (sent_since host (rw_started w)) past /\ rw_started w ∈ map ar_now past.

Lemma earned_cons r past host w : window_earned past host w -> window_earned (r :: past) host w.
Proof.
  unfold window_earned. rewrite count_if_cons. cbn [map]. intros [? ?].
  split; [destruct (decide _); lia | by right].
Qed.

Lemma run_limit past l : limiter_run limit trusted past l -> rl_limit l = limit.
Proof. induction 1 as [|past l order host now l' ok R IH _ _ E]; [done|]. by apply admit_cases in E as [-> _]. Qed.

Lemma countable_cons r past : countable (r :: past) -> countable past.
Proof. unfold countable. cbn. lia. Qed.

(** One more request of a live window. *)
Lemma earned_more past host now served w :
  countable ({| ar_host := host; ar_now := now; ar_served := served |} :: past) -> Forall (fun r => ar_now r <= now) past ->
  window_earned past host w ->
  wrap_int64 (rw_count w + 1) = rw_count w + 1 /\
  window_earned ({| ar_host := host; ar_now := now; ar_served := served |} :: past) host
    {| rw_started := rw_started w; rw_count := rw_count w + 1 |}.
Proof.
  unfold countable, window_earned. cbn [length rw_count rw_started map]. intros Hc Hnow [Hw Hin].
  pose proof (count_if_bound (sent_since host (rw_started w)) past). rewrite wrap_small by lia. split; [done|].
  apply list_elem_of_fmap in Hin as (r & Hs & Hr). rewrite Forall_forall in Hnow. specialize (Hnow r Hr).
  rewrite count_if_cons, decide_True by (split; cbn; [done|lia]). split; [lia|]. right. apply list_elem_of_fmap. by exists r.
Qed.

Lemma run_earned past l :
  limiter_run limit trusted past l -> countable past -> map_Forall (window_earned past) (rl_clients l).
Proof.
  induction 1 as [|past l order host now l' ok R IH Hnow _ E]; intros Hc; [apply map_Forall_empty|].
  specialize (IH (countable_cons _ _ Hc)).
  set (past' := {| ar_host := host; ar_now := now; ar_served := ok |} :: past) in *.
  assert (forall cl, cl ⊆ swept now l -> map_Forall (window_earned past') cl) as Hsub.
  { intros cl Hcl h w Hw. apply earned_cons, IH. eapply lookup_weaken, (swept_subseteq now). by eapply lookup_weaken. }
  destruct (admit_cases _ _ _ _ _ _ E) as [_ [(w & Hw & _ & _ & ->)|(cl' & _ & -> & Hcl)]].
  - apply map_Forall_insert_2; [|by apply Hsub].
    destruct (earned_more past host now ok w Hc Hnow) as [-> ?]; [|done].
    apply IH. eapply lookup_weaken; [done|apply swept_subseteq].
  - apply map_Forall_insert_2.
    + split; cbn [rw_count rw_started]; [|by left]. unfold past'. rewrite count_if_cons, decide_True by (split; cbn; [done|lia]).
      pose proof (count_if_bound (sent_since host now) past). lia.
    + apply Hsub. destruct Hcl as [(? & _ & _ & ->)|[_ ->]]; [done|].
      destruct (_ <=? _); [apply evictLocked_subseteq | done].
Qed.

(** A client that is refused sent more than the limit within the last minute. *)
Lemma refused_earned past l order host now l' :
  limiter_run limit trusted past l -> Z.of_nat (length past) + 1 < 2 ^ 63 -> 0 < limit ->
  admit_request order host now l = (l', false) ->
  limit <= count_if (sent_since host (now - Minute + 1)) past.
Proof.
  intros R Hlen Hl E. pose proof (run_limit _ _ R) as HL.
  assert (map_Forall (window_earned past) (rl_clients l)) as HE by (apply run_earned; [done|unfold countable; lia]).
  destruct (admit_cases _ _ _ _ _ _ E) as [_ [(w & Hw & Hx & Hs & _)|(cl' & Hs & _)]]; rewrite HL in Hs.
  2:{ symmetry in Hs. apply Z.leb_gt in Hs. lia. }
  destruct (HE host w) as [Hw' _]; [eapply lookup_weaken; [done|apply swept_subseteq]|].
  symmetry in Hs. apply Z.leb_gt in Hs. unfold expired in Hx. apply Z.leb_gt in Hx.
  assert (count_if (sent_since host (rw_started w)) past <= count_if (sent_since host (now - Minute + 1)) past) as Hle.
  { apply count_if_mono. intros r [? ?]. split; [done|lia]. }
  pose proof (count_if_bound (sent_since host (rw_started w)) past). rewrite wrap_small in Hs by lia. lia.
Qed.

(** ** The map of clients is bounded *)

Lemma evict_scan_Some now order oldest start sampled :
  Forall (fun p => p.1 <> EmptyString) order -> (order <> [] \/ oldest <> EmptyString) ->
  exists key, evict_scan now order oldest start sampled = Some key /\
    (key = oldest /\ oldest <> EmptyString \/ key ∈ order.*1).
Proof.
  revert oldest start sampled. induction order as [|[key w] order IH]; intros oldest start sampled Hne Hor; cbn.
  - destruct Hor as [?|Ho]; [done|]. exists oldest. rewrite (proj2 (String.eqb_neq _ _) Ho). auto.
  - apply Forall_cons in Hne as [Hk Hne]. cbn in Hk.
    destruct (expired now w); [exists key; split; [done|right; by left]|].
    set (o := if _ || _ then _ else _). assert (o.1 <> EmptyString /\ (o.1 = key \/ o.1 = oldest)) as [Ho Hko].
    { unfold o. destruct (String.eqb_spec oldest EmptyString); cbn [orb]; [auto|]. destruct (_ <? _); auto. }
    destruct o as [o ostart]. cbn in Ho, Hko. destruct (evictionSample <=? sampled + 1).
    + exists o. rewrite (proj2 (String.eqb_neq _ _) Ho). split; [done|]. rewrite elem_of_cons. intuition congruence.
    + destruct (IH o ostart (sampled + 1) Hne) as (k & -> & Hin); [by right|]. exists k. split; [done|].
      rewrite elem_of_cons. intuition congruence.
Qed.

Lemma evictLocked_size now order (clients : gmap string rateWindow) :
  order ≡ₚ map_to_list clients -> map_Forall (fun k _ => k <> EmptyString) clients -> clients <> ∅ ->
  S (size (evictLocked now order clients)) = size clients.
Proof.
  intros Ho Hk Hne. destruct (evict_scan_Some now order EmptyString 0 0) as (key & E & [[_ ?]|Hin]); [..|done|].
  - rewrite Ho. apply Forall_forall. intros [k w] Hin%elem_of_map_to_list. cbn. by apply (Hk k w).
  - left. intros ->. apply Permutation_nil_l in Ho. by apply Hne, map_to_list_empty_iff.
  - unfold evictLocked. rewrite E. apply list_elem_of_fmap in Hin as ([k w] & -> & Hkw).
    rewrite Ho, elem_of_map_to_list in Hkw. cbn. rewrite map_size_delete_Some by done.
    destruct (size clients) eqn:Es; [by apply map_size_empty_iff in Es|done].
Qed.

Lemma run_bounded past l :
  limiter_run limit trusted past l -> Forall (fun r => ar_host r <> EmptyString) past ->
  map_Forall (fun k _ => k <> EmptyString) (rl_clients l) /\ Z.of_nat (size (rl_clients l)) <= maxTrackedClients.
Proof.
  induction 1 as [|past l order host now l' ok R IH Hnow Ho E]; intros Hh; [by split; [apply map_Forall_empty|]|].
  apply Forall_cons in Hh as [Hh [IHk IHs]%IH]. cbn in Hh.
  assert (map_Forall (fun k _ => k <> EmptyString) (swept now l)) as Hk.
  { intros k w Hw. apply (IHk k w). eapply lookup_weaken; [done|apply swept_subseteq]. }
  assert (Z.of_nat (size (swept now l)) <= maxTrackedClients) as Hsz.
  { pose proof (map_subseteq_size _ _ (swept_subseteq now l)). lia. }
  destruct (admit_cases _ _ _ _ _ _ E) as [_ [(w & Hw & _ & _ & ->)|(cl' & _ & -> & Hcl)]].
  - split; [by apply map_Forall_insert_2|]. rewrite map_size_insert_Some by done. done.
  - assert (map_Forall (fun k _ => k <> EmptyString) cl') as Hk'.
    { intros k w Hw. apply (Hk k w). eapply lookup_weaken; [done|].
      destruct Hcl as [(? & _ & _ & ->)|[_ ->]]; [done|]. destruct (_ <=? _); [apply evictLocked_subseteq | done]. }
    split; [by apply map_Forall_insert_2|]. destruct Hcl as [(w & Hw & _ & ->)|[Hn ->]].
    + rewrite map_size_insert_Some by done. done.
    + destruct (Z.leb_spec maxTrackedClients (Z.of_nat (size (swept now l)))) as [Hle|Hlt].
      * pose proof (evictLocked_size now order (swept now l) Ho Hk) as He.
        rewrite map_size_insert_None by (eapply lookup_weaken_None; [done|apply evictLocked_subseteq]).
        rewrite He; [done|]. intros E0. rewrite E0, map_size_empty in Hle. unfold maxTrackedClients in Hle. lia.
      * rewrite map_size_insert_None by done. lia.
Qed.

(** ** Few enough clients are all limited *)

Definition hosts (past : list arrival) : gset string := list_to_set (map ar_host past).

Lemma run_dom past l : limiter_run limit trusted past l -> dom (rl_clients l) ⊆ hosts past.
Proof.
  induction 1 as [|past l order host now l' ok R IH Hnow Ho E]; [by cbn; rewrite dom_empty_L|].
  assert (dom (swept now l) ⊆ hosts past) as Hs.
  { etrans; [|exact IH]. apply subseteq_dom, swept_subseteq. }
  destruct (admit_cases _ _ _ _ _ _ E) as [_ [(w & Hw & _ & _ & ->)|(cl' & _ & -> & Hcl)]]; rewrite dom_insert_L;
    unfold hosts in *; cbn [map list_to_set ar_host]; [set_solver|].
  assert (dom cl' ⊆ dom (swept now l)) by (apply subseteq_dom; destruct Hcl as [(? & _ & _ & ->)|[_ ->]]; [done|];
    destruct (_ <=? _); [apply evictLocked_subseteq | done]). set_solver.
Qed.

(** Where the last window of [host] stands, and what it says about the minute
    from [a]. *)
Definition minute_ok (host : string) (a : Z) (past : list arrival) (clients : gmap string rateWindow) : Prop :=
  let served := count_if (served_minute host a) past in
  (Forall (fun r => ar_now r < a) past -> served = 0) /\
  ((clients !! host = None /\ served = 0) \/
   exists s c, 1 <= c /\ s ∈ map ar_now past /\
     (clients !! host = Some {| rw_started := s; rw_count := c |} \/
      clients !! host = None /\ exists r, r ∈ past /\ s + Minute <= ar_now r) /\
     (s < a -> served <= Z.min c limit) /\ (a <= s < a + Minute -> served <= limit + Z.min c limit) /\
     served <= 2 * limit).

Lemma served_other host a r past :
  ar_host r <> host -> count_if (served_minute host a) (r :: past) = count_if (served_minute host a) past.
Proof. intros Hr. rewrite count_if_cons, decide_False; [done|]. by intros [[? _] _]. Qed.

Lemma minute_other host a r past cl cl' :
  minute_ok host a past cl -> ar_host r <> host ->
  (cl' !! host = cl !! host \/
   cl' !! host = None /\ exists w, cl !! host = Some w /\ rw_started w + Minute <= ar_now r) ->
  minute_ok host a (r :: past) cl'.
Proof.
  unfold minute_ok. intros [H0 HS] Hr Hcl. rewrite served_other by done. cbn [map].
  split; [intros HF; apply H0; by apply Forall_cons in HF as [_ ?]|].
  destruct HS as [[Hn HS]|(s & c & Hc & Hs & Hin & HS)].
  - left. destruct Hcl as [->|[_ (w & Hw & _)]]; [done|congruence].
  - right. exists s, c. split; [done|]. split; [by right|]. split; [|done].
    destruct Hin as [Hin|[Hin (r' & Hr' & Hle)]].
    + destruct Hcl as [->|[-> (w & Hw & Hle)]]; [by left|right]. split; [done|]. rewrite Hin in Hw.
      injection Hw as <-. exists r. split; [by left|done].
    + right. destruct Hcl as [->|[-> _]]; (split; [done|]); exists r'; (split; [by right|done]).
Qed.

Lemma served_cons host a now served past :
  count_if (served_minute host a) ({| ar_host := host; ar_now := now; ar_served := served |} :: past) =
  count_if (served_minute host a) past +
    (if bool_decide (a <= now < a + Minute) && served then 1 else 0).
Proof.
  rewrite count_if_cons. unfold served_minute at 1, sent_since. cbn [ar_host ar_now ar_served].
  destruct (decide _) as [H|H], (bool_decide_reflect (a <= now < a + Minute)) as [B|B], served; cbn [andb]; try lia;
    exfalso; naive_solver lia.
Qed.

Lemma early_none host a past cl now :
  minute_ok host a past cl -> Forall (fun r => ar_now r <= now) past -> now < a ->
  count_if (served_minute host a) past = 0.
Proof. intros [H0 _] HF Hn. apply H0. eapply Forall_impl; [exact HF|]. cbn. lia. Qed.

(** One more request in a live window. *)
Lemma minute_same host a now past cl cl' s c :
  minute_ok host a past cl -> Forall (fun r => ar_now r <= now) past -> 0 < limit ->
  cl !! host = Some {| rw_started := s; rw_count := c |} -> now - s < Minute ->
  cl' !! host = Some {| rw_started := s; rw_count := c + 1 |} ->
  minute_ok host a ({| ar_host := host; ar_now := now; ar_served := c + 1 <=? limit |} :: past) cl'.
Proof.
  intros HM HF Hl Hw Hx Hw'. pose proof (early_none _ _ _ _ now HM HF) as HE. destruct HM as [_ HS].
  destruct HS as [[Hn _]|(s' & c' & Hc & Hs & Hin & H1 & H2 & H3)]; [congruence|].
  destruct Hin as [Hin|[Hin _]]; [|congruence]. rewrite Hw in Hin. injection Hin as <- <-.
  assert (s <= now) as Hsn.
  { apply list_elem_of_fmap in Hs as (r & -> & Hr). rewrite Forall_forall in HF. by apply (HF r). }
  unfold minute_ok. rewrite served_cons.
  destruct (bool_decide_reflect (a <= now < a + Minute)) as [B|B], (Z.leb_spec (c + 1) limit); cbn [andb];
    (split; [intros [? _]%Forall_cons; cbn in *; lia|right]); exists s, (c + 1); cbn [map];
    (split; [lia|]); (split; [by right|]); (split; [by left|]); lia.
Qed.

(** A request that opens a window. *)
Lemma minute_new host a now past cl cl' :
  minute_ok host a past cl -> Forall (fun r => ar_now r <= now) past -> 0 < limit ->
  (forall w, cl !! host = Some w -> rw_started w + Minute <= now) ->
  cl' !! host = Some {| rw_started := now; rw_count := 1 |} ->
  minute_ok host a ({| ar_host := host; ar_now := now; ar_served := 1 <=? limit |} :: past) cl'.
Proof.
  intros HM HF Hl Hw Hw'. pose proof (early_none _ _ _ _ now HM HF) as HE. destruct HM as [_ HS].
  assert (count_if (served_minute host a) past <= 2 * limit /\
    (now < a + Minute -> count_if (served_minute host a) past <= limit)) as [HB HB'].
  { destruct HS as [[_ ->]|(s & c & Hc & Hs & Hin & H1 & H2 & H3)]; [lia|].
    assert (s + Minute <= now) as Hsn.
    { destruct Hin as [Hin|[_ (r & Hr & Hle)]]; [by apply (Hw _ Hin)|].
      rewrite Forall_forall in HF. specialize (HF r Hr). lia. }
    lia. }
  unfold minute_ok. rewrite served_cons, (proj2 (Z.leb_le 1 limit)) by lia.
  destruct (bool_decide_reflect (a <= now < a + Minute)) as [B|B]; cbn [andb];
    (split; [intros [? _]%Forall_cons; cbn in *; lia|right]); exists now, 1; cbn [map];
    (split; [lia|]); (split; [by left|]); (split; [by left|]); lia.
Qed.

Lemma swept_lookup now l host :
  swept now l !! host = rl_clients l !! host \/
  swept now l !! host = None /\ exists w, rl_clients l !! host = Some w /\ rw_started w + Minute <= now.
Proof.
  unfold swept. destruct (sweep_due now l); [|by left]. destruct (rl_clients l !! host) as [w|] eqn:E.
  - destruct (expired now w) eqn:Ex.
    + right. split.
      * apply map_lookup_filter_None. right. intros w' Hw'. rewrite E in Hw'. injection Hw' as <-. cbn. by rewrite Ex.
      * exists w. split; [done|]. unfold expired in Ex. apply Z.leb_le in Ex. lia.
    + left. by apply map_lookup_filter_Some.
  - left. apply map_lookup_filter_None. by left.
Qed.

(** With room for every client, nothing is evicted. *)
Lemma no_eviction past l order host now l' served :
  limiter_run limit trusted past l -> admit_request order host now l = (l', served) ->
  Z.of_nat (size (hosts ({| ar_host := host; ar_now := now; ar_served := served |} :: past))) <= maxTrackedClients ->
  swept now l !! host = None -> Z.of_nat (size (swept now l)) < maxTrackedClients.
Proof.
  intros R E Hsz Hn. pose proof (run_dom _ _ R) as Hd. pose proof (subseteq_dom _ _ (swept_subseteq now l)) as Hd'.
  assert (size ({[host]} ∪ dom (swept now l)) <= size (hosts ({| ar_host := host; ar_now := now; ar_served := served |} :: past)))%nat as Hs.
  { apply subseteq_size. unfold hosts in *. cbn [map list_to_set ar_host]. set_solver. }
  rewrite size_union, size_singleton, size_dom in Hs; [lia|]. apply not_elem_of_dom_2 in Hn. set_solver.
Qed.

Lemma run_minute host a past l :
  limiter_run limit trusted past l -> countable past -> 0 < limit ->
  Z.of_nat (size (hosts past)) <= maxTrackedClients -> minute_ok host a past (rl_clients l).
Proof.
  intros R. induction R as [|past l order h now l' ok R IH Hnow Ho E]; intros Hc Hl Hsz.
  { split; [done|]. left. split; [apply lookup_empty|done]. }
  pose proof (countable_cons _ _ Hc) as Hc'. pose proof (run_limit _ _ R) as HL.
  assert (Z.of_nat (size (hosts past)) <= maxTrackedClients) as Hsz'.
  { etrans; [|exact Hsz]. apply inj_le, subseteq_size. unfold hosts. cbn. set_solver. }
  specialize (IH Hc' Hl Hsz'). pose proof (swept_lookup now l host) as HSW.
  pose proof (no_eviction _ _ _ _ _ _ _ R E Hsz) as HNE.
  destruct (admit_cases _ _ _ _ _ _ E) as [_ [(w & Hw & Hx & -> & Ecl)|(cl' & -> & Ecl & Hcl)]]; rewrite HL, Ecl.
  - destruct (decide (h = host)) as [->|Hne].
    + assert (rl_clients l !! host = Some w) as Hlw by (eapply lookup_weaken; [done|apply swept_subseteq]).
      destruct (earned_more past host now true w) as [-> _]; [done|done|by apply (run_earned _ _ R Hc')|].
      destruct w as [s c]. apply Z.leb_gt in Hx. eapply minute_same; try done. by rewrite lookup_insert_eq.
    + apply minute_other with (rl_clients l); [done..|]. cbn. by rewrite lookup_insert_ne.
  - assert (cl' = swept now l) as ->.
    { destruct Hcl as [(? & _ & _ & ->)|[Hn ->]]; [done|]. rewrite (proj2 (Z.leb_gt _ _)); [done|auto]. }
    destruct (decide (h = host)) as [->|Hne].
    + apply minute_new with (rl_clients l); [done..| |by rewrite lookup_insert_eq]. intros w Hw.
      destruct HSW as [HSW|[_ (w' & Hw' & Hle)]]; [|congruence]. rewrite Hw in HSW.
      destruct Hcl as [(w' & Hw' & Hx & _)|[Hn _]]; [|congruence]. rewrite HSW in Hw'. injection Hw' as <-.
      unfold expired in Hx. apply Z.leb_le in Hx. lia.
    + apply minute_other with (rl_clients l); [done..|]. cbn. by rewrite lookup_insert_ne.
Qed.

(** C32. The limiter is sound in every sequence of requests.  It refuses a
    client only if that client alone sent at least the limit within the last
    minute, whatever the others do; it never keeps more than its bound of
    clients; and as long as there are no more clients than that, none is served
    more than twice the limit in any minute.  The clock readings are those of a
    [limiter_run]: none is before an earlier request's. *)
Theorem limiter_sound past l :
  limiter_run limit trusted past l -> 0 < limit -> Z.of_nat (length past) + 1 < 2 ^ 63 ->
  (forall order host now l', admit_request order host now l = (l', false) ->
     limit <= count_if (sent_since host (now - Minute + 1)) past) /\
  (Forall (fun r => ar_host r <> EmptyString) past -> Z.of_nat (size (rl_clients l)) <= maxTrackedClients) /\
  (Z.of_nat (size (hosts past)) <= maxTrackedClients -> forall host from,
     count_if (served_minute host from) past <= 2 * limit).
Proof.
  intros R Hl Hlen. split_and!.
  - intros order host now l' E. by eapply refused_earned.
  - intros Hh. by apply (run_bounded past l).
  - intros Hsz host from. destruct (run_minute host from past l R) as [_ HS]; [unfold countable; lia|done..|].
    destruct HS as [[_ ->]|(s & c & _ & _ & _ & _ & _ & HS)]; lia.
Qed.

End Runs.

(** ** Witness: a client over the limit *)

(** The requests, the oldest first, with the map iterated as [map_to_list]
    lists it. *)
Fixpoint limiter_after (past : list arrival) (l : rateLimiter) (requests : list (string * Z)) :
    list arrival * rateLimiter :=
  match requests with
  | [] => (past, l)
  | (host, now) :: requests =>
      let '(l', served) := admit_request (map_to_list (swept now l)) host now l in
      limiter_after ({| ar_host := host; ar_now := now; ar_served := served |} :: past) l' requests
  end.

Fixpoint ordered (from : Z) (requests : list (string * Z)) : Prop :=
  match requests with
  | [] => True
  | (_, now) :: requests => from <= now /\ ordered now requests
  end.

Lemma limiter_after_run limit trusted past l from requests :
  limiter_run limit trusted past l -> Forall (fun r => ar_now r <= from) past -> ordered from requests ->
  limiter_run limit trusted (limiter_after past l requests).1 (limiter_after past l requests).2.
Proof.
  revert past l from. induction requests as [|[host now] requests IH]; intros past l from R HF Ho; [done|].
  cbn. destruct (admit_request (map_to_list (swept now l)) host now l) as [l' served] eqn:E. destruct Ho as [Hle Ho].
  assert (Forall (fun r => ar_now r <= now) past) as HF' by (eapply Forall_impl; [exact HF|]; cbn; lia).
  apply IH with now; [|constructor; cbn; [lia|done]|done].
  by econstructor.
Qed.

Definition demo_arrivals : list (string * Z) :=
  [("10.0.0.1", 0); ("10.0.0.2", 5); ("10.0.0.1", 10); ("10.0.0.1", 2 * Minute)].

Definition demo_limited : list arrival * rateLimiter := limiter_after [] (newRateLimiter 1 []) demo_arrivals.

Lemma limiter_sound_witness :
  map ar_served demo_limited.1 = [true; false; true; true] /\
  count_if (served_minute "10.0.0.1" 0) demo_limited.1 <= 2 * 1.
Proof.
  split; [vm_compute; reflexivity|].
  refine (proj2 (proj2 (limiter_sound 1 [] demo_limited.1 demo_limited.2 _ _ _)) _ "10.0.0.1" 0).
  - apply limiter_after_run with 0; [exact (run_new 1 [])|exact (Forall_nil_2 _)|].
    cbn. unfold Minute. repeat split; vm_compute; discriminate.
  - reflexivity.
  - vm_compute. reflexivity.
  - vm_compute. discriminate.
Defined.
