(* ===== verification/Metrics.v ===== *)
(** [internal/metrics]: the counters and gauges of a process, and the samples
    a scrape returns.

    Counters are 64 bits wide.  A sample is a name with its labels and the text
    of its value; the comment lines of the exposition format, and the rounding
    of the signer's balance to a float, are left out.  Go does not fix the order of
    the samples that come from a map. *)

From Stdlib Require Import ZArith Lia Ascii.
From stdpp Require Import base gmap strings list.
From S2P Require Import Prelude GoStd GoNet GoDuration.
Local Open Scope string_scope.
Local Open Scope Z_scope.

Inductive counter :=
  | httpRequests | panicCount | registrations | emailVerified | walletVerified | walletFailures | verifications
  | verifyFailures | settlements | settleFailures | recipientPendingChanges | recipientActiveChanges
  | signerBalanceErr | rpcRequests | rpcErrors | rpcDisagreements | fairUseRefusals | retentionErrors
  | retentionRedacted | emailDeliveryFails.

#[export] Instance counter_EqDecision : EqDecision counter.
Proof. solve_decision. Defined.

Record Registry := {
  counters : counter -> Z;
  httpDuration : Z;
  signerBalanceWei : option Z;
  signerBalanceAt : Z;
  retentionLastTick : Z;
  emailOutboxPending : Z;
  emailOutboxOldest : Z;
  emailOutboxTick : Z;
  heartbeats : gmap string Z;
  status_counts : gmap string Z;
}.

Definition NewRegistry : Registry :=
  {| counters := fun _ => 0; httpDuration := 0; signerBalanceWei := None; signerBalanceAt := 0; retentionLastTick := 0;
     emailOutboxPending := 0; emailOutboxOldest := 0; emailOutboxTick := 0; heartbeats := ∅; status_counts := ∅ |}.

(** [counter.Add(n)]. *)
Definition add_counter (c : counter) (n : Z) (r : Registry) : Registry :=
  {| counters := fun c' => if decide (c = c') then wrap64 (counters r c + n) else counters r c';
     httpDuration := httpDuration r; signerBalanceWei := signerBalanceWei r; signerBalanceAt := signerBalanceAt r;
     retentionLastTick := retentionLastTick r; emailOutboxPending := emailOutboxPending r;
     emailOutboxOldest := emailOutboxOldest r; emailOutboxTick := emailOutboxTick r; heartbeats := heartbeats r;
     status_counts := status_counts r |}.

(** The label key of a request: the parts joined by a bar. *)
Definition status_key (method route : string) (status : Z) : string :=
  method +:+ "|" +:+ route +:+ "|" +:+ FormatInt status.

(** Durations are nanoseconds, instants whole seconds of the Unix epoch. *)
Definition ObserveHTTP (method route : string) (status duration : Z) (r : Registry) : Registry :=
  let r := add_counter httpRequests 1 r in
  let key := status_key method route status in
  {| counters := counters r;
     httpDuration := if 0 <? duration then wrap_int64 (httpDuration r + duration / Microsecond) else httpDuration r;
     signerBalanceWei := signerBalanceWei r; signerBalanceAt := signerBalanceAt r;
     retentionLastTick := retentionLastTick r; emailOutboxPending := emailOutboxPending r;
     emailOutboxOldest := emailOutboxOldest r; emailOutboxTick := emailOutboxTick r; heartbeats := heartbeats r;
     status_counts := <[key := wrap64 (default 0 (status_counts r !! key) + 1)]> (status_counts r) |}.

Definition ObserveRecipientChange (pending : bool) (r : Registry) : Registry :=
  if pending then add_counter recipientPendingChanges 1 r else add_counter recipientActiveChanges 1 r.

Definition SetSignerBalance (wei : option Z) (at_ : Z) (r : Registry) : Registry :=
  match wei with
  | None => r
  | Some wei =>
      {| counters := counters r; httpDuration := httpDuration r; signerBalanceWei := Some wei; signerBalanceAt := at_;
         retentionLastTick := retentionLastTick r; emailOutboxPending := emailOutboxPending r;
         emailOutboxOldest := emailOutboxOldest r; emailOutboxTick := emailOutboxTick r; heartbeats := heartbeats r;
         status_counts := status_counts r |}
  end.

Definition ObserveRPC (failed : bool) (r : Registry) : Registry :=
  let r := add_counter rpcRequests 1 r in if failed then add_counter rpcErrors 1 r else r.

Definition ObserveEmailOutbox (pending oldestPendingAge at_ : Z) (r : Registry) : Registry :=
  {| counters := counters r; httpDuration := httpDuration r; signerBalanceWei := signerBalanceWei r;
     signerBalanceAt := signerBalanceAt r; retentionLastTick := retentionLastTick r;
     emailOutboxPending := if pending <? 0 then 0 else pending;
     emailOutboxOldest := Z.max 0 (Z.quot oldestPendingAge Second); emailOutboxTick := at_;
     heartbeats := heartbeats r; status_counts := status_counts r |}.

Definition Heartbeat (worker : string) (at_ : Z) (r : Registry) : Registry :=
  {| counters := counters r; httpDuration := httpDuration r; signerBalanceWei := signerBalanceWei r;
     signerBalanceAt := signerBalanceAt r; retentionLastTick := retentionLastTick r;
     emailOutboxPending := emailOutboxPending r; emailOutboxOldest := emailOutboxOldest r;
     emailOutboxTick := emailOutboxTick r; heartbeats := <[worker := at_]> (heartbeats r);
     status_counts := status_counts r |}.

Definition ObserveRetention (redacted : Z) (failed : bool) (at_ : Z) (r : Registry) : Registry :=
  let r := {| counters := counters r; httpDuration := httpDuration r; signerBalanceWei := signerBalanceWei r;
              signerBalanceAt := signerBalanceAt r; retentionLastTick := at_;
              emailOutboxPending := emailOutboxPending r; emailOutboxOldest := emailOutboxOldest r;
              emailOutboxTick := emailOutboxTick r; heartbeats := heartbeats r; status_counts := status_counts r |} in
  let r := if failed then add_counter retentionErrors 1 r else r in
  if 0 <? redacted then add_counter retentionRedacted redacted r else r.

(** The last tick of each worker, as an instant in nanoseconds. *)
Definition WorkerHeartbeats (r : Registry) : gmap string Z := fmap (fun at_ => at_ * Second) (heartbeats r).

(** ** Exposition *)

Record sample := { sm_name : string; sm_labels : list (string * string); sm_value : string }.

Definition plain (name : string) (value : Z) : sample :=
  {| sm_name := "eth402_" +:+ name; sm_labels := []; sm_value := FormatInt value |}.

(** The labels are the first three parts of the key. *)
Definition status_sample (entry : string * Z) : sample :=
  let parts := Split "|" (fst entry) in
  let part i := default EmptyString (parts !! i) in
  {| sm_name := "eth402_http_requests_total";
     sm_labels := [("method", part 0%nat); ("route", part 1%nat); ("status", part 2%nat)];
     sm_value := FormatInt (snd entry) |}.

Definition counter_names : list (string * counter) :=
  [("registrations_total", registrations); ("email_verifications_total", emailVerified);
   ("wallet_verifications_total", walletVerified); ("wallet_verification_failures_total", walletFailures);
   ("verification_total", verifications); ("verification_failures_total", verifyFailures);
   ("settlement_requests_total", settlements); ("settlement_failures_total", settleFailures);
   ("fair_use_refusals_total", fairUseRefusals); ("recipient_pending_changes_total", recipientPendingChanges);
   ("recipient_active_changes_total", recipientActiveChanges)].

(** No worker has ticked: settlement is disabled. *)
Definition writeWorkerHealth (r : Registry) : list sample :=
  map (fun p => {| sm_name := "eth402_worker_last_tick_timestamp_seconds"; sm_labels := [("worker", fst p)];
                   sm_value := FormatInt (snd p) |}) (map_to_list (heartbeats r)).

(** Nothing before the first successful reading. *)
Definition writeSignerBalance (r : Registry) : list sample :=
  match signerBalanceWei r with
  | None => []
  | Some wei =>
      [plain "signer_balance_wei" wei; plain "signer_balance_updated_timestamp_seconds" (signerBalanceAt r);
       plain "signer_balance_read_errors_total" (counters r signerBalanceErr)]
  end.

Definition writeRetention (r : Registry) : list sample :=
  if retentionLastTick r =? 0 then []
  else
    [plain "retention_last_tick_timestamp_seconds" (retentionLastTick r);
     plain "retention_errors_total" (counters r retentionErrors);
     plain "retention_redacted_payments_total" (counters r retentionRedacted)].

Definition writeEmailDelivery (r : Registry) : list sample :=
  [plain "email_outbox_pending" (emailOutboxPending r);
   plain "email_outbox_oldest_pending_age_seconds" (emailOutboxOldest r);
   plain "email_delivery_last_tick_timestamp_seconds" (emailOutboxTick r);
   plain "email_delivery_failures_total" (counters r emailDeliveryFails)].

Definition ServeMetrics (r : Registry) : list sample :=
  (map status_sample (map_to_list (status_counts r)) ++
   [plain "http_request_duration_microseconds_total" (httpDuration r); plain "panics_total" (counters r panicCount)] ++
   map (fun p => plain (fst p) (counters r (snd p))) counter_names ++
   [plain "rpc_requests_total" (counters r rpcRequests); plain "rpc_errors_total" (counters r rpcErrors);
    plain "rpc_provider_disagreements_total" (counters r rpcDisagreements)] ++
   writeWorkerHealth r ++ writeSignerBalance r ++ writeRetention r ++ writeEmailDelivery r)%list.

(** ** Requests and their samples *)

Definition http_observation : Type := string * string * Z * Z.

Fixpoint observed (obs : list http_observation) (r : Registry) : Registry :=
  match obs with
  | [] => r
  | (method, route, status, duration) :: obs => ObserveHTTP method route status duration (observed obs r)
  end.

Definition has_labels (method route status : string) (s : sample) : Prop :=
  sm_name s = "eth402_http_requests_total" /\ sm_labels s = [("method", method); ("route", route); ("status", status)].

Definition seen (method route : string) (status : Z) (o : http_observation) : Prop :=
  o.1.1.1 = method /\ o.1.1.2 = route /\ o.1.2 = status.

#[export] Instance seen_dec method route status o : Decision (seen method route status o).
Proof. unfold seen. apply _. Defined.

Definition unbarred (s : string) : Prop := has_char "|" s = false.

Lemma FormatInt_unbarred n : unbarred (FormatInt n).
Proof.
  unfold unbarred. destruct (decide (0 <= n)) as [Hn|Hn].
  - apply (all_chars_not_char is_digit); [done|]. by apply digits_FormatInt.
  - destruct n as [|p|p]; [lia|lia|]. change (FormatInt (Z.neg p)) with (String "-" (FormatInt (Z.pos p))).
    assert (unbarred (FormatInt (Z.pos p))) as H.
    { apply (all_chars_not_char is_digit); [done|]. by apply digits_FormatInt. }
    unfold unbarred, has_char in *. cbn -[FormatInt]. by destruct (cut_first "|" (FormatInt (Z.pos p))) as [[]|].
Qed.

Lemma key_parts method route status : unbarred method -> unbarred route ->
  Split "|" (status_key method route status) = [method; route; FormatInt status].
Proof.
  intros Hm Hr. change (status_key method route status) with (method +:+ String "|" (route +:+ String "|" (FormatInt status))).
  rewrite !Split_app, (Split_one _ method), (Split_one _ route), (Split_one _ (FormatInt status));
    [done|apply FormatInt_unbarred|done..].
Qed.

Lemma key_inj m r s m' r' s' : unbarred m -> unbarred r -> unbarred m' -> unbarred r' ->
  status_key m r s = status_key m' r' s' -> m = m' /\ r = r' /\ s = s'.
Proof.
  intros ???? E. apply (f_equal (Split "|")) in E. rewrite !key_parts in E by done.
  by injection E as -> -> ->%FormatInt_inj.
Qed.

Definition bar_free (o : http_observation) : Prop := unbarred o.1.1.1 /\ unbarred o.1.1.2.

Lemma counts_observed obs m r s : Forall bar_free obs -> Z.of_nat (length obs) < 2 ^ 64 -> unbarred m -> unbarred r ->
  default 0 (status_counts (observed obs NewRegistry) !! status_key m r s) = Z.of_nat (length (filter (seen m r s) obs)).
Proof.
  intros HF Hlen Hm Hr. induction obs as [|[[[method route] status] duration] obs IH]; [done|].
  apply Forall_cons in HF as [[Hm' Hr'] HF]. cbn [length] in Hlen. specialize (IH HF ltac:(lia)).
  cbn [observed ObserveHTTP status_counts add_counter]. cbn in Hm', Hr'.
  destruct (decide (seen m r s (method, route, status, duration))) as [E|E].
  - rewrite filter_cons_True by done. destruct E as (<- & <- & <-). cbn [fst snd length] in *.
    rewrite lookup_insert_eq. cbn [default]. rewrite IH. unfold wrap64, two64.
    pose proof (length_filter (seen method route status) obs). rewrite Z.mod_small; unfold id; lia.
  - rewrite filter_cons_False by done. rewrite lookup_insert_ne; [done|].
    intros (-> & -> & ->)%key_inj; [|done..]. by apply E.
Qed.

Lemma counts_keys obs key n : status_counts (observed obs NewRegistry) !! key = Some n ->
  exists o, o ∈ obs /\ key = status_key o.1.1.1 o.1.1.2 o.1.2.
Proof.
  induction obs as [|[[[method route] status] duration] obs IH]; [done|].
  cbn [observed ObserveHTTP status_counts add_counter]. intros [[<- _]|[_ Hn]]%lookup_insert_Some.
  - eexists. split; [by left|done].
  - destruct (IH Hn) as (o & Ho & ->). exists o. split; [by right|done].
Qed.

Lemma labels_of m r s n : unbarred m -> unbarred r ->
  status_sample (status_key m r s, n) =
  {| sm_name := "eth402_http_requests_total"; sm_labels := [("method", m); ("route", r); ("status", FormatInt s)];
     sm_value := FormatInt n |}.
Proof. intros Hm Hr. unfold status_sample. cbn [fst snd]. by rewrite key_parts. Qed.

(** Only the samples made from the request counts have that name. *)
Lemma request_samples r s : s ∈ ServeMetrics r -> sm_name s = "eth402_http_requests_total" ->
  exists entry, entry ∈ map_to_list (status_counts r) /\ s = status_sample entry.
Proof.
  unfold ServeMetrics. rewrite elem_of_app, list_elem_of_fmap. intros [(e & -> & He)|Hs] Hn; [by exists e|].
  exfalso. revert s Hs Hn.
  refine (proj1 (Forall_forall (fun s => sm_name s = "eth402_http_requests_total" -> False) _) _).
  unfold writeWorkerHealth, writeSignerBalance, writeRetention, writeEmailDelivery.
  repeat (apply Forall_app; split).
  all: repeat case_match; try (apply Forall_fmap, Forall_true; discriminate); repeat (constructor; [discriminate|]); by constructor.
Qed.

Lemma forged_parts m r st route status : unbarred m -> unbarred r -> unbarred st ->
  take 3 (Split "|" (status_key (m +:+ "|" +:+ r +:+ "|" +:+ st) route status)) = [m; r; st].
Proof.
  intros Hm Hr Hs. assert (forall a b c : string, (a +:+ b) +:+ c = a +:+ (b +:+ c)) as HA.
  { intros a b c. induction a as [|x a IH]; [done|]. cbn. by rewrite IH. }
  unfold status_key. rewrite !HA. change ("|" +:+ ?x) with (String "|" x).
  change (r +:+ "|" +:+ ?x) with (r +:+ String "|" x). change (st +:+ "|" +:+ ?x) with (st +:+ String "|" x).
  rewrite !Split_app, (Split_one _ m), (Split_one _ r), (Split_one _ st) by done. reflexivity.
Qed.

(** C35. While the methods of requests contain no bar, every sample of
    [eth402_http_requests_total] counts the requests of its labels, and every
    request is counted.  A method is a token chosen by the client, and bars are
    among the characters of a token: one request with the method [m|r|st] puts a
    sample with the labels [m], [r] and [st] into the scrape. *)
Theorem request_labels obs :
  Z.of_nat (length obs) < 2 ^ 64 ->
  (Forall bar_free obs ->
   (forall s, s ∈ ServeMetrics (observed obs NewRegistry) -> sm_name s = "eth402_http_requests_total" ->
      exists m r st, has_labels m r (FormatInt st) s /\
        sm_value s = FormatInt (Z.of_nat (length (filter (seen m r st) obs)))) /\
   (forall m r st d, (m, r, st, d) ∈ obs -> exists s, s ∈ ServeMetrics (observed obs NewRegistry) /\ has_labels m r (FormatInt st) s)) /\
  (forall m r st route status duration, unbarred m -> unbarred r -> unbarred st ->
   exists s, s ∈ ServeMetrics (ObserveHTTP (m +:+ "|" +:+ r +:+ "|" +:+ st) route status duration (observed obs NewRegistry)) /\
     has_labels m r st s).
Proof.
  intros Hlen. split; [intros HF; split|].
  - intros s Hs Hn. destruct (request_samples _ _ Hs Hn) as ([key n] & Hk%elem_of_map_to_list & ->).
    destruct (counts_keys _ _ _ Hk) as ([[[m r] st] d] & Ho & ->). cbn [fst snd] in *.
    rewrite Forall_forall in HF. destruct (HF _ Ho) as [Hm Hr]. cbn in Hm, Hr.
    exists m, r, st. rewrite labels_of by done. split; [done|]. cbn [sm_value]. f_equal.
    rewrite <- (counts_observed obs m r st) by (done || by apply Forall_forall). by rewrite Hk.
  - intros m r st d Ho. rewrite Forall_forall in HF. destruct (HF _ Ho) as [Hm Hr]. cbn in Hm, Hr.
    pose proof (counts_observed obs m r st (proj2 (Forall_forall _ _) HF) Hlen Hm Hr) as HC.
    destruct (status_counts (observed obs NewRegistry) !! status_key m r st) as [n|] eqn:E.
    + exists (status_sample (status_key m r st, n)). split; [|by rewrite labels_of].
      unfold ServeMetrics. apply elem_of_app. left. apply list_elem_of_fmap. eexists. split; [done|]. by apply elem_of_map_to_list.
    + exfalso. cbn in HC. assert ((m, r, st, d) ∈ filter (seen m r st) obs) as Hin by (by apply list_elem_of_filter).
      destruct (filter (seen m r st) obs); [by apply elem_of_nil in Hin|cbn in HC; lia].
  - intros m r st route status duration Hm Hr Hs. set (key := status_key (m +:+ "|" +:+ r +:+ "|" +:+ st) route status).
    eexists (status_sample (key, _)). split.
    + unfold ServeMetrics. apply elem_of_app. left. apply list_elem_of_fmap. eexists. split; [done|]. apply elem_of_map_to_list.
      cbn [ObserveHTTP status_counts]. apply lookup_insert_eq.
    + split; [done|]. unfold status_sample. cbn [fst sm_labels].
      pose proof (forged_parts m r st route status Hm Hr Hs) as HP. fold key in HP.
      destruct (Split "|" key) as [|x [|y [|z l]]]; try discriminate HP. injection HP as -> -> ->. done.
Qed.

(** A refused request counted as served. *)
Lemma request_labels_witness :
  exists s, s ∈ ServeMetrics (ObserveHTTP "GET|unknown|200" "unknown" 405 1000
      (observed [("GET", "/stats", 200, 1000)] NewRegistry)) /\ has_labels "GET" "unknown" "200" s.
Proof.
  exact (proj2 (request_labels [("GET", "/stats", 200, 1000)] eq_refl) "GET" "unknown" "200" "unknown" 405 1000
    eq_refl eq_refl eq_refl).
Defined.
