(* ===== verification/Status.v ===== *)
(** [internal/stats]: the health of the dependencies, and the cached public
    statistics; the signer balance reading of [internal/settlement/balance.go]
    and the pass of [internal/retention/worker.go], which feed the metrics.

    Instants and durations are nanoseconds.  What the database, the chain and
    the clock answer comes with the call. *)

From Stdlib Require Import ZArith Lia Ascii Floats.SpecFloat.
From stdpp Require Import base gmap strings list sorting.
From S2P Require Import Prelude GoStd GoNet GoDuration Payment Schema Store Metrics.

Local Open Scope string_scope.
Local Open Scope Z_scope.

(** ** health.go *)

Definition StateOperational : string := "operational".
Definition StateDegraded : string := "degraded".
Definition StateOutage : string := "outage".
Definition StateDisabled : string := "disabled".
Definition StateUnknown : string := "unknown".

Record Component := { cp_Name : string; cp_State : string; cp_Detail : string }.

(** Dependencies that are not configured are [false]. *)
Record Assessor := {
  as_database : bool;
  as_chain : bool;
  as_expectedChainID : Z;
  as_heartbeats : bool;
  as_expectedWorkers : list string;
  as_staleAfter : Z;
  as_settlementEnabled : bool;
  as_probeTimeout : Z;
}.

Definition NewAssessor (cfg : Assessor) : Assessor :=
  {| as_database := as_database cfg; as_chain := as_chain cfg; as_expectedChainID := as_expectedChainID cfg;
     as_heartbeats := as_heartbeats cfg; as_expectedWorkers := as_expectedWorkers cfg;
     as_staleAfter := if as_staleAfter cfg <=? 0 then Minute else as_staleAfter cfg;
     as_settlementEnabled := as_settlementEnabled cfg;
     as_probeTimeout := if as_probeTimeout cfg <=? 0 then 3 * Second else as_probeTimeout cfg |}.

(** What a round of probes finds: whether the database answers, the chain's
    identifier if it does, and the metrics of the process. *)
Record probe := {
  pb_ping : bool;
  pb_chainID : option Z;
  pb_registry : Registry;
  pb_now : Z;
}.

Section Assess.
  Context (a : Assessor) (p : probe).

Definition databaseComponent : Component :=
  if negb (as_database a) then {| cp_Name := "database"; cp_State := StateOutage; cp_Detail := "not configured" |}
  else if negb (pb_ping p) then {| cp_Name := "database"; cp_State := StateOutage; cp_Detail := "unreachable" |}
  else {| cp_Name := "database"; cp_State := StateOperational; cp_Detail := EmptyString |}.

Definition chainComponent : Component :=
  if negb (as_chain a) then {| cp_Name := "ethereum_rpc"; cp_State := StateOutage; cp_Detail := "not configured" |}
  else
    match pb_chainID p with
    | None => {| cp_Name := "ethereum_rpc"; cp_State := StateOutage; cp_Detail := "unreachable" |}
    | Some chainID =>
        if negb (chainID =? as_expectedChainID a) then
          {| cp_Name := "ethereum_rpc"; cp_State := StateOutage;
             cp_Detail := "reports chain " +:+ FormatInt chainID +:+ ", expected " +:+ FormatInt (as_expectedChainID a) |}
        else {| cp_Name := "ethereum_rpc"; cp_State := StateOperational; cp_Detail := EmptyString |}
    end.

Definition missing_workers : list string :=
  filter (fun worker => WorkerHeartbeats (pb_registry p) !! worker = None) (as_expectedWorkers a).

Definition stale_worker (worker : string) : bool :=
  match WorkerHeartbeats (pb_registry p) !! worker with
  | Some at_ => as_staleAfter a <? pb_now p - at_
  | None => false
  end.

Definition stale_workers : list string := List.filter stale_worker (as_expectedWorkers a).

Definition settlementComponent : Component :=
  let degraded detail := {| cp_Name := "settlement"; cp_State := StateDegraded; cp_Detail := detail |} in
  let count (l : list string) := FormatInt (Z.of_nat (length l)) in
  if negb (as_settlementEnabled a) then
    {| cp_Name := "settlement"; cp_State := StateDisabled; cp_Detail := "no signer configured" |}
  else if negb (as_heartbeats a) then degraded "worker health is not observable"
  else
    match stale_workers, missing_workers with
    | _ :: _, _ :: _ => degraded (count stale_workers +:+ " workers stalled, " +:+ count missing_workers +:+ " never started")
    | _ :: _, [] => degraded (count stale_workers +:+ " workers stalled")
    | [], _ :: _ => degraded (count missing_workers +:+ " workers have not reported yet")
    | [], [] => {| cp_Name := "settlement"; cp_State := StateOperational; cp_Detail := EmptyString |}
    end.

Definition by_name (c d : Component) : Prop := String.leb (cp_Name c) (cp_Name d) = true.

#[export] Instance by_name_dec c d : Decision (by_name c d).
Proof. unfold by_name. apply _. Defined.

Definition Components : list Component :=
  merge_sort by_name [databaseComponent; chainComponent; settlementComponent].

End Assess.

Fixpoint worst (status : string) (components : list Component) : string :=
  match components with
  | [] => status
  | c :: components =>
      if String.eqb (cp_State c) StateOutage then StateOutage
      else if String.eqb (cp_State c) StateDegraded then worst StateDegraded components
      else worst status components
  end.

Definition overall (components : list Component) : string :=
  match components with [] => StateUnknown | _ => worst StateOperational components end.

(** ** stats.go *)

Record Aggregate := {
  ag_RegisteredMerchants : Z;
  ag_VerifiedMerchants : Z;
  ag_TotalVerifications : Z;
  ag_SuccessfulVerifications : Z;
  ag_FailedVerifications : Z;
  ag_TotalSettlementRequests : Z;
  ag_ConfirmedSettlements : Z;
  ag_FailedSettlements : Z;
  ag_TotalPaymentVolumeAtomic : string;
  ag_SettlementsLast24h : Z;
  ag_VolumeLast24hAtomic : string;
  ag_LastConfirmedBlock : Z;
  ag_LatestIndexedBlock : Z;
}.

(** The public response.  The figures it shares with [Aggregate] are kept
    together; the constants that name the service, its version, network and
    asset are left out. *)
Record Response := {
  rp_UptimeSeconds : Z;
  rp_Aggregate : Aggregate;
  rp_TotalPaymentVolumeUSDC : string;
  rp_ConfirmationLagBlocks : Z;
  rp_Status : string;
  rp_Components : list Component;
}.

Record Service := {
  sv_health : option Assessor;
  sv_started : Z;
  sv_ttl : Z;
  sv_publishVolume : bool;
  sv_cached : option (Response * Z);
}.

Definition NewService (health : option Assessor) (started ttl : Z) (publishVolume : bool) : Service :=
  {| sv_health := health; sv_started := started; sv_ttl := ttl; sv_publishVolume := publishVolume; sv_cached := None |}.

(** [int64(d.Seconds())]: the quotient and the remainder are added as floats. *)
Definition whole_seconds (d : Z) : Z :=
  let f := SFadd 53 1024 (float64 (Z.quot d Second)) (SFdiv 53 1024 (float64 (Z.rem d Second)) (float64 Second)) in
  float_trunc f.

Definition uptime (now started : Z) : Z := if now <? started then 0 else whole_seconds (now - started).

Definition zero (value : string) : string := if String.eqb value EmptyString then "0" else value.

Definition with_uptime (u : Z) (r : Response) : Response :=
  {| rp_UptimeSeconds := u; rp_Aggregate := rp_Aggregate r; rp_TotalPaymentVolumeUSDC := rp_TotalPaymentVolumeUSDC r;
     rp_ConfirmationLagBlocks := rp_ConfirmationLagBlocks r; rp_Status := rp_Status r; rp_Components := rp_Components r |}.

Definition with_volumes (total last24h : string) (a : Aggregate) : Aggregate :=
  {| ag_RegisteredMerchants := ag_RegisteredMerchants a; ag_VerifiedMerchants := ag_VerifiedMerchants a;
     ag_TotalVerifications := ag_TotalVerifications a; ag_SuccessfulVerifications := ag_SuccessfulVerifications a;
     ag_FailedVerifications := ag_FailedVerifications a; ag_TotalSettlementRequests := ag_TotalSettlementRequests a;
     ag_ConfirmedSettlements := ag_ConfirmedSettlements a; ag_FailedSettlements := ag_FailedSettlements a;
     ag_TotalPaymentVolumeAtomic := total; ag_SettlementsLast24h := ag_SettlementsLast24h a;
     ag_VolumeLast24hAtomic := last24h; ag_LastConfirmedBlock := ag_LastConfirmedBlock a;
     ag_LatestIndexedBlock := ag_LatestIndexedBlock a |}.

Definition componentsOf (s : Service) (p : probe) : list Component :=
  match sv_health s with None => [] | Some a => Components a p end.

Definition respond (s : Service) (p : probe) (a : Aggregate) (total : string) : Response :=
  let components := componentsOf s p in
  {| rp_UptimeSeconds := uptime (pb_now p) (sv_started s);
     rp_Aggregate :=
       if sv_publishVolume s then with_volumes (zero (ag_TotalPaymentVolumeAtomic a)) (zero (ag_VolumeLast24hAtomic a)) a
       else with_volumes EmptyString EmptyString a;
     rp_TotalPaymentVolumeUSDC := if sv_publishVolume s then total else EmptyString;
     rp_ConfirmationLagBlocks :=
       if ag_LastConfirmedBlock a <? ag_LatestIndexedBlock a then ag_LatestIndexedBlock a - ag_LastConfirmedBlock a else 0;
     rp_Status := overall components; rp_Components := components |}.

(** A request: the response, the service after it, and whether the
    dependencies were probed for it. *)
Definition Get (p : probe) (aggregate : res Aggregate) (s : Service) : res Response * Service * bool :=
  let now := pb_now p in
  let refresh :=
    match aggregate with
    | Err e => (Err e, s, true)
    | Ok a =>
        match FormatUSDC (zero (ag_TotalPaymentVolumeAtomic a)) with
        | Err e => (Err e, s, true)
        | Ok total =>
            let response := respond s p a total in
            (Ok response,
             {| sv_health := sv_health s; sv_started := sv_started s; sv_ttl := sv_ttl s;
                sv_publishVolume := sv_publishVolume s; sv_cached := Some (response, now + sv_ttl s) |},
             true)
        end
    end in
  match sv_cached s with
  | Some (cached, expires) =>
      if now <? expires then (Ok (with_uptime (uptime now (sv_started s)) cached), s, false) else refresh
  | None => refresh
  end.

(** ** The balance reading and the retention pass *)

(** A failed reading leaves the previous value and its instant. *)
Definition observe_balance (balance : res Z) (now : Z) (r : Registry) : Registry :=
  match balance with
  | Err e => if errors_Is e ECanceled then r else add_counter signerBalanceErr 1 r
  | Ok wei => SetSignerBalance (Some wei) (now / Second) r
  end.

(** The outcome of [ApplyRetention], or [None] if it panicked. *)
Definition observe_retention (outcome : option (res Z)) (now : Z) (r : Registry) : Registry :=
  match outcome with
  | None | Some (Err _) => ObserveRetention 0 true (now / Second) r
  | Some (Ok redacted) => ObserveRetention redacted false (now / Second) r
  end.

(** ** What the status says *)

Definition workers_fresh (a : Assessor) (p : probe) : Prop :=
  forall worker, worker ∈ as_expectedWorkers a ->
  exists tick, heartbeats (pb_registry p) !! worker = Some tick /\ pb_now p - tick * Second <= as_staleAfter a.

Definition healthy (a : Assessor) (p : probe) : Prop :=
  as_database a = true /\ pb_ping p = true /\ as_chain a = true /\ pb_chainID p = Some (as_expectedChainID a) /\
  (as_settlementEnabled a = true -> as_heartbeats a = true /\ workers_fresh a p).

Lemma sort_components x y z : cp_Name x = "database" -> cp_Name y = "ethereum_rpc" -> cp_Name z = "settlement" ->
  merge_sort by_name [x; y; z] = [x; y; z].
Proof. destruct x, y, z. cbn. intros -> -> ->. reflexivity. Qed.

Lemma Components_sorted a p : Components a p = [databaseComponent a p; chainComponent a p; settlementComponent a p].
Proof.
  apply sort_components; unfold databaseComponent, chainComponent, settlementComponent; by repeat case_match.
Qed.

Lemma database_state a p :
  cp_State (databaseComponent a p) = StateOperational <-> as_database a = true /\ pb_ping p = true.
Proof. unfold databaseComponent. destruct (as_database a), (pb_ping p); cbn; intuition discriminate. Qed.

Lemma database_or_outage a p :
  cp_State (databaseComponent a p) = StateOperational \/ cp_State (databaseComponent a p) = StateOutage.
Proof. unfold databaseComponent. repeat case_match; auto. Qed.

Lemma chain_state a p : cp_State (chainComponent a p) = StateOperational <->
  as_chain a = true /\ pb_chainID p = Some (as_expectedChainID a).
Proof.
  unfold chainComponent. destruct (as_chain a), (pb_chainID p) as [id|]; cbn; try (intuition discriminate).
  destruct (Z.eqb_spec id (as_expectedChainID a)) as [->|]; cbn; [done|]. split; [discriminate|]. intros [_ [= ->]]. done.
Qed.

Lemma chain_or_outage a p :
  cp_State (chainComponent a p) = StateOperational \/ cp_State (chainComponent a p) = StateOutage.
Proof. unfold chainComponent. repeat case_match; auto. Qed.

Lemma fresh_workers a p : workers_fresh a p <-> stale_workers a p = [] /\ missing_workers a p = [].
Proof.
  unfold workers_fresh, stale_workers, missing_workers. induction (as_expectedWorkers a) as [|w ws IH].
  - split; [done|]. intros _ w Hw. by apply elem_of_nil in Hw.
  - assert (WorkerHeartbeats (pb_registry p) !! w = fmap (fun t => t * Second) (heartbeats (pb_registry p) !! w)) as HW by apply lookup_fmap.
    assert ((forall x, x ∈ w :: ws -> exists tick, heartbeats (pb_registry p) !! x = Some tick /\ pb_now p - tick * Second <= as_staleAfter a) <->
      (exists tick, heartbeats (pb_registry p) !! w = Some tick /\ pb_now p - tick * Second <= as_staleAfter a) /\
      (forall x, x ∈ ws -> exists tick, heartbeats (pb_registry p) !! x = Some tick /\ pb_now p - tick * Second <= as_staleAfter a)) as ->.
    { split; [intros HF; split; [by apply HF; left|intros x Hx; by apply HF; right]|].
      intros [Hw HF] x [->|Hx]%elem_of_cons; [done|by apply HF]. }
    rewrite IH, filter_cons. cbn [List.filter]. unfold stale_worker at 2. rewrite HW.
    destruct (heartbeats (pb_registry p) !! w) as [t|]; cbn.
    + rewrite decide_False by done. destruct (Z.ltb_spec (as_staleAfter a) (pb_now p - t * Second)) as [Hlt|Hle].
      * split; [|by intros [[=] _]]. intros [(t' & [= <-] & Ht) _]. lia.
      * split; [by intros [_ ?]|]. intros HF. split; [by exists t|done].
    + rewrite decide_True by done. split; [by intros [(? & [=] & _) _]|by intros [_ [=]]].
Qed.

Lemma settlement_state a p :
  cp_State (settlementComponent a p) <> StateOutage /\
  (cp_State (settlementComponent a p) <> StateDegraded <->
   (as_settlementEnabled a = true -> as_heartbeats a = true /\ workers_fresh a p)).
Proof.
  unfold settlementComponent. rewrite fresh_workers. destruct (as_settlementEnabled a); cbn [negb];
    [|by split; [discriminate|]; split; [|discriminate]].
  destruct (as_heartbeats a); cbn [negb]; [|split; [discriminate|]; cbn; split; [done|by intros [[=] _]]].
  destruct (stale_workers a p), (missing_workers a p); (split; [discriminate|]); cbn [cp_State];
    unfold StateDegraded, StateOperational; (split; [intros H _; done || by destruct H|]); intros H;
    try discriminate; by destruct (H eq_refl) as [_ [[=] [=]]].
Qed.

(** The overall status is operational exactly when nothing is wrong. *)
Lemma overall_operational a p : overall (Components a p) = StateOperational <-> healthy a p.
Proof.
  rewrite Components_sorted. unfold overall, healthy.
  pose proof (database_state a p) as HD. pose proof (database_or_outage a p) as HD'.
  pose proof (chain_state a p) as HC. pose proof (chain_or_outage a p) as HC'.
  destruct (settlement_state a p) as [HO HS]. rewrite <- HS. cbn [worst].
  unfold StateOperational, StateOutage, StateDegraded in *.
  destruct HD' as [ED|ED], HC' as [EC|EC]; rewrite ED, ?EC; cbn [String.eqb Ascii.eqb Bool.eqb].
  - destruct (String.eqb_spec (cp_State (settlementComponent a p)) "outage") as [E|_]; [done|].
    destruct (String.eqb_spec (cp_State (settlementComponent a p)) "degraded") as [E|E].
    + split; [discriminate|]. intros (_ & _ & _ & _ & H). done.
    + split; [|done]. intros _. tauto.
  - split; [discriminate|]. intros (_ & _ & H3 & H4 & _). rewrite (proj2 HC (conj H3 H4)) in EC. discriminate.
  - split; [discriminate|]. intros (H1 & H2 & _). rewrite (proj2 HD (conj H1 H2)) in ED. discriminate.
  - split; [discriminate|]. intros (H1 & H2 & _). rewrite (proj2 HD (conj H1 H2)) in ED. discriminate.
Qed.

(** ** Visits *)

Record visit := {
  vt_probe : probe;
  vt_aggregate : res Aggregate;
  vt_answer : res Response;
  vt_probed : bool;
}.

Definition vt_now (v : visit) : Z := pb_now (vt_probe v).

(** The visits so far, the latest first, and the service after them; the
    clock does not go back. *)
Inductive stats_run (s0 : Service) : list visit -> Service -> Prop :=
  | visits_none : stats_run s0 [] s0
  | visits_more past s p aggregate answer s' probed :
      stats_run s0 past s -> Forall (fun v => vt_now v <= pb_now p) past -> Get p aggregate s = (answer, s', probed) ->
      stats_run s0 ({| vt_probe := p; vt_aggregate := aggregate; vt_answer := answer; vt_probed := probed |} :: past) s'.

(** What a visit answers comes from the probes of visit [v0]. *)
Definition rests_on (a : Assessor) (publish : bool) (v0 : visit) (r : Response) : Prop :=
  vt_probed v0 = true /\ rp_Components r = Components a (vt_probe v0) /\ rp_Status r = overall (rp_Components r) /\
  (publish = false -> rp_TotalPaymentVolumeUSDC r = EmptyString /\
     ag_TotalPaymentVolumeAtomic (rp_Aggregate r) = EmptyString /\ ag_VolumeLast24hAtomic (rp_Aggregate r) = EmptyString).

Section Visits.
  Context (a : Assessor) (started ttl : Z) (publish : bool) (Httl : 0 <= ttl).

Local Notation s0 := (NewService (Some a) started ttl publish).

Definition cache_ok (past : list visit) (s : Service) : Prop :=
  sv_health s = Some a /\ sv_ttl s = ttl /\ sv_publishVolume s = publish /\
  (forall r e, sv_cached s = Some (r, e) -> exists v0, v0 ∈ past /\ rests_on a publish v0 r /\ e = vt_now v0 + ttl) /\
  (forall v, v ∈ past -> vt_probed v = true -> is_ok (vt_answer v) = true ->
     exists r e, sv_cached s = Some (r, e) /\ vt_now v + ttl <= e).

(** The two ways a visit is answered. *)
Lemma Get_cases p aggregate s answer s' probed : Get p aggregate s = (answer, s', probed) ->
  (exists r e, sv_cached s = Some (r, e) /\ pb_now p < e /\ probed = false /\ s' = s /\
     answer = Ok (with_uptime (uptime (pb_now p) (sv_started s)) r)) \/
  (probed = true /\ (forall r e, sv_cached s = Some (r, e) -> e <= pb_now p) /\
   ((exists e, answer = Err e /\ s' = s) \/
    exists ag total, aggregate = Ok ag /\ answer = Ok (respond s p ag total) /\
      sv_health s' = sv_health s /\ sv_ttl s' = sv_ttl s /\ sv_publishVolume s' = sv_publishVolume s /\
      sv_cached s' = Some (respond s p ag total, pb_now p + sv_ttl s))).
Proof.
  unfold Get. set (refresh := match aggregate with Ok _ => _ | Err _ => _ end).
  assert (forall x, refresh = x -> x = (answer, s', probed) -> probed = true /\
    ((exists e, answer = Err e /\ s' = s) \/
     exists ag total, aggregate = Ok ag /\ answer = Ok (respond s p ag total) /\
      sv_health s' = sv_health s /\ sv_ttl s' = sv_ttl s /\ sv_publishVolume s' = sv_publishVolume s /\
      sv_cached s' = Some (respond s p ag total, pb_now p + sv_ttl s))) as HR.
  { intros x <-. unfold refresh. destruct aggregate as [ag|e]; [|intros [= <- <- <-]; eauto].
    destruct (FormatUSDC _) as [total|e]; intros [= <- <- <-]; [|eauto].
    split; [done|]. right. exists ag, total. by split_and!. }
  destruct (sv_cached s) as [[r e]|].
  - destruct (Z.ltb_spec (pb_now p) e) as [Hlt|Hle].
    + intros [= <- <- <-]. left. by exists r, e.
    + intros E. destruct (HR _ eq_refl E) as [-> HC]. right. split; [done|]. split; [by intros ? ? [= <- <-]|done].
  - intros E. destruct (HR _ eq_refl E) as [-> HC]. right. by split.
Qed.

Lemma rests_on_respond p ag total v0 s : sv_health s = Some a -> sv_publishVolume s = publish ->
  vt_probe v0 = p -> vt_probed v0 = true -> rests_on a publish v0 (respond s p ag total).
Proof.
  intros Hh Hp <- Hv. unfold rests_on, respond, componentsOf. rewrite Hh, Hp. cbn.
  split; [done|]. split; [done|]. split; [done|]. by intros ->.
Qed.

Lemma rests_on_uptime v0 u r : rests_on a publish v0 r -> rests_on a publish v0 (with_uptime u r).
Proof. by intros ?. Qed.

Lemma run_cache past s : stats_run s0 past s -> cache_ok past s.
Proof.
  induction 1 as [|past s p aggregate answer s' probed R (Hh & Ht & Hp & HC & HS) HF E].
  { unfold cache_ok. cbn. split_and!; try done. intros v Hv. by apply elem_of_nil in Hv. }
  set (v := {| vt_probe := p |}). destruct (Get_cases _ _ _ _ _ _ E) as [(r & e & Hc & Hlt & -> & -> & ->)|(-> & Hexp & HG)].
  - split_and!; try done.
    + intros r' e' Hc'. destruct (HC _ _ Hc') as (v0 & Hv0 & Hr). exists v0. split; [by right|done].
    + intros v' [->|Hv']%elem_of_cons; [done|by apply HS].
  - destruct HG as [(e & -> & ->)|(ag & total & -> & -> & Hh' & Ht' & Hp' & Hc')].
    + split_and!; try done.
      * intros r' e' Hc'. destruct (HC _ _ Hc') as (v0 & Hv0 & Hr). exists v0. split; [by right|done].
      * intros v' [->|Hv']%elem_of_cons; [done|by apply HS].
    + unfold cache_ok. rewrite Hh', Ht', Hp', Hc'. split_and!; try done.
      * intros r e [= <- <-]. exists v. split; [by left|]. split; [by apply rests_on_respond|]. by rewrite Ht.
      * intros v' [->|Hv']%elem_of_cons _ _; eexists _, _; (split; [done|]); rewrite Ht; unfold vt_now; [done|].
        rewrite Forall_forall in HF. specialize (HF v' Hv'). unfold vt_now in HF. lia.
Qed.

Lemma run_suffix l1 v l2 s : stats_run s0 (l1 ++ v :: l2)%list s ->
  exists sm sm', stats_run s0 l2 sm /\ Forall (fun u => vt_now u <= vt_now v) l2 /\
    Get (vt_probe v) (vt_aggregate v) sm = (vt_answer v, sm', vt_probed v) /\ stats_run s0 (v :: l2) sm'.
Proof.
  revert s. induction l1 as [|u l1 IH]; cbn; intros s R.
  - inversion R as [|past sm p ag answer sm' probed R' HF E]; subst. exists sm, s. by split_and!.
  - inversion R as [|past sm p ag answer sm' probed R' HF E]; subst. by apply (IH sm).
Qed.

(** C33. The public status is honest.  An answer is what the probes of this
    visit found, or of an earlier one no longer ago than the cache lives; it
    says operational exactly when then the database answered, the chain was the
    expected one and, if settlement is enabled, every worker had ticked
    recently; and it carries no volume unless the operator publishes it.
    Visits probe the dependencies at most once in the life of the cache as
    long as the figures can be read; once they cannot, every visit does. *)
Theorem status_honest past s :
  stats_run s0 past s ->
  (forall v r, v ∈ past -> vt_answer v = Ok r -> exists v0, v0 ∈ past /\ rests_on a publish v0 r /\
     vt_now v0 <= vt_now v /\ (v0 = v \/ vt_now v < vt_now v0 + ttl) /\
     (rp_Status r = StateOperational <-> healthy a (vt_probe v0))) /\
  (forall l1 v2 l2 v1, past = (l1 ++ v2 :: l2)%list -> v1 ∈ l2 -> vt_probed v1 = true -> vt_probed v2 = true ->
     is_ok (vt_answer v1) = true -> vt_now v1 + ttl <= vt_now v2) /\
  (forall l1 v2 v1 l2, past = (l1 ++ v2 :: v1 :: l2)%list -> vt_probed v1 = true -> is_ok (vt_answer v1) = false ->
     vt_probed v2 = true).
Proof.
  intros R. assert (forall v0 r, rests_on a publish v0 r -> rp_Status r = StateOperational <-> healthy a (vt_probe v0)) as HO.
  { intros v0 r (_ & Hc & -> & _). rewrite Hc. apply overall_operational. }
  split_and!.
  - intros v r (l1 & l2 & E)%list_elem_of_split Hr. rewrite E in R.
    destruct (run_suffix _ _ _ _ R) as (sm & sm' & R' & HF & EG & _). rewrite Forall_forall in HF.
    destruct (run_cache _ _ R') as (Hh & Ht & Hp & HC & _). rewrite Hr in EG.
    destruct (Get_cases _ _ _ _ _ _ EG) as [(r0 & e & Hc & Hlt & _ & _ & [= ->])|(Hv & _ & [(? & ? & _)|(ag & total & _ & [= ->] & _)])]; [|done|].
    + destruct (HC _ _ Hc) as (v0 & Hv0 & Hro & ->). exists v0. split; [rewrite E; set_solver|].
      pose proof (rests_on_uptime _ (uptime (pb_now (vt_probe v)) (sv_started sm)) _ Hro) as Hro'. split; [done|].
      split; [by apply HF|]. split; [by right|by apply HO].
    + exists v. split; [rewrite E; set_solver|]. pose proof (rests_on_respond _ ag total v sm Hh Hp eq_refl Hv) as Hro.
      split; [done|]. split; [done|]. split; [by left|by apply HO].
  - intros l1 v2 l2 v1 -> Hv1 Hp1 Hp2 Hok. destruct (run_suffix _ _ _ _ R) as (sm & sm' & R' & _ & EG & _).
    destruct (run_cache _ _ R') as (_ & _ & _ & _ & HS). destruct (HS v1 Hv1 Hp1 Hok) as (r & e & Hc & Hle). rewrite Hp2 in EG.
    destruct (Get_cases _ _ _ _ _ _ EG) as [(? & ? & _ & _ & ? & _)|(_ & Hexp & _)]; [done|].
    specialize (Hexp _ _ Hc). unfold vt_now in *. lia.
  - intros l1 v2 v1 l2 -> Hp1 Hok. destruct (run_suffix _ _ _ _ R) as (sm & sm' & R' & HF & EG & _).
    apply Forall_cons in HF as [Hle _]. inversion R' as [|past' sm1 p ag answer ? probed R1 HF1 E1]; subst. cbn in *. subst.
    destruct (Get_cases _ _ _ _ _ _ E1) as [(? & ? & _ & _ & ? & _)|(_ & Hexp & HG)]; [done|].
    destruct HG as [(e & -> & ->)|(ag' & total & _ & -> & _)]; [|done].
    destruct (Get_cases _ _ _ _ _ _ EG) as [(r & e' & Hc & Hlt & _)|(? & _)]; [|done].
    specialize (Hexp _ _ Hc). unfold vt_now in *. cbn in *. lia.
Qed.

End Visits.

(** ** Witness: two visits within the life of the cache, and one after it *)

Definition demo_aggregate : Aggregate :=
  {| ag_RegisteredMerchants := 1; ag_VerifiedMerchants := 1; ag_TotalVerifications := 3; ag_SuccessfulVerifications := 2;
     ag_FailedVerifications := 1; ag_TotalSettlementRequests := 2; ag_ConfirmedSettlements := 1; ag_FailedSettlements := 0;
     ag_TotalPaymentVolumeAtomic := "2500000"; ag_SettlementsLast24h := 1; ag_VolumeLast24hAtomic := "2500000";
     ag_LastConfirmedBlock := 100; ag_LatestIndexedBlock := 112 |}.

Definition demo_assessor : Assessor :=
  NewAssessor {| as_database := true; as_chain := true; as_expectedChainID := 1; as_heartbeats := true;
                 as_expectedWorkers := ["broadcast"]; as_staleAfter := 0; as_settlementEnabled := true; as_probeTimeout := 0 |}.

Definition demo_probe (now : Z) : probe :=
  {| pb_ping := true; pb_chainID := Some 1; pb_registry := Heartbeat "broadcast" 1000 NewRegistry; pb_now := now |}.

(** The visits at the given instants, all with the same figures. *)
Fixpoint visits_after (past : list visit) (s : Service) (times : list Z) : list visit * Service :=
  match times with
  | [] => (past, s)
  | now :: times =>
      let '(answer, s', probed) := Get (demo_probe now) (Ok demo_aggregate) s in
      visits_after ({| vt_probe := demo_probe now; vt_aggregate := Ok demo_aggregate; vt_answer := answer;
                       vt_probed := probed |} :: past) s' times
  end.

Fixpoint ordered_from (from : Z) (times : list Z) : Prop :=
  match times with [] => True | now :: times => from <= now /\ ordered_from now times end.

Lemma visits_after_run s0 past s from times :
  stats_run s0 past s -> Forall (fun v => vt_now v <= from) past -> ordered_from from times ->
  stats_run s0 (visits_after past s times).1 (visits_after past s times).2.
Proof.
  revert past s from. induction times as [|now times IH]; intros past s from R HF Ho; [done|].
  cbn [visits_after]. destruct (Get (demo_probe now) (Ok demo_aggregate) s) as [[answer s'] probed] eqn:E.
  destruct Ho as [Hle Ho].
  assert (Forall (fun v => vt_now v <= now) past) as HF' by (eapply Forall_impl; [exact HF|]; cbn; lia).
  apply IH with now; [|constructor; [unfold vt_now; cbn; lia|done]|done]. by econstructor.
Qed.

Definition demo_visits : list visit * Service :=
  visits_after [] (NewService (Some demo_assessor) 0 (10 * Second) false)
    [1001 * Second; 1005 * Second; 1011 * Second; 1100 * Second].

Lemma status_honest_witness :
  map vt_probed demo_visits.1 = [true; true; false; true] /\
  map (fun v => match vt_answer v with Ok r => rp_Status r | Err _ => EmptyString end) demo_visits.1 =
    ["degraded"; "operational"; "operational"; "operational"] /\
  forall v r, v ∈ demo_visits.1 -> vt_answer v = Ok r ->
    exists v0, v0 ∈ demo_visits.1 /\ rests_on demo_assessor false v0 r.
Proof.
  split; [vm_compute; reflexivity|]. split; [vm_compute; reflexivity|].
  assert (0 <= 10 * Second) as Ht by (vm_compute; discriminate).
  assert (stats_run (NewService (Some demo_assessor) 0 (10 * Second) false) demo_visits.1 demo_visits.2) as R.
  { apply visits_after_run with 0; [exact (visits_none _)|exact (Forall_nil_2 _)|].
    repeat split; vm_compute; discriminate. }
  intros v r Hv Hr.
  destruct (proj1 (status_honest demo_assessor 0 (10 * Second) false Ht demo_visits.1 demo_visits.2 R) v r Hv Hr)
    as (v0 & Hv0 & Hro & _).
  exists v0. exact (conj Hv0 Hro).
Defined.
