(* ===== verification/Migrate.v ===== *)
(** [internal/migrate] and [cmd/migrate]: the embedded migrations, applied and
    reverted one transaction at a time, and the check at start-up that the
    database carries exactly those of the binary.

    What PostgreSQL does with the text of a migration is a parameter, and so is
    the collation by which it orders versions.  The advisory lock lets one
    runner at a time through, so a run is a function of the database. *)

From Stdlib Require Import ZArith Lia Ascii.
From stdpp Require Import base gmap strings list sorting.
From S2P Require Import Prelude GoStd GoNet GoUrl Config.

Local Open Scope string_scope.

(** An entry of the embedded directory. *)
Record entry := { en_name : string; en_dir : bool; en_sql : string }.

Definition HasSuffix (s suffix : string) : bool :=
  (String.length suffix <=? String.length s)%nat &&
  String.eqb (drop_str (String.length s - String.length suffix) s) suffix.

Definition TrimSuffix (s suffix : string) : string :=
  if HasSuffix s suffix then take_str (String.length s - String.length suffix) s else s.

(** [fs.ReadFile]. *)
Fixpoint ReadFile (files : list entry) (name : string) : option string :=
  match files with
  | [] => None
  | e :: files => if String.eqb (en_name e) name && negb (en_dir e) then Some (en_sql e) else ReadFile files name
  end.

Definition migrationNames (files : list entry) (suffix : string) : list string :=
  merge_sort String.le
    (map en_name (List.filter (fun e => negb (en_dir e) && HasSuffix (en_name e) suffix) files)).

Definition version_of (name : string) : string := TrimSuffix name ".up.sql".

(** The versions the binary requires, in order. *)
Definition expected_versions (files : list entry) : list string := map version_of (migrationNames files ".up.sql").

Inductive migrate_error :=
  | NoVersionTable
  | NoVersions
  | NoFile (name : string)
  | ApplyFailed (version : string)
  | RevertFailed (version : string)
  | CommitFailed (version : string)
  | Mismatch.

(** A commit is acknowledged, or fails; the work of a failed one may still be
    durable, when only the acknowledgement was lost. *)
Inductive commit := Acknowledged | Failed (durable : bool).

Section Migrate.
  Context {S : Type}.

(** The schema and data of the database, and its table of versions. *)
Record migration_db := { md_versions : option (gset string); md_schema : S }.

Context (run_sql : string -> S -> option S).
Context (has_replacement_nonce : S -> bool).
Context (collated : gset string -> list string).
(** How the transaction that applies or reverts a version ends. *)
Context (commits : string -> commit).

Definition CheckApplied (files : list entry) (d : migration_db) : option migrate_error :=
  match md_versions d with
  | None => Some NoVersionTable
  | Some applied =>
      let applied := collated applied in
      let expected := expected_versions files in
      if negb (length applied =? length expected)%nat then Some Mismatch
      else if forallb (fun p => String.eqb (fst p) (snd p)) (combine applied expected) then None else Some Mismatch
  end.

(** One migration in its own transaction: the text, then the version. *)
Definition apply_one (files : list entry) (name : string) (versions : gset string) (schema : S) :
    gset string * S * option migrate_error :=
  let version := version_of name in
  match ReadFile files name with
  | None => (versions, schema, Some (NoFile name))
  | Some sql =>
      match run_sql sql schema with
      | None => (versions, schema, Some (ApplyFailed version))
      | Some schema' =>
          match commits version with
          | Acknowledged => ({[version]} ∪ versions, schema', None)
          | Failed true => ({[version]} ∪ versions, schema', Some (CommitFailed version))
          | Failed false => (versions, schema, Some (CommitFailed version))
          end
      end
  end.

(** The migrations in order, those applied already skipped; a failure leaves
    what was committed before it. *)
Fixpoint up_each (files : list entry) (names : list string) (versions : gset string) (schema : S) :
    gset string * S * option migrate_error :=
  match names with
  | [] => (versions, schema, None)
  | name :: names =>
      if bool_decide (version_of name ∈ versions) then up_each files names versions schema
      else
        match apply_one files name versions schema with
        | (versions, schema, None) => up_each files names versions schema
        | failed => failed
        end
  end.

Definition Up (files : list entry) (d : migration_db) : migration_db * option migrate_error :=
  let '(versions, schema, e) :=
    up_each files (migrationNames files ".up.sql") (default ∅ (md_versions d)) (md_schema d) in
  ({| md_versions := Some versions; md_schema := schema |}, e).

Definition Down (files : list entry) (d : migration_db) : migration_db * option migrate_error :=
  match md_versions d with
  | None => (d, Some NoVersionTable)
  | Some versions =>
      match last (collated versions) with
      | None => (d, Some NoVersions)
      | Some version =>
          match ReadFile files (version +:+ ".down.sql") with
          | None => (d, Some (NoFile (version +:+ ".down.sql")))
          | Some sql =>
              if String.eqb version "000004_settlement_recovery" && has_replacement_nonce (md_schema d) then
                (d, Some (RevertFailed version))
              else
                match run_sql sql (md_schema d) with
                | None => (d, Some (RevertFailed version))
                | Some schema =>
                    let reverted := {| md_versions := Some (versions ∖ {[version]}); md_schema := schema |} in
                    match commits version with
                    | Acknowledged => (reverted, None)
                    | Failed durable => (if durable then reverted else d, Some (CommitFailed version))
                    end
                end
          end
      end
  end.

End Migrate.

Arguments migration_db : clear implicits.

(** ** cmd/migrate *)

Definition migrationDatabaseURL (env : string -> string) : option string :=
  let databaseURL := env "ETH402_DATABASE_URL" in
  let environment := if String.eqb (env "ETH402_ENV") EmptyString then "development" else env "ETH402_ENV" in
  if String.eqb databaseURL EmptyString then None
  else if negb (String.eqb environment "development") && negb (String.eqb environment "test") &&
          negb (String.eqb environment "production") then None
  else if negb (String.eqb environment "production") then Some databaseURL
  else if verified_database databaseURL then Some databaseURL
  else None.

(** The exit status; [connects] says whether the connection can be opened. *)
Definition migrate_main {S} (args : list string) (env : string -> string) (connects : string -> bool)
    (up down : migration_db S -> migration_db S * option migrate_error) (d : migration_db S) : migration_db S * Z :=
  match args with
  | [direction] =>
      if negb (String.eqb direction "up") && negb (String.eqb direction "down") then (d, 2)%Z
      else
        match migrationDatabaseURL env with
        | None => (d, 1)%Z
        | Some url =>
            if negb (connects url) then (d, 1)%Z
            else
              let '(d, e) := if String.eqb direction "up" then up d else down d in
              (d, match e with None => 0 | Some _ => 1 end)%Z
        end
  | _ => (d, 2)%Z
  end.

(** ** Convergence *)

Section Converge.
  Context {S : Type} (run_sql : string -> S -> option S) (has_replacement_nonce : S -> bool).
  Context (collated : gset string -> list string) (files : list entry).

(** The texts of some migrations, one after the other. *)
Fixpoint apply_all (names : list string) (schema : S) : option S :=
  match names with
  | [] => Some schema
  | name :: names =>
      match ReadFile files name with
      | None => None
      | Some sql => match run_sql sql schema with Some schema => apply_all names schema | None => None end
      end
  end.

Definition versions_of (names : list string) : gset string := list_to_set (map version_of names).

Lemma apply_all_app l k s : apply_all (l ++ k)%list s = match apply_all l s with Some s' => apply_all k s' | None => None end.
Proof.
  revert s. induction l as [|n l IH]; intros s; [done|]. cbn. destruct (ReadFile files n) as [sql|]; [|done].
  destruct (run_sql sql s); [apply IH|done].
Qed.

Lemma up_each_skip commits pre suf versions schema :
  versions_of pre ⊆ versions ->
  up_each run_sql commits files (pre ++ suf)%list versions schema = up_each run_sql commits files suf versions schema.
Proof.
  induction pre as [|n pre IH]; [done|]. unfold versions_of. cbn. intros Hs.
  rewrite bool_decide_eq_true_2 by set_solver. apply IH. unfold versions_of. set_solver.
Qed.

(** The remaining migrations are applied in order, up to a failure. *)
Lemma up_each_rest commits pre suf schema versions' schema' e :
  NoDup (map version_of (pre ++ suf)%list) ->
  up_each run_sql commits files suf (versions_of pre) schema = (versions', schema', e) ->
  exists done rest, suf = (done ++ rest)%list /\ versions' = versions_of (pre ++ done)%list /\
    apply_all done schema = Some schema' /\ (e = None -> rest = []).
Proof.
  revert pre schema. induction suf as [|n suf IH]; intros pre schema Hnd E; cbn in E.
  { injection E as <- <- <-. exists [], []. rewrite (app_nil_r pre). by split_and!. }
  assert (version_of n ∉ versions_of pre) as Hn.
  { unfold versions_of. rewrite elem_of_list_to_set. rewrite map_app, NoDup_app in Hnd. intros Hin.
    destruct Hnd as (_ & Hd & _). apply (Hd _ Hin). cbn. by left. }
  rewrite bool_decide_eq_false_2 in E by done.
  assert ({[version_of n]} ∪ versions_of pre = versions_of (pre ++ [n])%list) as HV.
  { unfold versions_of. rewrite map_app, list_to_set_app_L. cbn. set_solver. }
  unfold apply_one in E. destruct (ReadFile files n) as [sql|] eqn:ER;
    [|injection E as <- <- <-; exists [], (n :: suf); rewrite (app_nil_r pre); by split_and!].
  destruct (run_sql sql schema) as [s|] eqn:ES; [|injection E as <- <- <-; exists [], (n :: suf); rewrite (app_nil_r pre); by split_and!].
  destruct (commits (version_of n)) as [|[]].
  - rewrite HV in E. apply IH in E as (dn & rest & -> & -> & HA & He); [|by rewrite <- app_assoc].
    exists (n :: dn), rest. rewrite <- app_assoc. split; [done|]. split; [done|]. cbn. rewrite ER, ES. by split.
  - injection E as <- <- <-. exists [n], suf. split; [done|]. split; [done|]. cbn. rewrite ER, ES. by split.
  - injection E as <- <- <-. exists [], (n :: suf). rewrite (app_nil_r pre). by split_and!.
Qed.

Local Abbreviation names := (migrationNames files ".up.sql").

(** Some of the migrations, the first ones, are applied. *)
Definition applied_upto (s0 : S) (k : nat) (d : migration_db S) : Prop :=
  (k <= length names)%nat /\ default ∅ (md_versions d) = versions_of (take k names) /\
  apply_all (take k names) s0 = Some (md_schema d).

Context (distinct : NoDup (expected_versions files)).

Lemma Up_applied commits s0 k d d' e :
  applied_upto s0 k d -> Up run_sql commits files d = (d', e) ->
  exists k', (k <= k')%nat /\ applied_upto s0 k' d' /\ is_Some (md_versions d') /\ (e = None -> k' = length names).
Proof.
  unfold Up. intros (Hk & Hv & Ha) E. rewrite Hv in E. rewrite <- (take_drop k names) in E at 1.
  rewrite up_each_skip in E by done.
  destruct (up_each run_sql commits files (drop k names) (versions_of (take k names)) (md_schema d)) as [[vs sch] e'] eqn:EU.
  injection E as <- <-. apply up_each_rest in EU as (dn & rest & Hd & -> & HA & He); [|by rewrite take_drop].
  assert (take (k + length dn) names = take k names ++ dn)%list as Ht.
  { rewrite <- (take_drop k names) at 1. rewrite Hd, app_assoc. rewrite take_app_le; [|rewrite length_app, length_take; lia].
    rewrite firstn_all2; [done|]. rewrite length_app, length_take. lia. }
  exists (k + length dn)%nat. split; [lia|]. split_and!.
  - split_and!; cbn; [|by rewrite Ht|by rewrite Ht, apply_all_app, Ha].
    apply (f_equal length) in Hd. rewrite length_drop, length_app in Hd. lia.
  - eexists. done.
  - intros ->. rewrite He in Hd by done. apply (f_equal length) in Hd. rewrite length_drop, app_nil_r in Hd. lia.
Qed.

(** Runs of the migrator, the latest first: how the commits of each ended, and
    what it returned. *)
Fixpoint runs (outcomes : list (string -> commit)) (d : migration_db S) : migration_db S * option migrate_error :=
  match outcomes with
  | [] => (d, None)
  | commits :: outcomes => Up run_sql commits files (runs outcomes d).1
  end.

Context (collated_elements : forall vs, collated vs ≡ₚ elements vs).
Context (collated_order : collated (list_to_set (expected_versions files)) = expected_versions files).

Lemma versions_of_names : versions_of names = list_to_set (expected_versions files).
Proof. done. Qed.

Lemma CheckApplied_exact (d : migration_db S) :
  CheckApplied collated files d = None <-> md_versions d = Some (versions_of names).
Proof.
  unfold CheckApplied. destruct (md_versions d) as [vs|]; [|done].
  assert (forall l k : list string, length l = length k ->
    forallb (fun p => String.eqb (fst p) (snd p)) (combine l k) = true -> l = k) as HE.
  { induction l as [|x l IH]; intros [|y k]; cbn; [done..|]. intros [= Hl] [->%String.eqb_eq Hk]%andb_true_iff. by rewrite (IH k). }
  split.
  - destruct (Nat.eqb_spec (length (collated vs)) (length (expected_versions files))) as [Hl|]; cbn [negb]; [|done].
    destruct (forallb _ _) eqn:EF; [|done]. intros _. f_equal. apply HE in EF; [|done].
    apply set_eq. intros v. rewrite <- (elem_of_elements vs), <- (collated_elements vs), EF.
    unfold versions_of. by rewrite elem_of_list_to_set.
  - intros [= ->]. rewrite versions_of_names, collated_order, Nat.eqb_refl. cbn [negb].
    assert (forall l : list string, forallb (fun p => String.eqb (fst p) (snd p)) (combine l l) = true) as HR.
    { induction l as [|x l IH]; [done|]. cbn. by rewrite String.eqb_refl. }
    by rewrite HR.
Qed.

Lemma runs_applied outcomes s0 :
  exists k, applied_upto s0 k (runs outcomes {| md_versions := None; md_schema := s0 |}).1 /\
    (outcomes <> [] -> (runs outcomes {| md_versions := None; md_schema := s0 |}).2 = None -> k = length names).
Proof.
  induction outcomes as [|commits outcomes (k & HA & _)].
  { exists 0%nat. split; [|done]. split_and!; cbn; [lia|done..]. }
  cbn. destruct (Up run_sql commits files _) as [d' e] eqn:E.
  destruct (Up_applied _ _ _ _ _ _ HA E) as (k' & _ & HA' & _ & He). exists k'. by split.
Qed.

Lemma Down_removes commits d d' e :
  Down run_sql has_replacement_nonce collated commits files d = (d', e) ->
  d' = d /\ e <> None \/
  exists vs version, md_versions d = Some vs /\ last (collated vs) = Some version /\ md_versions d' = Some (vs ∖ {[version]}).
Proof.
  unfold Down. destruct (md_versions d) as [vs|]; [|intros [= <- <-]; by left].
  destruct (last (collated vs)) as [version|] eqn:EL; [|intros [= <- <-]; by left].
  destruct (ReadFile _ _); [|intros [= <- <-]; by left]. destruct (_ && _); [intros [= <- <-]; by left|].
  destruct (run_sql _ _); [|intros [= <- <-]; by left].
  destruct (commits version) as [|[]]; intros [= <- <-]; [right|right|by left]; by exists vs, version.
Qed.

Lemma versions_full k : (k <= length names)%nat -> versions_of (take k names) = versions_of names -> k = length names.
Proof.
  intros Hk E. apply (f_equal size) in E. unfold versions_of in E.
  assert (NoDup (map version_of (take k names))) as Hnd.
  { pose proof distinct as Hd. unfold expected_versions in Hd. rewrite <- (take_drop k names), map_app in Hd.
    by apply NoDup_app in Hd as [? _]. }
  rewrite !size_list_to_set in E by done. rewrite !length_map, length_take in E. lia.
Qed.

(** C34. Migrating converges.  However often the migrator was stopped, failed
    or lost an acknowledgement, a prefix of the migrations has been applied,
    each once and in order; when a run reports success all of them have; and
    the start-up check accepts exactly the databases that carry all of them.
    Reverting takes away the last version, or changes nothing. *)
Theorem migrations_converge outcomes s0 :
  let '(d, e) := runs outcomes {| md_versions := None; md_schema := s0 |} in
  (exists k, applied_upto s0 k d /\ (outcomes <> [] -> e = None -> k = length names) /\
     (CheckApplied collated files d = None -> k = length names)) /\
  (outcomes <> [] -> e = None -> CheckApplied collated files d = None) /\
  (forall commits d' e', Down run_sql has_replacement_nonce collated commits files d = (d', e') ->
     d' = d /\ e' <> None \/
     exists vs version, md_versions d = Some vs /\ last (collated vs) = Some version /\ md_versions d' = Some (vs ∖ {[version]})).
Proof.
  destruct (runs_applied outcomes s0) as (k & HA & Hk).
  destruct (runs outcomes {| md_versions := None; md_schema := s0 |}) as [d e] eqn:E. cbn [fst snd] in *. split_and!.
  - exists k. split; [done|]. split; [done|]. rewrite CheckApplied_exact. intros Hv. destruct HA as (Hle & Hd & _).
    rewrite Hv in Hd. by apply versions_full.
  - intros Hne ->. apply CheckApplied_exact. destruct outcomes as [|commits outcomes]; [done|]. cbn in E.
    destruct (runs_applied outcomes s0) as (k0 & HA0 & _).
    destruct (Up_applied _ _ _ _ _ _ HA0 E) as (k' & _ & (_ & Hd & _) & [vs Hvs] & He).
    rewrite He, firstn_all, Hvs in Hd by done. cbn in Hd. by rewrite Hvs, Hd.
  - intros commits d' e'. apply Down_removes.
Qed.

End Converge.

(** ** Witness: the migrations of the repository *)

(** The names under [migrations/]; the texts are known by their names. *)
Definition migration_stems : list string :=
  ["000001_initial"; "000002_signer_accounts"; "000003_settlement_signature"; "000004_settlement_recovery";
   "000005_merchant_settlement_quota"; "000006_recovery_sighash"; "000007_gap_filler_raw_transaction";
   "000008_merchant_fair_use"; "000009_payment_retention"; "000010_ambiguous_retry_backoff"; "000011_merchant_admin_panel";
   "000012_public_merchant_profiles"; "000013_email_delivery_outbox"].

Definition Files : list entry :=
  flat_map (fun s => [{| en_name := s +:+ ".down.sql"; en_dir := false; en_sql := "down " +:+ s |};
                      {| en_name := s +:+ ".up.sql"; en_dir := false; en_sql := "up " +:+ s |}]) migration_stems.

(** A database that logs what it runs, in byte order of the versions; the
    third commit of the first run is lost. *)
Definition log_sql (sql : string) (log : list string) : option (list string) := Some (sql :: log).

Definition byte_order (vs : gset string) : list string := merge_sort String.le (elements vs).

Definition demo_outcomes : list (string -> commit) :=
  [fun _ => Acknowledged; fun v => if String.eqb v "000003_settlement_signature" then Failed true else Acknowledged].

Lemma demo_distinct : NoDup (expected_versions Files).
Proof. apply (bool_decide_unpack _). vm_compute. exact I. Qed.

Lemma migrations_converge_witness :
  let '(d, e) := runs log_sql Files demo_outcomes {| md_versions := None; md_schema := [] |} in
  e = None /\ CheckApplied byte_order Files d = None /\ length (md_schema d) = 13%nat.
Proof.
  pose proof (migrations_converge log_sql (fun _ => false) byte_order Files demo_distinct
    (fun vs => merge_sort_Permutation String.le (elements vs)) ltac:(vm_compute; reflexivity) demo_outcomes []) as H.
  assert ((runs log_sql Files demo_outcomes {| md_versions := None; md_schema := [] |}).2 = None) as He by (vm_compute; reflexivity).
  assert (length (md_schema (runs log_sql Files demo_outcomes {| md_versions := None; md_schema := [] |}).1) = 13%nat) as Hl
    by (vm_compute; reflexivity).
  destruct (runs log_sql Files demo_outcomes {| md_versions := None; md_schema := [] |}) as [d e]. cbn [fst snd] in *.
  destruct H as (_ & HC & _). split; [exact He|]. split; [|exact Hl]. apply HC; [discriminate|exact He].
Defined.

