(* ===== verification/HttpMux.v ===== *)
(** Requests, responses and routing of [internal/httpapi]: the parts of
    [net/http] the server uses, with the request multiplexer, and the route
    labels of the metrics. *)

From Stdlib Require Import ZArith Lia Ascii.
From stdpp Require Import base gmap list strings.
From S2P Require Import Prelude GoStd GoJson GoNet GoUrl.

Local Open Scope string_scope.
Local Open Scope Z_scope.

(** ** Requests *)

(** A request as handlers see it: its header by canonical key, and what
    [net/http] parses from it, the cookies, the query and the posted form,
    which is [None] when [ParseForm] fails.  [q_RequestID] is the identifier
    its context carries, [q_PathValues] what the multiplexer matched. *)
Record request := {
  q_Method : string;
  q_Path : string;
  q_EscapedPath : string;
  q_Query : list (string * string);
  q_Header : gmap string (list string);
  q_Cookies : list (string * string);
  q_PostForm : option (list (string * string));
  q_RemoteAddr : string;
  q_Body : string;
  q_RequestID : string;
  q_PathValues : list (string * string);
}.

Definition with_request_id (id : string) (r : request) : request :=
  {| q_Method := q_Method r; q_Path := q_Path r; q_EscapedPath := q_EscapedPath r; q_Query := q_Query r;
     q_Header := q_Header r; q_Cookies := q_Cookies r; q_PostForm := q_PostForm r;
     q_RemoteAddr := q_RemoteAddr r; q_Body := q_Body r; q_RequestID := id;
     q_PathValues := q_PathValues r |}.

Definition with_path_values (values : list (string * string)) (r : request) : request :=
  {| q_Method := q_Method r; q_Path := q_Path r; q_EscapedPath := q_EscapedPath r; q_Query := q_Query r;
     q_Header := q_Header r; q_Cookies := q_Cookies r; q_PostForm := q_PostForm r;
     q_RemoteAddr := q_RemoteAddr r; q_Body := q_Body r; q_RequestID := q_RequestID r; q_PathValues := values |}.

(** [Header.Get]. *)
Definition header_get (r : request) (key : string) : string :=
  match q_Header r !! key with Some (v :: _) => v | _ => EmptyString end.

(** The first value of a name: [Request.Cookie], [Values.Get]. *)
Fixpoint first_value (name : string) (l : list (string * string)) : option string :=
  match l with
  | [] => None
  | (k, v) :: l => if String.eqb k name then Some v else first_value name l
  end.

Definition values_get (name : string) (l : list (string * string)) : string := default EmptyString (first_value name l).

(** ** Patterns *)

(** A segment of a pattern; the end of [/{$}] is the segment ["/"]. *)
Inductive segment := Lit (s : string) | Wild (name : string).

Record pattern := { pt_method : string; pt_segments : list segment }.

(** ["METHOD /a/{b}"], with the path written as a text. *)
Definition segment_of (s : string) : segment :=
  match s with
  | String c r => if Ascii.eqb c "{" then Wild (fst (span_str (fun c => negb (Ascii.eqb c "}")) r)) else Lit s
  | EmptyString => Lit EmptyString
  end.

Definition path_pattern (path : string) : list segment :=
  if String.eqb path "/{$}" then [Lit "/"] else map segment_of (tl (Split "/" path)).

(** ** Paths *)

(** [path.Clean] of a rooted path, by its segments. *)
Definition clean_step (kept : list string) (s : string) : list string :=
  if String.eqb s EmptyString || String.eqb s "." then kept
  else if String.eqb s ".." then tl kept
  else s :: kept.

Definition clean_segments (p : string) : list string := rev (fold_left clean_step (Split "/" p) []).

Definition join_segments (l : list string) : string :=
  match l with
  | [] => "/"
  | _ => fold_right (fun s t => "/" +:+ s +:+ t) EmptyString l
  end.

Definition ends_slash (p : string) : bool :=
  match rev (String.list_ascii_of_string p) with c :: _ => Ascii.eqb c "/" | [] => false end.

Definition rooted (p : string) : string :=
  match p with
  | String c _ => if Ascii.eqb c "/" then p else String "/" p
  | EmptyString => "/"
  end.

(** [cleanPath]: a trailing slash is kept. *)
Definition cleanPath (p : string) : string :=
  let np := join_segments (clean_segments (rooted p)) in
  if ends_slash (rooted p) && negb (String.eqb np "/") then np +:+ "/" else np.

(** The unescaped segments of a path, the way the matcher takes them off; a
    trailing slash is the segment ["/"]. *)
Definition path_unescape (s : string) : string := default s (unescape encodePath s).

Fixpoint match_segments (l : list string) : list string :=
  match l with
  | [] => []
  | [s] => if String.eqb s EmptyString then ["/"] else [path_unescape s]
  | s :: l => path_unescape s :: match_segments l
  end.

Definition path_segments (p : string) : list string := match_segments (tl (Split "/" p)).

(** The values of the wildcards if the segments match; a wildcard matches one
    segment that is not ["/"]. *)
Fixpoint match_path (pattern : list segment) (path : list string) : option (list (string * string)) :=
  match pattern, path with
  | [], [] => Some []
  | Lit s :: pattern, t :: path => if String.eqb s t then match_path pattern path else None
  | Wild name :: pattern, t :: path =>
      if String.eqb t "/" then None
      else match match_path pattern path with Some vs => Some ((name, t) :: vs) | None => None end
  | _, _ => None
  end.

(** GET patterns serve HEAD as well. *)
Definition method_matches (pattern method : string) : bool :=
  String.eqb pattern method || String.eqb pattern "GET" && String.eqb method "HEAD".

(** ** The multiplexer *)

(** Where a request goes: to a handler with the values of its wildcards, to
    its cleaned path, or nowhere, with the methods that its path has. *)
Inductive route (H : Type) :=
  | Handle (h : H) (values : list (string * string))
  | Moved (path : string)
  | MethodNotAllowed (methods : list string)
  | NotFound.
Arguments Handle {H}.
Arguments Moved {H}.
Arguments MethodNotAllowed {H}.
Arguments NotFound {H}.

Section Mux.
  Context {H : Type}.

(** The handlers whose path matches, with their methods. *)
Definition matching (patterns : list (pattern * H)) (path : list string) : list (string * (H * list (string * string))) :=
  omap (fun ph : pattern * H =>
          match match_path (pt_segments ph.1) path with
          | Some vs => Some (pt_method ph.1, (ph.2, vs))
          | None => None
          end) patterns.

(** The methods of a path, in order; where there is GET there is HEAD. *)
Definition allowed_methods (methods : list string) : list string :=
  List.filter (fun m => existsb (fun pm => method_matches pm m) methods) ["DELETE"; "GET"; "HEAD"; "POST"; "PUT"].

Definition find_handler (patterns : list (pattern * H)) (method escaped : string) : route H :=
  let connect := String.eqb method "CONNECT" in
  let path := if connect then escaped else cleanPath escaped in
  if negb (String.eqb path escaped) then Moved path
  else
    let found := matching patterns (path_segments path) in
    match List.find (fun mh => method_matches (fst mh) method) found with
    | Some (_, (h, vs)) => Handle h vs
    | None => match found with [] => NotFound | _ => MethodNotAllowed (allowed_methods (map fst found)) end
    end.

End Mux.

(** ** Route labels *)

Definition known_paths : list string :=
  ["/health/live"; "/health/ready"; "/metrics"; "/stats"; "/supported"; "/verify"; "/settle"; "/verify-email";
   "/merchant"; "/merchant/app.js"; "/v1/merchants/register"; "/v1/merchants/verify-email";
   "/v1/merchants/admin-link"; "/v1/merchants/wallet-challenge"; "/v1/merchants/verify-wallet"; "/v1/me";
   "/v1/api-keys"; "/v1/me/recipient-change"; "/v1/me/recipient-change/verify"; "/merchant/api/session";
   "/merchant/api/logout"; "/merchant/api/wallet-challenge"; "/merchant/api/verify-wallet";
   "/merchant/api/recipient-challenge"; "/merchant/api/verify-recipient-change"; "/merchant/api/stats";
   "/merchant/api/stats-consent"; "/merchant/api/public-profile"; "/merchant/api/api-keys"; "/"; "/explore";
   "/assets/site.css"].

Definition known_patterns : list string :=
  ["/v1/api-keys/{id}"; "/merchant/api/api-keys/{id}"; "/v1/admin/merchants/{id}/suspend";
   "/v1/admin/merchants/{id}/reinstate"].

(** [strings.Trim(s, "/")]. *)
Fixpoint trim_left_slash (s : string) : string :=
  match s with
  | String c r => if Ascii.eqb c "/" then trim_left_slash r else s
  | EmptyString => EmptyString
  end.

Definition rev_string (s : string) : string := String.string_of_list_ascii (rev (String.list_ascii_of_string s)).

Definition Trim_slash (s : string) : string := rev_string (trim_left_slash (rev_string (trim_left_slash s))).

Fixpoint matches_segments (path pattern : list string) : bool :=
  match path, pattern with
  | [], [] => true
  | p :: path, q :: pattern =>
      (if HasPrefix q "{" then negb (String.eqb p EmptyString) else String.eqb p q) && matches_segments path pattern
  | _, _ => false
  end.

Definition matchesPattern (path pattern : string) : bool :=
  matches_segments (Split "/" (Trim_slash path)) (Split "/" (Trim_slash pattern)).

Definition knownRoute (path : string) : string :=
  if existsb (String.eqb path) known_paths then path
  else match List.find (matchesPattern path) known_patterns with Some p => p | None => "unknown" end.

(** Labels are drawn from a fixed list, whatever the path. *)
Lemma knownRoute_bounded path : knownRoute path ∈ ("unknown" :: known_paths ++ known_patterns)%list.
Proof.
  unfold knownRoute. destruct (existsb (String.eqb path) known_paths) eqn:E.
  - apply existsb_exists in E as (x & Hx & ->%String.eqb_eq). right. apply elem_of_app. left. by apply list_elem_of_In.
  - destruct (List.find _ _) as [p|] eqn:F; [|by left]. apply List.find_some in F as [Hp _].
    right. apply elem_of_app. right. by apply list_elem_of_In.
Qed.
