(* ===== verification/HttpApi.v ===== *)
(** The handlers of [internal/httpapi]: every route with its middleware, as a
    tree of the calls a request makes to the services.

    A tree is the code with its inputs open: a call is a node whose children
    are the answers.  HttpProps.v shows what the paths through it do. *)

From Stdlib Require Import ZArith Lia Ascii Strings.Byte.
From stdpp Require Import base gmap list strings.
From S2P Require Import Prelude GoStd GoJson GoNet GoUrl GoDuration Geth WalletProof Secret Calendar Challenge.
From S2P Require Import Schema Store Verification VerifyService Service.
From S2P Require Import MerchantSchema Merchant MerchantAdmin EmailDelivery FairUse MerchantRetention MerchantSystem.
From S2P Require Import GoJsonText StrictJson ClientAddress RateLimit Metrics Status HttpMux.

Local Open Scope string_scope.
Local Open Scope Z_scope.

(** ** Calls *)

(** The operations of the merchant service. *)
Inductive mcall : Type -> Type :=
  | CRegister (inp : Registration) (request : string) : mcall unit
  | CAdminLink (email request : string) : mcall unit
  | CVerifyEmail (token request : string) : mcall rowid
  | CVerifyEmailForAdmin (token request : string) : mcall (rowid * AdminSession)
  | CWalletChallenge (merchant address action request : string) : mcall IssuedChallenge
  | CAuthenticatedChallenge (merchant key address action request : string) : mcall IssuedChallenge
  | CAdminChallenge (merchant token address action request : string) : mcall IssuedChallenge
  | CPendingChallenge (merchant address request : string) : mcall IssuedChallenge
  | CVerifyWallet (merchant key challenge message signature action request : string) : mcall string
  | CVerifyAdminWallet (merchant token challenge message signature request : string) : mcall unit
  | CVerifyAdminRecipientChange (merchant token challenge message signature request : string) : mcall unit
  | CMarkSession (merchant token : string) : mcall unit
  | CRevokeSession (token : string) : mcall unit
  | CStatsConsent (merchant token : string) (enabled : bool) (request : string) : mcall (option time)
  | CPublicConsent (merchant token : string) (enabled : bool) (request : string) : mcall (option time)
  | CAuthenticate (value : string) : mcall (rowid * MerchantRow)
  | CAuthenticateAdmin (token : string) : mcall AdminPrincipal
  | CCreateKey (merchant token key name request : string) : mcall (APIKey * string)
  | CListKeys (merchant token key : string) : mcall (list APIKey)
  | CRevokeKey (merchant token key id request : string) : mcall unit
  | CSuspend (merchant reason operator : string) (reinstate : bool) (request : string) : mcall unit
  | CCount (merchant : rowid) (limit : Z) (window : duration) : mcall FairUse.FairUse.

(** What the merchant panel and the public directory read of the payments. *)
Record MerchantStats := {
  ms_ObservedSince : time;
  ms_VerifiedPayments : Z;
  ms_PendingSettlements : Z;
  ms_ConfirmedSettlements : Z;
  ms_FailedSettlements : Z;
  ms_ConfirmedVolumeAtomic : string;
  ms_ConfirmedVolumeUSDC : string;
}.

Record PublicMerchant := {
  pm_Name : string;
  pm_Website : option string;
  pm_ConfirmedSettlements : Z;
  pm_LastConfirmedAt : option time;
}.

(** The other services.  A payment request is the JSON value of its body. *)
Inductive query : Type -> Type :=
  | QPing : query unit
  | QChainID : query Z
  | QStats : query Status.Response
  | QLeaderboard (limit : Z) : query (list PublicMerchant)
  | QAdminStats (merchant token : string) : query MerchantStats
  | QVerify (request : any) : query VerifyResponse
  | QRecordInvalid : query unit
  | QSettle (request : any) : query SettleResponse.

(** The limiters of [New]: of every request, and of the two routes that send
    mail. *)
Inductive limiter := PublicLimiter | RegisterLimiter | AdminLinkLimiter.

Inductive api (A : Type) : Type :=
  | Done (a : A)
  | Account {X : Type} (c : mcall X) (k : res X -> api A)
  | Ask {X : Type} (q : query X) (k : res X -> api A)
  | Admit (l : limiter) (client : string) (k : bool -> api A)
  | Clock (k : Z -> api A)
  | Random (k : res (list byte) -> api A)
  | Observe (f : Registry -> Registry) (k : api A)
  | Scrape (k : Registry -> api A).
Arguments Done {A}.
Arguments Account {A X}.
Arguments Ask {A X}.
Arguments Admit {A}.
Arguments Clock {A}.
Arguments Random {A}.
Arguments Observe {A}.
Arguments Scrape {A}.

Fixpoint abind {A B} (p : api A) (k : A -> api B) : api B :=
  match p with
  | Done a => k a
  | Account c h => Account c (fun x => abind (h x) k)
  | Ask q h => Ask q (fun x => abind (h x) k)
  | Admit l client h => Admit l client (fun x => abind (h x) k)
  | Clock h => Clock (fun x => abind (h x) k)
  | Random h => Random (fun x => abind (h x) k)
  | Observe f h => Observe f (abind h k)
  | Scrape h => Scrape (fun x => abind (h x) k)
  end.

(** [d.Metrics.Inc...()]. *)
Definition count {A} (c : Metrics.counter) (k : api A) : api A := Observe (add_counter c 1) k.

(** ** Responses *)

Record Cookie := {
  ck_Name : string;
  ck_Value : string;
  ck_Path : string;
  ck_Expires : option time;
  ck_MaxAge : Z;
  ck_HttpOnly : bool;
  ck_Secure : bool;
  ck_SameSiteStrict : bool;
}.

Record verifyEmailResult := {
  ve_Confirm : bool;
  ve_Verified : bool;
  ve_Token : string;
  ve_MerchantID : string;
}.

Record publicSiteData := {
  sd_Snapshot : option Status.Response;
  sd_TopMerchants : option (list PublicMerchant);
}.

Inductive page :=
  | verifyEmailPageTemplate (result : verifyEmailResult)
  | statusPage (snapshot : Status.Response)
  | landingPage (data : publicSiteData)
  | explorePage (data : publicSiteData)
  | merchantPanelHTML
  | merchantPanelScript
  | siteCSSContent.

(** What is handed to the encoder of the body. *)
Inductive payload :=
  | NoBody
  | TextBody (text : string)
  | FieldsBody (fields : list (string * string))
  | ErrorBody (code message requestID : string)
  | ReadyBody (status database rpc : string)
  | MerchantBody (m : rowid * MerchantRow)
  | SessionBody (p : AdminPrincipal)
  | ChallengeBody (c : IssuedChallenge)
  | KeyBody (k : APIKey) (raw : string)
  | KeysBody (keys : list APIKey)
  | ConsentBody (enabled : bool) (optedInAt : option time)
  | MerchantStatsBody (s : MerchantStats)
  | StatsBody (r : Status.Response)
  | SupportedBody (signers : list string)
  | VerdictBody (r : VerifyResponse)
  | RefusedBody (invalidReason : string)
  | SettleBody (r : SettleResponse)
  | MetricsBody (samples : list sample)
  | PageBody (p : page).

(** The writer before the status is written, and the response after. *)
Record writer := { wr_header : gmap string string; wr_cookies : list Cookie }.

Record response := { rs_status : Z; rs_writer : writer; rs_body : payload }.

Definition set_header (key value : string) (w : writer) : writer :=
  {| wr_header := <[key := value]> (wr_header w); wr_cookies := wr_cookies w |}.

Definition set_cookie (c : Cookie) (w : writer) : writer :=
  {| wr_header := wr_header w; wr_cookies := wr_cookies w ++ [c] |}.

Definition write (w : writer) (status : Z) (body : payload) : api response :=
  Done {| rs_status := status; rs_writer := w; rs_body := body |}.

Definition writeJSON (w : writer) (status : Z) (value : payload) : api response :=
  write (set_header "Content-Type" "application/json" w) status value.

Definition writeError (w : writer) (status : Z) (code message requestID : string) : api response :=
  writeJSON w status (ErrorBody code message requestID).

(** [http.Error]. *)
Definition http_Error (w : writer) (text : string) (status : Z) : api response :=
  write (set_header "X-Content-Type-Options" "nosniff" (set_header "Content-Type" "text/plain; charset=utf-8" w))
    status (TextBody text).

Definition writeMerchantError (w : writer) (r : request) (err : error) : api response :=
  let '(status, code, message) :=
    if errors_Is err EInvalid then (400, "invalid_request", "invalid request")
    else if errors_Is err EUnauthorized then (401, "unauthorized", "authentication failed")
    else if errors_Is err EForbidden then (403, "forbidden", "access forbidden")
    else if errors_Is err ENotFound then (404, "not_found", "resource not found")
    else if errors_Is err EConflict then (409, "conflict", "request conflicts with current state")
    else if errors_Is err EThrottled then (429, "rate_limited", "request is temporarily restricted")
    else (500, "internal_error", "internal server error") in
  writeError w status code message (q_RequestID r).

Definition handler : Type := writer -> request -> api response.

(** ** Dependencies *)

(** Services that may be absent are flags; [FairUseWindow] is in the unit of
    the tables. *)
Record Dependencies := {
  dp_Database : bool;
  dp_Ethereum : bool;
  dp_Stats : bool;
  dp_ExpectedChainID : Z;
  dp_PublicRatePerMinute : Z;
  dp_FairUse : bool;
  dp_MerchantRequestsPerWindow : Z;
  dp_FairUseWindow : duration;
  dp_RegistrationRate : Z;
  dp_Merchant : bool;
  dp_AllowedOrigin : string;
  dp_OperatorToken : string;
  dp_Verification : bool;
  dp_Settlement : bool;
  dp_SettlementSignerAddress : string;
  dp_MetricsEnabled : bool;
  dp_TrustedProxies : list Prefix;
}.

(** [int(time.Until(t).Seconds())] at least one; [now] is in nanoseconds. *)
Definition whole_until (t : time) (now : Z) : Z := Z.max 1 (Z.quot (t * 1000 - now) Second).

(** ** Credentials *)

Definition merchantAdminCookie : string := "eth402_admin".

(** The bearer token of a request. *)
Definition bearer (r : request) : option string :=
  let header := header_get r "Authorization" in
  if HasPrefix header "Bearer " then Some (TrimPrefix header "Bearer ") else None.

Definition session_cookie (r : request) : option string := first_value merchantAdminCookie (q_Cookies r).

Definition PathValue (r : request) (name : string) : string := values_get name (q_PathValues r).

Definition admin_cookie (value : string) (expires : option time) (maxAge : Z) : Cookie :=
  {| ck_Name := merchantAdminCookie; ck_Value := value; ck_Path := "/"; ck_Expires := expires; ck_MaxAge := maxAge;
     ck_HttpOnly := true; ck_Secure := true; ck_SameSiteStrict := true |}.

Definition setMerchantAdminCookie (session : AdminSession) (now : Z) (w : writer) : writer :=
  set_cookie (admin_cookie (as_Token session) (Some (as_ExpiresAt session)) (whole_until (as_ExpiresAt session) now)) w.

Definition clearMerchantAdminCookie (w : writer) : writer := set_cookie (admin_cookie EmptyString None (-1)) w.

Section Handlers.
  Context `{Net} (dep : Dependencies) (decodes : any -> bool).

(** ** Authentication *)

Definition merchantHandler : Type := writer -> request -> rowid * MerchantRow -> string -> api response.

(** [fairUse]: the allowance of an authenticated merchant. *)
Definition fair_use (next : merchantHandler) : merchantHandler := fun w r m token =>
  if negb (dp_FairUse dep) || (dp_MerchantRequestsPerWindow dep <=? 0) || (dp_FairUseWindow dep <=? 0)
  then next w r m token
  else
    Account (CCount (fst m) (dp_MerchantRequestsPerWindow dep) (dp_FairUseWindow dep)) (fun usage =>
      match usage with
      | Err _ => next w r m token
      | Ok usage =>
          let w := set_header "X-RateLimit-Limit" (FormatInt (fu_Limit usage)) w in
          let w := set_header "X-RateLimit-Remaining" (FormatInt (fu_Remaining usage)) w in
          let w := set_header "X-RateLimit-Reset" (FormatInt (fu_ResetsAt usage / 1000000)) w in
          if fu_Exceeded usage then
            Clock (fun now =>
              count fairUseRefusals
                (writeError (set_header "Retry-After" (FormatInt (whole_until (fu_ResetsAt usage) now)) w) 429
                   "fair_use_exceeded" "merchant request allowance exceeded for the current window" (q_RequestID r)))
          else next w r m token
      end).

Definition withMerchant (next : merchantHandler) : handler := fun w r =>
  match bearer r with
  | None => writeMerchantError w r [EUnauthorized]
  | Some token =>
      Account (CAuthenticate token) (fun m =>
        match m with Err e => writeMerchantError w r e | Ok m => next w r m token end)
  end.

Definition adminHandler : Type := writer -> request -> AdminPrincipal -> string -> api response.

Definition principal_active (p : AdminPrincipal) : bool := bool_decide (mr_status (snd (ap_Merchant p)) = MActive).

Definition withAdmin (requireWallet : bool) (next : adminHandler) : handler := fun w r =>
  let w := set_header "Cache-Control" "private, no-store" w in
  match session_cookie r with
  | None => writeMerchantError w r [EUnauthorized]
  | Some token =>
      Account (CAuthenticateAdmin token) (fun principal =>
        match principal with
        | Err e => writeMerchantError (clearMerchantAdminCookie w) r e
        | Ok principal =>
            if requireWallet && (negb (ap_WalletAuthenticated principal) || negb (principal_active principal))
            then writeMerchantError w r [EForbidden]
            else fair_use (fun w r _ _ => next w r principal token) w r (ap_Merchant principal) EmptyString
        end)
  end.

Definition operatorHandler : Type := writer -> request -> string -> api response.

(** A comparison in constant time is a comparison. *)
Definition operator_token (r : request) : bool :=
  let provided := header_get r "X-Operator-Token" in
  negb (String.eqb (dp_OperatorToken dep) EmptyString) && String.eqb provided (dp_OperatorToken dep).

Definition operator (next : operatorHandler) : handler := fun w r =>
  if negb (operator_token r) then writeMerchantError w r [EUnauthorized] else next w r "operator".

(** ** merchant.go *)

(** A text-only request body, or the answer to an invalid one. *)
Definition with_texts (names : list string) (w : writer) (r : request) (next : list string -> api response) :
    api response :=
  match DecodeStrict names (q_Body r) with
  | None => writeMerchantError w r [EInvalid]
  | Some texts => next texts
  end.

Definition field (n : nat) (texts : list string) : string := nth n texts EmptyString.

(** The end of a handler: the error, or what the answer makes of it. *)
Definition answer {X} (w : writer) (r : request) (x : res X) (next : X -> api response) : api response :=
  match x with Err e => writeMerchantError w r e | Ok x => next x end.

Definition register : handler := fun w r =>
  let invalid := writeError w 400 "invalid_request" "invalid request" (q_RequestID r) in
  let texts := ["name"; "business_email"; "recipient_address"; "website"; "description"] in
  match strict_object (texts ++ ["accept_terms"])%list (q_Body r) with
  | None => invalid
  | Some m =>
      match DecodeStrict_texts texts m, bool_field false (field_members "accept_terms" m) with
      | Some [name; email; recipient; website; description], Some accept =>
          Account (CRegister {| rg_Name := name; rg_Email := email; rg_Recipient := recipient; rg_Website := website;
                                rg_Description := description; rg_AcceptTerms := accept |} (q_RequestID r)) (fun x =>
            answer w r x (fun _ => count registrations (writeJSON w 202 (FieldsBody [("status", "verification_pending")]))))
      | _, _ => invalid
      end
  end.

Definition adminLink : handler := fun w r =>
  with_texts ["business_email"] w r (fun texts =>
    Account (CAdminLink (field 0 texts) (q_RequestID r)) (fun x =>
      answer w r x (fun _ => writeJSON w 202 (FieldsBody [("status", "email_sent_if_registered")])))).

Definition verifyEmail : handler := fun w r =>
  with_texts ["token"] w r (fun texts =>
    Account (CVerifyEmail (field 0 texts) (q_RequestID r)) (fun x =>
      answer w r x (fun id => count emailVerified
        (writeJSON w 200 (FieldsBody [("merchant_id", uuid_text id); ("status", "email_verified")]))))).

Definition renderVerifyEmailResult (w : writer) (status : Z) (result : verifyEmailResult) : api response :=
  let w := set_header "Content-Type" "text/html; charset=utf-8" w in
  let w := set_header "Cache-Control" "no-store" w in
  let w := set_header "X-Robots-Tag" "noindex, nofollow, noarchive" w in
  let w := set_header "Content-Security-Policy"
    "default-src 'none'; style-src 'self'; base-uri 'none'; form-action 'self'; frame-ancestors 'none'" w in
  write w status (PageBody (verifyEmailPageTemplate result)).

Definition no_result : verifyEmailResult :=
  {| ve_Confirm := false; ve_Verified := false; ve_Token := EmptyString; ve_MerchantID := EmptyString |}.

Definition verifyEmailPage : handler := fun w r =>
  let token := values_get "token" (q_Query r) in
  if (String.length token <? 20)%nat then renderVerifyEmailResult w 400 no_result
  else renderVerifyEmailResult w 200
         {| ve_Confirm := true; ve_Verified := false; ve_Token := token; ve_MerchantID := EmptyString |}.

Definition verifyEmailPageSubmit : handler := fun w r =>
  match q_PostForm r with
  | None => renderVerifyEmailResult w 400 no_result
  | Some form =>
      Account (CVerifyEmailForAdmin (values_get "token" form) (q_RequestID r)) (fun x =>
        match x with
        | Err e =>
            renderVerifyEmailResult w (if errors_Is e EInvalid || errors_Is e ENotFound then 400 else 500) no_result
        | Ok (id, session) =>
            Clock (fun now => count emailVerified
              (renderVerifyEmailResult (setMerchantAdminCookie session now w) 200
                 {| ve_Confirm := false; ve_Verified := true; ve_Token := EmptyString; ve_MerchantID := uuid_text id |}))
        end)
  end.

Definition walletChallenge : handler := fun w r =>
  with_texts ["merchant_id"] w r (fun texts =>
    Account (CWalletChallenge (field 0 texts) EmptyString "verify-recipient" (q_RequestID r)) (fun x =>
      answer w r x (fun c => writeJSON w 201 (ChallengeBody c)))).

Definition verify_wallet : handler := fun w r =>
  with_texts ["merchant_id"; "challenge_id"; "message"; "signature"] w r (fun texts =>
    Account (CVerifyWallet (field 0 texts) EmptyString (field 1 texts) (field 2 texts) (field 3 texts) "verify-recipient"
               (q_RequestID r)) (fun x =>
      match x with
      | Err e => count walletFailures (writeMerchantError w r e)
      | Ok key =>
          count walletVerified
            (writeJSON (set_header "Cache-Control" "no-store" w) 200 (FieldsBody [("status", "active"); ("api_key", key)]))
      end)).

Definition me : merchantHandler := fun w r m _ => writeJSON w 200 (MerchantBody m).

Definition createKey : merchantHandler := fun w r m token =>
  with_texts ["name"] w r (fun texts =>
    Account (CCreateKey (uuid_text (fst m)) EmptyString token (field 0 texts) (q_RequestID r)) (fun x =>
      answer w r x (fun k => writeJSON (set_header "Cache-Control" "no-store" w) 201 (KeyBody (fst k) (snd k))))).

Definition listKeys : merchantHandler := fun w r m token =>
  Account (CListKeys (uuid_text (fst m)) EmptyString token) (fun x =>
    answer w r x (fun keys => writeJSON w 200 (KeysBody keys))).

Definition revokeKey : merchantHandler := fun w r m token =>
  Account (CRevokeKey (uuid_text (fst m)) EmptyString token (PathValue r "id") (q_RequestID r)) (fun x =>
    answer w r x (fun _ => write w 204 NoBody)).

Definition recipientChallenge : merchantHandler := fun w r m token =>
  with_texts ["new_address"] w r (fun texts =>
    Account (CAuthenticatedChallenge (uuid_text (fst m)) token (field 0 texts) "change-recipient" (q_RequestID r)) (fun x =>
      answer w r x (fun c => writeJSON w 201 (ChallengeBody c)))).

Definition recipientVerify : merchantHandler := fun w r m token =>
  with_texts ["challenge_id"; "message"; "signature"] w r (fun texts =>
    Account (CVerifyWallet (uuid_text (fst m)) token (field 0 texts) (field 1 texts) (field 2 texts) "change-recipient"
               (q_RequestID r)) (fun x =>
      answer w r x (fun _ => writeJSON w 200 (FieldsBody [("status", "recipient_changed")])))).

Definition suspend : operatorHandler := fun w r operator =>
  with_texts ["reason_code"] w r (fun texts =>
    Account (CSuspend (PathValue r "id") (field 0 texts) operator false (q_RequestID r)) (fun x =>
      answer w r x (fun _ => writeJSON w 200 (FieldsBody [("status", "suspended")])))).

Definition reinstate : operatorHandler := fun w r operator =>
  Account (CSuspend (PathValue r "id") EmptyString operator true (q_RequestID r)) (fun x =>
    answer w r x (fun _ => writeJSON w 200 (FieldsBody [("status", "active")]))).

(** ** merchant_admin.go *)

Definition private (w : writer) : writer := set_header "Cache-Control" "private, no-store" w.

(** The identifier of the principal's merchant. *)
Definition principal_id (p : AdminPrincipal) : string := uuid_text (fst (ap_Merchant p)).

Definition adminSession : adminHandler := fun w r p _ => writeJSON (private w) 200 (SessionBody p).

Definition adminLogout : handler := fun w r =>
  let out := write (clearMerchantAdminCookie w) 204 NoBody in
  match session_cookie r with
  | Some token => Account (CRevokeSession token) (fun _ => out)
  | None => out
  end.

Definition adminWalletChallenge : adminHandler := fun w r p _ =>
  let m := snd (ap_Merchant p) in
  with_texts ["address"] w r (fun texts =>
    let address := field 0 texts in
    let created x := answer w r x (fun c => writeJSON w 201 (ChallengeBody c)) in
    if bool_decide (mr_status m = MPending) && bool_decide (is_Some (mr_email_verified m)) &&
       bool_decide (mr_wallet_verified m = None) then
      if String.eqb address EmptyString
      then Account (CWalletChallenge (principal_id p) EmptyString "verify-recipient" (q_RequestID r)) created
      else Account (CPendingChallenge (principal_id p) address (q_RequestID r)) created
    else if negb (bool_decide (mr_status m = MActive)) || bool_decide (mr_wallet_verified m = None)
    then writeMerchantError w r [EConflict]
    else if negb (String.eqb address EmptyString) then writeMerchantError w r [EInvalid]
    else Account (CWalletChallenge (principal_id p) EmptyString "authenticate-admin" (q_RequestID r)) created).

Definition adminVerifyWallet : adminHandler := fun w r p token =>
  with_texts ["challenge_id"; "message"; "signature"] w r (fun texts =>
    let failed e := count walletFailures (writeMerchantError w r e) in
    let verified key := count walletVerified
      (writeJSON (private w) 200
         (FieldsBody (if String.eqb key EmptyString then [("status", "authenticated")]
                      else [("status", "active"); ("api_key", key)]))) in
    match mr_status (snd (ap_Merchant p)) with
    | MPending =>
        Account (CVerifyWallet (principal_id p) EmptyString (field 0 texts) (field 1 texts) (field 2 texts)
                   "verify-recipient" (q_RequestID r)) (fun x =>
          match x with
          | Err e => failed e
          | Ok key => Account (CMarkSession (principal_id p) token) (fun _ => verified key)
          end)
    | MActive =>
        Account (CVerifyAdminWallet (principal_id p) token (field 0 texts) (field 1 texts) (field 2 texts)
                   (q_RequestID r)) (fun x =>
          match x with Err e => failed e | Ok _ => verified EmptyString end)
    | _ => failed [EForbidden]
    end).

Definition adminRecipientChallenge : adminHandler := fun w r p token =>
  with_texts ["new_address"] w r (fun texts =>
    Account (CAdminChallenge (principal_id p) token (field 0 texts) "change-recipient" (q_RequestID r)) (fun x =>
      answer w r x (fun c => writeJSON w 201 (ChallengeBody c)))).

Definition adminVerifyRecipientChange : adminHandler := fun w r p token =>
  with_texts ["challenge_id"; "message"; "signature"] w r (fun texts =>
    Account (CVerifyAdminRecipientChange (principal_id p) token (field 0 texts) (field 1 texts) (field 2 texts)
               (q_RequestID r)) (fun x =>
      match x with
      | Err e => count walletFailures (writeMerchantError w r e)
      | Ok _ => count walletVerified (writeJSON (private w) 200 (FieldsBody [("status", "recipient_changed")]))
      end)).

Definition adminStats : adminHandler := fun w r p token =>
  Ask (QAdminStats (principal_id p) token) (fun x =>
    answer w r x (fun result => writeJSON (private w) 200 (MerchantStatsBody result))).

(** The two consents differ in the call. *)
Definition consent_handler (set : string -> string -> bool -> string -> mcall (option time)) : adminHandler := fun w r p token =>
  match strict_object ["enabled"] (q_Body r) with
  | None => writeMerchantError w r [EInvalid]
  | Some m =>
      match bool_ptr_field None (field_members "enabled" m) with
      | Some (Some enabled) =>
          Account (set (principal_id p) token enabled (q_RequestID r)) (fun x =>
            answer w r x (fun optedInAt => writeJSON w 200 (ConsentBody enabled optedInAt)))
      | _ => writeMerchantError w r [EInvalid]
      end
  end.

Definition adminStatsConsent : adminHandler := consent_handler CStatsConsent.
Definition adminPublicProfileConsent : adminHandler := consent_handler CPublicConsent.

Definition adminListKeys : adminHandler := fun w r p token =>
  Account (CListKeys (principal_id p) token EmptyString) (fun x =>
    answer w r x (fun keys => writeJSON (private w) 200 (KeysBody keys))).

Definition adminCreateKey : adminHandler := fun w r p token =>
  with_texts ["name"] w r (fun texts =>
    Account (CCreateKey (principal_id p) token EmptyString (field 0 texts) (q_RequestID r)) (fun x =>
      answer w r x (fun k => writeJSON (private w) 201 (KeyBody (fst k) (snd k))))).

Definition adminRevokeKey : adminHandler := fun w r p token =>
  Account (CRevokeKey (principal_id p) token EmptyString (PathValue r "id") (q_RequestID r)) (fun x =>
    answer w r x (fun _ => write w 204 NoBody)).

Definition merchantPanel : handler := fun w _ =>
  let w := set_header "Content-Type" "text/html; charset=utf-8" w in
  let w := set_header "Cache-Control" "no-store" w in
  let w := set_header "Content-Security-Policy" "default-src 'none'; script-src 'self'; style-src 'self'; connect-src 'self'; base-uri 'none'; form-action 'self'; frame-ancestors 'none'" w in
  write w 200 (PageBody merchantPanelHTML).

Definition merchantPanelJS : handler := fun w _ =>
  let w := set_header "Content-Type" "text/javascript; charset=utf-8" w in
  let w := set_header "Cache-Control" "no-cache" w in
  let w := set_header "Content-Security-Policy" "default-src 'none'" w in
  write w 200 (PageBody merchantPanelScript).

(** ** server.go, status.go, public_site.go *)

Definition live : handler := fun w _ => writeJSON w 200 (FieldsBody [("status", "live")]).

Definition supported : handler := fun w _ =>
  writeJSON w 200
    (SupportedBody (if String.eqb (dp_SettlementSignerAddress dep) EmptyString then [] else [dp_SettlementSignerAddress dep])).

(** [DecodeStrict] into a payment request: [decodes] is whether the types of
    the x402 library take the value. *)
Definition payment_request (r : request) : option any :=
  match strict_value (q_Body r) with
  | Some v => if decodes v then Some v else None
  | None => None
  end.

Definition verify : handler := fun w r =>
  if negb (dp_Verification dep) then writeJSON w 503 (RefusedBody "service_unavailable")
  else
    match payment_request r with
    | None =>
        count verifications (count verifyFailures
          (Ask QRecordInvalid (fun _ => writeJSON w 400 (RefusedBody "invalid_request"))))
    | Some request =>
        count verifications (Ask (QVerify request) (fun x =>
          match x with
          | Err _ => count verifyFailures (writeJSON w 503 (RefusedBody "service_unavailable"))
          | Ok verdict =>
              if vr_IsValid verdict then writeJSON w 200 (VerdictBody verdict)
              else count verifyFailures (writeJSON w 200 (VerdictBody verdict))
          end))
    end.

Definition WireReasonSettlementUnavailable : string := "settlement_unavailable".

Definition not_settled (reason : string) : payload :=
  SettleBody {| sr_Success := false; sr_ErrorReason := reason; sr_ErrorMessage := EmptyString; sr_Payer := EmptyString;
                sr_Transaction := EmptyString; sr_Network := MainnetNetwork; sr_Amount := EmptyString |}.

(** The write deadline, which [settle] lifts, is no part of the model. *)
Definition settle : handler := fun w r =>
  if negb (dp_Settlement dep) then writeJSON w 503 (not_settled WireReasonSettlementUnavailable)
  else
    match payment_request r with
    | None => count settlements (count settleFailures (writeJSON w 400 (not_settled WireReasonInvalidRequest)))
    | Some request =>
        count settlements (Ask (QSettle request) (fun x =>
          match x with
          | Err _ => count settleFailures (writeJSON w 503 (not_settled WireReasonSettlementUnavailable))
          | Ok result =>
              if sr_Success result then writeJSON w 200 (SettleBody result)
              else count settleFailures (writeJSON w 200 (SettleBody result))
          end))
    end.

Definition ready : handler := fun w _ =>
  let finish database rpc :=
    let say ok := if (ok : bool) then "ok" else "unavailable" in
    if database && rpc then writeJSON w 200 (ReadyBody "ready" (say database) (say rpc))
    else writeJSON w 503 (ReadyBody "not_ready" (say database) (say rpc)) in
  let chain database :=
    if negb (dp_Ethereum dep) then finish database false
    else Ask QChainID (fun x =>
           finish database (match x with Ok id => id =? dp_ExpectedChainID dep | Err _ => false end)) in
  if negb (dp_Database dep) then chain false else Ask QPing (fun x => chain (is_ok x)).

Definition stats_handler : handler := fun w r =>
  let unavailable :=
    writeError w 503 "service_unavailable" "statistics are temporarily unavailable" (q_RequestID r) in
  if negb (dp_Stats dep) then unavailable
  else
    Ask QStats (fun x =>
      match x with
      | Err _ => unavailable
      | Ok s => writeJSON (set_header "Cache-Control" "public, max-age=10" w) 200 (StatsBody s)
      end).

(** What the page shows when the figures cannot be read. *)
Definition no_figures : Aggregate :=
  {| ag_RegisteredMerchants := 0; ag_VerifiedMerchants := 0; ag_TotalVerifications := 0; ag_SuccessfulVerifications
     := 0; ag_FailedVerifications := 0; ag_TotalSettlementRequests := 0; ag_ConfirmedSettlements := 0;
     ag_FailedSettlements := 0; ag_TotalPaymentVolumeAtomic := EmptyString; ag_SettlementsLast24h := 0;
     ag_VolumeLast24hAtomic := EmptyString; ag_LastConfirmedBlock := 0; ag_LatestIndexedBlock := 0 |}.

Definition outage_snapshot : Status.Response :=
  {| rp_UptimeSeconds := 0; rp_Aggregate := no_figures; rp_TotalPaymentVolumeUSDC := EmptyString;
     rp_ConfirmationLagBlocks := 0; rp_Status := StateOutage;
     rp_Components := [{| cp_Name := "database"; cp_State := StateOutage; cp_Detail := "unreachable" |}] |}.

Definition status_handler : handler := fun w _ =>
  if negb (dp_Stats dep) then http_Error w "status is temporarily unavailable" 503
  else
    Ask QStats (fun x =>
      let w := set_header "Content-Type" "text/html; charset=utf-8" w in
      match x with
      | Err _ => write w 503 (PageBody (statusPage outage_snapshot))
      | Ok snapshot =>
          let w := set_header "Content-Security-Policy"
            "default-src 'none'; style-src 'unsafe-inline'; base-uri 'none'; form-action 'none'" w in
          let w := set_header "Cache-Control" "public, max-age=10" w in
          write w 200 (PageBody (statusPage snapshot))
      end).

Definition to_option {A} (x : res A) : option A := match x with Ok a => Some a | Err _ => None end.

Definition publicData (limit : Z) (k : publicSiteData -> api response) : api response :=
  let merchants snapshot :=
    if negb (dp_Merchant dep) then k {| sd_Snapshot := snapshot; sd_TopMerchants := None |}
    else Ask (QLeaderboard limit) (fun x => k {| sd_Snapshot := snapshot; sd_TopMerchants := to_option x |}) in
  if negb (dp_Stats dep) then merchants None else Ask QStats (fun x => merchants (to_option x)).

Definition publicSiteCSP : string :=
  "default-src 'none'; style-src 'self'; img-src 'self' data:; base-uri 'none'; form-action 'none'; frame-ancestors 'none'".

(** The template renders: its failure, like the year it prints, is not
    modelled. *)
Definition renderPublicPage (w : writer) (p : page) : api response :=
  let w := set_header "Content-Type" "text/html; charset=utf-8" w in
  let w := set_header "Cache-Control" "public, max-age=10" w in
  let w := set_header "Content-Security-Policy" publicSiteCSP w in
  write w 200 (PageBody p).

Definition landing : handler := fun w _ => publicData 3 (fun data => renderPublicPage w (landingPage data)).
Definition explore : handler := fun w _ => publicData 50 (fun data => renderPublicPage w (explorePage data)).

Definition siteCSS : handler := fun w _ =>
  let w := set_header "Content-Type" "text/css; charset=utf-8" w in
  let w := set_header "Cache-Control" "public, max-age=300" w in
  let w := set_header "Content-Security-Policy" "default-src 'none'" w in
  write w 200 (PageBody siteCSSContent).

Definition serve_metrics : handler := fun w _ =>
  Scrape (fun r =>
    write (set_header "Content-Type" "text/plain; version=0.0.4; charset=utf-8" w) 200 (MetricsBody (ServeMetrics r))).

(** ** Routes *)

Definition limited (l : limiter) (rate : Z) (next : handler) : handler := fun w r =>
  if (rate <=? 0) || String.eqb (q_Path r) "/health/live" || String.eqb (q_Path r) "/health/ready" then next w r
  else
    let client := clientAddress (dp_TrustedProxies dep)
      {| og_RemoteAddr := q_RemoteAddr r; og_ForwardedFor := default [] (q_Header r !! "X-Forwarded-For") |} in
    Admit l client (fun allowed =>
      if allowed then next w r
      else writeError (set_header "Retry-After" "60" w) 429 "rate_limited" "request rate limit exceeded" (q_RequestID r)).

Definition publicSiteRoutes : list (string * string * handler) :=
  [("GET", "/{$}", landing); ("GET", "/explore", explore); ("GET", "/assets/site.css", siteCSS)].

Definition merchantAdminRoutes : list (string * string * handler) :=
  [("GET", "/merchant", merchantPanel); ("GET", "/merchant/app.js", merchantPanelJS);
   ("GET", "/merchant/api/session", withAdmin false adminSession);
   ("POST", "/merchant/api/logout", adminLogout);
   ("POST", "/merchant/api/wallet-challenge", withAdmin false adminWalletChallenge);
   ("POST", "/merchant/api/verify-wallet", withAdmin false adminVerifyWallet);
   ("POST", "/merchant/api/recipient-challenge", withAdmin true adminRecipientChallenge);
   ("POST", "/merchant/api/verify-recipient-change", withAdmin true adminVerifyRecipientChange);
   ("GET", "/merchant/api/stats", withAdmin true adminStats);
   ("PUT", "/merchant/api/stats-consent", withAdmin true adminStatsConsent);
   ("PUT", "/merchant/api/public-profile", withAdmin true adminPublicProfileConsent);
   ("GET", "/merchant/api/api-keys", withAdmin true adminListKeys);
   ("POST", "/merchant/api/api-keys", withAdmin true adminCreateKey);
   ("DELETE", "/merchant/api/api-keys/{id}", withAdmin true adminRevokeKey)].

Definition merchantRoutes : list (string * string * handler) :=
  if negb (dp_Merchant dep) then []
  else
    ([("POST", "/v1/merchants/register", limited RegisterLimiter (dp_RegistrationRate dep) register);
      ("POST", "/v1/merchants/admin-link", limited AdminLinkLimiter (dp_RegistrationRate dep) adminLink);
      ("POST", "/v1/merchants/verify-email", verifyEmail);
      ("GET", "/verify-email", verifyEmailPage);
      ("POST", "/verify-email", verifyEmailPageSubmit);
      ("POST", "/v1/merchants/wallet-challenge", walletChallenge);
      ("POST", "/v1/merchants/verify-wallet", verify_wallet);
      ("GET", "/v1/me", withMerchant (fair_use me));
      ("POST", "/v1/api-keys", withMerchant (fair_use createKey));
      ("GET", "/v1/api-keys", withMerchant (fair_use listKeys));
      ("DELETE", "/v1/api-keys/{id}", withMerchant revokeKey);
      ("POST", "/v1/me/recipient-change", withMerchant (fair_use recipientChallenge));
      ("POST", "/v1/me/recipient-change/verify", withMerchant (fair_use recipientVerify));
      ("POST", "/v1/admin/merchants/{id}/suspend", operator suspend);
      ("POST", "/v1/admin/merchants/{id}/reinstate", operator reinstate)] ++ merchantAdminRoutes)%list.

Definition routes : list (string * string * handler) :=
  ([("GET", "/health/live", live); ("GET", "/health/ready", ready); ("GET", "/stats", stats_handler);
    ("GET", "/status", status_handler)] ++ publicSiteRoutes ++
   (if dp_MetricsEnabled dep then [("GET", "/metrics", serve_metrics)] else []) ++
   [("GET", "/supported", supported); ("POST", "/verify", verify); ("POST", "/settle", settle)] ++ merchantRoutes)%list.

Definition patterns : list (pattern * handler) :=
  map (fun rt => ({| pt_method := fst (fst rt); pt_segments := path_pattern (snd (fst rt)) |}, snd rt)) routes.

(** The redirect names the clean path; how [net/http] prints it, with the
    query, is not modelled. *)
Definition mux : handler := fun w r =>
  match find_handler patterns (q_Method r) (q_EscapedPath r) with
  | Handle h values => h w (with_path_values values r)
  | Moved path => write (set_header "Location" path w) 301 NoBody
  | MethodNotAllowed methods => http_Error (set_header "Allow" (String.concat ", " methods) w) "Method Not Allowed" 405
  | NotFound => http_Error w "404 page not found" 404
  end.

(** ** Middleware *)

Definition emailVerificationNavigation (r : request) : bool :=
  String.eqb (q_Path r) "/verify-email" &&
  (String.eqb (q_Method r) "GET" ||
   String.eqb (q_Method r) "POST" && String.eqb (header_get r "Sec-Fetch-Mode") "navigate" &&
   String.eqb (header_get r "Sec-Fetch-Dest") "document" && String.eqb (header_get r "Sec-Fetch-User") "?1").

Definition secureHeaders (next : handler) : handler := fun w r =>
  let w := set_header "Content-Security-Policy" "default-src 'none'; frame-ancestors 'none'" w in
  let w := set_header "Referrer-Policy" "no-referrer" w in
  let w := set_header "X-Content-Type-Options" "nosniff" w in
  let w := set_header "X-Frame-Options" "DENY" w in
  let w := set_header "Permissions-Policy" "camera=(), microphone=(), geolocation=()" w in
  let origin := header_get r "Origin" in
  if negb (String.eqb origin EmptyString) && negb (String.eqb origin (dp_AllowedOrigin dep)) then
    if negb (emailVerificationNavigation r)
    then writeError w 403 "cors_denied" "cross-origin requests are not allowed" (q_RequestID r)
    else next w r
  else if negb (String.eqb origin EmptyString)
  then next (set_header "Vary" "Origin" (set_header "Access-Control-Allow-Origin" origin w)) r
  else next w r.

(** [observe]; the durations are nanoseconds. *)
Definition observe (next : handler) : handler := fun w r =>
  Clock (fun start =>
    abind (next w r) (fun rs =>
      Clock (fun now => Observe (ObserveHTTP (q_Method r) (knownRoute (q_Path r)) (rs_status rs) (now - start)) (Done rs)))).

Definition requestID (next : handler) : handler := fun w r =>
  let serve id := next (set_header "X-Request-ID" id w) (with_request_id id r) in
  let id := header_get r "X-Request-ID" in
  if (String.length id <? 8)%nat || (128 <? String.length id)%nat then
    Random (fun raw =>
      match raw with
      | Ok raw => serve (hex_EncodeToString raw)
      | Err _ => Clock (fun now => serve (FormatInt now))
      end)
  else serve id.

(** [New]: what a request is answered with.  [requestLimit] bounds the body
    as the decoders do; a panic abandons the tree, and the answer of [recovery]
    to it is not modelled. *)
Definition serve : handler :=
  requestID (observe (limited PublicLimiter (dp_PublicRatePerMinute dep) (secureHeaders mux))).

End Handlers.
