(* ===== verification/Startup.v ===== *)
(** cmd/eth402/main.go and the constructors it calls: from the environment to
    a serving process.

    The answers of the outside (the database, the Ethereum providers, the mail
    server, the signing backends) come with the call.  Durations are
    nanoseconds in the configuration and whole microseconds in the services,
    as the database stores them. *)

From Stdlib Require Import ZArith Lia Ascii Strings.Byte.
From stdpp Require Import base gmap list strings.
From S2P Require Import Prelude GoStd GoNet GoUrl GoDuration Config.
From S2P Require Import Geth WalletProof Secret Calendar Challenge Schema Merchant EmailDelivery Smtp.
From S2P Require Import Policy Signer Store StoreInv Service.

Local Open Scope string_scope.
Local Open Scope Z_scope.

Definition micros (ns : Z) : duration := ns / 1000.

(** ** Wiring *)

Definition settlement_config (c : Config.Config) (signerAddress : string) : Service.Config :=
  {| SignerAddress := signerAddress; ExpiryMargin := micros (Config.SettlementExpiryMargin c);
     MerchantQuota := Config.MerchantSettlementQuota c; GlobalQuota := Config.GlobalSettlementQuota c;
     QuotaWindow := micros (Config.MerchantQuotaWindow c); LeaseDuration := micros (Config.SettlementLeaseDuration c);
     Service.Confirmations := Config.Confirmations c; GasLimit := Config.MaxGasLimit c;
     MaxFeePerGas := Config.MaxFeePerGasWei c; MaxPriorityFeeGas := Config.MaxPriorityFeeWei c;
     RecoveryGrace := micros (Config.SettlementRecoveryGrace c);
     ReplacementAfter := micros (Config.SettlementReplacementAfter c);
     ResponseWait := micros (Config.SettleResponseWait c) |}.

Definition merchant_config (c : Config.Config) : Merchant.Config :=
  {| BaseURL := Config.PublicBaseURL c; Merchant.TermsVersion := Config.TermsVersion c;
     EmailTTL := micros (Config.EmailTokenTTL c); Resend := micros (Config.EmailResend c);
     WalletTTL := micros (Config.WalletChallengeTTL c);
     Merchant.RecipientCooldown := micros (Config.RecipientCooldown c);
     AdminSessionTTL := micros (Config.MerchantSessionTTL c);
     EmailDeliveryLease := micros (Z.max (wrap_int64 (2 * Config.SMTPTimeout c)) Minute);
     Pepper := bytes_of_string (Config.APIKeyPepper c);
     Merchant.EmailOutboxKey := default [] (hex_DecodeString (Config.EmailOutboxKey c));
     Merchant.BlockDisposable := Config.BlockDisposable c; RestrictFree := Config.RestrictFreeEmail c;
     Allowlist := Config.EmailAllowlist c; Denylist := Config.EmailDenylist c |}.

Definition smtp_config (c : Config.Config) : SMTPConfig :=
  {| sc_Address := Config.SMTPAddress c; sc_Username := Config.SMTPUsername c; sc_Password := Config.SMTPPassword c;
     sc_From := Config.SMTPFrom c; sc_TLSMode := Config.SMTPTLSMode c; sc_Timeout := Config.SMTPTimeout c |}.

(** One pass of the retention worker at [now]. *)
Definition retention_request (c : Config.Config) (now : time) : RetentionRequest :=
  {| rr_Now := now; rr_PaymentAfter := micros (Config.PaymentRetention c);
     rr_EphemeralAfter := micros (Config.EphemeralRetention c);
     rr_RevokedKeyAfter := micros (Config.RevokedKeyRetention c); rr_BatchSize := Config.RetentionBatchSize c |}.

(** ** Signing backends *)

Inductive backend :=
  | BackendDevelopment (key : string)
  | BackendCloudKMS (keyName : string)
  | BackendPolicy (endpoint token : string) (timeout : Z).

Section Startup.
  Context `{Geth} `{Mail}.

(** [GET /identity] at the boundary, with its token. *)
Definition fetchAddress (reply : httpReply) : option string :=
  match reply with
  | Reply 200 (Some body) =>
      if IsHexAddress (Policy.SignerAddress body) then Some (ToLower (Policy.SignerAddress body)) else None
  | _ => None
  end.

(** [strings.TrimSuffix(endpoint, "/")]. *)
Definition trim_slash (s : string) : string := match cut_last "/" s with Some (h, EmptyString) => h | _ => s end.

(** The client's endpoint and the signing address it was told. *)
Definition NewPolicyClient (endpoint token : string) (identity : string -> string -> httpReply) : option (string * string) :=
  if String.eqb endpoint EmptyString || String.eqb token EmptyString then None
  else if negb (is_origin endpoint) then None
  else option_map (pair (trim_slash endpoint)) (fetchAddress (identity (trim_slash endpoint +:+ "/identity") token)).

(** What the process finds outside. *)
Record surroundings := {
  su_database : bool;
  su_schema : bool;
  su_providers : bool;
  su_verification : bool;
  su_mail : session -> smtp_step -> option smtp_error;
  su_development : string -> option string;
  su_kms : string -> option string;
  su_identity : string -> string -> httpReply;
  su_nonce : string -> option Z;
}.

(** The configured backend, and the address it signs for. *)
Definition open_backend (c : Config.Config) (su : surroundings) : option (backend * string) :=
  if String.eqb (Config.SignerMode c) "development" then
    option_map (pair (BackendDevelopment (Config.DevSignerKey c))) (su_development su (Config.DevSignerKey c))
  else if String.eqb (Config.SignerMode c) "external" then
    option_map (pair (BackendCloudKMS (Config.KMSKeyName c))) (su_kms su (Config.KMSKeyName c))
  else if String.eqb (Config.SignerMode c) "policy" then
    option_map (fun p => (BackendPolicy p.1 (Config.PolicySignerToken c) (Config.SigningTimeout c), p.2))
      (NewPolicyClient (Config.PolicySignerURL c) (Config.PolicySignerToken c) (su_identity su))
  else None.

(** ** Email senders *)

Inductive email_sender := LogSender | FileSender (directory : string) | SMTP (s : SMTPSender).

Definition open_sender (c : Config.Config) (su : surroundings) : option email_sender :=
  if String.eqb (Config.EmailBackend c) "file" then Some (FileSender (Config.EmailFileDir c))
  else if String.eqb (Config.EmailBackend c) "smtp" then
    match NewSMTPSender (smtp_config c) with
    | inr _ => None
    | inl s =>
        if String.eqb (Config.Environment c) "production" then
          match fst (Probe (su_mail su) s []) with inl _ => Some (SMTP s) | inr _ => None end
        else Some (SMTP s)
    end
  else Some LogSender.

(** ** The process *)

Inductive worker :=
  | EmailDeliveryLoop (interval : Z)
  | BroadcastLoop
  | ConfirmationLoop
  | RecoveryLoop
  | BalanceLoop
  | PruneFairUseLoop (window interval : Z)
  | RetentionLoop (interval : Z).

Record process := {
  pr_config : Config.Config;
  pr_sender : email_sender;
  pr_settlement : option (backend * Service.Config);
  pr_workers : list worker;
}.

Inductive outcome :=
  | Exited (status : Z)
  | ConfigurationValid
  | ProbeHealth (address : string)
  | Serving (p : process).

(** The address the health check probes. *)
Definition healthCheck (addr : string) (get : string -> option Z) : Z :=
  let addr := if HasPrefix addr ":" then "127.0.0.1" +:+ addr else addr in
  match get ("http://" +:+ addr +:+ "/health/ready") with
  | Some 200 => 0
  | _ => 1
  end.

Definition settlement_workers : list worker := [BroadcastLoop; ConfirmationLoop; RecoveryLoop; BalanceLoop].

Definition prune_workers (c : Config.Config) : list worker :=
  if (0 <? Config.MerchantRequestsPerWindow c) && (0 <? Config.FairUseWindow c) then
    [PruneFairUseLoop (Config.FairUseWindow c) (Z.max (Config.FairUseWindow c) Hour)]
  else [].

(** Settlement is wired only when a signer is enabled; the signer's account is
    seeded before any worker starts. *)
Definition open_settlement (c : Config.Config) (su : surroundings) (d : db) :
    option (option (backend * Service.Config) * db) :=
  if String.eqb (Config.SignerMode c) "disabled" then Some (None, d)
  else
    match open_backend c su with
    | None => None
    | Some (b, signerAddress) =>
        match su_nonce su signerAddress with
        | None => None
        | Some chainNonce =>
            match SeedSignerAccount signerAddress chainNonce d with
            | Ok (_, d) => Some (Some (b, settlement_config c signerAddress), d)
            | Err _ => None
            end
        end
    end.

Definition main (checkConfig probe : bool) (env : string -> string) (su : surroundings) (d : db) : outcome * db :=
  let '(c, problems) := Load env in
  match problems with
  | _ :: _ => (Exited 1, d)
  | [] =>
      if checkConfig then (ConfigurationValid, d)
      else if probe then (ProbeHealth (Config.HTTPAddr c), d)
      else if negb (su_database su) || negb (su_schema su) || negb (su_providers su) || negb (su_verification su) then
        (Exited 1, d)
      else
        match open_sender c su with
        | None => (Exited 1, d)
        | Some sender =>
            match open_settlement c su d with
            | None => (Exited 1, d)
            | Some (settlement, d) =>
                (Serving {| pr_config := c; pr_sender := sender; pr_settlement := settlement;
                            pr_workers :=
                              (EmailDeliveryLoop (Config.WorkerInterval c) ::
                               match settlement with Some _ => settlement_workers | None => [] end ++
                               prune_workers c ++ [RetentionLoop (Config.RetentionInterval c)])%list |}, d)
            end
        end
  end.

End Startup.
