(* ===== verification/StartupProps.v ===== *)
(** What a serving process may rely on: the properties of start-up, and the
    bounds that the configuration puts on the running system. *)

From Stdlib Require Import ZArith Lia Ascii Strings.Byte.
From stdpp Require Import base gmap list strings relations.
From S2P Require Import Prelude GoStd Secret Calendar Geth Policy Signer WalletProof Challenge.
From S2P Require Import Verification Schema Store Prog Service StoreInv StoreIntent System StoreDemo SystemDemo.
From S2P Require Import SystemProps GoNet GoUrl GoDuration Config Merchant EmailDelivery Smtp Startup.

(** A production environment: it loads, and starts a process whose settlement
    service has the configuration of SystemDemo.v. *)

Local Open Scope string_scope.
Local Open Scope Z_scope.

#[export] Instance DemoMail : Mail :=
  {| ParseAddress s := Some {| ma_Name := EmptyString; ma_Address := s |}; address_String := ma_Address;
     QEncoding s := s; quotedprintable s := s |}.

Definition demo_vars : list (string * string) :=
  [("ETH402_ENV", "production"); ("ETH402_PUBLIC_BASE_URL", "https://eth402.org");
   ("ETH402_DATABASE_URL", "postgres://eth402@db.internal/eth402?sslmode=verify-full");
   ("ETH402_ETHEREUM_RPC_URL", "https://rpc.one.example/v1"); ("ETH402_ETHEREUM_FALLBACK_RPC_URL", "https://two.example:8443/");
   ("ETH402_MAX_FEE_PER_GAS_WEI", "100"); ("ETH402_MAX_PRIORITY_FEE_PER_GAS_WEI", "2"); ("ETH402_MAX_GAS_LIMIT", "100000");
   ("ETH402_SIGNER_MODE", "policy"); ("ETH402_POLICY_SIGNER_URL", "https://signer.internal/");
   ("ETH402_POLICY_SIGNER_TOKEN", Repeat "t" 32); ("ETH402_EMAIL_BACKEND", "smtp");
   ("ETH402_SMTP_ADDRESS", "mail.example:587"); ("ETH402_SMTP_FROM", "noreply@eth402.org");
   ("ETH402_EMAIL_OUTBOX_KEY", Repeat "a" 64); ("ETH402_API_KEY_PEPPER", Repeat "p" 32);
   ("ETH402_SETTLEMENT_LEASE_DURATION", "30s"); ("ETH402_SETTLEMENT_RECOVERY_GRACE", "1m");
   ("ETH402_SETTLE_RESPONSE_WAIT", "1ns"); ("ETH402_MERCHANT_SETTLEMENT_QUOTA", "2");
   ("ETH402_GLOBAL_SETTLEMENT_QUOTA", "3"); ("ETH402_MERCHANT_QUOTA_WINDOW", "1h")].

(** The first variable of a name; unset ones are empty. *)
Fixpoint env_of (vars : list (string * string)) (key : string) : string :=
  match vars with
  | [] => EmptyString
  | (k, v) :: vars => if String.eqb k key then v else env_of vars key
  end.

Definition demo_env : string -> string := env_of demo_vars.

Definition demo_loaded : Config.Config := fst (Load demo_env).

Lemma demo_load_problems : snd (Load demo_env) = [].
Proof. vm_compute. reflexivity. Qed.

Lemma demo_load : Load demo_env = (demo_loaded, []).
Proof. rewrite <- demo_load_problems. apply surjective_pairing. Qed.

Lemma demo_settlement_config : settlement_config demo_loaded (demo_addr "9") = demo_cfg.
Proof. vm_compute. reflexivity. Qed.

(** A mail server that accepts every step, and a signer with nonce 5. *)
Definition demo_surroundings : surroundings :=
  {| su_database := true; su_schema := true; su_providers := true; su_verification := true;
     su_mail := fun _ _ => None; su_development := fun _ => None; su_kms := fun _ => None;
     su_identity := fun _ _ =>
       Reply 200 (Some {| Policy.RawTransaction := EmptyString; Policy.SignerAddress := demo_addr "9" |});
     su_nonce := fun _ => Some 5 |}.

Definition demo_process : option (process * db) :=
  match main (H := demo_geth) false false demo_env demo_surroundings empty_db with
  | (Serving p, d) => Some (p, d)
  | _ => None
  end.

Lemma demo_main : exists p d, main (H := demo_geth) false false demo_env demo_surroundings empty_db = (Serving p, d) /\
  Config.Environment (pr_config p) = "production" /\ is_Some (pr_settlement p).
Proof.
  assert (match demo_process with
          | Some (p, d) => String.eqb (Config.Environment (pr_config p)) "production" &&
              match pr_settlement p with Some _ => true | None => false end
          | None => false
          end = true) as E by (vm_compute; reflexivity).
  unfold demo_process in E. destruct (main false false demo_env demo_surroundings empty_db) as [[?| |?|p] d]; try discriminate E.
  exists p, d. apply andb_true_iff in E as [E1%String.eqb_eq E2].
  split; [reflexivity|]. split; [exact E1|]. destruct (pr_settlement p); [eexists; reflexivity | discriminate E2].
Qed.
Local Open Scope string_scope.
Local Open Scope Z_scope.

(** ** A configuration without problems *)

Lemma report_nil b t : report b t = [] -> b = false.
Proof. by destruct b. Qed.

(** Splits the hypothesis that a joined list of reports is empty. *)
Ltac no_problems H :=
  repeat match type of H with
  | (_ ++ _)%list = [] => let H1 := fresh "P" in apply app_eq_nil in H as [H1 H]; no_problems H1
  | report _ _ = [] => apply report_nil in H
  end.

Section Valid.
  Context `{Mail} (c : Config.Config) (Hc : Config.Validate c = []).

Lemma valid_parts :
  validate_limits c = [] /\ validate_smtp c = [] /\ validate_fees c = [] /\ validate_signer c = [] /\
  validate_production c = [].
Proof. clear -Hc. unfold Config.Validate in Hc. no_problems Hc. by split_and!. Qed.

Lemma valid_quotas :
  1 <= Config.MerchantSettlementQuota c <= Config.GlobalSettlementQuota c /\ 0 < Config.MerchantQuotaWindow c /\
  Config.MerchantQuotaWindow c <= Config.PaymentRetention c /\ 1 <= Config.Confirmations c.
Proof.
  destruct valid_parts as (HL & _). unfold validate_limits in HL. no_problems HL. bool_hyps. lia.
Qed.

Lemma valid_signing :
  Config.SignerMode c <> "disabled" ->
  exists maxFee, SetString10 (Config.MaxFeePerGasWei c) = Some maxFee /\ 0 < maxFee /\ MinGasLimit <= Config.MaxGasLimit c.
Proof.
  intros Hm. destruct valid_parts as (_ & _ & HF & _). unfold validate_fees in HF. no_problems HF.
  destruct (String.eqb_spec (Config.SignerMode c) "disabled"); [done|].
  destruct (SetString10 (Config.MaxFeePerGasWei c)) as [m|]; [|done]. exists m.
  destruct (Z.leb_spec m 0); [done|]. destruct (Z.eqb_spec (Config.MaxGasLimit c) 0); [done|].
  split; [done|]. split; [done|]. cbn in *. bool_hyps. lia.
Qed.

(** What production adds. *)
Lemma valid_production :
  Config.Environment c = "production" ->
  (exists primary fallback, productionRPCHostIdentity (Config.EthereumRPCURL c) = Some primary /\
     productionRPCHostIdentity (Config.FallbackRPCURL c) = Some fallback /\ primary <> fallback) /\
  verified_database (Config.DatabaseURL c) = true /\ Config.EmailBackend c = "smtp" /\
  (Config.SignerMode c = "disabled" \/ Config.SignerMode c = "policy") /\
  Config.DevSignerKey c = EmptyString /\ Config.AllowUnsafeSigner c = false.
Proof.
  intros He. destruct valid_parts as (_ & _ & _ & _ & HP). unfold validate_production in HP. rewrite He in HP.
  cbn [String.eqb Ascii.eqb Bool.eqb] in HP. no_problems HP.
  destruct (productionRPCHostIdentity (Config.EthereumRPCURL c)) as [p|]; [|done].
  destruct (productionRPCHostIdentity (Config.FallbackRPCURL c)) as [f|]; [|by rewrite orb_true_r in *].
  split; [exists p, f; split_and!; try done; by apply String.eqb_neq|]. bool_hyps.
  split_and!; try done; try (by apply String.eqb_eq).
  destruct (String.eqb_spec (Config.SignerMode c) "disabled"); [by left|].
  destruct (String.eqb_spec (Config.SignerMode c) "policy"); [by right|done].
Qed.

Lemma valid_policy :
  Config.SignerMode c = "policy" ->
  is_origin (Config.PolicySignerURL c) = true /\ (32 <= String.length (Config.PolicySignerToken c))%nat /\
  (Config.Environment c = "production" ->
   exists u, url_Parse (Config.PolicySignerURL c) = Some u /\ Scheme u = "https").
Proof.
  intros Hm. destruct valid_parts as (_ & _ & _ & HS & _). unfold validate_signer in HS. rewrite Hm in HS.
  cbn [String.eqb Ascii.eqb Bool.eqb] in HS. no_problems HS. unfold short_of in *. bool_hyps.
  split_and!; [by destruct (is_origin _) | lia |]. intros He. rewrite He in *. cbn in *.
  destruct (url_Parse (Config.PolicySignerURL c)) as [u|]; [|done]. exists u. split; [done|].
  destruct (String.eqb_spec (Scheme u) "https"); [done|discriminate].
Qed.

End Valid.

(** ** Start-up *)

(** Closes a goal in which a worker that is none of settlement's is one. *)
Ltac not_loop H := unfold settlement_workers in H; rewrite !elem_of_cons, elem_of_nil in H; intuition congruence.

Section Props.
  Context `{Geth} `{Mail} `{X402}.

Lemma main_Serving env su d p d' :
  main false false env su d = (Serving p, d') ->
  Load env = (pr_config p, []) /\ Config.Validate (pr_config p) = [] /\ open_sender (pr_config p) su = Some (pr_sender p) /\
  open_settlement (pr_config p) su d = Some (pr_settlement p, d') /\
  forall w, w ∈ settlement_workers -> (w ∈ pr_workers p <-> pr_settlement p <> None).
Proof.
  unfold main. destruct (Load env) as [c [|e l]] eqn:EL; [|done].
  destruct (_ || _); [done|]. destruct (open_sender c su) as [s|] eqn:Es; [|done].
  destruct (open_settlement c su d) as [[st d1]|] eqn:Eo; [|done]. intros [= <- <-]. cbn [pr_config pr_sender pr_settlement pr_workers].
  split; [done|]. split.
  { unfold Load in EL. destruct (load_fields env []) as [c' errs]. injection EL as -> E. by apply app_eq_nil in E as [-> _]. }
  do 2 (split; [done|]). intros w Hw. rewrite elem_of_cons, !elem_of_app, list_elem_of_singleton.
  assert (w ∉ prune_workers c) as Hp.
  { unfold prune_workers. destruct (_ && _); [|apply not_elem_of_nil]. intros ->%list_elem_of_singleton. not_loop Hw. }
  split.
  - intros [->|[Hs|[?| ->]]]; [not_loop Hw| |done|not_loop Hw].
    destruct st; [done | by apply elem_of_nil in Hs].
  - destruct st; [auto|done].
Qed.

(** A serving process that settles has the backend the mode names, and its
    signer's account was seeded no lower than the chain's nonce. *)
Lemma open_settlement_Some c su d b cfg d' :
  open_settlement c su d = Some (Some (b, cfg), d') ->
  exists address n chain, cfg = settlement_config c address /\ open_backend c su = Some (b, address) /\
    su_nonce su address = Some chain /\ (exists row, NormalizeAddress address = Ok row /\ signers d' !! row = Some n) /\ chain <= n /\
    Config.SignerMode c <> "disabled".
Proof.
  unfold open_settlement. destruct (String.eqb_spec (Config.SignerMode c) "disabled") as [|Hm]; [done|].
  destruct (open_backend c su) as [[b' address]|]; [|done]. destruct (su_nonce su address) as [chain|] eqn:En; [|done].
  destruct (SeedSignerAccount _ _ d) as [[n d1]|] eqn:E; [|done]. intros [= <- <- <-].
  apply SeedSignerAccount_Ok in E as (row & Hrow & _ & Hn & _ & ->).
  exists address, n, chain. split_and!; try done. exists row. split; [done|]. cbn. by rewrite lookup_insert_eq.
Qed.

Lemma Load_valid env c : Load env = (c, []) -> Config.Validate c = [].
Proof. unfold Load. destruct (load_fields env []) as [c' errs]. intros [= -> E]. by apply app_eq_nil in E as [-> _]. Qed.

Lemma production_sender c su s :
  open_sender c su = Some s -> Config.EmailBackend c = "smtp" -> Config.Environment c = "production" ->
  exists t, s = SMTP t /\ fst (Probe (su_mail su) t []) = inl tt /\
    guarded (snd (Probe (su_mail su) t [])) /\ is_tls (snd (Probe (su_mail su) t [])) = true.
Proof.
  unfold open_sender. intros E Hb He. rewrite Hb, He in E. cbn [String.eqb Ascii.eqb Bool.eqb] in E.
  destruct (NewSMTPSender _) as [t|]; [|done]. destruct (fst (Probe _ t [])) as [[]|e] eqn:EP; [|done].
  injection E as <-. exists t. split; [done|]. split; [done|].
  destruct (keeps_Probe (su_mail su) t []) as [HG HT]; [by intros [|] ? ? ?|done|]. split; [done|]. by apply (HT tt).
Qed.

Lemma production_backend c su d b cfg d' :
  open_settlement c su d = Some (Some (b, cfg), d') -> Config.Validate c = [] -> Config.Environment c = "production" ->
  Config.SignerMode c = "disabled" \/ Config.SignerMode c = "policy" ->
  exists u address row n chain, b = BackendPolicy (trim_slash (Config.PolicySignerURL c)) (Config.PolicySignerToken c)
      (Config.SigningTimeout c) /\
    url_Parse (Config.PolicySignerURL c) = Some u /\ Scheme u = "https" /\ User u = false /\
    (32 <= String.length (Config.PolicySignerToken c))%nat /\ cfg = settlement_config c address /\
    NormalizeAddress address = Ok row /\ signers d' !! row = Some n /\ su_nonce su address = Some chain /\ chain <= n.
Proof.
  intros E Hv Hp Hmode. destruct (open_settlement_Some _ _ _ _ _ _ E) as (address & n & chain & -> & Hb & Hn & (row & Hrow & Hs) & Hle & Hd).
  destruct Hmode as [?|Hm]; [done|]. destruct (valid_policy c Hv Hm) as (Ho & Ht & Hu).
  destruct (Hu Hp) as (u & Eu & Hsch). exists u, address, row, n, chain.
  assert (User u = false) as Huser.
  { unfold is_origin in Ho. rewrite Eu in Ho. by destruct (User u); rewrite ?andb_false_r in Ho. }
  split; [|by split_and!]. unfold open_backend in Hb. rewrite Hm in Hb. cbn [String.eqb Ascii.eqb Bool.eqb] in Hb.
  unfold NewPolicyClient in Hb. destruct (_ || _); [done|]. destruct (negb _); [done|].
  destruct (fetchAddress _); [|done]. by injection Hb as <- _.
Qed.

(** C3. The exposure the operator configured is the most they can lose to gas.
    Whatever the environment, if it loads without a problem and enables a
    signer, then in every run of the settlement service so configured,
    transactions of distinct nonces sent for payments requested within one
    quota window cost together at most the quota times the gas limit times the
    fee ceiling; the quota of a merchant is no more than the global one. *)
Theorem configured_exposure env c signer w ps who a l :
  Load env = (c, []) -> Config.SignerMode c <> "disabled" ->
  runs_to (settlement_config c signer) any_signer (w, ps) ->
  NoDup (map tx_Nonce l) -> Forall (charged (settlement_config c signer) w who a) l ->
  exists maxFee, SetString10 (Config.MaxFeePerGasWei c) = Some maxFee /\ 0 < maxFee /\
    MinGasLimit <= Config.MaxGasLimit c /\ 1 <= Config.MerchantSettlementQuota c <= Config.GlobalSettlementQuota c /\
    total_fees l <=
      match who with None => Config.GlobalSettlementQuota c | Some _ => Config.MerchantSettlementQuota c end *
      (Config.MaxGasLimit c * maxFee).
Proof.
  intros EL Hm R Hnd Hl. assert (Config.Validate c = []) as Hv by (by eapply Load_valid).
  destruct (valid_signing c Hv Hm) as (m & Em & Hpos & Hgas). destruct (valid_quotas c Hv) as (Hq & _).
  exists m. do 4 (split; [done|]). assert (ceiling (settlement_config c signer) = m) as Ec.
  { unfold ceiling. cbn. by rewrite Em. }
  pose proof (exposure_bound (settlement_config c signer) w ps who a l) as HB. rewrite Ec in HB.
  unfold gas_cap, quota_cap in HB. cbn [GasLimit MerchantQuota GlobalQuota settlement_config] in HB.
  unfold MinGasLimit in Hgas. rewrite Z.max_r in HB by (destruct who; lia). rewrite Z.max_r in HB by lia.
  apply HB; [lia|done..].
Qed.

(** C6. A process that serves in production is guarded: its mail server was
    probed over TLS and nothing was disclosed before the handshake; the two
    Ethereum providers have different host identities; the database connection
    is verified; and it settles only through the signing boundary, at an HTTPS
    origin, with a token of at least 32 bytes and a signer account seeded no
    lower than the chain's nonce, or else runs no settlement worker. *)
Theorem production_guarded env su d p d' :
  main false false env su d = (Serving p, d') -> Config.Environment (pr_config p) = "production" ->
  let c := pr_config p in
  (exists s, pr_sender p = SMTP s /\ fst (Probe (su_mail su) s []) = inl tt /\
     guarded (snd (Probe (su_mail su) s [])) /\ is_tls (snd (Probe (su_mail su) s [])) = true) /\
  (exists primary fallback, productionRPCHostIdentity (Config.EthereumRPCURL c) = Some primary /\
     productionRPCHostIdentity (Config.FallbackRPCURL c) = Some fallback /\ primary <> fallback) /\
  verified_database (Config.DatabaseURL c) = true /\
  match pr_settlement p with
  | None => d' = d /\ forall w, w ∈ settlement_workers -> w ∉ pr_workers p
  | Some (b, cfg) =>
      exists u address row n chain, b = BackendPolicy (trim_slash (Config.PolicySignerURL c)) (Config.PolicySignerToken c)
        (Config.SigningTimeout c) /\
      url_Parse (Config.PolicySignerURL c) = Some u /\ Scheme u = "https" /\ User u = false /\
      (32 <= String.length (Config.PolicySignerToken c))%nat /\ cfg = settlement_config c address /\
      NormalizeAddress address = Ok row /\ signers d' !! row = Some n /\ su_nonce su address = Some chain /\ chain <= n
  end.
Proof.
  intros E Hp c. destruct (main_Serving _ _ _ _ _ E) as (_ & Hv & Hs & Ho & Hw). fold c in Hv, Hs, Ho, Hp |- *.
  destruct (valid_production c Hv Hp) as (Hrpc & Hdb & Hmail & Hmode & _). split_and!; [|done|done|].
  - by apply (production_sender c su).
  - destruct (pr_settlement p) as [[b cfg]|].
    + by apply (production_backend c su d b cfg d').
    + split; [|intros w Hin Hw'; by apply (Hw w Hin)].
      unfold open_settlement in Ho. destruct (String.eqb _ _); [congruence|]. by repeat case_match; simplify_eq.
Qed.

End Props.

(** ** Witnesses: the environment of StartupDemo.v *)

#[local] Existing Instance DemoX402.
#[local] Existing Instance demo_geth.

(** The transaction that the request of SystemDemo.v sends, and the payment it
    is charged to. *)
Lemma demo_charged : exists t i r p, UnmarshalBinary [x00] = Some t /\ fee_of t = 100000 * 22 /\
  txs demo_end.1.2 !! i = Some r /\ t_nonce r = tx_Nonce t /\ payments demo_end.1.2 !! t_payment r = Some p /\
  counted (Some 7%N) p && in_window 0 (QuotaWindow demo_cfg) p = true.
Proof.
  assert (match UnmarshalBinary [x00], txs demo_end.1.2 !! 2%N with
          | Some t, Some r =>
              match payments demo_end.1.2 !! t_payment r with
              | Some p => (fee_of t =? 100000 * 22) && (t_nonce r =? tx_Nonce t) && counted (Some 7%N) p &&
                          in_window 0 (QuotaWindow demo_cfg) p
              | None => false
              end
          | _, _ => false
          end = true) as E by (vm_compute; reflexivity).
  destruct (UnmarshalBinary [x00]) as [t|]; [|discriminate E].
  destruct (txs demo_end.1.2 !! 2%N) as [r|] eqn:Er; [|discriminate E].
  destruct (payments demo_end.1.2 !! t_payment r) as [p|] eqn:Ep; [|discriminate E].
  apply andb_true_iff in E as [[[E1%Z.eqb_eq E2%Z.eqb_eq]%andb_true_iff E3]%andb_true_iff E4].
  exists t, 2%N, r, p. split; [reflexivity|]. rewrite E3, E4. exact (conj E1 (conj Er (conj E2 (conj Ep eq_refl)))).
Qed.

Lemma demo_enabled : Config.SignerMode demo_loaded <> "disabled".
Proof. assert (Config.SignerMode demo_loaded = "policy") as -> by (vm_compute; reflexivity). discriminate. Qed.

Lemma configured_exposure_witness :
  exists w t maxFee, charged demo_cfg w (Some 7%N) 0 t /\ fee_of t = 100000 * 22 /\
    SetString10 (Config.MaxFeePerGasWei demo_loaded) = Some maxFee /\
    total_fees [t] <= Config.MerchantSettlementQuota demo_loaded * (Config.MaxGasLimit demo_loaded * maxFee).
Proof.
  destruct demo_runs as (w & R & S & D).
  destruct demo_charged as (t & i & r & p & Et & Hf & HH).
  assert (charged demo_cfg w (Some 7%N) 0 t) as Hl.
  { split; [exact (ex_intro _ [x00] (conj S Et))|]. rewrite D.
    exact (ex_intro _ i (ex_intro _ r (ex_intro _ p HH))). }
  exists w, t. pose proof R as R'. pose proof Hl as Hl'. rewrite <- demo_settlement_config in R', Hl'.
  destruct (configured_exposure demo_env demo_loaded (demo_addr "9") w [Ret tt] (Some 7%N) 0 [t] demo_load demo_enabled R'
    (NoDup_singleton (tx_Nonce t)) (Forall_cons_2 _ _ _ Hl' (Forall_nil_2 _))) as (m & Em & _ & _ & _ & HB).
  exists m. exact (conj Hl (conj Hf (conj Em HB))).
Defined.

Lemma production_guarded_witness :
  exists p d s b cfg, main false false demo_env demo_surroundings empty_db = (Serving p, d) /\
    pr_sender p = SMTP s /\ is_tls (snd (Probe (su_mail demo_surroundings) s [])) = true /\
    pr_settlement p = Some (b, cfg) /\ (32 <= String.length (Config.PolicySignerToken (pr_config p)))%nat.
Proof.
  destruct demo_main as (p & d & E & Hp & [bc Hs]).
  destruct (production_guarded demo_env demo_surroundings empty_db p d E Hp) as ((s & Es & _ & _ & Ht) & _ & _ & Hset).
  rewrite Hs in Hset. destruct bc as [b cfg]. destruct Hset as (u & address & row & n & chain & _ & _ & _ & _ & Htok & _).
  exists p, d, s, b, cfg. exact (conj E (conj Es (conj Ht (conj Hs Htok)))).
Defined.
