(* ===== verification/HttpProps.v ===== *)
(** What a served request does: the calls it makes, and what its response
    discloses.

    A run of a handler is a path through its tree, with any answers of the
    services, to a response or to where the handler was abandoned (a panic, a
    client that went away). *)

From Stdlib Require Import ZArith Lia Ascii Strings.Byte.
From stdpp Require Import base gmap list strings.
From S2P Require Import Prelude GoStd GoJson GoNet Secret Schema VerifyService Service.
From S2P Require Import MerchantSchema Merchant MerchantAdmin EmailDelivery FairUse MerchantSystem MerchantDemo.
From S2P Require Import GoJsonText StrictJson ClientAddress RateLimit Metrics Status HttpMux HttpApi.

Local Open Scope string_scope.
Local Open Scope Z_scope.

Create HintDb http.

(** ** Runs *)

(** A call with its answer. *)
Inductive exchange :=
  | Called {X : Type} (c : mcall X) (x : res X)
  | Asked {X : Type} (q : query X) (x : res X).

Inductive path_of {A} : api A -> list exchange -> option A -> Prop :=
  | path_abandoned p : path_of p [] None
  | path_done a : path_of (Done a) [] (Some a)
  | path_account X (c : mcall X) k x l o : path_of (k x) l o -> path_of (Account c k) (Called c x :: l) o
  | path_ask X (q : query X) k x l o : path_of (k x) l o -> path_of (Ask q k) (Asked q x :: l) o
  | path_admit limiter client k b l o : path_of (k b) l o -> path_of (Admit limiter client k) l o
  | path_clock k t l o : path_of (k t) l o -> path_of (Clock k) l o
  | path_random k x l o : path_of (k x) l o -> path_of (Random k) l o
  | path_observe f k l o : path_of k l o -> path_of (Observe f k) l o
  | path_scrape k g l o : path_of (k g) l o -> path_of (Scrape k) l o.

(** [P] holds of every call made after the calls [h], [Q] of every result. *)
Fixpoint every {A} (P : list exchange -> exchange -> Prop) (Q : list exchange -> A -> Prop) (h : list exchange)
    (p : api A) : Prop :=
  match p with
  | Done a => Q h a
  | Account c k => forall x, P h (Called c x) /\ every P Q (h ++ [Called c x]) (k x)
  | Ask q k => forall x, P h (Asked q x) /\ every P Q (h ++ [Asked q x]) (k x)
  | Admit _ _ k => forall b, every P Q h (k b)
  | Clock k => forall t, every P Q h (k t)
  | Random k => forall x, every P Q h (k x)
  | Observe _ k => every P Q h k
  | Scrape k => forall g, every P Q h (k g)
  end%list.

Lemma every_path {A} P Q (p : api A) h l o :
  every P Q h p -> path_of p l o ->
  (forall l1 e l2, l = (l1 ++ e :: l2)%list -> P (h ++ l1)%list e) /\ (forall a, o = Some a -> Q (h ++ l)%list a).
Proof.
  intros E R. revert h E. induction R as [| |? ? ? ? ? ? ? IH|? ? ? ? ? ? ? IH|? ? ? ? ? ? ? IH|? ? ? ? ? IH|
    ? ? ? ? ? IH|? ? ? ? ? IH|? ? ? ? ? IH]; intros h E; cbn [every] in E; try (apply IH; apply E).
  1, 2: split; [intros [|??] ? ? ?; done|]; intros ? [=]; subst; by rewrite app_nil_r.
  all: destruct (E x) as [HP HE]; destruct (IH _ HE) as [H1 H2]; split;
    [intros [|e0 l1] e l2 [= <- ?]; [by rewrite app_nil_r|] | intros a ->; specialize (H2 a eq_refl); by rewrite <- app_assoc in H2].
  all: specialize (H1 l1 e l2 ltac:(done)); by rewrite <- app_assoc in H1.
Qed.

Lemma every_mono {A} (P P' : list exchange -> exchange -> Prop) (Q Q' : list exchange -> A -> Prop) h p :
  (forall h e, P h e -> P' h e) -> (forall h a, Q h a -> Q' h a) -> every P Q h p -> every P' Q' h p.
Proof. intros HP HQ. revert h. induction p; intros h E; cbn in *; firstorder. Qed.

Lemma path_random_inv {A} (k : _ -> api A) l o :
  path_of (Random k) l o -> (l = [] /\ o = None) \/ exists x, path_of (k x) l o.
Proof. intros R. inversion R; subst; eauto. Qed.

Lemma path_clock_inv {A} (k : _ -> api A) l o :
  path_of (Clock k) l o -> (l = [] /\ o = None) \/ exists t, path_of (k t) l o.
Proof. intros R. inversion R; subst; eauto. Qed.

Lemma every_abind {A B} P Q R h (p : api A) (k : A -> api B) :
  every P Q h p -> (forall h' a, Q h' a -> every P R h' (k a)) -> every P R h (abind p k).
Proof. intros E HK. revert h E. induction p; intros h E; cbn in *; eauto; firstorder. Qed.

(** ** What a request may do *)

Section Warrants.
  Context `{Net} (dep : Dependencies) (decodes : any -> bool).

(** The merchant is the one the bearer's key authenticated. *)
Definition by_bearer (r : request) (h : list exchange) (merchant key : string) : Prop :=
  bearer r = Some key /\ exists m, Called (CAuthenticate key) (Ok m) ∈ h /\ merchant = uuid_text (fst m).

(** The merchant is the one whose panel session the cookie names, in a state
    [good]. *)
Definition by_session (good : AdminPrincipal -> bool) (r : request) (h : list exchange) (merchant token : string) : Prop :=
  session_cookie r = Some token /\
  exists p, Called (CAuthenticateAdmin token) (Ok p) ∈ h /\ merchant = principal_id p /\ good p = true.

Definition any_state (p : AdminPrincipal) : bool := true.
Definition full (p : AdminPrincipal) : bool := ap_WalletAuthenticated p && principal_active p.
Definition pending (p : AdminPrincipal) : bool := bool_decide (mr_status (snd (ap_Merchant p)) = MPending).
Definition unproven (p : AdminPrincipal) : bool :=
  pending p && bool_decide (is_Some (mr_email_verified (snd (ap_Merchant p)))) &&
  bool_decide (mr_wallet_verified (snd (ap_Merchant p)) = None).

(** Either credential, the other absent. *)
Definition by_either (r : request) (h : list exchange) (merchant token key : string) : Prop :=
  (token = EmptyString /\ by_bearer r h merchant key) \/ (key = EmptyString /\ by_session full r h merchant token).

(** Who may make a call, and under which request identifier. *)
Definition warranted_call (r : request) (h : list exchange) {X} (c : mcall X) : Prop :=
  let id := q_RequestID r in
  match c with
  | CRegister _ request | CAdminLink _ request | CVerifyEmail _ request | CVerifyEmailForAdmin _ request => request = id
  | CAuthenticate value => bearer r = Some value
  | CAuthenticateAdmin token | CRevokeSession token => session_cookie r = Some token
  | CWalletChallenge merchant address action request =>
      request = id /\ address = EmptyString /\
      (action = "verify-recipient" \/
       action = "authenticate-admin" /\ exists token, by_session principal_active r h merchant token)
  | CPendingChallenge merchant _ request => request = id /\ exists token, by_session unproven r h merchant token
  | CAuthenticatedChallenge merchant key _ action request =>
      request = id /\ action = "change-recipient" /\ by_bearer r h merchant key
  | CAdminChallenge merchant token _ action request =>
      request = id /\ action = "change-recipient" /\ by_session full r h merchant token
  | CVerifyWallet merchant key _ _ _ action request =>
      request = id /\ (key = EmptyString /\ action = "verify-recipient" \/
                       action = "change-recipient" /\ by_bearer r h merchant key)
  | CVerifyAdminWallet merchant token _ _ _ request => request = id /\ by_session principal_active r h merchant token
  | CVerifyAdminRecipientChange merchant token _ _ _ request => request = id /\ by_session full r h merchant token
  | CMarkSession merchant token =>
      by_session pending r h merchant token /\
      exists challenge message signature key,
        Called (CVerifyWallet merchant EmptyString challenge message signature "verify-recipient" id) (Ok key) ∈ h
  | CStatsConsent merchant token _ request | CPublicConsent merchant token _ request =>
      request = id /\ by_session full r h merchant token
  | CCreateKey merchant token key _ request | CRevokeKey merchant token key _ request =>
      request = id /\ by_either r h merchant token key
  | CListKeys merchant token key => by_either r h merchant token key
  | CSuspend _ _ operator _ request =>
      request = id /\ operator = "operator" /\ operator_token dep r = true
  | CCount merchant _ _ =>
      exists credential, by_bearer r h (uuid_text merchant) credential \/
                         by_session any_state r h (uuid_text merchant) credential
  end.

Definition warranted_query (r : request) (h : list exchange) {X} (q : query X) : Prop :=
  match q with
  | QAdminStats merchant token => by_session full r h merchant token
  | QVerify v | QSettle v => payment_request decodes r = Some v
  | _ => True
  end.

(** What a GET or HEAD request may do. *)
Definition reads (e : exchange) : bool :=
  match e with
  | Called (CAuthenticate _ | CAuthenticateAdmin _ | CCount _ _ _ | CListKeys _ _ _) _ => true
  | Called _ _ => false
  | Asked (QVerify _ | QSettle _ | QRecordInvalid) _ => false
  | Asked _ _ => true
  end.

Definition reading (r : request) : bool := String.eqb (q_Method r) "GET" || String.eqb (q_Method r) "HEAD".

(** No other site's script, except that a link of a mail may be followed. *)
Definition same_site (r : request) : bool :=
  String.eqb (header_get r "Origin") EmptyString || String.eqb (header_get r "Origin") (dp_AllowedOrigin dep) ||
  emailVerificationNavigation r.

Definition warranted (r : request) (h : list exchange) (e : exchange) : Prop :=
  (match e with
   | Called c _ => warranted_call r h c
   | Asked q _ => warranted_query r h q
   end) /\ (reading r = true -> reads e = true).

(** ** What a response may say *)

Definition error_texts : list (string * string) :=
  [("invalid_request", "invalid request"); ("unauthorized", "authentication failed"); ("forbidden", "access forbidden");
   ("not_found", "resource not found"); ("conflict", "request conflicts with current state");
   ("rate_limited", "request is temporarily restricted"); ("internal_error", "internal server error");
   ("fair_use_exceeded", "merchant request allowance exceeded for the current window");
   ("service_unavailable", "statistics are temporarily unavailable");
   ("rate_limited", "request rate limit exceeded"); ("cors_denied", "cross-origin requests are not allowed")].

Definition error_text (code message : string) : bool :=
  existsb (fun t => String.eqb code (fst t) && String.eqb message (snd t)) error_texts.

(** The figures of a public page, where it has any. *)
Definition sourced_site (h : list exchange) (data : publicSiteData) : Prop :=
  (forall s, sd_Snapshot data = Some s -> Asked QStats (Ok s) ∈ h) /\
  (forall l, sd_TopMerchants data = Some l -> exists n, Asked (QLeaderboard n) (Ok l) ∈ h).

(** Where the contents of a body come from. *)
Definition sourced (r : request) (h : list exchange) (body : payload) : Prop :=
  match body with
  | ErrorBody code message id => id = q_RequestID r /\ error_text code message = true
  | MerchantBody m => exists key, Called (CAuthenticate key) (Ok m) ∈ h
  | SessionBody p => exists token, Called (CAuthenticateAdmin token) (Ok p) ∈ h
  | ChallengeBody c => exists call, Called call (Ok c) ∈ h
  | KeyBody k raw => exists merchant token key name request,
      Called (CCreateKey merchant token key name request) (Ok (k, raw)) ∈ h
  | KeysBody keys => exists merchant token key, Called (CListKeys merchant token key) (Ok keys) ∈ h
  | MerchantStatsBody s => exists merchant token, Asked (QAdminStats merchant token) (Ok s) ∈ h
  | FieldsBody fields => forall v, ("api_key", v) ∈ fields ->
      exists merchant key challenge message signature request,
        Called (CVerifyWallet merchant key challenge message signature "verify-recipient" request) (Ok v) ∈ h
  | ConsentBody _ optedInAt => exists call, Called call (Ok optedInAt) ∈ h
  | StatsBody s => Asked QStats (Ok s) ∈ h
  | PageBody (statusPage s) => s = outage_snapshot \/ Asked QStats (Ok s) ∈ h
  | PageBody (landingPage data | explorePage data) => sourced_site h data
  | VerdictBody v => exists q, Asked (QVerify q) (Ok v) ∈ h
  | SettleBody s => sr_Success s = true -> exists q, Asked (QSettle q) (Ok s) ∈ h
  | _ => True
  end.

(** The one cookie: hardened, and either cleared or a session just issued. *)
Definition cookie_ok (h : list exchange) (c : Cookie) : Prop :=
  (exists expires age value, c = admin_cookie value expires age) /\
  (ck_Value c = EmptyString \/
   exists token request id session,
     Called (CVerifyEmailForAdmin token request) (Ok (id, session)) ∈ h /\ ck_Value c = as_Token session).

Definition secret_body (body : payload) : bool :=
  match body with
  | KeyBody _ _ | PageBody (verifyEmailPageTemplate _) => true
  | FieldsBody fields => existsb (fun f => String.eqb (fst f) "api_key") fields
  | _ => false
  end.

Definition names_session (w : writer) : bool :=
  existsb (fun c => negb (String.eqb (ck_Value c) EmptyString)) (wr_cookies w).

Definition discloses (rs : response) : bool := secret_body (rs_body rs) || names_session (rs_writer rs).

Definition not_stored (w : writer) : Prop :=
  wr_header w !! "Cache-Control" = Some "no-store" \/ wr_header w !! "Cache-Control" = Some "private, no-store".

(** The headers of [requestID] and [secureHeaders]. *)
Definition hardened (r : request) (w : writer) : Prop :=
  wr_header w !! "X-Request-ID" = Some (q_RequestID r) /\
  wr_header w !! "X-Content-Type-Options" = Some "nosniff" /\
  wr_header w !! "X-Frame-Options" = Some "DENY" /\
  wr_header w !! "Referrer-Policy" = Some "no-referrer" /\
  (forall o, wr_header w !! "Access-Control-Allow-Origin" = Some o -> o = dp_AllowedOrigin dep).

(** A response of the multiplexer, and of the server, whose limiter answers
    before the headers are set. *)
Record proper (r : request) (h : list exchange) (rs : response) : Prop := {
  pr_sourced : sourced r h (rs_body rs);
  pr_cookies : Forall (cookie_ok h) (wr_cookies (rs_writer rs));
  pr_secret : discloses rs = true -> not_stored (rs_writer rs);
  pr_hardened : hardened r (rs_writer rs) \/
    rs_status rs = 429 /\ rs_body rs = ErrorBody "rate_limited" "request rate limit exceeded" (q_RequestID r);
}.

(** ** Writers *)

Local Notation ok r := (every (warranted r) (proper r)).

(** A writer before the response: the headers are set, no session is named. *)
Definition tidy (r : request) (w : writer) : Prop :=
  hardened r w /\ Forall (fun c => exists expires age, c = admin_cookie EmptyString expires age) (wr_cookies w).

Definition guarded (key : string) : bool :=
  existsb (String.eqb key) ["X-Request-ID"; "X-Content-Type-Options"; "X-Frame-Options"; "Referrer-Policy";
                            "Access-Control-Allow-Origin"].

Lemma set_header_ne key key' v w : String.eqb key key' = false -> wr_header (set_header key v w) !! key' = wr_header w !! key'.
Proof. intros E. apply lookup_insert_ne. by apply String.eqb_neq. Qed.

Lemma hardened_set r key v w : guarded key = false -> hardened r w -> hardened r (set_header key v w).
Proof.
  unfold guarded. cbn [existsb]. rewrite !orb_false_iff. intros (? & ? & ? & ? & ? & _). unfold hardened.
  by rewrite !set_header_ne.
Qed.

Lemma tidy_set r key v w : guarded key = false -> tidy r w -> tidy r (set_header key v w).
Proof. intros ? [? ?]. split; [by apply hardened_set | done]. Qed.

Lemma tidy_clear r w : tidy r w -> tidy r (clearMerchantAdminCookie w).
Proof. intros [? ?]. split; [done|]. apply Forall_app. split; [done|]. apply Forall_singleton. by eexists _, _. Qed.

Lemma not_stored_set key v w : String.eqb key "Cache-Control" = false -> not_stored w -> not_stored (set_header key v w).
Proof. intros E. unfold not_stored. by rewrite set_header_ne. Qed.

Lemma not_stored_here v w :
  v = "no-store" \/ v = "private, no-store" -> not_stored (set_header "Cache-Control" v w).
Proof. intros [-> | ->]; [left | right]; apply lookup_insert_eq. Qed.

Lemma tidy_names r w : tidy r w -> names_session w = false.
Proof.
  intros [_ Hc]. unfold names_session. induction Hc as [|c l (? & ? & ->) _ IH]; [done|]. exact IH.
Qed.

Lemma tidy_cookies r h w : tidy r w -> Forall (cookie_ok h) (wr_cookies w).
Proof. intros [_ Hc]. eapply Forall_impl; [exact Hc|]. intros c (e & a & ->). split; [by exists e, a, EmptyString | by left]. Qed.

Lemma respond_ok r h w status body :
  tidy r w -> sourced r h body -> (secret_body body = true -> not_stored w) -> ok r h (write w status body).
Proof.
  intros Hw Hs Hb. constructor; [done|by eapply tidy_cookies| |left; apply Hw]. unfold discloses. cbn [rs_body rs_writer].
  by rewrite (tidy_names r w Hw), orb_false_r.
Qed.

Lemma writeJSON_ok r h w status body :
  tidy r w -> sourced r h body -> (secret_body body = true -> not_stored w) -> ok r h (writeJSON w status body).
Proof.
  intros Hw Hs Hb. apply respond_ok; [by apply tidy_set | done|]. intros E. by apply not_stored_set, Hb.
Qed.

Lemma writeError_ok r h w status code message :
  tidy r w -> error_text code message = true -> ok r h (writeError w status code message (q_RequestID r)).
Proof. intros Hw Ht. by apply writeJSON_ok. Qed.

Lemma http_Error_ok r h w text status : tidy r w -> ok r h (http_Error w text status).
Proof.
  intros Hw. apply respond_ok; [|done|done]. destruct Hw as [(? & ? & ? & ? & ?) Hc]. split; [|done]. unfold hardened.
  split_and!; try (by rewrite !set_header_ne). apply lookup_insert_eq.
Qed.

Lemma writeMerchantError_ok r h w e : tidy r w -> ok r h (writeMerchantError w r e).
Proof.
  intros Hw. unfold writeMerchantError.
  repeat match goal with |- context [if ?b then _ else _] => destruct b end;
    (apply writeError_ok; [done | reflexivity]).
Qed.

(** ** Nodes *)

Lemma account_ok r h {X} (c : mcall X) k :
  warranted_call r h c -> (forall x, reading r = true -> reads (Called c x) = true) ->
  (forall x, ok r (h ++ [Called c x])%list (k x)) -> ok r h (Account c k).
Proof. intros HW Hr HK x. split; [split; [exact HW | apply Hr] | apply HK]. Qed.

Lemma ask_ok r h {X} (q : query X) k :
  warranted_query r h q -> (forall x, reading r = true -> reads (Asked q x) = true) ->
  (forall x, ok r (h ++ [Asked q x])%list (k x)) -> ok r h (Ask q k).
Proof. intros HW Hr HK x. split; [split; [exact HW | apply Hr] | apply HK]. Qed.

Lemma count_ok r h c (k : api response) : ok r h k -> ok r h (count c k).
Proof. done. Qed.

Lemma answer_ok r h {X} w (x : res X) next :
  tidy r w -> (forall a, x = Ok a -> ok r h (next a)) -> ok r h (answer w r x next).
Proof. intros Hw HK. destruct x as [a|e]; [by apply HK | by apply writeMerchantError_ok]. Qed.

Lemma with_texts_ok r h names w next :
  tidy r w -> (forall texts, ok r h (next texts)) -> ok r h (with_texts names w r next).
Proof. intros Hw HK. unfold with_texts. destruct (DecodeStrict _ _); [apply HK | by apply writeMerchantError_ok]. Qed.

(** ** Middleware *)

Definition serves (r : request) (hd : handler) : Prop := forall h w, tidy r w -> ok r h (hd w r).

Definition serves_key (r : request) (hd : merchantHandler) : Prop :=
  forall h w m token, tidy r w -> bearer r = Some token -> Called (CAuthenticate token) (Ok m) ∈ h ->
    ok r h (hd w r m token).

Definition serves_session (good : AdminPrincipal -> bool) (r : request) (hd : adminHandler) : Prop :=
  forall h w p token, tidy r w -> session_cookie r = Some token -> Called (CAuthenticateAdmin token) (Ok p) ∈ h ->
    good p = true -> ok r h (hd w r p token).

Lemma fair_use_ok r h w m token (next : merchantHandler) :
  (exists credential, by_bearer r h (uuid_text (fst m)) credential \/
                      by_session any_state r h (uuid_text (fst m)) credential) ->
  tidy r w -> (forall h' w', h ⊆ h' -> tidy r w' -> ok r h' (next w' r m token)) ->
  ok r h (fair_use dep next w r m token).
Proof.
  intros HC Hw HN. unfold fair_use. destruct (_ || _ || _); [by apply HN|].
  apply account_ok; [exact HC | done|]. intros [usage|e]; [|apply HN; [set_solver | done]].
  destruct (fu_Exceeded usage); [intros now; apply count_ok, writeError_ok|apply HN; [set_solver|]];
    repeat apply tidy_set; done.
Qed.

Lemma withMerchant_ok r hd : serves_key r hd -> serves r (withMerchant hd).
Proof.
  intros HN h w Hw. unfold withMerchant. destruct (bearer r) as [token|] eqn:E; [|by apply writeMerchantError_ok].
  apply account_ok; [done | done|]. intros [m|e]; [|by apply writeMerchantError_ok]. apply HN; [done | done | set_solver].
Qed.

Lemma fair_key_ok r hd : serves_key r hd -> serves_key r (fair_use dep hd).
Proof.
  intros HN h w m token Hw Hb HA. apply fair_use_ok; [|done|].
  - exists token. left. split; [done|]. by exists m.
  - intros h' w' Hsub Hw'. apply HN; [done | done | by apply Hsub].
Qed.

Lemma withAdmin_ok (wallet : bool) r hd :
  serves_session (if wallet then full else any_state) r hd -> serves r (withAdmin dep wallet hd).
Proof.
  intros HN h w Hw. unfold withAdmin. apply (tidy_set r "Cache-Control" "private, no-store") in Hw; [|done].
  destruct (session_cookie r) as [token|] eqn:E; [|by apply writeMerchantError_ok].
  apply account_ok; [done | done|]. intros [p|e]; [|by apply writeMerchantError_ok, tidy_clear].
  destruct (wallet && _) eqn:G; [by apply writeMerchantError_ok|].
  assert (Called (CAuthenticateAdmin token) (Ok p) ∈ (h ++ [Called (CAuthenticateAdmin token) (Ok p)])%list) as HA by set_solver.
  apply fair_use_ok; [|done|].
  - exists token. right. split; [done|]. by exists p.
  - intros h' w' Hsub Hw'. apply HN; [done | done | by apply Hsub|]. unfold full. destruct wallet; [|done].
    destruct (ap_WalletAuthenticated p), (principal_active p); done.
Qed.

Lemma operator_ok r hd :
  (operator_token dep r = true -> forall h w, tidy r w -> ok r h (hd w r "operator")) -> serves r (operator dep hd).
Proof. intros HN h w Hw. unfold operator. destruct (operator_token dep r); [by apply HN | by apply writeMerchantError_ok]. Qed.

Lemma limited_ok l rate r hd : serves r hd -> serves r (limited dep l rate hd).
Proof.
  intros HN h w Hw. unfold limited. destruct (_ || _ || _); [by apply HN|]. intros [|]; [by apply HN|].
  apply writeError_ok; [by apply tidy_set | done].
Qed.

(** ** Handlers *)

Lemma bearer_in r h m key :
  bearer r = Some key -> Called (CAuthenticate key) (Ok m) ∈ h -> by_bearer r h (uuid_text (fst m)) key.
Proof. intros Hb Hm. split; [done|]. by exists m. Qed.

Lemma session_in good r h p token :
  session_cookie r = Some token -> Called (CAuthenticateAdmin token) (Ok p) ∈ h -> good p = true ->
  by_session good r h (principal_id p) token.
Proof. intros Hb Hp Hg. split; [done|]. by exists p. Qed.

Lemma last_here (e : exchange) h : e ∈ (h ++ [e])%list.
Proof. apply elem_of_app. right. by apply list_elem_of_singleton. Qed.

Lemma said_before (e e' : exchange) h : e ∈ h -> e ∈ (h ++ [e'])%list.
Proof. intros. apply elem_of_app. by left. Qed.

Lemma either_bearer r h merchant key : by_bearer r h merchant key -> by_either r h merchant EmptyString key.
Proof. by left. Qed.

Lemma either_session r h merchant token : by_session full r h merchant token -> by_either r h merchant token EmptyString.
Proof. by right. Qed.

#[local] Hint Resolve bearer_in session_in either_bearer either_session last_here said_before : http.

Ltac tidied := repeat first [ assumption | apply tidy_set; [reflexivity|] | apply tidy_clear ].

(** One node of a handler. *)
Ltac visit :=
  lazymatch goal with
  | |- every _ _ _ (with_texts _ _ _ _) => apply with_texts_ok; [by tidied | intros texts]
  | |- every _ _ _ (count _ _) => apply count_ok
  | |- every _ _ _ (writeMerchantError _ _ _) => apply writeMerchantError_ok; by tidied
  | |- every _ _ _ (answer _ _ _ _) => apply answer_ok; [by tidied | intros a ->; try match type of a with (_ * _)%type => destruct a end]
  | |- every _ _ _ (Account _ _) => apply account_ok; [ | by intros; first [reflexivity | congruence] | intros ?]
  | |- every _ _ _ (Ask _ _) => apply ask_ok; [ | by intros; first [reflexivity | congruence] | intros ?]
  | |- every _ _ _ (writeError _ _ _ _ _) =>
      apply writeError_ok; [by tidied | reflexivity]
  | |- every _ _ _ (writeJSON _ _ _) => apply writeJSON_ok; [by tidied | |]
  | |- every _ _ _ (write _ _ _) => apply respond_ok; [by tidied | |]
  | |- every _ _ _ (http_Error _ _ _) => apply http_Error_ok; by tidied
  | |- every _ _ _ (match ?x with _ => _ end) => destruct x eqn:?
  | |- every _ _ _ (Clock _) => intros ?
  | |- every _ _ _ (Scrape _) => intros ?
  end.

Lemma plain_fields r h fields : secret_body (FieldsBody fields) = false -> sourced r h (FieldsBody fields).
Proof.
  intros E v Hv. exfalso. assert (secret_body (FieldsBody fields) = true) as E'; [|congruence]. cbn.
  apply existsb_exists. exists ("api_key", v). split; [by apply list_elem_of_In | done].
Qed.

Lemma key_fields r h status v merchant key challenge message signature request :
  Called (CVerifyWallet merchant key challenge message signature "verify-recipient" request) (Ok v) ∈ h ->
  sourced r h (FieldsBody [("status", status); ("api_key", v)]).
Proof.
  intros Hc u Hu. apply elem_of_cons in Hu as [[=]|Hu]. apply list_elem_of_singleton in Hu as [= ->]. by repeat eexists.
Qed.

(** A premise of a node. *)
Ltac settle_premise :=
  first
  [ done
  | apply plain_fields; reflexivity
  | eapply key_fields; apply last_here
  | match goal with |- secret_body _ = true -> _ => intros _; apply not_stored_here; tauto end
  | progress cbn; solve [eauto 9 with http] ].

Tactic Notation "handled" reference(f) :=
  intros; unfold serves, serves_key, serves_session; intros; unfold f; repeat visit; try settle_premise.

Lemma register_ok r : reading r = false -> serves r register.
Proof. handled register. Qed.

Lemma adminLink_ok r : reading r = false -> serves r adminLink.
Proof. handled adminLink. Qed.

Lemma verifyEmail_ok r : reading r = false -> serves r verifyEmail.
Proof. handled verifyEmail. Qed.

Lemma walletChallenge_ok r : reading r = false -> serves r walletChallenge.
Proof. handled walletChallenge. Qed.

Lemma me_ok r : serves_key r me.
Proof. handled me. Qed.

Lemma createKey_ok r : reading r = false -> serves_key r createKey.
Proof. handled createKey. Qed.

Lemma listKeys_ok r : serves_key r listKeys.
Proof. handled listKeys. Qed.

Lemma revokeKey_ok r : reading r = false -> serves_key r revokeKey.
Proof. handled revokeKey. Qed.

Lemma recipientChallenge_ok r : reading r = false -> serves_key r recipientChallenge.
Proof. handled recipientChallenge. Qed.

Lemma recipientVerify_ok r : reading r = false -> serves_key r recipientVerify.
Proof. handled recipientVerify. Qed.

Lemma adminSession_ok r : serves_session any_state r adminSession.
Proof. handled adminSession. Qed.

Lemma adminWalletChallenge_ok r : reading r = false -> serves_session any_state r adminWalletChallenge.
Proof.
  handled adminWalletChallenge. apply orb_false_iff in Heqb0 as [Ha%negb_false_iff _].
  split; [done|]. split; [done|]. right. eauto with http.
Qed.

Lemma adminVerifyWallet_ok r : reading r = false -> serves_session any_state r adminVerifyWallet.
Proof.
  intros Hr h w p token Hw Hc HA _. unfold adminVerifyWallet. visit. destruct (mr_status _) eqn:Es; repeat visit.
  - split; [done | by left].
  - split; [apply session_in; [done | by apply said_before|]; by apply bool_decide_eq_true|]. repeat eexists. apply last_here.
  - destruct (String.eqb a EmptyString); [by apply plain_fields|]. eapply key_fields, said_before, last_here.
  - intros _. apply not_stored_here. tauto.
  - split; [done|]. apply session_in; [done..|]. by apply bool_decide_eq_true.
  - by apply plain_fields.
  - done.
Qed.

Lemma adminRecipientChallenge_ok r : reading r = false -> serves_session full r adminRecipientChallenge.
Proof. handled adminRecipientChallenge. Qed.

Lemma adminVerifyRecipientChange_ok r : reading r = false -> serves_session full r adminVerifyRecipientChange.
Proof. handled adminVerifyRecipientChange. Qed.

Lemma adminStats_ok r : serves_session full r adminStats.
Proof. handled adminStats. Qed.

Lemma adminListKeys_ok r : serves_session full r adminListKeys.
Proof. handled adminListKeys. Qed.

Lemma adminCreateKey_ok r : reading r = false -> serves_session full r adminCreateKey.
Proof. handled adminCreateKey. Qed.

Lemma adminRevokeKey_ok r : reading r = false -> serves_session full r adminRevokeKey.
Proof. handled adminRevokeKey. Qed.

Lemma verify_wallet_ok r : reading r = false -> serves r verify_wallet.
Proof. handled verify_wallet. Qed.

Lemma adminLogout_ok r : reading r = false -> serves r adminLogout.
Proof. handled adminLogout. Qed.

Lemma merchantPanel_ok r : serves r merchantPanel.
Proof. handled merchantPanel. Qed.

Lemma merchantPanelJS_ok r : serves r merchantPanelJS.
Proof. handled merchantPanelJS. Qed.

Lemma live_ok r : serves r live.
Proof. handled live. Qed.

Lemma supported_ok r : serves r (supported dep).
Proof. handled supported. Qed.

Lemma serve_metrics_ok r : serves r serve_metrics.
Proof. handled serve_metrics. Qed.

Lemma siteCSS_ok r : serves r siteCSS.
Proof. handled siteCSS. Qed.

Lemma stats_handler_ok r : serves r (stats_handler dep).
Proof. handled stats_handler. Qed.

Lemma status_handler_ok r : serves r (status_handler dep).
Proof. handled status_handler. Qed.

Lemma ready_ok r : serves r (ready dep).
Proof. handled ready. Qed.

Lemma verify_ok r : reading r = false -> serves r (verify dep decodes).
Proof. handled verify. Qed.

Lemma settle_ok r : reading r = false -> serves r (settle dep decodes).
Proof. handled settle. Qed.

Lemma publicData_ok r h n (k : publicSiteData -> api response) :
  (forall h data, sourced_site h data -> ok r h (k data)) -> ok r h (publicData dep n k).
Proof.
  intros HK. unfold publicData. repeat visit; try done; apply HK; split; cbn; try done;
    intros v; destruct x; try destruct x0; intros [= <-]; eauto with http.
Qed.

Lemma renderPublicPage_ok r h w p :
  secret_body (PageBody p) = false -> sourced r h (PageBody p) -> tidy r w -> ok r h (renderPublicPage w p).
Proof. intros Hp Hs Hw. unfold renderPublicPage. visit; [done | congruence]. Qed.

Lemma landing_ok r : serves r (landing dep).
Proof. intros h w Hw. apply publicData_ok. intros. by apply renderPublicPage_ok. Qed.

Lemma explore_ok r : serves r (explore dep).
Proof. intros h w Hw. apply publicData_ok. intros. by apply renderPublicPage_ok. Qed.

(** The page of the mailed link sets the session cookie. *)
Lemma renderVerifyEmailResult_ok r h w status result :
  hardened r w -> Forall (cookie_ok h) (wr_cookies w) -> ok r h (renderVerifyEmailResult w status result).
Proof.
  intros Hw Hc. constructor; [done | done| |].
  - intros _. do 2 (apply not_stored_set; [done|]). by apply not_stored_here; left.
  - left. by repeat (apply hardened_set; [done|]).
Qed.

Lemma verifyEmailPage_ok r : serves r verifyEmailPage.
Proof.
  intros h w [Hw Hc]. unfold verifyEmailPage.
  destruct (_ <? _)%nat; apply renderVerifyEmailResult_ok; try done; by eapply tidy_cookies.
Qed.

Lemma verifyEmailPageSubmit_ok r : reading r = false -> serves r verifyEmailPageSubmit.
Proof.
  intros Hr h w Hw. pose proof (fun h => tidy_cookies r h w Hw) as Hc. destruct Hw as [Hw _].
  unfold verifyEmailPageSubmit. destruct (q_PostForm r); [|by apply renderVerifyEmailResult_ok].
  visit; [done|]. destruct x as [[id session]|e]; [|by apply renderVerifyEmailResult_ok].
  intros now. apply count_ok, renderVerifyEmailResult_ok; [done|]. apply Forall_app. split; [done|].
  apply Forall_singleton. split; [by repeat eexists|]. right. repeat eexists. apply last_here.
Qed.

Lemma consent_ok r set :
  reading r = false ->
  (forall merchant token b h, by_session full r h merchant token -> warranted_call r h (set merchant token b (q_RequestID r))) ->
  serves_session full r (consent_handler set).
Proof.
  intros Hr HW h w p token Hw Hc HA Hf. unfold consent_handler. repeat visit; try done; [apply HW; by apply session_in|].
  eexists. apply last_here.
Qed.

Lemma suspend_ok r h w : reading r = false -> operator_token dep r = true -> tidy r w -> ok r h (suspend w r "operator").
Proof. intros. unfold suspend. repeat visit; try settle_premise. Qed.

Lemma reinstate_ok r h w : reading r = false -> operator_token dep r = true -> tidy r w -> ok r h (reinstate w r "operator").
Proof. intros. unfold reinstate. repeat visit; try settle_premise. Qed.

(** ** The server *)

Lemma written m r : method_matches m (q_Method r) = true -> m <> "GET" -> m <> "HEAD" -> reading r = false.
Proof.
  unfold method_matches, reading. destruct (String.eqb_spec m (q_Method r)) as [<-|]; cbn [orb].
  - intros _ H1 H2. by apply orb_false_iff; split; apply String.eqb_neq.
  - by destruct (String.eqb_spec m "GET").
Qed.

Definition serves_route (rt : string * string * handler) : Prop :=
  forall r, method_matches (fst (fst rt)) (q_Method r) = true -> serves r (snd rt).

Lemma merchantAdminRoutes_ok : Forall serves_route (merchantAdminRoutes dep).
Proof.
  unfold merchantAdminRoutes. repeat apply Forall_cons_2; [..|apply Forall_nil_2]; intros r Hm; cbn [fst snd] in *;
    try (apply written in Hm; [|discriminate|discriminate]).
  - by apply merchantPanel_ok.
  - by apply merchantPanelJS_ok.
  - by apply withAdmin_ok, adminSession_ok.
  - by apply adminLogout_ok.
  - by apply withAdmin_ok, adminWalletChallenge_ok.
  - by apply withAdmin_ok, adminVerifyWallet_ok.
  - by apply withAdmin_ok, adminRecipientChallenge_ok.
  - by apply withAdmin_ok, adminVerifyRecipientChange_ok.
  - by apply withAdmin_ok, adminStats_ok.
  - by apply withAdmin_ok, consent_ok.
  - by apply withAdmin_ok, consent_ok.
  - by apply withAdmin_ok, adminListKeys_ok.
  - by apply withAdmin_ok, adminCreateKey_ok.
  - by apply withAdmin_ok, adminRevokeKey_ok.
Qed.

Lemma merchantRoutes_ok : Forall serves_route (merchantRoutes dep).
Proof.
  unfold merchantRoutes. destruct (negb _); [apply Forall_nil_2|]. apply Forall_app_2; [|apply merchantAdminRoutes_ok].
  repeat apply Forall_cons_2; [..|apply Forall_nil_2]; intros r Hm; cbn [fst snd] in *;
    try (apply written in Hm; [|discriminate|discriminate]).
  - by apply limited_ok, register_ok.
  - by apply limited_ok, adminLink_ok.
  - by apply verifyEmail_ok.
  - by apply verifyEmailPage_ok.
  - by apply verifyEmailPageSubmit_ok.
  - by apply walletChallenge_ok.
  - by apply verify_wallet_ok.
  - by apply withMerchant_ok, fair_key_ok, me_ok.
  - by apply withMerchant_ok, fair_key_ok, createKey_ok.
  - by apply withMerchant_ok, fair_key_ok, listKeys_ok.
  - by apply withMerchant_ok, revokeKey_ok.
  - by apply withMerchant_ok, fair_key_ok, recipientChallenge_ok.
  - by apply withMerchant_ok, fair_key_ok, recipientVerify_ok.
  - apply operator_ok. intros. by apply suspend_ok.
  - apply operator_ok. intros. by apply reinstate_ok.
Qed.

Lemma routes_ok : Forall serves_route (routes dep decodes).
Proof.
  unfold routes, publicSiteRoutes. repeat apply Forall_app_2; [..|apply merchantRoutes_ok]; try match goal with |- context [dp_MetricsEnabled dep] => destruct (dp_MetricsEnabled dep) end;
    repeat apply Forall_cons_2; try apply Forall_nil_2; intros r Hm; cbn [fst snd] in *;
    try (apply written in Hm; [|discriminate|discriminate]).
  - by apply live_ok.
  - by apply ready_ok.
  - by apply stats_handler_ok.
  - by apply status_handler_ok.
  - by apply landing_ok.
  - by apply explore_ok.
  - by apply siteCSS_ok.
  - by apply serve_metrics_ok.
  - by apply supported_ok.
  - by apply verify_ok.
  - by apply settle_ok.
Qed.

Lemma mux_ok r : serves r (mux dep decodes).
Proof.
  intros h w Hw. unfold mux, find_handler.
  destruct (negb _); [by apply respond_ok; [apply tidy_set|..]|].
  destruct (List.find _ _) as [[m [hd vs]]|] eqn:E.
  2: { destruct (matching _ _); apply http_Error_ok; [done | by apply tidy_set]. }
  apply find_some in E as [Hin%list_elem_of_In Hm]. apply list_elem_of_omap in Hin as ([pt hd'] & Hin & Hmatch). cbn [fst snd] in *.
  destruct (match_path _ _) as [values|]; [|done]. injection Hmatch as <- <- <-.
  apply list_elem_of_fmap in Hin as (rt & [= -> ->] & Hrt). pose proof routes_ok as HR. rewrite Forall_forall in HR.
  refine (every_mono _ _ _ _ _ _ (fun _ _ HP => HP) _ (HR rt Hrt (with_path_values values r) Hm h w Hw)).
  intros h' rs []. by constructor.
Qed.

Lemma every_and {A} (C : Prop) P Q h (p : api A) : C -> every P Q h p -> every (fun h e => C /\ P h e) Q h p.
Proof. intros HC. by apply every_mono. Qed.

Local Notation guarded_ok r := (every (fun h e => same_site r = true /\ warranted r h e) (proper r)).

Lemma secureHeaders_ok r h w :
  wr_header w !! "X-Request-ID" = Some (q_RequestID r) -> wr_header w !! "Access-Control-Allow-Origin" = None ->
  wr_cookies w = [] -> guarded_ok r h (secureHeaders dep (mux dep decodes) w r).
Proof.
  intros Hid Ho Hc. unfold secureHeaders. cbv zeta.
  match goal with |- context [set_header "Permissions-Policy" ?v ?w0] => set (w' := set_header "Permissions-Policy" v w0) end.
  assert (hardened r w' /\ wr_header w' !! "Access-Control-Allow-Origin" = None /\ wr_cookies w' = []) as (Hw & Ho' & Hc').
  { unfold hardened, w'. split_and!; try done; rewrite ?set_header_ne by done; try done; try apply lookup_insert_eq. congruence. }
  assert (tidy r w') as Ht by (split; [done | by rewrite Hc']). clearbody w'.
  unfold same_site. destruct (String.eqb (header_get r "Origin") EmptyString) eqn:E1; cbn [negb andb orb].
  { by apply every_and, mux_ok. }
  destruct (String.eqb_spec (header_get r "Origin") (dp_AllowedOrigin dep)) as [E2|E2]; cbn [negb andb orb].
  - apply every_and, mux_ok; [done|]. split; [|by cbn; rewrite Hc']. apply hardened_set; [done|].
    destruct Hw as (? & ? & ? & ? & _). unfold hardened. rewrite !set_header_ne by done. split_and!; try done.
    intros o E. rewrite <- E2. cbn in E. rewrite lookup_insert_eq in E. congruence.
  - destruct (emailVerificationNavigation r); cbn [negb]; [by apply every_and, mux_ok|]. by apply writeError_ok.
Qed.

Definition fresh_writer : writer := {| wr_header := ∅; wr_cookies := [] |}.

Lemma admitted_ok id r :
  guarded_ok (with_request_id id r) []
    (observe (limited dep PublicLimiter (dp_PublicRatePerMinute dep) (secureHeaders dep (mux dep decodes)))
       (set_header "X-Request-ID" id fresh_writer) (with_request_id id r)).
Proof.
  set (q := with_request_id id r). intros start.
  assert (forall h, guarded_ok q h (secureHeaders dep (mux dep decodes) (set_header "X-Request-ID" id fresh_writer) q)) as HS
    by (intros h; apply secureHeaders_ok; [apply lookup_insert_eq | by rewrite set_header_ne | done]).
  apply every_abind with (Q := proper q); [|by intros h' rs HP now].
  unfold limited. destruct (_ || _ || _); [apply HS|]. intros [|]; [apply HS|]. constructor; try done. by right.
Qed.


End Warrants.

(** ** A request to create an API key *)

(** The path of given answers. *)
Record script := {
  sc_account : forall X, mcall X -> res X;
  sc_ask : forall X, query X -> res X;
  sc_clock : Z;
}.

Fixpoint follow {A} (s : script) (p : api A) : list exchange * A :=
  match p with
  | Done a => ([], a)
  | Account c k => let x := sc_account s _ c in let '(l, a) := follow s (k x) in (Called c x :: l, a)
  | Ask q k => let x := sc_ask s _ q in let '(l, a) := follow s (k x) in (Asked q x :: l, a)
  | Admit _ _ k => follow s (k true)
  | Clock k => follow s (k (sc_clock s))
  | Random k => follow s (k (Err [EOpaque]))
  | Observe _ k => follow s k
  | Scrape k => follow s (k NewRegistry)
  end.

Lemma follow_path {A} s (p : api A) : path_of p (fst (follow s p)) (Some (snd (follow s p))).
Proof.
  induction p as [a|X c k IH|X q k IH|l client k IH|k IH|k IH|f k IH|k IH]; cbn.
  - constructor.
  - specialize (IH (sc_account s X c)). destruct (follow s _). by constructor.
  - specialize (IH (sc_ask s X q)). destruct (follow s _). by constructor.
  - econstructor. apply IH.
  - econstructor. apply IH.
  - econstructor. apply IH.
  - by constructor.
  - econstructor. apply IH.
Qed.

Definition demo_dep : Dependencies :=
  {| dp_Database := true; dp_Ethereum := true; dp_Stats := true; dp_ExpectedChainID := 1; dp_PublicRatePerMinute := 60;
     dp_FairUse := true; dp_MerchantRequestsPerWindow := 100; dp_FairUseWindow := 60000000; dp_RegistrationRate := 10;
     dp_Merchant := true; dp_AllowedOrigin := "https://eth402.org"; dp_OperatorToken := "operator-secret";
     dp_Verification := true; dp_Settlement := true; dp_SettlementSignerAddress := EmptyString;
     dp_MetricsEnabled := false; dp_TrustedProxies := [] |}.

(** The body is an object with one name. *)
Definition demo_body : string :=
  let quote := String (ascii_of_N 34) EmptyString in
  "{" +:+ quote +:+ "name" +:+ quote +:+ ":" +:+ quote +:+ "till" +:+ quote +:+ "}".

Definition demo_post : request :=
  {| q_Method := "POST"; q_Path := "/v1/api-keys"; q_EscapedPath := "/v1/api-keys"; q_Query := [];
     q_Header := {[ "Authorization" := ["Bearer eth402_live_key"]; "X-Request-ID" := ["request-1"] ]};
     q_Cookies := []; q_PostForm := None; q_RemoteAddr := "192.0.2.1:4000"; q_Body := demo_body;
     q_RequestID := EmptyString; q_PathValues := [] |}.

Definition demo_key : APIKey :=
  {| ak_ID := 5; ak_Name := "till"; ak_Prefix := "eth402_live_"; ak_CreatedAt := 0; ak_LastUsedAt := None; ak_RevokedAt := None |}.

Definition demo_answers : script :=
  {| sc_account X c :=
       match c in mcall X return res X with
       | CAuthenticate _ => Ok (1%N, FairUse.demo_merchant)
       | CCount _ limit _ =>
           Ok {| fu_Limit := limit; fu_Used := 1; fu_ResetsAt := 60000000; fu_Exceeded := false; fu_Remaining := limit - 1 |}
       | CCreateKey _ _ _ _ _ => Ok (demo_key, "eth402_live_new")
       | _ => Err [EOpaque]
       end;
     sc_ask X q := Err [EOpaque];
     sc_clock := 1000 |}.

Definition demo_served : list exchange * response :=
  follow demo_answers (serve (H := DemoNet) demo_dep (fun _ => true) fresh_writer demo_post).

Definition demo_create : mcall (APIKey * string) :=
  CCreateKey (uuid_text (Net := DemoNet) 1%N) EmptyString "eth402_live_key" "till" "request-1".

